(** * kobuki_factory_test: the test sequencer of qnode.cpp

    A shallow embedding of [QNode] (src/kobuki_factory_test/src/qnode.cpp):
    the subscriber callbacks as functions on the node's state, the blocking
    test routines and the control loop in a small state-and-failure monad,
    and the properties of the sequencer proved about them.

    Conventions.
    - [double] values are carried as exact rationals ([Q]).  The constants
      that decide a comparison, [M_PI] and [GYRO_CAMERA_MAX_DIFF], have the
      value of the double; the velocities and distances of the motions,
      which are only published, keep their decimal value.  The rounding of
      the arithmetic is not modelled.
    - [device_val] holds integers ([Z]); the source narrows them with
      explicit casts ([uint8_t], [int16]) and those casts are written out,
      as is the loss of the bits that the shifts of [versionInfoCB] push
      out of the 64-bit word.
    - Everything the node emits (log lines, prompts, published commands) is
      prepended to [trace], newest first.
    - [qnode.hpp], [robot.hpp] and the kobuki_msgs message definitions are
      not part of the sources at hand; what the code needs from them is
      introduced below, each piece marked as such. *)

From Stdlib Require Import ZArith QArith Qround Qabs Lia Lqa Bool Ascii.
From Stdlib Require Reals Lra Qreals.
From stdpp Require Import base tactics option list strings pretty.

Local Open Scope string_scope.
Local Open Scope Z_scope.

(** ** Constants of qnode.cpp *)

(** [M_PI] as the double it is: 884279719003555 / 2^48. *)
Definition M_PI : Q := 884279719003555 # 281474976710656.

Definition TEST_MOTORS_V : Q := 2 # 10.
Definition TEST_MOTORS_W : Q := M_PI / 2.
Definition TEST_MOTORS_D : Q := 4 # 10.
Definition TEST_MOTORS_A : Q := 1 * M_PI.
Definition TEST_BUMPERS_V : Q := 1 # 10.
Definition TEST_BUMPERS_W : Q := M_PI / 5.
Definition TEST_GYRO_W : Q := M_PI / 3.
Definition TEST_GYRO_A : Q := 2 * M_PI.

Definition MOTOR_MAX_CURRENT : Z := 24.
Definition CLIFF_SENSOR_TESTS : Z := 2.
Definition WHEEL_DROP_TESTS : Z := 2.
Definition POWER_PLUG_TESTS : Z := 1.
Definition MIN_POWER_CHARGED : Z := 2.
Definition MEASURE_CHARGE_TIME : Q := 10.
(** [0.05] as the double it is: 3602879701896397 / 2^56, a little above
    1/20. *)
Definition GYRO_CAMERA_MAX_DIFF : Q := 3602879701896397 # 72057594037927936.
Definition A_INPUT_MIN_THRESHOLD : Z := 2.
Definition A_INPUT_MAX_THRESHOLD : Z := 4090.

(** ** Integer casts and C++ operators *)

Definition to_uint8 (z : Z) : Z := z mod 256.
Definition to_int16 (z : Z) : Z := (z + 32768) mod 65536 - 32768.
(** A 64-bit word: what [<<=] leaves in [device_val], whose shift by 48
    bits in [versionInfoCB] needs 64 bits; the bits shifted out are lost. *)
Definition to_int64 (z : Z) : Z := (z + 2 ^ 63) mod 2 ^ 64 - 2 ^ 63.

(** C++ [%] truncates towards zero: it is [Z.rem], not [Z.modulo]. *)
Definition cmod (a b : Z) : Z := Z.rem a b.
(** C++ [/] on integers truncates towards zero. *)
Definition cdiv (a b : Z) : Z := Z.quot a b.

(** [int(x)] of a double: truncation towards zero. *)
Definition to_int (x : Q) : Z := Z.quot (Qnum x) (Zpos (Qden x)).

(** ** The evaluation steps

    Modelled from the spec: the enumeration [QNode::EvalStep] is declared in
    qnode.hpp, which is missing.  The order is the one of the spec's step
    families (identification, power-plug, buttons, LEDs, sounds, cliff,
    wheel-drop, bumpers, motors, gyroscope, charging, digital I/O, analog
    I/O, completion), which is also the order of the [case] labels of
    [QNode::run]; the buttons take two steps each and the bumpers three, as
    the divisions by 2 and 3 in the callbacks require. *)
Module Step.
Definition INITIALIZATION : Z := 0.
Definition GET_SERIAL_NUMBER : Z := 1.
Definition TEST_DC_ADAPTER : Z := 2.
Definition TEST_DOCKING_BASE : Z := 3.
Definition BUTTON_0_PRESSED : Z := 4.
Definition BUTTON_0_RELEASED : Z := 5.
Definition BUTTON_1_PRESSED : Z := 6.
Definition BUTTON_1_RELEASED : Z := 7.
Definition BUTTON_2_PRESSED : Z := 8.
Definition BUTTON_2_RELEASED : Z := 9.
Definition TEST_LEDS : Z := 10.
Definition TEST_SOUNDS : Z := 11.
Definition TEST_CLIFF_SENSORS : Z := 12.
Definition TEST_WHEEL_DROP_SENSORS : Z := 13.
Definition CENTER_BUMPER_PRESSED : Z := 14.
Definition CENTER_BUMPER_RELEASED : Z := 15.
Definition POINT_RIGHT_BUMPER : Z := 16.
Definition RIGHT_BUMPER_PRESSED : Z := 17.
Definition RIGHT_BUMPER_RELEASED : Z := 18.
Definition POINT_LEFT_BUMPER : Z := 19.
Definition LEFT_BUMPER_PRESSED : Z := 20.
Definition LEFT_BUMPER_RELEASED : Z := 21.
Definition PREPARE_MOTORS_TEST : Z := 22.
Definition TEST_MOTORS_FORWARD : Z := 23.
Definition TEST_MOTORS_BACKWARD : Z := 24.
Definition TEST_MOTORS_CLOCKWISE : Z := 25.
Definition TEST_MOTORS_COUNTERCW : Z := 26.
Definition EVAL_MOTORS_CURRENT : Z := 27.
Definition MEASURE_GYRO_ERROR : Z := 28.
Definition MEASURE_CHARGING : Z := 29.
Definition TEST_DIGITAL_IO_PORTS : Z := 30.
Definition TEST_ANALOG_INPUT_PORTS : Z := 31.
Definition EVALUATION_COMPLETED : Z := 32.
End Step.
Import Step.

(** The postfix increment operator defined for [QNode::EvalStep]. *)
Definition step_incr (es : Z) : Z := es + 1.

(** ** Message constants (kobuki_msgs, diagnostic_msgs)

    The values of the message definitions the code compares against.  The
    source relies on them: "buttons are 0, 1 and 2, and states are 1
    (pressed) and 0 (released)". *)
Module Msg.
Definition RELEASED : Z := 0.
Definition PRESSED : Z := 1.
Definition Button0 : Z := 0.
Definition Button1 : Z := 1.
Definition Button2 : Z := 2.
Definition LEFT : Z := 0.
Definition CENTER : Z := 1.
Definition RIGHT : Z := 2.
Definition WHEEL_LEFT : Z := 0.
Definition WHEEL_RIGHT : Z := 1.
Definition RAISED : Z := 0.
Definition DROPPED : Z := 1.
Definition FLOOR : Z := 0.
Definition CLIFF : Z := 1.
Definition UNPLUGGED : Z := 0.
Definition PLUGGED_TO_ADAPTER : Z := 1.
Definition PLUGGED_TO_DOCKBASE : Z := 2.
Definition CHARGE_COMPLETED : Z := 3.
Definition BATTERY_LOW : Z := 4.
Definition BATTERY_CRITICAL : Z := 5.
Definition OFFLINE : Z := 0.
Definition ONLINE : Z := 1.
Definition DIAG_OK : Z := 0.
Definition DIAG_WARN : Z := 1.
Definition LED_BLACK : Z := 0.
Definition LED_GREEN : Z := 1.
Definition LED_RED : Z := 3.
Definition SOUND_ON : Z := 0.
Definition SOUND_CLEANINGEND : Z := 6.
End Msg.

Record VersionInfo := mkVersionInfo {
  udid : list Z; firmware : Z; hardware : Z; software : Z }.

Record SensorState := mkSensorState {
  current : list Z;        (* uint8[], one per motor *)
  charger : Z;             (* uint8 *)
  battery : Z;             (* uint8, tenths of volt *)
  analog_input : list Z    (* uint16[] *) }.

Record KeyValue := mkKeyValue { kv_key : string; kv_value : string }.
Record DiagnosticStatus := mkDiagnosticStatus {
  ds_name : string; ds_level : Z; ds_message : string;
  ds_values : list KeyValue }.

(** One inbound message, or the expiry of the node's one-shot timer. *)
Inductive Event :=
| EvVersionInfo (msg : VersionInfo)
| EvSensorsCore (msg : SensorState)
| EvDockBeacon (data : list Z)
| EvGyroscope (yaw : Q)                 (* tf::getYaw(msg->orientation) *)
| EvButton (button state : Z)
| EvBumper (bumper state : Z)
| EvWheelDrop (wheel state : Z)
| EvCliff (sensor state : Z)
| EvPower (event : Z)
| EvInput (values : list bool)
| EvDiagnostics (status : list DiagnosticStatus)
| EvRobotStatus (level : Z)
| EvRobotEvent (state : Z)
| EvTimer.

(** ** What the node emits *)

Inductive LogLevel := Debug | Info | Warn | Error | Fatal.

Inductive Output :=
| Log (level : LogLevel) (format : string)
| ShowUserMsg (level : LogLevel) (title text : string)
| HideUserMsg
| CmdVel (v w : Q)
| Led (c : Z)                            (* published on led1 and on led2 *)
| Sound (s : Z)
| DigitalOutput (values mask : list bool)
| Resubscribe.                           (* version_info, a latched topic *)

Definition is_error (o : Output) : bool :=
  match o with
  | Log Error _ | ShowUserMsg Error _ _ => true
  | _ => false
  end.

(** ** The unit under test

    Modelled from the spec: class [Robot] is declared in robot.hpp, which is
    missing.  Its data is the spec's Unit Record: sequence id, serial (set
    from the identification message by [setSerial], together with the raw
    [u_dev_id]), a verified flag and a measured value per device, the
    analog-channel table, the five-slot orientation buffer, the diagnostic
    text and the health state.  The device slots are the ones qnode.cpp
    names; buttons and bumpers are contiguous and in message order, as the
    index arithmetic [Robot::BUTTON_0 + msg->button] and
    [Robot::BUMPER_L + msg->bumper] requires. *)
Module Dev.
Definition V_INFO : nat := 0.
Definition IR_DOCK_L : nat := 1.
Definition IR_DOCK_C : nat := 2.
Definition IR_DOCK_R : nat := 3.
Definition IMU_DEV : nat := 4.
Definition BUTTON_0 : nat := 5.
Definition BUTTON_1 : nat := 6.
Definition BUTTON_2 : nat := 7.
Definition BUMPER_L : nat := 8.
Definition BUMPER_C : nat := 9.
Definition BUMPER_R : nat := 10.
Definition W_DROP_L : nat := 11.
Definition W_DROP_R : nat := 12.
Definition CLIFF_L : nat := 13.
Definition CLIFF_C : nat := 14.
Definition CLIFF_R : nat := 15.
Definition PWR_JACK : nat := 16.
Definition PWR_DOCK : nat := 17.
Definition CHARGING : nat := 18.
Definition A_INPUT : nat := 19.
Definition D_INPUT : nat := 20.
Definition D_OUTPUT : nat := 21.
Definition LED_1 : nat := 22.
Definition LED_2 : nat := 23.
Definition SOUNDS : nat := 24.
Definition MOTOR_L : nat := 25.
Definition MOTOR_R : nat := 26.
Definition DEVICES_COUNT : nat := 27.
End Dev.
Import Dev.

(** A row of the analog-channel table: [analog_in[i][AI_PRE]],
    [[AI_MIN]], [[AI_MAX]] and [[AI_INC]], all [int16]. *)
Record AnalogRow := mkAnalogRow {
  AI_PRE : Z; AI_MIN : Z; AI_MAX : Z; AI_INC : Z }.

Module Robot.
(** Health states; [robotStatusCB] casts the diagnostics level to
    [Robot::State], so the encodings agree. *)
Definition UNKNOWN : Z := -1.
Definition OK : Z := 0.

Record t := mk {
  seq_nb : nat;
  serial : list Z;
  u_dev_id : list Z;
  state : Z;
  device_ok : list bool;
  device_val : list Z;
  analog_in : list AnalogRow;
  imu_data : list Q;
  diagnostics : string }.

(** [device_ok[d]] and [device_val[d]]. *)
Definition ok (r : t) (d : nat) : bool := default false (device_ok r !! d).
Definition val (r : t) (d : nat) : Z := default 0 (device_val r !! d).
Definition imu (r : t) (i : nat) : Q := default 0%Q (imu_data r !! i).

Definition set_ok (d : nat) (b : bool) (r : t) : t :=
  mk (seq_nb r) (serial r) (u_dev_id r) (state r)
     (<[d:=b]> (device_ok r)) (device_val r) (analog_in r) (imu_data r)
     (diagnostics r).
Definition set_val (d : nat) (v : Z) (r : t) : t :=
  mk (seq_nb r) (serial r) (u_dev_id r) (state r)
     (device_ok r) (<[d:=v]> (device_val r)) (analog_in r) (imu_data r)
     (diagnostics r).
Definition set_imu (i : nat) (x : Q) (r : t) : t :=
  mk (seq_nb r) (serial r) (u_dev_id r) (state r)
     (device_ok r) (device_val r) (analog_in r) (<[i:=x]> (imu_data r))
     (diagnostics r).
Definition set_analog_in (a : list AnalogRow) (r : t) : t :=
  mk (seq_nb r) (serial r) (u_dev_id r) (state r)
     (device_ok r) (device_val r) a (imu_data r) (diagnostics r).
Definition set_diagnostics (d : string) (r : t) : t :=
  mk (seq_nb r) (serial r) (u_dev_id r) (state r)
     (device_ok r) (device_val r) (analog_in r) (imu_data r) d.
Definition set_state (s : Z) (r : t) : t :=
  mk (seq_nb r) (serial r) (u_dev_id r) s
     (device_ok r) (device_val r) (analog_in r) (imu_data r)
     (diagnostics r).

(** Modelled from the spec: [Robot::setSerial] (robot.hpp, missing) adopts
    the message's identifier as the record's identity.  The serial is kept
    as the identifier's words; its rendering as text is not modelled. *)
Definition setSerial (id : list Z) (r : t) : t :=
  mk (seq_nb r) id id (state r)
     (device_ok r) (device_val r) (analog_in r) (imu_data r)
     (diagnostics r).

(** Modelled from the spec: the constructor [Robot(seq_nb)] (robot.hpp,
    missing): no device verified, every measured value zero, four analog
    channels whose running minimum and maximum start at the ends of the
    [int16] range, five orientation slots. *)
Definition new (n : nat) : t :=
  mk n [] [] UNKNOWN
     (replicate DEVICES_COUNT false) (replicate DEVICES_COUNT 0)
     (replicate 4 (mkAnalogRow 0 32767 (-32768) 0))
     (replicate 5 0%Q) "".

(** Modelled from the spec: the per-family predicates of robot.hpp
    (missing); a family is verified when each of its devices is, and
    [all_ok] is the conjunction over all device flags. *)
Definition buttons_ok (r : t) : bool :=
  ok r BUTTON_0 && ok r BUTTON_1 && ok r BUTTON_2.
Definition bumpers_ok (r : t) : bool :=
  ok r BUMPER_L && ok r BUMPER_C && ok r BUMPER_R.
Definition w_drop_ok (r : t) : bool := ok r W_DROP_L && ok r W_DROP_R.
Definition cliffs_ok (r : t) : bool :=
  ok r CLIFF_L && ok r CLIFF_C && ok r CLIFF_R.
Definition pwr_src_ok (r : t) : bool := ok r PWR_JACK && ok r PWR_DOCK.
Definition ir_dock_ok (r : t) : bool :=
  ok r IR_DOCK_L && ok r IR_DOCK_C && ok r IR_DOCK_R.
Definition motors_ok (r : t) : bool := ok r MOTOR_L && ok r MOTOR_R.
Definition all_ok (r : t) : bool := forallb id (device_ok r).
End Robot.

(** Modelled from the spec: the Evaluated Ledger, [RobotList evaluated]
    (robot.hpp, missing): the finalized records in order, looked up by
    serial. *)
Definition ledger_get (l : list Robot.t) (sn : list Z) : option Robot.t :=
  find (fun r => bool_decide (Robot.serial r = sn)) l.

(** ** The node *)

(** [frequency(20.0)]: set by the constructor, never assigned again. *)
Definition frequency : Q := 20.

Record QNode := mkQNode {
  under_test : option Robot.t;
  answer_req : bool;
  current_step : Z;
  timer_active : bool;
  timer : option Q;              (* the armed one-shot timer and its period *)
  evaluated : list Robot.t;      (* the Evaluated Ledger *)
  out_file : list Robot.t;       (* rows appended by saveToCSVFile *)
  trace : list Output }.

Definition set_under_test (u : option Robot.t) (s : QNode) : QNode :=
  mkQNode u (answer_req s) (current_step s) (timer_active s)
          (timer s) (evaluated s) (out_file s) (trace s).
Definition set_answer_req (b : bool) (s : QNode) : QNode :=
  mkQNode (under_test s) b (current_step s) (timer_active s)
          (timer s) (evaluated s) (out_file s) (trace s).
Definition set_current_step (c : Z) (s : QNode) : QNode :=
  mkQNode (under_test s) (answer_req s) c (timer_active s)
          (timer s) (evaluated s) (out_file s) (trace s).
Definition set_timer_active (b : bool) (s : QNode) : QNode :=
  mkQNode (under_test s) (answer_req s) (current_step s) b
          (timer s) (evaluated s) (out_file s) (trace s).
Definition set_timer (t : option Q) (s : QNode) : QNode :=
  mkQNode (under_test s) (answer_req s) (current_step s)
          (timer_active s) t (evaluated s) (out_file s) (trace s).
Definition set_evaluated (l : list Robot.t) (s : QNode) : QNode :=
  mkQNode (under_test s) (answer_req s) (current_step s)
          (timer_active s) (timer s) l (out_file s) (trace s).
Definition set_out_file (l : list Robot.t) (s : QNode) : QNode :=
  mkQNode (under_test s) (answer_req s) (current_step s)
          (timer_active s) (timer s) (evaluated s) l (trace s).
Definition emit (o : Output) (s : QNode) : QNode :=
  mkQNode (under_test s) (answer_req s) (current_step s)
          (timer_active s) (timer s) (evaluated s) (out_file s)
          (o :: trace s).

Definition log (l : LogLevel) (fmt : string) : QNode -> QNode :=
  emit (Log l fmt).
Definition showUserMsg (l : LogLevel) (title text : string) : QNode -> QNode :=
  emit (ShowUserMsg l title text).
Definition hideUserMsg : QNode -> QNode := emit HideUserMsg.

(** [current_step++] *)
Definition next_step (s : QNode) : QNode :=
  set_current_step (step_incr (current_step s)) s.

(** The node after its constructor and [QNode::init]. *)
Definition init : QNode :=
  mkQNode None false INITIALIZATION false None [] [] [].

(** ** Helpers shared by the callbacks *)

Definition Qltb (x y : Q) : bool := negb (Qle_bool y x).

(** [std::equal(msg->udid.begin(), msg->udid.end(), u_dev_id.begin())]:
    the message's words against the same number of stored words (reading
    past the stored identifier is taken as a mismatch). *)
Definition udid_equal (m u : list Z) : bool :=
  bool_decide (take (length m) u = m).

(** [QNode::saveResults]: the record goes to the result file and to the
    ledger, and no unit is under test any more.  Every call site holds a
    record. *)
Definition saveResults (s : QNode) : QNode :=
  match under_test s with
  | None => s
  | Some r =>
      let s := log Info "Saving results for %s" s in
      let s := set_out_file (out_file s ++ [r]) s in
      let s := set_evaluated (evaluated s ++ [r]) s in
      set_under_test None s
  end.

(** [QNode::move] with [blocking == false] (the default argument). *)
Definition move (v w t : Q) (s : QNode) : QNode :=
  let s := emit (CmdVel v w) s in
  if Qltb 0 t then
    (* timer.stop(); timer.setPeriod(t); timer.start(); *)
    let s := set_timer (Some t) s in
    set_timer_active true s
  else s.

(** [QNode::timerEventCB] *)
Definition timerEventCB (s : QNode) : QNode :=
  let s := next_step s in
  let s := set_timer_active false s in
  move 0 0 0 s.

(** ** Identification *)

Definition versionInfo_adopt (msg : VersionInfo) (r : Robot.t) (s : QNode)
  : QNode :=
  (* r already carries the serial of msg *)
  match ledger_get (evaluated s) (Robot.serial r) with
  | Some _ =>
      let s := showUserMsg Error "Known robot"
        "Robot %s has been previously evaluated. Proceed with a new robot" s in
      set_under_test None s
  | None =>
      let v := Robot.val r V_INFO in
      let v := to_int64 (Z.shiftl (Z.lor v (firmware msg)) 16) in
      let v := to_int64 (Z.shiftl (Z.lor v (hardware msg)) 32) in
      let v := Z.lor v (software msg) in
      let r := Robot.set_val V_INFO v r in
      let r := Robot.set_ok V_INFO true r in
      let s := set_under_test (Some r) s in
      log Info "UDID: %s. Hardware/firmware/software version: %s" s
  end.

(** [QNode::versionInfoCB] *)
Definition versionInfoCB (msg : VersionInfo) (s : QNode) : QNode :=
  match under_test s with
  | None => s
  | Some r =>
      if Robot.ok r V_INFO then
        if udid_equal (udid msg) (Robot.u_dev_id r) then
          log Debug "Version info received more that once for %s" s
        else
          let r := Robot.setSerial (udid msg) r in
          let s := set_under_test (Some r) s in
          let s := log Warn "Overwriting version info: old SN: %s / new SN: %s" s in
          versionInfo_adopt msg r s
      else
        let r := Robot.setSerial (udid msg) r in
        let s := set_under_test (Some r) s in
        versionInfo_adopt msg r s
  end.

(** ** Bulk telemetry *)

Definition analog_update (sample : Z) (row : AnalogRow) : AnalogRow :=
  let inc := to_int16 (sample - AI_PRE row) in
  let pre := to_int16 sample in
  let mn := Z.min (AI_MIN row) (to_int16 sample) in
  let mx := Z.max (AI_MAX row) (to_int16 sample) in
  mkAnalogRow pre mn mx inc.

(** The loop over [msg->analog_input]: sample [i] updates row [i]. *)
Fixpoint analog_updates (samples : list Z) (rows : list AnalogRow)
  : list AnalogRow :=
  match samples, rows with
  | x :: samples, row :: rows =>
      analog_update x row :: analog_updates samples rows
  | _, _ => rows
  end.

(** [QNode::sensorsCoreCB] *)
Definition sensorsCoreCB (msg : SensorState) (s : QNode) : QNode :=
  match under_test s with
  | None => s
  | Some r =>
      let step := current_step s in
      if (TEST_MOTORS_FORWARD <=? step) && (step <=? TEST_MOTORS_COUNTERCW) then
        let r := Robot.set_val MOTOR_L
                   (Z.max (to_uint8 (Robot.val r MOTOR_L))
                          (default 0 (current msg !! 0%nat))) r in
        let r := Robot.set_val MOTOR_R
                   (Z.max (to_uint8 (Robot.val r MOTOR_R))
                          (default 0 (current msg !! 1%nat))) r in
        set_under_test (Some r) s
      else if (step =? MEASURE_CHARGING) && negb (charger msg =? 0) then
        set_under_test (Some (Robot.set_val CHARGING (battery msg) r)) s
      else if step =? TEST_ANALOG_INPUT_PORTS then
        let rows := analog_updates (analog_input msg) (Robot.analog_in r) in
        set_under_test (Some (Robot.set_analog_in rows r)) s
      else s
  end.

(** [QNode::dockBeaconCB] *)
Definition dockBeaconCB (data : list Z) (s : QNode) : QNode :=
  match under_test s with
  | None => s
  | Some r =>
      if Robot.ir_dock_ok r then s else
      let collect (i dev : nat) (r : Robot.t) : Robot.t :=
        let d := default 0 (data !! i) in
        if 0 <? d then Robot.set_ok dev true (Robot.set_val dev d r) else r in
      let r := collect 0%nat IR_DOCK_L r in
      let r := collect 1%nat IR_DOCK_C r in
      let r := collect 2%nat IR_DOCK_R r in
      let s := set_under_test (Some r) s in
      if Robot.ir_dock_ok r then
        log Info "Docking ir sensor evaluation completed: %d/%d/%d" s
      else s
  end.

(** [QNode::gyroscopeCB] *)
Definition gyroscopeCB (yaw : Q) (s : QNode) : QNode :=
  match under_test s with
  | None => s
  | Some r => set_under_test (Some (Robot.set_imu 4 yaw r)) s
  end.

(** ** Buttons: tester's answers and the ordered sequence *)

Definition expected_button (step : Z) : Z :=
  to_uint8 (cdiv (step - BUTTON_0_PRESSED) 2).
Definition expected_button_action (step : Z) : Z :=
  to_uint8 (Z.lxor (cmod (step - BUTTON_0_PRESSED) 2) 1).

(** [QNode::buttonEventCB] *)
Definition buttonEventCB (button state : Z) (s : QNode) : QNode :=
  match under_test s with
  | None => s
  | Some r =>
      let step := current_step s in
      if ((step =? TEST_LEDS) || (step =? TEST_SOUNDS)
          || (step =? TEST_DIGITAL_IO_PORTS))
         && answer_req s && (state =? Msg.RELEASED) then
        (* a device that requires the tester's feedback is being evaluated *)
        if (button =? Msg.Button0) || (button =? Msg.Button2) then
          let b := button =? Msg.Button0 in
          let r :=
            if step =? TEST_LEDS then
              Robot.set_ok LED_2 b (Robot.set_ok LED_1 b r)
            else if step =? TEST_SOUNDS then
              Robot.set_ok SOUNDS b r
            else if step =? TEST_DIGITAL_IO_PORTS then
              Robot.set_ok D_OUTPUT b (Robot.set_ok D_INPUT b r)
            else r in
          let s := set_under_test (Some r) s in
          let s :=
            if button =? Msg.Button0 then log Info "%s evaluation completed" s
            else if button =? Msg.Button2 then
              log Warn "%s didn't pass the test" s
            else s in
          let s := set_answer_req false s in
          let s := hideUserMsg s in
          next_step s
        else s
      else if Robot.buttons_ok r then s
      else if (step <? BUTTON_0_PRESSED) || (step >? BUTTON_2_RELEASED) then
        log Debug "Button %d %s; ignoring" s
      else if (button =? expected_button step)
              && (state =? expected_button_action step) then
        let dev := (BUTTON_0 + Z.to_nat button)%nat in
        let s := log Info "Button %d %s, as expected" s in
        let r := if state =? Msg.RELEASED then Robot.set_ok dev true r
                 else r in
        let s := set_under_test (Some r) s in
        let s := if step =? BUTTON_2_RELEASED
                 then log Info "Buttons evaluation completed" s else s in
        next_step s
      else log Warn "Unexpected button event: %d %s" s
  end.

(** ** Bumpers *)

Definition expected_bumper (step : Z) : Z :=
  cmod (cdiv (step - CENTER_BUMPER_PRESSED) 3 + 1) 3.
Definition expected_bumper_action (step : Z) : Z :=
  Z.lxor (cmod (step - CENTER_BUMPER_PRESSED) 3) 1.

(** [QNode::bumperEventCB] *)
Definition bumperEventCB (bumper state : Z) (s : QNode) : QNode :=
  match under_test s with
  | None => s
  | Some r =>
      if Robot.bumpers_ok r then s else
      let step := current_step s in
      if (step <? CENTER_BUMPER_PRESSED) || (step >? LEFT_BUMPER_RELEASED) then
        log Debug "Bumper %d accidental hit; ignoring" s
      else if (bumper =? expected_bumper step)
              && (state =? expected_bumper_action step) then
        let dev := (BUMPER_L + Z.to_nat bumper)%nat in
        let s := log Info "Bumper %d %s, as expected" s in
        let r := Robot.set_val dev (Robot.val r dev + 1) r in
        let s :=
          if state =? Msg.PRESSED then
            let s := set_under_test (Some r) s in
            let s := move (- TEST_BUMPERS_V) 0 (15 # 10) s in
            next_step s
          else
            let r := Robot.set_ok dev true r in
            let s := set_under_test (Some r) s in
            hideUserMsg s in
        if current_step s =? LEFT_BUMPER_RELEASED then
          log Info "Bumper evaluation completed" s
        else s
      else log Warn "Unexpected bumper event: %d %s" s
  end.

(** ** The parity counters: wheel drop, cliff, power plug *)

(** The test shared by the three callbacks: the "engage" event is expected
    on an even measured value, the "release" event on an odd one. *)
Definition parity_match (engage release : bool) (v : Z) : bool :=
  (engage && (cmod v 2 =? 0)) || (release && (cmod v 2 =? 1)).

(** [QNode::wDropEventCB] *)
Definition wDropEventCB (wheel state : Z) (s : QNode) : QNode :=
  match under_test s with
  | None => s
  | Some r =>
      if negb (current_step s =? TEST_WHEEL_DROP_SENSORS) then s else
      let dev := if wheel =? Msg.WHEEL_LEFT then W_DROP_L else W_DROP_R in
      if Robot.ok r dev then s else
      if parity_match (state =? Msg.DROPPED) (state =? Msg.RAISED)
                      (Robot.val r dev) then
        let s := log Info "%s wheel %s, as expected" s in
        let r := Robot.set_val dev (Robot.val r dev + 1) r in
        if Robot.val r dev >=? WHEEL_DROP_TESTS * 2 then
          let s := log Info "%s wheel drop evaluation completed" s in
          let r := Robot.set_ok dev true r in
          let s := set_under_test (Some r) s in
          if Robot.w_drop_ok r then next_step s else s
        else set_under_test (Some r) s
      else log Warn "Unexpected wheel drop event: %d, %d" s
  end.

(** [QNode::cliffEventCB] *)
Definition cliffEventCB (sensor state : Z) (s : QNode) : QNode :=
  match under_test s with
  | None => s
  | Some r =>
      if negb (current_step s =? TEST_CLIFF_SENSORS) then s else
      let dev := if sensor =? Msg.LEFT then CLIFF_L
                 else if sensor =? Msg.RIGHT then CLIFF_R else CLIFF_C in
      if Robot.ok r dev then s else
      if parity_match (state =? Msg.CLIFF) (state =? Msg.FLOOR)
                      (Robot.val r dev) then
        let s := log Info "%s cliff sensor reports %s, as expected" s in
        let r := Robot.set_val dev (Robot.val r dev + 1) r in
        if Robot.val r dev >=? CLIFF_SENSOR_TESTS * 2 then
          let s := log Info "%s cliff sensor evaluation completed" s in
          let r := Robot.set_ok dev true r in
          let s := set_under_test (Some r) s in
          if Robot.cliffs_ok r then next_step s else s
        else set_under_test (Some r) s
      else log Warn "Unexpected cliff sensor event: %d, %d" s
  end.

(** [QNode::powerEventCB] *)
Definition powerEventCB (event : Z) (s : QNode) : QNode :=
  match under_test s with
  | None => s
  | Some r =>
      if Robot.pwr_src_ok r then s else
      let step := current_step s in
      if negb (step =? TEST_DC_ADAPTER) && negb (step =? TEST_DOCKING_BASE) then
        if negb (event =? Msg.CHARGE_COMPLETED)
           && negb (event =? Msg.BATTERY_LOW)
           && negb (event =? Msg.BATTERY_CRITICAL) then
          log Warn "Power event %d while current step is %d" s
        else s
      else
      let dev := if step =? TEST_DC_ADAPTER then PWR_JACK else PWR_DOCK in
      if Robot.ok r dev then s else
      if parity_match
           (((event =? Msg.PLUGGED_TO_ADAPTER) && (step =? TEST_DC_ADAPTER))
            || ((event =? Msg.PLUGGED_TO_DOCKBASE)
                && (step =? TEST_DOCKING_BASE)))
           (event =? Msg.UNPLUGGED)
           (Robot.val r dev) then
        let s := log Info "%s %s, as expected" s in
        let r := Robot.set_val dev (Robot.val r dev + 1) r in
        if Robot.val r dev >=? POWER_PLUG_TESTS * 2 then
          let s := log Info "%s plugging evaluation completed" s in
          let r := Robot.set_ok dev true r in
          let s := set_under_test (Some r) s in
          next_step s
        else set_under_test (Some r) s
      else log Warn "Unexpected power event: %d" s
  end.

(** ** Digital inputs, diagnostics, robot status *)

(** Index of the first [false] among the digital inputs, from [i] on. *)
Fixpoint first_false (i : nat) (values : list bool) : option nat :=
  match values with
  | [] => None
  | v :: values => if v then first_false (S i) values else Some i
  end.

Definition no_bits : list bool := replicate 4 false.
Definition all_bits : list bool := replicate 4 true.

(** [QNode::inputEventCB] *)
Definition inputEventCB (values : list bool) (s : QNode) : QNode :=
  match under_test s with
  | None => s
  | Some r =>
      if negb (current_step s =? TEST_DIGITAL_IO_PORTS)
         || Robot.ok r D_INPUT then s else
      match first_false 0 values with
      | Some i =>
          let r := Robot.set_val D_INPUT
                     (Z.lor (Robot.val r D_INPUT) (2 ^ Z.of_nat i)) r in
          let s := set_under_test (Some r) s in
          emit (DigitalOutput (<[i:=true]> no_bits) (<[i:=true]> no_bits)) s
      | None =>
          let s := emit (DigitalOutput no_bits all_bits) s in
          if Robot.val r D_INPUT =? 15 then
            let s := showUserMsg Info "Digital I/O test"
              "Press left function button if LEDs blinked as expected or right otherwise" s in
            set_answer_req true s
          else s
      end
  end.

Definition endl : string := String "010"%char "".

Definition diag_values (vs : list KeyValue) : string :=
  foldr (fun kv acc => "   " +:+ kv_key kv +:+ ": " +:+ kv_value kv
                        +:+ endl +:+ acc) "" vs.

Definition diag_text (status : list DiagnosticStatus) : string :=
  foldr (fun st acc =>
           "Device: " +:+ ds_name st +:+ endl
           +:+ "Level: " +:+ pretty (ds_level st) +:+ endl
           +:+ "Message: " +:+ ds_message st +:+ endl
           +:+ diag_values (ds_values st) +:+ acc) "" status.

(** [QNode::diagnosticsCB] *)
Definition diagnosticsCB (status : list DiagnosticStatus) (s : QNode) : QNode :=
  match under_test s with
  | None => s
  | Some r => set_under_test (Some (Robot.set_diagnostics (diag_text status) r)) s
  end.

(** [QNode::robotStatusCB] *)
Definition robotStatusCB (level : Z) (s : QNode) : QNode :=
  match under_test s with
  | None => s
  | Some r =>
      if Robot.state r =? Robot.OK then s else
      let r := Robot.set_state level r in
      let s := set_under_test (Some r) s in
      if level =? Msg.DIAG_OK then
        log Info "Robot %s diagnostics received with OK status" s
      else
        let s := log Warn "Robot %s diagnostics received with %s status" s in
        if (0 <? String.length (Robot.diagnostics r))%nat then
          log Warn "Full diagnostics:\n%s" s
        else s
  end.

(** ** Unit online / offline *)

(** [QNode::robotEventCB] *)
Definition robotEventCB (state : Z) (s : QNode) : QNode :=
  if state =? Msg.ONLINE then
    let s :=
      match under_test s with
      | Some _ =>
          let s := log Warn
            "New robot connected while %s is still under evaluation; saving..." s in
          saveResults s
      | None => log Info "New robot connected" s
      end in
    (* go to the beginning of the test process and create a new robot *)
    let s := set_current_step TEST_DIGITAL_IO_PORTS s in  (* TODO INITIALIZATION *)
    let s := set_under_test (Some (Robot.new (length (evaluated s)))) s in
    emit Resubscribe s
  else if state =? Msg.OFFLINE then
    match under_test s with
    | Some r =>
        let s :=
          if negb (Robot.all_ok r) then
            log Info "Robot %s disconnected without finishing the evaluation" s
          else log Info "Robot %s evaluation successfully completed" s in
        saveResults s
    | None =>
        log Warn "Robot offline event received, but no robot is under evaluation" s
    end
  else log Warn "Unrecognized robot event received; ignoring" s.

(** ** Delivery of one event

    What the middleware does with a pending event: the message goes to the
    callback subscribed to it; the one-shot timer runs its callback only
    when armed, and is disarmed by firing. *)
Definition onEvent (e : Event) (s : QNode) : QNode :=
  match e with
  | EvVersionInfo msg => versionInfoCB msg s
  | EvSensorsCore msg => sensorsCoreCB msg s
  | EvDockBeacon data => dockBeaconCB data s
  | EvGyroscope yaw => gyroscopeCB yaw s
  | EvButton b st => buttonEventCB b st s
  | EvBumper b st => bumperEventCB b st s
  | EvWheelDrop w st => wDropEventCB w st s
  | EvCliff c st => cliffEventCB c st s
  | EvPower ev => powerEventCB ev s
  | EvInput values => inputEventCB values s
  | EvDiagnostics status => diagnosticsCB status s
  | EvRobotStatus level => robotStatusCB level s
  | EvRobotEvent st => robotEventCB st s
  | EvTimer =>
      match timer s with
      | Some _ => timerEventCB (set_timer None s)
      | None => s
      end
  end.

(** [ros::spinOnce()]: the pending events, oldest first. *)
Definition spin (batch : list Event) (s : QNode) : QNode :=
  foldl (fun s e => onEvent e s) s batch.

(** ** The blocking routines: a state-and-failure monad

    The test routines and the control loop sleep with [nbSleep], which keeps
    serving callbacks, poll the camera, and dereference [under_test] without
    a check.  They run on a [World]: the node, the locals of [QNode::run],
    and what the environment will supply, in the order it is consumed (the
    batch of events served by each sleep or spin, the readings of the
    camera).  A computation fails ([None]) where the code dereferences a
    null [under_test]. *)

Record World := mkWorld {
  node : QNode;
  count : Z;                          (* locals of QNode::run *)
  previous_step : Z;
  batches : list (list Event);        (* one batch per sleep or spin *)
  camera_ok : bool;                   (* result of TestIMU::init *)
  camera : list (option Q) }.         (* TestIMU::getYaw; None is NaN *)

Definition M (A : Type) : Type := World -> option (A * World).

Definition ret {A} (a : A) : M A := fun w => Some (a, w).
Definition bind {A B} (m : M A) (k : A -> M B) : M B :=
  fun w => match m w with
           | Some (a, w') => k a w'
           | None => None
           end.

Notation "x <- m ;; k" := (bind m (fun x => k))
  (at level 100, m at next level, right associativity).
Notation "m ;;; k" := (bind m (fun _ => k))
  (at level 100, right associativity).

Definition with_node (f : QNode -> QNode) (w : World) : World :=
  mkWorld (f (node w)) (count w) (previous_step w) (batches w)
          (camera_ok w) (camera w).

(** Run a state change of the node. *)
Definition lift (f : QNode -> QNode) : M unit :=
  fun w => Some (tt, with_node f w).
Definition get : M QNode := fun w => Some (node w, w).
Definition when (b : bool) (m : M unit) : M unit := if b then m else ret tt.

(** [under_test->...]: fails on a null pointer. *)
Definition robot : M Robot.t :=
  fun w => match under_test (node w) with
           | Some r => Some (r, w)
           | None => None
           end.
Definition update_robot (f : Robot.t -> Robot.t) : M unit :=
  r <- robot ;; lift (set_under_test (Some (f r))).

(** [ros::spinOnce()] on the next batch of pending events. *)
Definition spinOnce : M unit :=
  fun w => Some (tt, mkWorld (spin (hd [] (batches w)) (node w))
                             (count w) (previous_step w) (tl (batches w))
                             (camera_ok w) (camera w)).

(** Modelled from the spec: [QNode::nbSleep] is declared in qnode.hpp, which
    is missing.  It suspends the caller for the duration while inbound
    events are still processed ("block this function but not the whole
    node"): the events that arrive during the sleep are served. *)
Definition nbSleep (t : Q) : M unit := spinOnce.

(** [imuTester.getYaw()] *)
Definition getYaw : M (option Q) :=
  fun w => Some (default None (head (camera w)),
                 mkWorld (node w) (count w) (previous_step w) (batches w)
                         (camera_ok w) (tl (camera w))).
Definition imu_init : M bool := fun w => Some (camera_ok w, w).

(** [QNode::move] with [blocking == true]. *)
Definition move_blocking (v w t : Q) : M unit :=
  lift (emit (CmdVel v w)) ;;;
  when (Qltb 0 t) (nbSleep t ;;; lift (emit (CmdVel 0 0))).

(** ** LEDs and sounds *)

Fixpoint testLeds_loop (first_call : bool) (colors : list Z) : M unit :=
  match colors with
  | [] => ret tt
  | c :: colors =>
      s <- get ;;
      if current_step s =? TEST_LEDS then
        lift (showUserMsg Info "LEDs test"
          "You should see both LEDs blinking in green, orange and red alternatively\n%s%s") ;;;
        lift (emit (Led c)) ;;;
        nbSleep 1 ;;;
        lift (emit (Led Msg.LED_BLACK)) ;;;
        nbSleep (1 # 2) ;;;
        testLeds_loop first_call colors
      else ret tt
  end.

(** [QNode::testLeds] *)
Definition testLeds (first_call : bool) : M unit :=
  lift (set_answer_req (negb first_call)) ;;;
  testLeds_loop first_call [1; 2; 3].

Fixpoint testSounds_loop (first_call : bool) (sounds : list Z) : M unit :=
  match sounds with
  | [] => ret tt
  | sd :: sounds =>
      s <- get ;;
      if current_step s =? TEST_SOUNDS then
        lift (showUserMsg Info "Sounds test"
          "You should hear sounds for 'On', 'Off', 'Recharge', 'Button', 'Error', 'Cleaning Start' and 'Cleaning End' continuously\n%s%s") ;;;
        lift (emit (Sound sd)) ;;;
        nbSleep (12 # 10) ;;;
        testSounds_loop first_call sounds
      else ret tt
  end.

(** [QNode::testSounds] *)
Definition testSounds (first_call : bool) : M unit :=
  lift (set_answer_req (negb first_call)) ;;;
  testSounds_loop first_call [0; 1; 2; 3; 4; 5; 6].

(** ** Gyroscope against the camera *)

(** The wrap of [diff] in [QNode::testIMU]:
    [if (diff > +M_PI) diff -= 2.0*M_PI; else if (diff < -M_PI) diff += 2.0*M_PI;] *)
Definition yaw_wrap (diff : Q) : Q :=
  if Qltb M_PI diff then diff - 2 * M_PI
  else if Qltb diff (- M_PI) then diff + 2 * M_PI
  else diff.

(** The test that sets the gyroscope's flag:
    [abs(imu_data[1] - imu_data[3]) <= GYRO_CAMERA_MAX_DIFF], with [abs] the
    overload on [double] that <math.h> provides in C++. *)
Definition gyro_within (d1 d2 : Q) : bool :=
  Qle_bool (Qabs (d1 - d2)) GYRO_CAMERA_MAX_DIFF.

(** The inner loop: up to [n] attempts to get a yaw from the camera. *)
Fixpoint acquire_yaw (n : nat) : M (option Q) :=
  match n with
  | O => ret None
  | S n =>
      nbSleep (2 # 10) ;;;
      y <- getYaw ;;
      match y with
      | Some y =>
          (* inverted, as the camera is looking at the robot *)
          lift hideUserMsg ;;; ret (Some (- y)%Q)
      | None =>
          lift (showUserMsg Warn "Gyroscope test"
            "Cannot recognize the check board; please place the robot right below the camera") ;;;
          acquire_yaw n
      end
  end.

(** One iteration of the outer loop; [false] when the test is aborted. *)
Definition testIMU_leg (i : nat) : M bool :=
  vo <- acquire_yaw 80 ;;
  match vo with
  | None =>
      lift (log Error
        "Cannot recognize the check board after 80 attempts; gyroscope test aborted") ;;;
      lift hideUserMsg ;;;
      ret false
  | Some vo_yaw =>
      r <- robot ;;
      let diff := yaw_wrap (Robot.imu r 4 - vo_yaw) in
      lift (log Info
        "Gyroscope test %d result: imu yaw = %.3f / vo yaw = %.3f / diff = %.3f") ;;;
      update_robot (Robot.set_imu (i * 2) (Robot.imu r 4)) ;;;
      update_robot (Robot.set_imu (i * 2 + 1) diff) ;;;
      when (i =? 0)%nat
        (move_blocking 0 TEST_GYRO_W (TEST_GYRO_A / TEST_GYRO_W) ;;;
         move_blocking 0 (- TEST_GYRO_W) (TEST_GYRO_A / TEST_GYRO_W)) ;;;
      update_robot (fun r => Robot.set_val IMU_DEV (Robot.val r IMU_DEV + 1) r) ;;;
      spinOnce ;;;
      ret true
  end.

(** The verdict at the end of [QNode::testIMU], after the two legs. *)
Definition testIMU_verdict : M unit :=
  r <- robot ;;
  if gyro_within (Robot.imu r 1) (Robot.imu r 3) then
    lift (log Info "Gyroscope testing successful: diff 1 = %.3f / diff 2 = %.3f") ;;;
    update_robot (Robot.set_ok IMU_DEV true)
  else
    lift (log Warn "Gyroscope testing failed: diff 1 = %.3f / diff 2 = %.3f").

(** [QNode::testIMU] *)
Definition testIMU (first_call : bool) : M bool :=
  when first_call
    (lift (showUserMsg Info "Gyroscope test"
       "Place the robot with the check board right below the camera")) ;;;
  ok <- imu_init ;;
  if negb ok then
    lift (log Error "Gyroscope test initialization failed; aborting test") ;;;
    lift hideUserMsg ;;;
    ret false
  else
    leg1 <- testIMU_leg 0 ;;
    if negb leg1 then ret false else
    leg2 <- testIMU_leg 1 ;;
    if negb leg2 then ret false else
    testIMU_verdict ;;;
    lift hideUserMsg ;;;
    ret true.

(** ** Charge measurement *)

(** The wait for the charge to start:
    [for (i = 0; i < 40*frequency && device_val[CHARGING] == 0; i++) nbSleep(1.0/frequency);] *)
Fixpoint charge_wait (n : nat) : M unit :=
  match n with
  | O => ret tt
  | S n =>
      r <- robot ;;
      if Robot.val r CHARGING =? 0 then
        nbSleep (1 / frequency) ;;;
        charge_wait n
      else ret tt
  end.

(** Number of values of [i] below [40*frequency]. *)
Definition charge_wait_polls : nat := Z.to_nat (Qceiling (40 * frequency)).

(** [QNode::measureCharge] *)
Definition measureCharge (first_call : bool) : M bool :=
  when first_call
    (lift (showUserMsg Info "Charge measurement"
       "Plug the adaptor to the robot and wait %d seconds")) ;;;
  charge_wait charge_wait_polls ;;;
  lift hideUserMsg ;;;
  r <- robot ;;
  if Robot.val r CHARGING =? 0 then
    lift (log Error
      "Adaptor not plugged after 40 seconds; aborting charge measurement") ;;;
    ret false
  else
    nbSleep 2 ;;;
    r <- robot ;;
    let v1 := to_uint8 (Robot.val r CHARGING) in
    nbSleep MEASURE_CHARGE_TIME ;;;
    r <- robot ;;
    let v2 := to_uint8 (Robot.val r CHARGING) in
    update_robot (Robot.set_val CHARGING (v2 - v1)) ;;;
    r <- robot ;;
    (if Robot.val r CHARGING >=? MIN_POWER_CHARGED then
       lift (log Info "Charge measurement: %.1f V in %d seconds") ;;;
       update_robot (Robot.set_ok CHARGING true)
     else
       lift (log Warn "Charge measurement: %.1f V in %d seconds")) ;;;
    ret true.

(** ** Analog inputs

    [device_val[A_INPUT]] packs the scan: bits 0-15 count down the pulse of
    the indicator LEDs, bit [16+i] records that channel [i] reached the
    minimum, bit [24+i] that it reached the maximum. *)

Definition MIN_MASK (i : nat) : Z := Z.shiftl (2 ^ Z.of_nat i) 16.
Definition MAX_MASK (i : nat) : Z := Z.shiftl (2 ^ Z.of_nat i) 24.
Definition ALL_COVERED : Z := 0x0F0F0000.

(** [s] with further output [outs] (newest first). *)
Definition emits (outs : list Output) (s : QNode) : QNode :=
  mkQNode (under_test s) (answer_req s) (current_step s) (timer_active s)
          (timer s) (evaluated s) (out_file s) (outs ++ trace s)%list.

(** The body of the loop over the channels, for channel [i]: the new value
    of [device_val[A_INPUT]] and the commands published (newest first). *)
Definition analog_channel (i : nat) (row : AnalogRow) (v : Z)
  : Z * list Output :=
  let '(v, o1) :=
    if (Z.land v (MIN_MASK i) =? 0) && (AI_MIN row <=? A_INPUT_MIN_THRESHOLD)
    then
      let v := Z.lor v (MIN_MASK i) in
      let v := Z.lor v (to_int frequency) in   (* switch on for 1 second *)
      (v, [DigitalOutput (<[0%nat:=true]> no_bits) (<[0%nat:=true]> no_bits)])
    else (v, []) in
  if (Z.land v (MAX_MASK i) =? 0) && (AI_MAX row >=? A_INPUT_MAX_THRESHOLD)
  then
    let v := Z.lor v (MAX_MASK i) in
    let v := Z.lor v (to_int frequency) in     (* switch on for 1 second *)
    (v, DigitalOutput (<[3%nat:=true]> no_bits) (<[3%nat:=true]> no_bits)
        :: o1)
  else (v, o1).

Fixpoint analog_scan (i : nat) (rows : list AnalogRow) (v : Z)
  : Z * list Output :=
  match rows with
  | [] => (v, [])
  | row :: rows =>
      let '(v, o) := analog_channel i row v in
      let '(v, o') := analog_scan (S i) rows v in
      (v, (o' ++ o)%list)
  end.

(** The countdown at the head of [testAnalogIn]. *)
Definition analog_countdown (v : Z) : Z * list Output :=
  if Z.land v 0xFFFF >? 0 then
    let v := v - 1 in
    if Z.land v 0xFFFF =? 0 then
      (* countdown finished; switch off LEDs *)
      (v, [DigitalOutput no_bits (<[3%nat:=true]> (<[0%nat:=true]> no_bits))])
    else (v, [])
  else (v, []).

(** The value of [device_val[A_INPUT]] that one call of [testAnalogIn]
    leaves, and what it publishes on the way. *)
Definition analog_pass (first_call : bool) (r : Robot.t) : Z * list Output :=
  let v := if first_call then 0 else Robot.val r A_INPUT in
  let '(v, o1) := analog_countdown v in
  let '(v, o2) := analog_scan 0 (Robot.analog_in r) v in
  (v, (o2 ++ o1)%list).

(** [QNode::testAnalogIn], on the record [r] that [under_test] points to. *)
Definition testAnalogIn_on (first_call : bool) (r : Robot.t) (s : QNode)
  : bool * QNode :=
  let s :=
    if first_call then
      let s := showUserMsg Info "Test analogue input"
        "Turn analogue input screws clockwise and counterclockwise until reaching the limits\nThe four LEDs below should get illuminated when completed" s in
      (* ensure that all I/O test board's LEDs are off *)
      emit (DigitalOutput no_bits all_bits) s
    else s in
  let '(v, outs) := analog_pass first_call r in
  let s := emits outs s in
  let r := Robot.set_val A_INPUT v r in
  if v =? ALL_COVERED then
    (* min/max verified for all ports and last countdown finished *)
    let s := log Info "Analogue input evaluation completed" s in
    let r := Robot.set_ok A_INPUT true r in
    let s := set_under_test (Some r) s in
    let s := hideUserMsg s in
    (true, next_step s)
  else (false, set_under_test (Some r) s).

Definition testAnalogIn (first_call : bool) : M bool :=
  r <- robot ;;
  fun w => let '(b, s) := testAnalogIn_on first_call r (node w) in
           Some (b, with_node (fun _ => s) w).

(** ** Motors *)

(** [QNode::evalMotorsCurrent] *)
Definition evalMotorsCurrent (first_call : bool) : M unit :=
  update_robot (fun r =>
    Robot.set_ok MOTOR_L (Robot.val r MOTOR_L <=? MOTOR_MAX_CURRENT) r) ;;;
  update_robot (fun r =>
    Robot.set_ok MOTOR_R (Robot.val r MOTOR_R <=? MOTOR_MAX_CURRENT) r) ;;;
  r <- robot ;;
  if Robot.motors_ok r then
    lift (log Info "Motors current evaluation completed (%d, %d)")
  else lift (log Warn "Motors current too high! (%d, %d)").

(** ** The control loop *)

Definition set_locals (c p : Z) : M unit :=
  fun w => Some (tt, mkWorld (node w) c p (batches w) (camera_ok w) (camera w)).

(** The [switch (current_step)] of [QNode::run]. *)
Definition step_action (step : Z) (step_changed : bool) (count : Z) : M unit :=
  if step =? INITIALIZATION then lift next_step
  else if step =? GET_SERIAL_NUMBER then
    r <- robot ;;
    if Robot.ok r V_INFO then lift next_step
    else when (cmod count (to_int (frequency * 2)) =? 0)
              (lift (log Debug "Waiting for serial number..."))
  else if step =? TEST_DC_ADAPTER then
    when step_changed
      (lift (showUserMsg Info "DC adapter plug test"
               "Plug and unplug adapter to robot %d time(s)"))
  else if step =? TEST_DOCKING_BASE then
    when step_changed
      (lift (showUserMsg Info "Docking base plug test"
               "Plug and unplug robot to its base %d time(s)"))
  else if step =? BUTTON_0_PRESSED then
    when step_changed
      (lift (showUserMsg Info "Function buttons test"
               "Press the three function buttons sequentially from left to right"))
  else if step =? TEST_LEDS then testLeds step_changed
  else if step =? TEST_SOUNDS then testSounds step_changed
  else if step =? TEST_CLIFF_SENSORS then
    when step_changed
      (lift (showUserMsg Info "Cliff sensors test"
               "Raise and lower robot %d time(s) to test cliff sensors"))
  else if step =? TEST_WHEEL_DROP_SENSORS then
    when step_changed
      (lift (showUserMsg Info "Wheel drop sensors test"
               "Raise and lower robot %d time(s) to test wheel drop sensors"))
  else if step =? CENTER_BUMPER_PRESSED then
    when step_changed
      (lift (showUserMsg Info "Bumper sensors test"
               "Place the robot facing a wall; after a while, the robot will move forward") ;;;
       (* ros::Duration(1.5).sleep(): no callback is served meanwhile *)
       lift (move TEST_BUMPERS_V 0 0))
  else if step =? POINT_RIGHT_BUMPER then
    lift (move 0 TEST_BUMPERS_W ((M_PI / 4) / TEST_BUMPERS_W))
  else if step =? RIGHT_BUMPER_PRESSED then lift (move TEST_BUMPERS_V 0 0)
  else if step =? POINT_LEFT_BUMPER then
    lift (move 0 (- TEST_BUMPERS_W) ((M_PI / 2) / TEST_BUMPERS_W))
  else if step =? LEFT_BUMPER_PRESSED then lift (move TEST_BUMPERS_V 0 0)
  else if step =? PREPARE_MOTORS_TEST then
    when step_changed
      (lift (showUserMsg Info "Motors current test"
               "Now the robot will move forward...")) ;;;
    lift (move 0 (- TEST_BUMPERS_W) ((M_PI / 4) / TEST_BUMPERS_W))
  else if step =? TEST_MOTORS_FORWARD then
    lift (move TEST_MOTORS_V 0 (TEST_MOTORS_D / TEST_MOTORS_V))
  else if step =? TEST_MOTORS_BACKWARD then
    lift (move (- TEST_MOTORS_V) 0 (TEST_MOTORS_D / TEST_MOTORS_V)) ;;;
    lift (showUserMsg Info "Motors current test"
            "Now the robot will move backward...")
  else if step =? TEST_MOTORS_CLOCKWISE then
    lift (move 0 (- TEST_MOTORS_W) (TEST_MOTORS_A / TEST_MOTORS_W)) ;;;
    lift (showUserMsg Info "Motors current test"
            "...and spin to evaluate motors")
  else if step =? TEST_MOTORS_COUNTERCW then
    lift (move 0 TEST_MOTORS_W (TEST_MOTORS_A / TEST_MOTORS_W))
  else if step =? EVAL_MOTORS_CURRENT then
    lift hideUserMsg ;;;
    evalMotorsCurrent step_changed ;;;
    lift next_step
  else if step =? MEASURE_GYRO_ERROR then
    _ <- testIMU step_changed ;;
    lift next_step
  else if step =? MEASURE_CHARGING then
    _ <- measureCharge step_changed ;;
    lift next_step
  else if step =? TEST_DIGITAL_IO_PORTS then
    when step_changed
      (lift (showUserMsg Info "Digital I/O test"
               "Press the four digital input buttons sequentially, from DI-1 to DI-4\nThe digital output LED below should switch on and off as the result") ;;;
       update_robot (Robot.set_val D_INPUT 0) ;;;
       (* ensure that all I/O test board's LEDs are off *)
       lift (emit (DigitalOutput no_bits all_bits)))
  else if step =? TEST_ANALOG_INPUT_PORTS then
    _ <- testAnalogIn step_changed ;;
    ret tt
  else if step =? EVALUATION_COMPLETED then
    _ <- robot ;;
    lift (showUserMsg Info "Evaluation result"
            "Evaluation completed. Overall result: %s") ;;;
    lift saveResults ;;;
    lift (set_current_step INITIALIZATION)
  else ret tt.

(** What one iteration does after [ros::spinOnce()]: nothing without a unit
    under test, nothing while a motion is on course, else the action of the
    current step. *)
Definition step_tick : M unit :=
  fun w =>
    let s := node w in
    let c := count w + 1 in
    match under_test s with
    | None => set_locals c (previous_step w) w
    | Some _ =>
        if timer_active s then set_locals c (previous_step w) w
        else
          let step_changed := negb (previous_step w =? current_step s) in
          (set_locals c (current_step s) ;;;
           step_action (current_step s) step_changed c) w
    end.

(** One iteration of the [while] loop of [QNode::run]. *)
Definition run_iter : M unit := spinOnce ;;; step_tick.

(** [n] iterations. *)
Fixpoint run (n : nat) : M unit :=
  match n with
  | O => ret tt
  | S n => run_iter ;;; run n
  end.

(** The world at the start of [QNode::run]. *)
Definition start (bs : list (list Event)) (cam_ok : bool)
  (cam : list (option Q)) : World :=
  mkWorld init 0 (current_step init) bs cam_ok cam.

(** * Properties *)

(** ** The record: reading back what was written *)

Module RobotFacts.
Import Robot.

(** Both device vectors have one slot per device. *)
Definition wf (r : t) : Prop :=
  length (device_ok r) = DEVICES_COUNT /\ length (device_val r) = DEVICES_COUNT.

Lemma wf_new n : wf (new n).
Proof. split; reflexivity. Qed.

Lemma wf_set_ok d b r : wf r -> wf (set_ok d b r).
Proof. intros [H1 H2]; split; simpl; [by rewrite length_insert|done]. Qed.

Lemma wf_set_val d v r : wf r -> wf (set_val d v r).
Proof. intros [H1 H2]; split; simpl; [done|by rewrite length_insert]. Qed.

Lemma ok_set_ok_eq d b r :
  (d < DEVICES_COUNT)%nat -> wf r -> ok (set_ok d b r) d = b.
Proof.
  intros Hd [H1 _]. unfold ok; simpl.
  rewrite list_lookup_insert_eq; [done|lia].
Qed.

Lemma ok_set_ok_ne d d' b r : d <> d' -> ok (set_ok d b r) d' = ok r d'.
Proof. intros Hd. unfold ok; simpl. by rewrite list_lookup_insert_ne. Qed.

Lemma ok_set_val d d' v r : ok (set_val d v r) d' = ok r d'.
Proof. reflexivity. Qed.

Lemma val_set_val_eq d v r :
  (d < DEVICES_COUNT)%nat -> wf r -> val (set_val d v r) d = v.
Proof.
  intros Hd [_ H2]. unfold val; simpl.
  rewrite list_lookup_insert_eq; [done|lia].
Qed.

Lemma val_set_val_ne d d' v r : d <> d' -> val (set_val d v r) d' = val r d'.
Proof. intros Hd. unfold val; simpl. by rewrite list_lookup_insert_ne. Qed.

Lemma val_set_ok d d' b r : val (set_ok d b r) d' = val r d'.
Proof. reflexivity. Qed.
End RobotFacts.
Import RobotFacts.

(** ** Callbacks without a unit under test *)

(** The callbacks that open with the test [under_test == NULL]: all but the
    unit online/offline callback and the timer callback. *)
Definition guarded (e : Event) : bool :=
  match e with
  | EvRobotEvent _ | EvTimer => false
  | _ => true
  end.

Lemma onEvent_idle (e : Event) (s : QNode) :
  under_test s = None -> guarded e = true -> onEvent e s = s.
Proof.
  intros Hnone Hg.
  destruct e; simpl in Hg; try discriminate; simpl;
    [ unfold versionInfoCB | unfold sensorsCoreCB | unfold dockBeaconCB
    | unfold gyroscopeCB | unfold buttonEventCB | unfold bumperEventCB
    | unfold wDropEventCB | unfold cliffEventCB | unfold powerEventCB
    | unfold inputEventCB | unfold diagnosticsCB | unfold robotStatusCB ];
    now rewrite Hnone.
Qed.

(** A whole batch of such events leaves an idle node idle. *)
Lemma spin_idle (batch : list Event) (s : QNode) :
  under_test s = None -> forallb guarded batch = true -> spin batch s = s.
Proof.
  revert s. induction batch as [|e batch IH]; intros s Hnone Hall; [done|].
  simpl in Hall. apply andb_true_iff in Hall as [He Hb].
  unfold spin; simpl. rewrite (onEvent_idle e s Hnone He).
  by apply IH.
Qed.

(** C10. With no unit under test, each of the inbound callbacks
    (identification, core telemetry, dock beacon, gyroscope, button, bumper,
    wheel drop, cliff, power, digital input, diagnostics, robot status)
    returns at once: the node's state, its output included, is unchanged. *)
Theorem callback_without_unit_is_noop (e : Event) (s : QNode) :
  under_test s = None -> guarded e = true -> onEvent e s = s.
Proof. apply onEvent_idle. Qed.

Lemma callback_without_unit_is_noop_witness :
  onEvent (EvButton 0 1) init = init.
Proof. apply callback_without_unit_is_noop; reflexivity. Defined.

(** ** What holds in every state the node can reach *)

Lemma move_step (v w t : Q) (s : QNode) :
  current_step (move v w t s) = current_step s.
Proof. unfold move. by destruct (Qltb 0 t). Qed.

Lemma saveResults_step (s : QNode) :
  current_step (saveResults s) = current_step s.
Proof. unfold saveResults. by destruct (under_test s). Qed.


(** The record under test has its vectors at full length; while the button
    sequence is not over, button 2 is not verified; the counters of the
    bumpers, wheel drops, cliffs and power plugs are not negative; and an
    accepted identity is the one the record carries and is not in the
    ledger. *)
Definition record_ok (r : Robot.t) (step : Z) (ledger : list Robot.t) : Prop :=
  (length (Robot.device_ok r) = DEVICES_COUNT
   /\ length (Robot.device_val r) = DEVICES_COUNT
   /\ length (Robot.imu_data r) = 5%nat)
  /\ (step <= BUTTON_2_RELEASED -> Robot.ok r BUTTON_2 = false)
  /\ (forall d, (BUMPER_L <= d <= PWR_DOCK)%nat -> 0 <= Robot.val r d)
  /\ (Robot.ok r V_INFO = true ->
        Robot.serial r = Robot.u_dev_id r
        /\ ledger_get ledger (Robot.serial r) = None).

Definition Inv (s : QNode) : Prop :=
  match under_test s with
  | Some r => record_ok r (current_step s) (evaluated s)
  | None => True
  end.

Section RecordOk.
Variables (r : Robot.t) (c : Z) (ev : list Robot.t).
Hypothesis H : record_ok r c ev.

Lemma record_ok_wf : wf r.
Proof. destruct H as ((? & ? & ?) & _). by split. Qed.

Lemma record_ok_set_ok (d : nat) (b : bool) :
  d <> BUTTON_2 -> d <> V_INFO -> record_ok (Robot.set_ok d b r) c ev.
Proof.
  intros H2 H0. destruct H as ((L1 & L2 & L3) & Hb & Hc & Hv).
  split; [repeat split; simpl; rewrite ?length_insert; done|].
  rewrite !ok_set_ok_ne by done. split; [exact Hb|]. split; [exact Hc|exact Hv].
Qed.

Lemma record_ok_set_val (d : nat) (v : Z) :
  ((BUMPER_L <= d <= PWR_DOCK)%nat -> 0 <= v) ->
  record_ok (Robot.set_val d v r) c ev.
Proof.
  intros Hd. destruct H as ((L1 & L2 & L3) & Hb & Hc & Hv).
  split; [repeat split; simpl; rewrite ?length_insert; done|].
  split; [exact Hb|]. split; [|exact Hv].
  intros d' Hd'. destruct (decide (d = d')) as [<-|Hne].
  - unfold Robot.val; simpl.
    destruct (decide (d < length (Robot.device_val r))%nat).
    + rewrite list_lookup_insert_eq by done. simpl. auto.
    + rewrite list_insert_ge by lia. apply (Hc d Hd').
  - rewrite val_set_val_ne by done. by apply Hc.
Qed.

Lemma record_ok_counter (d : nat) :
  record_ok (Robot.set_val d (Robot.val r d + 1) r) c ev.
Proof.
  apply record_ok_set_val. intros Hd.
  destruct H as (_ & _ & Hc & _). specialize (Hc d Hd). lia.
Qed.

Lemma record_ok_step (c' : Z) : c <= c' -> record_ok r c' ev.
Proof.
  intros Hc'. destruct H as (L & Hb & Hc & Hv).
  repeat split; try apply L; try done; try apply Hv; try done.
  intros Hle. apply Hb. lia.
Qed.

Lemma record_ok_button_2 (b : bool) (c' : Z) :
  BUTTON_2_RELEASED < c' -> record_ok (Robot.set_ok BUTTON_2 b r) c' ev.
Proof.
  intros Hc'. destruct H as ((L1 & L2 & L3) & Hb & Hc & Hv).
  split; [repeat split; simpl; rewrite ?length_insert; done|].
  split; [intros; lia|]. split; [exact Hc|].
  rewrite ok_set_ok_ne by done. exact Hv.
Qed.

Lemma record_ok_set_imu (i : nat) (x : Q) : record_ok (Robot.set_imu i x r) c ev.
Proof.
  destruct H as ((L1 & L2 & L3) & Hb & Hc & Hv).
  split; [repeat split; simpl; rewrite ?length_insert; done|].
  split; [exact Hb|]. split; [exact Hc|exact Hv].
Qed.

Lemma record_ok_set_analog_in (a : list AnalogRow) :
  record_ok (Robot.set_analog_in a r) c ev.
Proof. exact H. Qed.

Lemma record_ok_set_diagnostics (d : string) :
  record_ok (Robot.set_diagnostics d r) c ev.
Proof. exact H. Qed.

Lemma record_ok_set_state (st : Z) : record_ok (Robot.set_state st r) c ev.
Proof. exact H. Qed.

End RecordOk.

Ltac dev_neq := cbv -[Z.to_nat Nat.add]; lia.

Ltac record_ok_tac :=
  repeat first
    [ eassumption
    | apply record_ok_set_ok; [| dev_neq | dev_neq]
    | apply record_ok_counter
    | apply record_ok_set_imu
    | apply record_ok_set_analog_in
    | apply record_ok_set_diagnostics
    | apply record_ok_set_state
    | apply record_ok_set_val; [| cbv; lia] ].

Ltac record_ok_next :=
  first
    [ solve [record_ok_tac]
    | eapply record_ok_step; [solve [record_ok_tac] | unfold step_incr; lia] ].

Ltac split_ifs :=
  repeat match goal with
         | |- context [if ?c then _ else _] => destruct c eqn:?
         | |- context [match first_false ?i ?l with _ => _ end] =>
             destruct (first_false i l) eqn:?
         | |- context [match ledger_get ?l ?k with _ => _ end] =>
             destruct (ledger_get l k) eqn:?
         end.

Ltac inv_callback cb :=
  let Hu := fresh "Hu" in
  unfold Inv, cb;
  match goal with
  | |- context [under_test ?s] =>
      destruct (under_test s) as [?r|] eqn:Hu; [|by rewrite ?Hu]
  end;
  intros ?Hrec; split_ifs;
  cbn -[Robot.set_ok Robot.set_val Robot.set_imu Robot.val Robot.ok
        Robot.set_analog_in Robot.set_diagnostics Robot.set_state];
  rewrite ?Hu, ?move_step;
  cbn -[Robot.set_ok Robot.set_val Robot.set_imu Robot.val Robot.ok
        Robot.set_analog_in Robot.set_diagnostics Robot.set_state];
  try record_ok_next.

Lemma Inv_wDrop (wheel state : Z) (s : QNode) :
  Inv s -> Inv (wDropEventCB wheel state s).
Proof. inv_callback wDropEventCB. Qed.

Lemma Inv_cliff (sensor state : Z) (s : QNode) :
  Inv s -> Inv (cliffEventCB sensor state s).
Proof. inv_callback cliffEventCB. Qed.

Lemma Inv_power (event : Z) (s : QNode) :
  Inv s -> Inv (powerEventCB event s).
Proof. inv_callback powerEventCB. Qed.

Lemma Inv_sensorsCore (msg : SensorState) (s : QNode) :
  Inv s -> Inv (sensorsCoreCB msg s).
Proof. inv_callback sensorsCoreCB. Qed.

Lemma Inv_gyroscope (yaw : Q) (s : QNode) :
  Inv s -> Inv (gyroscopeCB yaw s).
Proof. inv_callback gyroscopeCB. Qed.

Lemma Inv_diagnostics (status : list DiagnosticStatus) (s : QNode) :
  Inv s -> Inv (diagnosticsCB status s).
Proof. inv_callback diagnosticsCB. Qed.

Lemma Inv_robotStatus (level : Z) (s : QNode) :
  Inv s -> Inv (robotStatusCB level s).
Proof. inv_callback robotStatusCB. Qed.

Lemma Inv_input (values : list bool) (s : QNode) :
  Inv s -> Inv (inputEventCB values s).
Proof. inv_callback inputEventCB. Qed.

Lemma Inv_dockBeacon (data : list Z) (s : QNode) :
  Inv s -> Inv (dockBeaconCB data s).
Proof. inv_callback dockBeaconCB. Qed.

Lemma Inv_bumper (bumper state : Z) (s : QNode) :
  Inv s -> Inv (bumperEventCB bumper state s).
Proof. inv_callback bumperEventCB. Qed.

Lemma Inv_timer (s : QNode) : Inv s -> Inv (timerEventCB s).
Proof.
  unfold Inv, timerEventCB, move. change (Qltb 0 0) with false. cbn.
  destruct (under_test s); [|done]. intros H.
  eapply record_ok_step; [exact H|unfold step_incr; lia].
Qed.

Lemma Inv_set_timer (t : option Q) (s : QNode) : Inv s -> Inv (set_timer t s).
Proof. done. Qed.

Lemma Inv_button (button state : Z) (s : QNode) :
  Inv s -> Inv (buttonEventCB button state s).
Proof.
  inv_callback buttonEventCB;
    (* the expected release: which button it is follows from the step *)
    match goal with
    | Hr : (_ <? _) || (_ >? _) = false,
      Hm : (_ =? expected_button _) && _ = true,
      Hs : (state =? Msg.RELEASED) = true |- _ =>
        apply orb_false_iff in Hr as [Hlo Hhi];
        apply Z.ltb_ge in Hlo; rewrite Z.gtb_ltb in Hhi;
        apply Z.ltb_ge in Hhi;
        apply andb_true_iff in Hm as [Hb Ha];
        apply Z.eqb_eq in Hb, Ha, Hs;
        unfold BUTTON_0_PRESSED, BUTTON_2_RELEASED, Msg.RELEASED in *;
        assert (Hc : current_step s = 4 \/ current_step s = 5
                     \/ current_step s = 6 \/ current_step s = 7
                     \/ current_step s = 8 \/ current_step s = 9) by lia;
        destruct Hc as [E|[E|[E|[E|[E|E]]]]]; rewrite E in Hb, Ha;
        vm_compute in Hb, Ha; subst button state; try discriminate
    end.
  all: change (Z.to_nat _) with 0%nat || change (Z.to_nat _) with 1%nat
       || change (Z.to_nat _) with 2%nat.
  all: try record_ok_next.
  all: apply (record_ok_button_2 _ _ _ Hrec); unfold step_incr; rewrite E;
    reflexivity.
Qed.

Lemma record_ok_new (n : nat) (c : Z) (ev : list Robot.t) :
  record_ok (Robot.new n) c ev.
Proof.
  split; [by repeat split|]. split; [intros _; reflexivity|].
  split; [|intros H; discriminate H].
  intros d Hd. unfold Robot.val, Robot.new; cbn [Robot.device_val].
  rewrite lookup_replicate_2 by (cbv in Hd |- *; lia). done.
Qed.

Lemma record_ok_adopt (r : Robot.t) (c : Z) (ev : list Robot.t)
  (id : list Z) (v : Z) :
  record_ok r c ev -> ledger_get ev id = None ->
  record_ok (Robot.set_ok V_INFO true
               (Robot.set_val V_INFO v (Robot.setSerial id r))) c ev.
Proof.
  intros ((L1 & L2 & L3) & Hb & Hc & Hv) Hid.
  split; [repeat split; simpl; rewrite ?length_insert; done|].
  split; [intros Hle; rewrite ok_set_ok_ne by done; by apply Hb|].
  split; [|by intros _].
  intros d Hd. rewrite val_set_ok, val_set_val_ne by (cbv in Hd |- *; lia).
  by apply Hc.
Qed.

Lemma Inv_versionInfo (msg : VersionInfo) (s : QNode) :
  Inv s -> Inv (versionInfoCB msg s).
Proof.
  unfold Inv, versionInfoCB, versionInfo_adopt.
  destruct (under_test s) as [r|] eqn:Hu; [|by rewrite Hu].
  intros Hrec. split_ifs; cbn -[Robot.set_ok Robot.set_val Robot.val];
    rewrite ?Hu; try done;
    (apply record_ok_adopt; [exact Hrec|]);
    match goal with
    | Hk : ledger_get _ _ = None |- _ => exact Hk
    end.
Qed.

Lemma Inv_saveResults (s : QNode) : Inv (saveResults s) .
Proof.
  unfold Inv, saveResults. destruct (under_test s) eqn:Hu; cbn;
    by rewrite ?Hu.
Qed.

Lemma Inv_robotEvent (st : Z) (s : QNode) :
  Inv s -> Inv (robotEventCB st s).
Proof.
  intros H. unfold robotEventCB. destruct (st =? Msg.ONLINE).
  - unfold Inv. cbn. apply record_ok_new.
  - destruct (st =? Msg.OFFLINE).
    + destruct (under_test s) eqn:Hu.
      * pose proof (Inv_saveResults
                      (if negb (Robot.all_ok t)
                       then log Info "Robot %s disconnected without finishing the evaluation" s
                       else log Info "Robot %s evaluation successfully completed" s)) as Hs.
        exact Hs.
      * unfold Inv in *. cbn. by rewrite Hu.
    + unfold Inv in *. cbn. exact H.
Qed.

(** Every callback keeps the invariant. *)
Lemma Inv_onEvent (e : Event) (s : QNode) : Inv s -> Inv (onEvent e s).
Proof.
  destruct e; simpl.
  - apply Inv_versionInfo.
  - apply Inv_sensorsCore.
  - apply Inv_dockBeacon.
  - apply Inv_gyroscope.
  - apply Inv_button.
  - apply Inv_bumper.
  - apply Inv_wDrop.
  - apply Inv_cliff.
  - apply Inv_power.
  - apply Inv_input.
  - apply Inv_diagnostics.
  - apply Inv_robotStatus.
  - apply Inv_robotEvent.
  - intros H. destruct (timer s); [|done]. by apply Inv_timer.
Qed.

Lemma Inv_spin (batch : list Event) (s : QNode) : Inv s -> Inv (spin batch s).
Proof.
  revert s. induction batch as [|e batch IH]; intros s H; [done|].
  unfold spin; simpl. apply IH. by apply Inv_onEvent.
Qed.

(** [m] keeps the invariant, whatever the environment serves. *)
Definition Preserves {A} (m : M A) : Prop :=
  forall w a w', Inv (node w) -> m w = Some (a, w') -> Inv (node w').

(** A state change that keeps the invariant. *)
Definition safe (f : QNode -> QNode) : Prop := forall s, Inv s -> Inv (f s).

Lemma Preserves_ret {A} (a : A) : Preserves (ret a).
Proof. intros w a' w' H E. by injection E as _ <-. Qed.

Lemma Preserves_bind {A B} (m : M A) (k : A -> M B) :
  Preserves m -> (forall a, Preserves (k a)) -> Preserves (bind m k).
Proof.
  intros Hm Hk w b w' H E. unfold bind in E.
  destruct (m w) as [[a w1]|] eqn:E1; [|done].
  eapply Hk; [|exact E]. eapply Hm; [exact H|exact E1].
Qed.

Lemma Preserves_lift (f : QNode -> QNode) : safe f -> Preserves (lift f).
Proof. intros Hf w a w' H E. injection E as _ <-. by apply Hf. Qed.

Lemma Preserves_get : Preserves get.
Proof. intros w a w' H E. by injection E as _ <-. Qed.

Lemma Preserves_robot : Preserves robot.
Proof.
  intros w a w' H E. unfold robot in E.
  destruct (under_test (node w)); [|done]. by injection E as _ <-.
Qed.

Lemma Preserves_update_robot (f : Robot.t -> Robot.t) :
  (forall r c ev, record_ok r c ev -> record_ok (f r) c ev) ->
  Preserves (update_robot f).
Proof.
  intros Hf w a w' H E. unfold update_robot, bind, robot, lift in E.
  unfold Inv in H. destruct (under_test (node w)) as [r|]; [|done].
  injection E as _ <-. unfold Inv; cbn. by apply Hf.
Qed.

Lemma Preserves_spinOnce : Preserves spinOnce.
Proof. intros w a w' H E. injection E as _ <-. by apply Inv_spin. Qed.

Lemma Preserves_getYaw : Preserves getYaw.
Proof. intros w a w' H E. by injection E as _ <-. Qed.

Lemma Preserves_imu_init : Preserves imu_init.
Proof. intros w a w' H E. by injection E as _ <-. Qed.

Lemma Preserves_when (b : bool) (m : M unit) : Preserves m -> Preserves (when b m).
Proof. intros Hm. destruct b; [done|apply Preserves_ret]. Qed.

Lemma safe_emit (o : Output) : safe (emit o).
Proof. by intros s. Qed.
Lemma safe_set_answer_req (b : bool) : safe (set_answer_req b).
Proof. by intros s. Qed.
Lemma safe_move (v w t : Q) : safe (move v w t).
Proof. intros s. unfold move. by destruct (Qltb 0 t). Qed.
Lemma safe_next_step : safe next_step.
Proof.
  intros s. unfold Inv; cbn. destruct (under_test s); [|done]. intros H.
  eapply record_ok_step; [exact H|unfold step_incr; lia].
Qed.

Ltac preserves_step :=
  first
    [ apply Preserves_ret
    | apply Preserves_get
    | apply Preserves_robot
    | apply Preserves_spinOnce
    | apply Preserves_getYaw
    | apply Preserves_imu_init
    | apply Preserves_when
    | apply Preserves_update_robot; intros ? ? ? ?; solve [record_ok_tac]
    | apply Preserves_lift;
      first [ apply safe_move | apply safe_next_step | by intros ? ]
    | apply Preserves_bind; [|intros ?]
    | match goal with
      | |- Preserves (if ?b then _ else _) => destruct b
      | |- Preserves (match ?x with Some _ => _ | None => _ end) => destruct x
      end ].
Ltac preserves := repeat preserves_step.

Lemma Preserves_move_blocking (v w t : Q) : Preserves (move_blocking v w t).
Proof. unfold move_blocking. preserves. Qed.

Lemma Preserves_testLeds (first_call : bool) : Preserves (testLeds first_call).
Proof.
  unfold testLeds. apply Preserves_bind; [preserves|intros _].
  generalize [1; 2; 3].
  intros l. induction l as [|c l IH]; simpl; [preserves|].
  apply Preserves_bind; [preserves|intros s]. destruct (_ =? _); [|preserves].
  do 5 (apply Preserves_bind; [preserves|intros _]). exact IH.
Qed.

Lemma Preserves_testSounds (first_call : bool) :
  Preserves (testSounds first_call).
Proof.
  unfold testSounds. apply Preserves_bind; [preserves|intros _].
  generalize [0; 1; 2; 3; 4; 5; 6].
  intros l. induction l as [|c l IH]; simpl; [preserves|].
  apply Preserves_bind; [preserves|intros s]. destruct (_ =? _); [|preserves].
  do 3 (apply Preserves_bind; [preserves|intros _]). exact IH.
Qed.

Lemma Preserves_acquire_yaw (n : nat) : Preserves (acquire_yaw n).
Proof.
  induction n as [|n IH]; simpl; [preserves|].
  apply Preserves_bind; [preserves|intros _].
  apply Preserves_bind; [preserves|intros [y|]]; [preserves|].
  apply Preserves_bind; [preserves|intros _]. exact IH.
Qed.

Lemma Preserves_charge_wait (n : nat) : Preserves (charge_wait n).
Proof.
  induction n as [|n IH]; simpl; [preserves|].
  apply Preserves_bind; [preserves|intros r]. destruct (_ =? _); [|preserves].
  apply Preserves_bind; [preserves|intros _]. exact IH.
Qed.

Ltac preserves_routines :=
  repeat first
    [ apply Preserves_acquire_yaw | apply Preserves_charge_wait
    | apply Preserves_move_blocking | preserves_step ].

Lemma Preserves_testIMU (first_call : bool) : Preserves (testIMU first_call).
Proof. unfold testIMU, testIMU_verdict, testIMU_leg. preserves_routines. Qed.

Lemma Preserves_measureCharge (first_call : bool) :
  Preserves (measureCharge first_call).
Proof. unfold measureCharge. preserves_routines. Qed.

Lemma Preserves_evalMotorsCurrent (first_call : bool) :
  Preserves (evalMotorsCurrent first_call).
Proof. unfold evalMotorsCurrent. preserves. Qed.

Lemma Preserves_testAnalogIn (first_call : bool) :
  Preserves (testAnalogIn first_call).
Proof.
  intros w a w' H E. unfold testAnalogIn, bind, robot in E.
  unfold Inv in H. destruct (under_test (node w)) as [r|] eqn:Hu; [|done].
  unfold testAnalogIn_on in E.
  destruct (analog_pass first_call r) as [v outs].
  destruct (v =? ALL_COVERED); injection E as _ <-; unfold Inv;
    destruct first_call; cbn -[Robot.set_ok Robot.set_val];
    record_ok_next.
Qed.

Lemma Preserves_step_action (step : Z) (changed : bool) (c : Z) :
  Preserves (step_action step changed c).
Proof.
  unfold step_action.
  repeat match goal with
         | |- context [if step =? ?k then _ else _] => destruct (step =? k)
         end;
    try solve [ repeat first
                  [ apply Preserves_testLeds | apply Preserves_testSounds
                  | apply Preserves_testIMU | apply Preserves_measureCharge
                  | apply Preserves_evalMotorsCurrent
                  | apply Preserves_testAnalogIn | preserves_step ] ].
  (* the last step: the record is saved and the node is idle again *)
  intros w a w' H E. unfold bind, robot, lift in E.
  destruct (under_test (node w)) eqn:Hu; [|done]. injection E as _ <-.
  unfold Inv, saveResults; cbn. by rewrite Hu.
Qed.

Lemma Preserves_run_iter : Preserves run_iter.
Proof.
  unfold run_iter. apply Preserves_bind; [apply Preserves_spinOnce|intros _].
  intros w a w' H E. unfold step_tick in E.
  destruct (under_test (node w)) eqn:Hu;
    [|unfold set_locals in E; by injection E as _ <-].
  destruct (timer_active (node w));
    [unfold set_locals in E; by injection E as _ <-|].
  unfold bind, set_locals in E.
  eapply Preserves_step_action; [|exact E]. exact H.
Qed.

(** The invariant holds after any number of iterations, on any
    environment. *)
Lemma Inv_run (n : nat) (w w' : World) :
  Inv (node w) -> run n w = Some (tt, w') -> Inv (node w').
Proof.
  revert w. induction n as [|n IH]; intros w H E; simpl in E.
  - by injection E as <-.
  - unfold bind in E. destruct (run_iter w) as [[[] w1]|] eqn:E1; [|done].
    eapply IH; [|exact E]. eapply Preserves_run_iter; [exact H|exact E1].
Qed.

(** The node after [QNode::init] satisfies it. *)
Lemma Inv_init : Inv init.
Proof. exact I. Qed.

(** ** Buttons: the ordered sequence *)

(** How far the button sequence has come: 0 at [BUTTON_0_PRESSED], 6 once
    button 2 has been released. *)
Definition progress (s : QNode) : Z := current_step s - BUTTON_0_PRESSED.

Definition button_sequence : list Event :=
  [EvButton 0 1; EvButton 0 0; EvButton 1 1; EvButton 1 0;
   EvButton 2 1; EvButton 2 0].

(** Evaluate the divisions and remainders of literals in a hypothesis. *)
Ltac zconst_in H :=
  repeat match type of H with
         | context [Z.div ?a ?b] =>
             let v := eval vm_compute in (Z.div a b) in
             change (Z.div a b) with v in H
         | context [Z.modulo ?a ?b] =>
             let v := eval vm_compute in (Z.modulo a b) in
             change (Z.modulo a b) with v in H
         end.

Lemma six_cases (p : Z) :
  0 <= p < 6 -> p = 0 \/ p = 1 \/ p = 2 \/ p = 3 \/ p = 4 \/ p = 5.
Proof. lia. Qed.

Lemma expected_button_spec (p : Z) :
  0 <= p < 6 ->
  expected_button (BUTTON_0_PRESSED + p) = p / 2
  /\ expected_button_action (BUTTON_0_PRESSED + p) = 1 - p mod 2.
Proof.
  intros Hp.
  destruct (six_cases p Hp) as [->|[->|[->|[->|[->| ->]]]]]; by vm_compute.
Qed.

Lemma buttons_ok_false_set (r : Robot.t) (b : nat) :
  wf r -> Robot.ok r BUTTON_2 = false -> b <> BUTTON_2 ->
  Robot.buttons_ok (Robot.set_ok b true r) = false.
Proof.
  intros Hwf H2 Hb. unfold Robot.buttons_ok.
  rewrite (ok_set_ok_ne b BUTTON_2) by done. rewrite H2.
  by rewrite andb_false_r.
Qed.

(** The effect of the expected event, written out. *)
Lemma button_match (s : QNode) (r : Robot.t) (p : Z) :
  under_test s = Some r -> progress s = p -> 0 <= p < 6 ->
  Robot.buttons_ok r = false ->
  buttonEventCB (p / 2) (1 - p mod 2) s
  = let dev := (BUTTON_0 + Z.to_nat (p / 2))%nat in
    let r' := if p mod 2 =? 1 then Robot.set_ok dev true r else r in
    let s1 := set_under_test (Some r') (log Info "Button %d %s, as expected" s) in
    next_step (if p =? 5 then log Info "Buttons evaluation completed" s1 else s1).
Proof.
  intros Hut Hp Hrange Hok.
  assert (Hstep : current_step s = BUTTON_0_PRESSED + p)
    by (unfold progress in Hp; lia).
  unfold buttonEventCB. rewrite Hut, Hstep, Hok.
  destruct (six_cases p Hrange) as [->|[->|[->|[->|[->| ->]]]]];
    vm_compute (_ + _); cbn; reflexivity.
Qed.

(** Any other event, while the sequence is running, changes nothing but the
    log. *)
Lemma button_mismatch (s : QNode) (button state : Z) :
  0 <= progress s < 6 ->
  button <> progress s / 2 \/ state <> 1 - progress s mod 2 ->
  buttonEventCB button state s = s
  \/ buttonEventCB button state s
     = log Warn "Unexpected button event: %d %s" s.
Proof.
  intros Hrange Hne.
  assert (Hstep : current_step s = BUTTON_0_PRESSED + progress s)
    by (unfold progress; lia).
  unfold buttonEventCB. destruct (under_test s) as [r|]; [|by left].
  rewrite Hstep.
  destruct (six_cases _ Hrange) as [Hp|[Hp|[Hp|[Hp|[Hp|Hp]]]]];
    rewrite Hp in *; vm_compute (_ + _); cbn;
    (destruct (Robot.buttons_ok r); [by left|]);
    vm_compute (expected_button _); vm_compute (expected_button_action _);
    repeat match goal with
           | |- context [?a =? ?b] => destruct (Z.eqb_spec a b)
           end;
    cbn; try (by right); exfalso; zconst_in Hne;
    unfold Msg.RELEASED in *; lia.
Qed.

Lemma button_step (s : QNode) (r : Robot.t) (p : Z) :
  under_test s = Some r -> progress s = p -> 0 <= p < 6 ->
  Robot.buttons_ok r = false ->
  let s' := buttonEventCB (p / 2) (1 - p mod 2) s in
  progress s' = p + 1
  /\ under_test s'
     = Some (if p mod 2 =? 1
             then Robot.set_ok (BUTTON_0 + Z.to_nat (p / 2)) true r else r).
Proof.
  intros Hut Hp Hrange Hok s'. subst s'.
  rewrite (button_match s r p Hut Hp Hrange Hok). cbv zeta.
  unfold progress in *.
  destruct (p =? 5); cbn; split; try reflexivity; unfold step_incr; lia.
Qed.

(** Three press/release pairs in order, from the start of the sequence. *)
Lemma button_sequence_run (s : QNode) (r : Robot.t) :
  under_test s = Some r -> wf r -> progress s = 0 ->
  Robot.ok r BUTTON_2 = false ->
  let s' := spin button_sequence s in
  progress s' = 6
  /\ exists r', under_test s' = Some r'
       /\ Robot.ok r' BUTTON_0 = true /\ Robot.ok r' BUTTON_1 = true
       /\ Robot.ok r' BUTTON_2 = true.
Proof.
  intros Hut Hwf Hp H2 s'. subst s'.
  assert (Hok0 : Robot.buttons_ok r = false)
    by (unfold Robot.buttons_ok; rewrite H2; apply andb_false_r).
  unfold spin, button_sequence; simpl foldl.
  destruct (button_step s r 0 Hut Hp ltac:(lia) Hok0) as [P1 U1].
  change (buttonEventCB (0 / 2) (1 - 0 mod 2) s)
    with (buttonEventCB 0 1 s) in P1, U1.
  change (if 0 mod 2 =? 1 then _ else r) with r in U1.
  destruct (button_step _ r 1 U1 P1 ltac:(lia) Hok0) as [P2 U2].
  change (buttonEventCB (1 / 2) (1 - 1 mod 2)) with (buttonEventCB 0 0) in P2, U2.
  change (if 1 mod 2 =? 1 then ?a else _) with a in U2.
  change (BUTTON_0 + Z.to_nat (1 / 2))%nat with BUTTON_0 in U2.
  set (r1 := Robot.set_ok BUTTON_0 true r) in *.
  assert (Hwf1 : wf r1) by (by apply wf_set_ok).
  assert (H21 : Robot.ok r1 BUTTON_2 = false)
    by (unfold r1; by rewrite ok_set_ok_ne).
  assert (Hok1 : Robot.buttons_ok r1 = false)
    by (by apply buttons_ok_false_set).
  destruct (button_step _ r1 2 U2 P2 ltac:(lia) Hok1) as [P3 U3].
  change (buttonEventCB (2 / 2) (1 - 2 mod 2)) with (buttonEventCB 1 1) in P3, U3.
  change (if 2 mod 2 =? 1 then _ else r1) with r1 in U3.
  destruct (button_step _ r1 3 U3 P3 ltac:(lia) Hok1) as [P4 U4].
  change (buttonEventCB (3 / 2) (1 - 3 mod 2)) with (buttonEventCB 1 0) in P4, U4.
  change (if 3 mod 2 =? 1 then ?a else _) with a in U4.
  change (BUTTON_0 + Z.to_nat (3 / 2))%nat with BUTTON_1 in U4.
  set (r2 := Robot.set_ok BUTTON_1 true r1) in *.
  assert (Hwf2 : wf r2) by (by apply wf_set_ok).
  assert (H22 : Robot.ok r2 BUTTON_2 = false)
    by (unfold r2; by rewrite ok_set_ok_ne).
  assert (Hok2 : Robot.buttons_ok r2 = false)
    by (by apply buttons_ok_false_set).
  destruct (button_step _ r2 4 U4 P4 ltac:(lia) Hok2) as [P5 U5].
  change (buttonEventCB (4 / 2) (1 - 4 mod 2)) with (buttonEventCB 2 1) in P5, U5.
  change (if 4 mod 2 =? 1 then _ else r2) with r2 in U5.
  destruct (button_step _ r2 5 U5 P5 ltac:(lia) Hok2) as [P6 U6].
  change (buttonEventCB (5 / 2) (1 - 5 mod 2)) with (buttonEventCB 2 0) in P6, U6.
  change (if 5 mod 2 =? 1 then ?a else _) with a in U6.
  change (BUTTON_0 + Z.to_nat (5 / 2))%nat with BUTTON_2 in U6.
  split; [exact P6|].
  eexists; split; [exact U6|].
  repeat split.
  - rewrite ok_set_ok_ne by done. unfold r2. rewrite ok_set_ok_ne by done.
    unfold r1. by apply ok_set_ok_eq; [vm_compute; lia|].
  - rewrite ok_set_ok_ne by done. unfold r2.
    by apply ok_set_ok_eq; [vm_compute; lia|].
  - by apply ok_set_ok_eq; [vm_compute; lia|].
Qed.

(** A unit fresh from its constructor, waiting at a given step. *)
Definition fresh_at (step : Z) : QNode :=
  set_current_step step (set_under_test (Some (Robot.new 0)) init).

Lemma Inv_fresh_at (step : Z) : Inv (fresh_at step).
Proof. unfold Inv; cbn. apply record_ok_new. Qed.

(** In a state the node can reach, a record in the button sequence is well
    formed and button 2 is still to be verified. *)
Lemma Inv_buttons (s : QNode) (r : Robot.t) :
  Inv s -> under_test s = Some r -> progress s < 6 ->
  wf r /\ Robot.ok r BUTTON_2 = false /\ Robot.buttons_ok r = false.
Proof.
  unfold Inv, progress. intros H Hu Hp. rewrite Hu in H.
  pose proof (record_ok_wf _ _ _ H) as Hwf.
  destruct H as (_ & Hb & _).
  assert (H2 : Robot.ok r BUTTON_2 = false)
    by (apply Hb; unfold BUTTON_0_PRESSED, BUTTON_2_RELEASED in *; lia).
  repeat split; try apply Hwf; try done.
  unfold Robot.buttons_ok. rewrite H2. apply andb_false_r.
Qed.

(** C2. The button protocol, in any state the node can reach ([Inv]).
    With [p] the progress through the sequence (0 to 5): (1) the expected
    button is [p / 2] and the expected action is [1 - p mod 2] (1 is
    pressed, 0 is released); (2) the expected event advances the progress by
    exactly one, and when it is a release it sets that button's verified
    flag (a press leaves the record as it is); (3) any other event changes
    neither the progress nor the record; (4) three ordered press/release
    pairs take the progress from 0 to 6 and set the three verified flags. *)
Theorem button_ordered_sequence :
  (forall p : Z, 0 <= p < 6 ->
     expected_button (BUTTON_0_PRESSED + p) = p / 2
     /\ expected_button_action (BUTTON_0_PRESSED + p) = 1 - p mod 2)
  /\ (forall (s : QNode) (r : Robot.t) (p : Z),
        Inv s -> under_test s = Some r -> progress s = p -> 0 <= p < 6 ->
        let s' := buttonEventCB (p / 2) (1 - p mod 2) s in
        progress s' = p + 1
        /\ exists r', under_test s' = Some r'
             /\ (1 - p mod 2 = Msg.RELEASED ->
                 Robot.ok r' (BUTTON_0 + Z.to_nat (p / 2)) = true)
             /\ (1 - p mod 2 = Msg.PRESSED -> r' = r))
  /\ (forall (s : QNode) (button state : Z),
        0 <= progress s < 6 ->
        button <> progress s / 2 \/ state <> 1 - progress s mod 2 ->
        let s' := buttonEventCB button state s in
        progress s' = progress s /\ under_test s' = under_test s)
  /\ (forall (s : QNode) (r : Robot.t),
        Inv s -> under_test s = Some r -> progress s = 0 ->
        let s' := spin button_sequence s in
        progress s' = 6
        /\ exists r', under_test s' = Some r'
             /\ Robot.ok r' BUTTON_0 = true /\ Robot.ok r' BUTTON_1 = true
             /\ Robot.ok r' BUTTON_2 = true).
Proof.
  split; [exact expected_button_spec|].
  split; [|split].
  - intros s r p HI Hut Hp Hrange s'.
    destruct (Inv_buttons s r HI Hut ltac:(lia)) as (Hwf & _ & Hok).
    destruct (button_step s r p Hut Hp Hrange Hok) as [P U].
    split; [exact P|]. eexists; split; [exact U|].
    destruct (six_cases p Hrange) as [->|[->|[->|[->|[->| ->]]]]];
      split; intros H; try (vm_compute in H; discriminate);
      try reflexivity;
      (apply ok_set_ok_eq; [vm_compute; lia|exact Hwf]).
  - intros s button state Hrange Hne s'. subst s'.
    destruct (button_mismatch s button state Hrange Hne) as [-> | ->];
      split; reflexivity.
  - intros s r HI Hut Hp.
    destruct (Inv_buttons s r HI Hut ltac:(lia)) as (Hwf & H2 & _).
    exact (button_sequence_run s r Hut Hwf Hp H2).
Qed.

Lemma button_ordered_sequence_witness :
  progress (spin button_sequence (fresh_at BUTTON_0_PRESSED)) = 6.
Proof.
  exact (proj1 (proj2 (proj2 (proj2 button_ordered_sequence))
                 (fresh_at BUTTON_0_PRESSED) (Robot.new 0)
                 (Inv_fresh_at BUTTON_0_PRESSED) eq_refl eq_refl)).
Defined.

(** ** The parity counters *)

(** The record after one counted event on [dev], [n] round trips being
    required: the common tail of the three parity callbacks. *)
Definition counted (dev : nat) (n : Z) (r : Robot.t) : Robot.t :=
  let r1 := Robot.set_val dev (Robot.val r dev + 1) r in
  if Robot.val r1 dev >=? n * 2 then Robot.set_ok dev true r1 else r1.

(** The action a device expects next, from the parity of its counter. *)
Definition expected_by_parity (v engage release : Z) : Z :=
  if v mod 2 =? 0 then engage else release.

Lemma cmod_2_nonneg (v : Z) : 0 <= v -> cmod v 2 = v mod 2.
Proof. intros Hv. unfold cmod. by rewrite Z.rem_mod_nonneg by lia. Qed.

Lemma parity_match_nonneg (e r : bool) (v : Z) :
  0 <= v -> parity_match e r v = if v mod 2 =? 0 then e else r.
Proof.
  intros Hv. unfold parity_match. rewrite cmod_2_nonneg by done.
  assert (Hm : v mod 2 = 0 \/ v mod 2 = 1)
    by (pose proof (Z.mod_pos_bound v 2); lia).
  destruct Hm as [-> | ->]; cbn; destruct e, r; reflexivity.
Qed.

Lemma counted_spec (dev : nat) (n : Z) (r : Robot.t) :
  wf r -> (dev < DEVICES_COUNT)%nat -> Robot.ok r dev = false ->
  let r' := counted dev n r in
  Robot.val r' dev = Robot.val r dev + 1
  /\ Robot.ok r' dev = (Robot.val r dev + 1 >=? n * 2)
  /\ (forall d, d <> dev ->
        Robot.val r' d = Robot.val r d /\ Robot.ok r' d = Robot.ok r d)
  /\ wf r'.
Proof.
  intros Hwf Hdev Hok r'. subst r'. unfold counted.
  rewrite val_set_val_eq by done.
  destruct (Robot.val r dev + 1 >=? n * 2).
  - rewrite val_set_ok, val_set_val_eq, ok_set_ok_eq
      by (try apply wf_set_val; done).
    repeat split; try (by apply wf_set_ok, wf_set_val; apply Hwf).
    + by rewrite val_set_ok, val_set_val_ne.
    + by rewrite ok_set_ok_ne, ok_set_val.
  - rewrite val_set_val_eq, ok_set_val by done.
    repeat split; try (by apply wf_set_val; apply Hwf); try done.
    by rewrite val_set_val_ne.
Qed.

Definition wDrop_dev (wheel : Z) : nat :=
  if wheel =? Msg.WHEEL_LEFT then W_DROP_L else W_DROP_R.
Definition cliff_dev (sensor : Z) : nat :=
  if sensor =? Msg.LEFT then CLIFF_L
  else if sensor =? Msg.RIGHT then CLIFF_R else CLIFF_C.
Definition power_dev (step : Z) : nat :=
  if step =? TEST_DC_ADAPTER then PWR_JACK else PWR_DOCK.
(** The plug event of the power source under evaluation. *)
Definition power_plug_event (step : Z) : Z :=
  if step =? TEST_DC_ADAPTER then Msg.PLUGGED_TO_ADAPTER
  else Msg.PLUGGED_TO_DOCKBASE.

Ltac eqb_cases :=
  repeat match goal with
         | |- context [?a =? ?b] => destruct (Z.eqb_spec a b)
         end.

Section ParityCallbacks.
Variables (s : QNode) (r : Robot.t).
Hypothesis Hut : under_test s = Some r.

Lemma wDrop_counted (wheel state : Z) :
  current_step s = TEST_WHEEL_DROP_SENSORS ->
  Robot.ok r (wDrop_dev wheel) = false -> 0 <= Robot.val r (wDrop_dev wheel) ->
  state = expected_by_parity (Robot.val r (wDrop_dev wheel))
            Msg.DROPPED Msg.RAISED ->
  under_test (wDropEventCB wheel state s)
  = Some (counted (wDrop_dev wheel) WHEEL_DROP_TESTS r).
Proof.
  intros Hstep Hok Hv Hst. unfold wDropEventCB, counted.
  rewrite Hut, Hstep. cbn [negb Z.eqb Pos.eqb TEST_WHEEL_DROP_SENSORS].
  fold (wDrop_dev wheel). rewrite Hok, parity_match_nonneg by done.
  unfold expected_by_parity in Hst.
  destruct (Robot.val r (wDrop_dev wheel) mod 2 =? 0); subst state; cbn;
    repeat match goal with |- context [if ?c then _ else _] => destruct c end;
    reflexivity.
Qed.

Lemma wDrop_ignored (wheel state : Z) :
  current_step s = TEST_WHEEL_DROP_SENSORS ->
  Robot.ok r (wDrop_dev wheel) = false -> 0 <= Robot.val r (wDrop_dev wheel) ->
  state <> expected_by_parity (Robot.val r (wDrop_dev wheel))
             Msg.DROPPED Msg.RAISED ->
  wDropEventCB wheel state s
  = log Warn "Unexpected wheel drop event: %d, %d" s.
Proof.
  intros Hstep Hok Hv Hst. unfold wDropEventCB.
  rewrite Hut, Hstep. cbn [negb Z.eqb Pos.eqb TEST_WHEEL_DROP_SENSORS].
  fold (wDrop_dev wheel). rewrite Hok, parity_match_nonneg by done.
  unfold expected_by_parity in Hst.
  destruct (Robot.val r (wDrop_dev wheel) mod 2 =? 0);
    destruct (Z.eqb_spec state Msg.DROPPED);
    destruct (Z.eqb_spec state Msg.RAISED); try reflexivity; contradiction.
Qed.

Lemma wDrop_verified (wheel state : Z) :
  Robot.ok r (wDrop_dev wheel) = true -> wDropEventCB wheel state s = s.
Proof.
  intros Hok. unfold wDropEventCB. rewrite Hut.
  destruct (negb _); [done|]. fold (wDrop_dev wheel). by rewrite Hok.
Qed.

Lemma cliff_counted (sensor state : Z) :
  current_step s = TEST_CLIFF_SENSORS ->
  Robot.ok r (cliff_dev sensor) = false -> 0 <= Robot.val r (cliff_dev sensor) ->
  state = expected_by_parity (Robot.val r (cliff_dev sensor))
            Msg.CLIFF Msg.FLOOR ->
  under_test (cliffEventCB sensor state s)
  = Some (counted (cliff_dev sensor) CLIFF_SENSOR_TESTS r).
Proof.
  intros Hstep Hok Hv Hst. unfold cliffEventCB, counted.
  rewrite Hut, Hstep. cbn [negb Z.eqb Pos.eqb TEST_CLIFF_SENSORS].
  fold (cliff_dev sensor). rewrite Hok, parity_match_nonneg by done.
  unfold expected_by_parity in Hst.
  destruct (Robot.val r (cliff_dev sensor) mod 2 =? 0); subst state; cbn;
    repeat match goal with |- context [if ?c then _ else _] => destruct c end;
    reflexivity.
Qed.

Lemma cliff_ignored (sensor state : Z) :
  current_step s = TEST_CLIFF_SENSORS ->
  Robot.ok r (cliff_dev sensor) = false -> 0 <= Robot.val r (cliff_dev sensor) ->
  state <> expected_by_parity (Robot.val r (cliff_dev sensor))
             Msg.CLIFF Msg.FLOOR ->
  cliffEventCB sensor state s
  = log Warn "Unexpected cliff sensor event: %d, %d" s.
Proof.
  intros Hstep Hok Hv Hst. unfold cliffEventCB.
  rewrite Hut, Hstep. cbn [negb Z.eqb Pos.eqb TEST_CLIFF_SENSORS].
  fold (cliff_dev sensor). rewrite Hok, parity_match_nonneg by done.
  unfold expected_by_parity in Hst.
  destruct (Robot.val r (cliff_dev sensor) mod 2 =? 0);
    destruct (Z.eqb_spec state Msg.CLIFF);
    destruct (Z.eqb_spec state Msg.FLOOR); try reflexivity; contradiction.
Qed.

Lemma cliff_verified (sensor state : Z) :
  Robot.ok r (cliff_dev sensor) = true -> cliffEventCB sensor state s = s.
Proof.
  intros Hok. unfold cliffEventCB. rewrite Hut.
  destruct (negb _); [done|]. fold (cliff_dev sensor). by rewrite Hok.
Qed.

End ParityCallbacks.

Section PowerCallback.
Variables (s : QNode) (r : Robot.t).
Hypothesis Hut : under_test s = Some r.
Hypothesis Hstep :
  current_step s = TEST_DC_ADAPTER \/ current_step s = TEST_DOCKING_BASE.

Lemma power_dev_unverified :
  Robot.ok r (power_dev (current_step s)) = false ->
  Robot.pwr_src_ok r = false.
Proof.
  unfold Robot.pwr_src_ok.
  destruct Hstep as [-> | ->]; cbn; intros ->; [done|apply andb_false_r].
Qed.

Lemma power_counted (event : Z) :
  Robot.ok r (power_dev (current_step s)) = false ->
  0 <= Robot.val r (power_dev (current_step s)) ->
  event = expected_by_parity (Robot.val r (power_dev (current_step s)))
            (power_plug_event (current_step s)) Msg.UNPLUGGED ->
  under_test (powerEventCB event s)
  = Some (counted (power_dev (current_step s)) POWER_PLUG_TESTS r).
Proof.
  intros Hok Hv Hev. unfold powerEventCB, counted.
  rewrite Hut, (power_dev_unverified Hok).
  fold (power_dev (current_step s)). rewrite Hok.
  rewrite parity_match_nonneg by done.
  unfold expected_by_parity in Hev.
  destruct Hstep as [E | E]; rewrite E in *; cbn in Hev |- *;
    destruct (Robot.val r _ mod 2 =? 0); subst event; cbn;
    repeat match goal with |- context [if ?c then _ else _] => destruct c end;
    reflexivity.
Qed.

Lemma power_ignored (event : Z) :
  Robot.ok r (power_dev (current_step s)) = false ->
  0 <= Robot.val r (power_dev (current_step s)) ->
  event <> expected_by_parity (Robot.val r (power_dev (current_step s)))
             (power_plug_event (current_step s)) Msg.UNPLUGGED ->
  powerEventCB event s = log Warn "Unexpected power event: %d" s.
Proof.
  intros Hok Hv Hev. unfold powerEventCB.
  rewrite Hut, (power_dev_unverified Hok).
  fold (power_dev (current_step s)). rewrite Hok.
  rewrite parity_match_nonneg by done.
  unfold expected_by_parity in Hev.
  destruct Hstep as [E | E]; rewrite E in *; cbn in Hev |- *;
    destruct (Robot.val r _ mod 2 =? 0);
    destruct (Z.eqb_spec event Msg.PLUGGED_TO_ADAPTER);
    destruct (Z.eqb_spec event Msg.PLUGGED_TO_DOCKBASE);
    destruct (Z.eqb_spec event Msg.UNPLUGGED);
    try reflexivity; contradiction.
Qed.

Lemma power_verified (event : Z) :
  Robot.ok r (power_dev (current_step s)) = true -> powerEventCB event s = s.
Proof.
  intros Hok. unfold powerEventCB. rewrite Hut.
  destruct (Robot.pwr_src_ok r); [done|].
  fold (power_dev (current_step s)). rewrite Hok.
  by destruct Hstep as [-> | ->].
Qed.

End PowerCallback.

(** ** Bumpers: expectations come from the step *)

Definition bumper_dev (bumper : Z) : nat := (BUMPER_L + Z.to_nat bumper)%nat.

Lemma bumper_steps (c : Z) :
  CENTER_BUMPER_PRESSED <= c <= LEFT_BUMPER_RELEASED ->
  c = 14 \/ c = 15 \/ c = 16 \/ c = 17 \/ c = 18 \/ c = 19 \/ c = 20 \/ c = 21.
Proof. unfold CENTER_BUMPER_PRESSED, LEFT_BUMPER_RELEASED. lia. Qed.

Section BumperCallback.
Variables (s : QNode) (r : Robot.t).
Hypothesis Hut : under_test s = Some r.
Hypothesis Hok : Robot.bumpers_ok r = false.
Hypothesis Hstep :
  CENTER_BUMPER_PRESSED <= current_step s <= LEFT_BUMPER_RELEASED.

Lemma bumper_counted (bumper state : Z) :
  bumper = expected_bumper (current_step s) ->
  state = expected_bumper_action (current_step s) ->
  under_test (bumperEventCB bumper state s)
  = Some (let dev := bumper_dev bumper in
          let r1 := Robot.set_val dev (Robot.val r dev + 1) r in
          if state =? Msg.PRESSED then r1 else Robot.set_ok dev true r1).
Proof.
  intros Hb Hst. unfold bumperEventCB. rewrite Hut, Hok.
  destruct (bumper_steps _ Hstep) as [E|[E|[E|[E|[E|[E|[E|E]]]]]]];
    rewrite E in *; vm_compute in Hb, Hst; subst bumper state;
    vm_compute (expected_bumper _); vm_compute (expected_bumper_action _);
    cbn -[Robot.set_val Robot.set_ok Robot.val]; rewrite ?E;
    repeat match goal with |- context [if ?c then _ else _] => destruct c end;
    reflexivity.
Qed.

Lemma bumper_ignored (bumper state : Z) :
  bumper <> expected_bumper (current_step s)
  \/ state <> expected_bumper_action (current_step s) ->
  bumperEventCB bumper state s
  = log Warn "Unexpected bumper event: %d %s" s.
Proof.
  intros Hne. unfold bumperEventCB. rewrite Hut, Hok.
  destruct (bumper_steps _ Hstep) as [E|[E|[E|[E|[E|[E|[E|E]]]]]]];
    rewrite E in *;
    vm_compute (expected_bumper _) in *;
    vm_compute (expected_bumper_action _) in *;
    cbn [Z.ltb Z.gtb Z.compare Pos.compare Pos.compare_cont orb
         CENTER_BUMPER_PRESSED LEFT_BUMPER_RELEASED];
    eqb_cases; try reflexivity; exfalso; lia.
Qed.

End BumperCallback.

(** What one counted event does to the record: the counter of [dev] goes up
    by one, its flag is set exactly when the new value reaches [2 * n], and
    no other device is touched. *)
Definition counts_one (dev : nat) (n : Z) (r : Robot.t) (u : option Robot.t)
  : Prop :=
  exists r', u = Some r'
    /\ Robot.val r' dev = Robot.val r dev + 1
    /\ Robot.ok r' dev = (Robot.val r dev + 1 >=? n * 2)
    /\ forall d, d <> dev ->
         Robot.val r' d = Robot.val r d /\ Robot.ok r' d = Robot.ok r d.

Lemma counted_counts_one (dev : nat) (n : Z) (r : Robot.t) :
  wf r -> (dev < DEVICES_COUNT)%nat -> Robot.ok r dev = false ->
  counts_one dev n r (Some (counted dev n r)).
Proof.
  intros Hwf Hdev Hok.
  destruct (counted_spec dev n r Hwf Hdev Hok) as (Hv & Ho & Hfr & _).
  exists (counted dev n r). auto.
Qed.

Lemma wDrop_dev_lt wheel : (wDrop_dev wheel < DEVICES_COUNT)%nat.
Proof. unfold wDrop_dev. destruct (_ =? _); vm_compute; lia. Qed.
Lemma cliff_dev_lt sensor : (cliff_dev sensor < DEVICES_COUNT)%nat.
Proof. unfold cliff_dev. repeat destruct (_ =? _); vm_compute; lia. Qed.
Lemma power_dev_lt step : (power_dev step < DEVICES_COUNT)%nat.
Proof. unfold power_dev. destruct (_ =? _); vm_compute; lia. Qed.

Definition wheel_drop_parity : Prop :=
  forall (s : QNode) (r : Robot.t) (wheel state : Z),
    Inv s -> under_test s = Some r ->
    current_step s = TEST_WHEEL_DROP_SENSORS ->
    let dev := wDrop_dev wheel in
    let expected := expected_by_parity (Robot.val r dev) Msg.DROPPED Msg.RAISED in
    let s' := wDropEventCB wheel state s in
    (Robot.ok r dev = false -> state = expected ->
       counts_one dev WHEEL_DROP_TESTS r (under_test s'))
    /\ (Robot.ok r dev = false -> state <> expected ->
          s' = log Warn "Unexpected wheel drop event: %d, %d" s)
    /\ (Robot.ok r dev = true -> s' = s).

Definition cliff_parity : Prop :=
  forall (s : QNode) (r : Robot.t) (sensor state : Z),
    Inv s -> under_test s = Some r ->
    current_step s = TEST_CLIFF_SENSORS ->
    let dev := cliff_dev sensor in
    let expected := expected_by_parity (Robot.val r dev) Msg.CLIFF Msg.FLOOR in
    let s' := cliffEventCB sensor state s in
    (Robot.ok r dev = false -> state = expected ->
       counts_one dev CLIFF_SENSOR_TESTS r (under_test s'))
    /\ (Robot.ok r dev = false -> state <> expected ->
          s' = log Warn "Unexpected cliff sensor event: %d, %d" s)
    /\ (Robot.ok r dev = true -> s' = s).

Definition power_plug_parity : Prop :=
  forall (s : QNode) (r : Robot.t) (event : Z),
    Inv s -> under_test s = Some r ->
    current_step s = TEST_DC_ADAPTER \/ current_step s = TEST_DOCKING_BASE ->
    let dev := power_dev (current_step s) in
    let expected := expected_by_parity (Robot.val r dev)
                      (power_plug_event (current_step s)) Msg.UNPLUGGED in
    let s' := powerEventCB event s in
    (Robot.ok r dev = false -> event = expected ->
       counts_one dev POWER_PLUG_TESTS r (under_test s'))
    /\ (Robot.ok r dev = false -> event <> expected ->
          s' = log Warn "Unexpected power event: %d" s)
    /\ (Robot.ok r dev = true -> s' = s).

Definition bumper_by_step : Prop :=
  forall (s : QNode) (r : Robot.t) (bumper state : Z),
    Inv s -> under_test s = Some r -> Robot.bumpers_ok r = false ->
    CENTER_BUMPER_PRESSED <= current_step s <= LEFT_BUMPER_RELEASED ->
    let dev := bumper_dev bumper in
    let s' := bumperEventCB bumper state s in
    (bumper = expected_bumper (current_step s) ->
     state = expected_bumper_action (current_step s) ->
       exists r', under_test s' = Some r'
         /\ Robot.val r' dev = Robot.val r dev + 1
         /\ Robot.ok r' dev
            = (if state =? Msg.PRESSED then Robot.ok r dev else true))
    /\ (bumper <> expected_bumper (current_step s)
        \/ state <> expected_bumper_action (current_step s) ->
          s' = log Warn "Unexpected bumper event: %d %s" s).

(** In a state the node can reach, the record is well formed and the
    counters of the parity devices are not negative. *)
Lemma Inv_record (s : QNode) (r : Robot.t) :
  Inv s -> under_test s = Some r ->
  wf r /\ forall d, (BUMPER_L <= d <= PWR_DOCK)%nat -> 0 <= Robot.val r d.
Proof.
  unfold Inv. intros H Hu. rewrite Hu in H.
  split; [by apply (record_ok_wf _ _ _ H)|]. apply H.
Qed.

Lemma wDrop_dev_counter wheel : (BUMPER_L <= wDrop_dev wheel <= PWR_DOCK)%nat.
Proof. unfold wDrop_dev. destruct (_ =? _); vm_compute; lia. Qed.
Lemma cliff_dev_counter sensor : (BUMPER_L <= cliff_dev sensor <= PWR_DOCK)%nat.
Proof. unfold cliff_dev. repeat destruct (_ =? _); vm_compute; lia. Qed.
Lemma power_dev_counter step : (BUMPER_L <= power_dev step <= PWR_DOCK)%nat.
Proof. unfold power_dev. destruct (_ =? _); vm_compute; lia. Qed.

Lemma wheel_drop_parity_holds : wheel_drop_parity.
Proof.
  intros s r wheel state HI Hut Hstep dev expected s'.
  destruct (Inv_record s r HI Hut) as [Hwf Hc].
  pose proof (Hc _ (wDrop_dev_counter wheel)) as Hv.
  repeat split.
  - intros Hok Hst. subst s'.
    rewrite (wDrop_counted s r Hut wheel state Hstep Hok Hv Hst).
    apply counted_counts_one; [done|apply wDrop_dev_lt|done].
  - intros Hok Hst. by apply (wDrop_ignored s r Hut).
  - intros Hok. by apply (wDrop_verified s r Hut).
Qed.

Lemma cliff_parity_holds : cliff_parity.
Proof.
  intros s r sensor state HI Hut Hstep dev expected s'.
  destruct (Inv_record s r HI Hut) as [Hwf Hc].
  pose proof (Hc _ (cliff_dev_counter sensor)) as Hv.
  repeat split.
  - intros Hok Hst. subst s'.
    rewrite (cliff_counted s r Hut sensor state Hstep Hok Hv Hst).
    apply counted_counts_one; [done|apply cliff_dev_lt|done].
  - intros Hok Hst. by apply (cliff_ignored s r Hut).
  - intros Hok. by apply (cliff_verified s r Hut).
Qed.

Lemma power_plug_parity_holds : power_plug_parity.
Proof.
  intros s r event HI Hut Hstep dev expected s'.
  destruct (Inv_record s r HI Hut) as [Hwf Hc].
  pose proof (Hc _ (power_dev_counter (current_step s))) as Hv.
  repeat split.
  - intros Hok Hev. subst s'.
    rewrite (power_counted s r Hut Hstep event Hok Hv Hev).
    apply counted_counts_one; [done|apply power_dev_lt|done].
  - intros Hok Hev. by apply (power_ignored s r Hut Hstep).
  - intros Hok. by apply (power_verified s r Hut Hstep).
Qed.

Lemma expected_bumper_dev_lt (c : Z) :
  CENTER_BUMPER_PRESSED <= c <= LEFT_BUMPER_RELEASED ->
  (bumper_dev (expected_bumper c) < DEVICES_COUNT)%nat.
Proof.
  intros Hc.
  destruct (bumper_steps _ Hc) as [E|[E|[E|[E|[E|[E|[E|E]]]]]]];
    rewrite E; vm_compute; lia.
Qed.

Lemma bumper_by_step_holds : bumper_by_step.
Proof.
  intros s r bumper state HI Hut Hok Hstep dev s'.
  destruct (Inv_record s r HI Hut) as [Hwf _]. split.
  - intros Hb Hst. subst s'.
    rewrite (bumper_counted s r Hut Hok Hstep bumper state Hb Hst).
    assert (Hdev : (dev < DEVICES_COUNT)%nat)
      by (subst dev; rewrite Hb; by apply expected_bumper_dev_lt).
    eexists; split; [reflexivity|]. cbv zeta. fold dev.
    destruct (state =? Msg.PRESSED).
    + by rewrite val_set_val_eq, ok_set_val.
    + rewrite val_set_ok, val_set_val_eq, ok_set_ok_eq
        by (try apply wf_set_val; done). done.
  - intros Hne. by apply (bumper_ignored s r Hut Hok Hstep).
Qed.

(** C1, as the code has it, in any state the node can reach ([Inv]).
    Wheel drop, cliff and power plug follow the parity protocol while their
    step is the current one: a device that is not yet verified expects
    "engage" on an even measured value and "release" on an odd one; the
    expected event adds exactly one to the
    measured value and sets the verified flag exactly when the new value has
    reached 2N (N = 2 for wheel drop and cliff, 1 for power plug); any other
    event changes nothing but the log; an event for a verified device
    changes nothing.  For the bumpers the expected bumper and action come
    from the current step, not from the parity: the expected event adds one
    to that bumper's measured value and, unless it is a press, sets its
    verified flag; any other event changes nothing but the log. *)
Theorem parity_counters :
  (WHEEL_DROP_TESTS = 2 /\ CLIFF_SENSOR_TESTS = 2 /\ POWER_PLUG_TESTS = 1)
  /\ wheel_drop_parity /\ cliff_parity /\ power_plug_parity
  /\ bumper_by_step.
Proof.
  split; [done|].
  split; [exact wheel_drop_parity_holds|].
  split; [exact cliff_parity_holds|].
  split; [exact power_plug_parity_holds|exact bumper_by_step_holds].
Qed.

(** A left wheel dropped on a fresh unit is counted. *)
Lemma parity_counters_witness :
  counts_one W_DROP_L WHEEL_DROP_TESTS (Robot.new 0)
    (under_test (wDropEventCB Msg.WHEEL_LEFT Msg.DROPPED
                   (fresh_at TEST_WHEEL_DROP_SENSORS))).
Proof.
  exact (proj1 (proj1 (proj2 parity_counters)
                  (fresh_at TEST_WHEEL_DROP_SENSORS) (Robot.new 0)
                  Msg.WHEEL_LEFT Msg.DROPPED
                  (Inv_fresh_at TEST_WHEEL_DROP_SENSORS) eq_refl eq_refl)
           eq_refl eq_refl).
Defined.

(** C1 as stated fails for the bumpers.  The centre bumper is pressed
    (counter 1, odd: by parity a release is expected next) and the backing
    motion ends before the release arrives.  The step then still expects the
    centre bumper, but the release is refused: the counter stays at 1 and
    the bumper stays unverified. *)
Lemma bumper_parity_counterexample :
  let s := spin [EvBumper Msg.CENTER Msg.PRESSED; EvTimer]
             (fresh_at CENTER_BUMPER_PRESSED) in
  exists r, under_test s = Some r
    /\ expected_bumper (current_step s) = Msg.CENTER
    /\ Robot.ok r BUMPER_C = false
    /\ Robot.val r BUMPER_C mod 2 = 1
    /\ bumperEventCB Msg.CENTER Msg.RELEASED s
       = log Warn "Unexpected bumper event: %d %s" s.
Proof. vm_compute. eexists. repeat split. Qed.

(** ** Duplicate serial *)

(** The message repeats the identity the record has already adopted: the
    case [versionInfoCB] dismisses before it looks at the ledger. *)
Definition repeats_identity (msg : VersionInfo) (r : Robot.t) : bool :=
  Robot.ok r V_INFO && udid_equal (udid msg) (Robot.u_dev_id r).

(** Every event but "unit online". *)
Definition not_online (e : Event) : bool :=
  match e with
  | EvRobotEvent st => negb (st =? Msg.ONLINE)
  | _ => true
  end.

(** No unit under test, ledger and result file as in [s]. *)
Definition idle_as (s s' : QNode) : Prop :=
  under_test s' = None /\ evaluated s' = evaluated s /\ out_file s' = out_file s.

Lemma onEvent_stays_idle (e : Event) (s : QNode) :
  under_test s = None -> not_online e = true -> idle_as s (onEvent e s).
Proof.
  intros Hnone Hne. destruct e as [| | | | | | | | | | | |st|];
    try (rewrite onEvent_idle by done; by repeat split).
  - (* robot event: offline or unknown *)
    simpl in *. unfold robotEventCB.
    destruct (st =? Msg.ONLINE); [discriminate|].
    destruct (st =? Msg.OFFLINE); rewrite ?Hnone; by repeat split.
  - (* timer *)
    simpl. destruct (timer s); by repeat split.
Qed.

Lemma spin_stays_idle (batch : list Event) (s : QNode) :
  under_test s = None -> forallb not_online batch = true ->
  idle_as s (spin batch s).
Proof.
  revert s. induction batch as [|e batch IH]; intros s Hnone Hall.
  - by repeat split.
  - simpl in Hall. apply andb_true_iff in Hall as [He Hb].
    destruct (onEvent_stays_idle e s Hnone He) as (U & E & O).
    destruct (IH (onEvent e s) U Hb) as (U' & E' & O').
    unfold spin in *; simpl. repeat split; congruence.
Qed.

(** The control loop leaves an idle node idle, whatever it is fed, as long
    as no "unit online" arrives. *)
Lemma run_stays_idle (n : nat) (w : World) :
  under_test (node w) = None ->
  forallb (forallb not_online) (batches w) = true ->
  exists w', run n w = Some (tt, w') /\ idle_as (node w) (node w').
Proof.
  revert w. induction n as [|n IH]; intros w Hnone Hall.
  - exists w. by repeat split.
  - assert (Hhd : forallb not_online (hd [] (batches w)) = true)
      by (destruct (batches w); simpl in *; [done|];
          by apply andb_true_iff in Hall as [? _]).
    assert (Htl : forallb (forallb not_online) (tl (batches w)) = true)
      by (destruct (batches w); simpl in *; [done|];
          by apply andb_true_iff in Hall as [_ ?]).
    destruct (spin_stays_idle _ (node w) Hnone Hhd) as (U & E & O).
    simpl. unfold run_iter, bind, spinOnce, step_tick; simpl. rewrite U.
    unfold set_locals; simpl.
    edestruct (IH (mkWorld (spin (hd [] (batches w)) (node w)) (count w + 1)
                    (previous_step w) (tl (batches w)) (camera_ok w)
                    (camera w))) as (w' & Hrun & U' & E' & O'); [done..|].
    exists w'. split; [exact Hrun|]. simpl in *. repeat split; congruence.
Qed.

Lemma versionInfo_rejects (msg : VersionInfo) (s : QNode) (r : Robot.t) :
  under_test s = Some r ->
  is_Some (ledger_get (evaluated s) (udid msg)) ->
  repeats_identity msg r = false ->
  let s' := versionInfoCB msg s in
  idle_as s s'
  /\ head (trace s')
     = Some (ShowUserMsg Error "Known robot"
         "Robot %s has been previously evaluated. Proceed with a new robot").
Proof.
  intros Hut [known Hknown] Hrep s'. subst s'.
  unfold versionInfoCB, repeats_identity in *. rewrite Hut.
  destruct (Robot.ok r V_INFO); simpl in Hrep.
  - rewrite Hrep. unfold versionInfo_adopt; simpl. rewrite Hknown.
    by repeat split.
  - unfold versionInfo_adopt; simpl. rewrite Hknown. by repeat split.
Qed.

(** In a state the node can reach, a message whose identifier is in the
    ledger cannot be the repetition of an accepted identity (identifiers
    having one length). *)
Lemma known_is_no_repetition (msg : VersionInfo) (s : QNode) (r : Robot.t) :
  Inv s -> under_test s = Some r ->
  is_Some (ledger_get (evaluated s) (udid msg)) ->
  (Robot.ok r V_INFO = true ->
   length (udid msg) = length (Robot.u_dev_id r)) ->
  repeats_identity msg r = false.
Proof.
  unfold Inv. intros H Hu [known Hknown] Hlen. rewrite Hu in H.
  destruct H as (_ & _ & _ & Hv). unfold repeats_identity.
  destruct (Robot.ok r V_INFO) eqn:Hok; [|done]. simpl.
  specialize (Hlen eq_refl). destruct (Hv eq_refl) as [Hs Hl].
  unfold udid_equal. apply bool_decide_eq_false. intros Heq.
  rewrite take_ge in Heq by lia. congruence.
Qed.

(** C3. In any state the node can reach ([Inv]), with a unit under test
    and identifiers of one length: an identification message whose serial
    is already in the ledger has the record discarded and the error "Known
    robot" shown; the ledger and the result file are unchanged; and the node
    stays without a unit under test through any further events and loop
    iterations until a "unit online" arrives. *)
Theorem duplicate_serial_rejected (msg : VersionInfo) (s : QNode) (r : Robot.t) :
  Inv s -> under_test s = Some r ->
  is_Some (ledger_get (evaluated s) (udid msg)) ->
  (Robot.ok r V_INFO = true ->
   length (udid msg) = length (Robot.u_dev_id r)) ->
  let s' := versionInfoCB msg s in
  under_test s' = None
  /\ head (trace s')
     = Some (ShowUserMsg Error "Known robot"
         "Robot %s has been previously evaluated. Proceed with a new robot")
  /\ evaluated s' = evaluated s
  /\ out_file s' = out_file s
  /\ (forall batch, forallb not_online batch = true ->
        idle_as s (spin batch s'))
  /\ (forall n w, node w = s' ->
        forallb (forallb not_online) (batches w) = true ->
        exists w', run n w = Some (tt, w') /\ idle_as s (node w')).
Proof.
  intros HI Hut Hknown Hlen s'.
  pose proof (known_is_no_repetition msg s r HI Hut Hknown Hlen) as Hrep.
  destruct (versionInfo_rejects msg s r Hut Hknown Hrep) as [(U & E & O) Htr].
  fold s' in U, E, O, Htr.
  split; [exact U|]. split; [exact Htr|]. split; [exact E|].
  split; [exact O|]. split.
  - intros batch Hb.
    destruct (spin_stays_idle batch s' U Hb) as (U' & E' & O').
    repeat split; congruence.
  - intros n w Hw Hall.
    destruct (run_stays_idle n w) as (w' & Hrun & U' & E' & O');
      [by rewrite Hw|done|].
    exists w'. rewrite Hw in *. repeat split; congruence.
Qed.

(** A unit is evaluated and goes offline; a second unit comes online and
    announces the same identifier. *)
Definition second_unit : QNode :=
  spin [EvRobotEvent Msg.ONLINE;
        EvVersionInfo (mkVersionInfo [1; 2; 3] 1 1 1);
        EvRobotEvent Msg.OFFLINE;
        EvRobotEvent Msg.ONLINE] init.

Lemma duplicate_serial_rejected_witness :
  under_test (versionInfoCB (mkVersionInfo [1; 2; 3] 1 1 1) second_unit) = None.
Proof.
  refine (proj1 (duplicate_serial_rejected (mkVersionInfo [1; 2; 3] 1 1 1)
                   second_unit (Robot.new 1) _ eq_refl _ _)).
  - apply Inv_spin, Inv_init.
  - vm_compute. eexists. reflexivity.
  - intros H. discriminate H.
Defined.

(** ** Evolution of the current step *)

(** The step stays, or advances by one. *)
Definition advance (a b : Z) : Prop := b = a \/ b = a + 1.

Ltac break_ifs :=
  repeat match goal with
         | |- context [if ?c then _ else _] => destruct c
         | |- context [match ?x with Some _ => _ | None => _ end] => destruct x
         end.

(** Every callback but "unit online/offline" leaves the step or advances it
    by one. *)
Lemma callback_advances (e : Event) (s : QNode) :
  match e with
  | EvRobotEvent _ => True
  | _ => advance (current_step s) (current_step (onEvent e s))
  end.
Proof.
  destruct e; simpl; try exact I;
    [ unfold versionInfoCB, versionInfo_adopt | unfold sensorsCoreCB
    | unfold dockBeaconCB | unfold gyroscopeCB | unfold buttonEventCB
    | unfold bumperEventCB | unfold wDropEventCB | unfold cliffEventCB
    | unfold powerEventCB | unfold inputEventCB | unfold diagnosticsCB
    | unfold robotStatusCB | unfold timerEventCB ];
    break_ifs; cbn; rewrite ?move_step; cbn;
    unfold advance, step_incr; auto.
Qed.

(** The record that "unit online" has to finalize first, if any. *)
Definition pending_record (s : QNode) : list Robot.t :=
  match under_test s with Some r => [r] | None => [] end.

Lemma robotEvent_online (s : QNode) :
  let s' := robotEventCB Msg.ONLINE s in
  evaluated s' = (evaluated s ++ pending_record s)%list
  /\ out_file s' = (out_file s ++ pending_record s)%list
  /\ under_test s' = Some (Robot.new (length (evaluated s')))
  /\ current_step s' = TEST_DIGITAL_IO_PORTS.
Proof.
  unfold robotEventCB, pending_record, saveResults; cbn.
  destruct (under_test s) as [r|] eqn:E; cbn; rewrite ?E; cbn;
    rewrite ?app_nil_r; by repeat split.
Qed.

Lemma robotEvent_not_online (st : Z) (s : QNode) :
  st <> Msg.ONLINE ->
  current_step (robotEventCB st s) = current_step s.
Proof.
  intros Hst. unfold robotEventCB.
  destruct (Z.eqb_spec st Msg.ONLINE); [done|].
  destruct (st =? Msg.OFFLINE); [|done].
  destruct (under_test s); [|done].
  rewrite saveResults_step. by destruct (negb _).
Qed.

(** *** The loop in a quiet environment

    No event is served during the sleeps of the iteration: every batch the
    routines ask for is empty. *)
Definition quiet (w : World) : Prop := batches w = [].

(** [m] runs to completion from a quiet world with a unit under test, and
    leaves the world quiet, the unit in place and the step where it was. *)
Definition Keeps {A} (m : M A) : Prop :=
  forall w, quiet w -> is_Some (under_test (node w)) ->
    exists a w', m w = Some (a, w') /\ quiet w'
      /\ is_Some (under_test (node w'))
      /\ current_step (node w') = current_step (node w).

(** A state change that touches neither the step nor the presence of the
    unit. *)
Definition frame (f : QNode -> QNode) : Prop :=
  forall s, current_step (f s) = current_step s
            /\ (is_Some (under_test s) -> is_Some (under_test (f s))).

Lemma Keeps_ret {A} (a : A) : Keeps (ret a).
Proof. intros w Hq Hu. by exists a, w. Qed.

Lemma Keeps_bind {A B} (m : M A) (k : A -> M B) :
  Keeps m -> (forall a, Keeps (k a)) -> Keeps (bind m k).
Proof.
  intros Hm Hk w Hq Hu.
  destruct (Hm w Hq Hu) as (a & w1 & E1 & Hq1 & Hu1 & Hs1).
  destruct (Hk a w1 Hq1 Hu1) as (b & w2 & E2 & Hq2 & Hu2 & Hs2).
  exists b, w2. unfold bind. rewrite E1. repeat split; try done. congruence.
Qed.

Lemma Keeps_lift (f : QNode -> QNode) : frame f -> Keeps (lift f).
Proof.
  intros Hf w Hq Hu. destruct (Hf (node w)) as [Hs Hp].
  exists tt, (with_node f w). repeat split; auto.
Qed.

Lemma Keeps_get : Keeps get.
Proof. intros w Hq Hu. by exists (node w), w. Qed.

Lemma Keeps_robot : Keeps robot.
Proof.
  intros w Hq [r Hr]. exists r, w. unfold robot. rewrite Hr.
  repeat split; try done.
Qed.

Lemma Keeps_update_robot (f : Robot.t -> Robot.t) : Keeps (update_robot f).
Proof.
  apply Keeps_bind; [apply Keeps_robot|]. intros r.
  apply Keeps_lift. intros s. split; [done|]. intros _. by eexists.
Qed.

Lemma Keeps_spinOnce : Keeps spinOnce.
Proof.
  intros w Hq Hu. unfold quiet in Hq. unfold spinOnce. rewrite Hq.
  eexists tt, _. split; [reflexivity|]. by repeat split.
Qed.

Lemma Keeps_getYaw : Keeps getYaw.
Proof. intros w Hq Hu. unfold getYaw. eexists _, _. by repeat split. Qed.

Lemma Keeps_imu_init : Keeps imu_init.
Proof. intros w Hq Hu. unfold imu_init. eexists _, _. by repeat split. Qed.

Lemma Keeps_when (b : bool) (m : M unit) : Keeps m -> Keeps (when b m).
Proof. intros Hm. destruct b; [done|apply Keeps_ret]. Qed.

Lemma Keeps_if {A} (b : bool) (m1 m2 : M A) :
  Keeps m1 -> Keeps m2 -> Keeps (if b then m1 else m2).
Proof. by destruct b. Qed.

Lemma frame_emit (o : Output) : frame (emit o).
Proof. by intros s. Qed.
Lemma frame_move (v w t : Q) : frame (move v w t).
Proof. intros s. unfold move. by destruct (Qltb 0 t). Qed.
Lemma frame_set_answer_req (b : bool) : frame (set_answer_req b).
Proof. by intros s. Qed.

Ltac keeps_step :=
  first
    [ apply Keeps_ret
    | apply Keeps_get
    | apply Keeps_robot
    | apply Keeps_update_robot
    | apply Keeps_spinOnce
    | apply Keeps_getYaw
    | apply Keeps_imu_init
    | apply Keeps_when
    | apply Keeps_lift; first [apply frame_move | by intros ?]
    | apply Keeps_bind; [|intros ?]
    | match goal with
      | |- Keeps (if ?b then _ else _) => destruct b
      | |- Keeps (match ?x with Some _ => _ | None => _ end) => destruct x
      end ].
Ltac keeps := repeat keeps_step.

Lemma Keeps_nbSleep (t : Q) : Keeps (nbSleep t).
Proof. apply Keeps_spinOnce. Qed.

Lemma Keeps_move_blocking (v w t : Q) : Keeps (move_blocking v w t).
Proof. unfold move_blocking. keeps. Qed.

Lemma Keeps_testLeds (first_call : bool) : Keeps (testLeds first_call).
Proof.
  unfold testLeds. apply Keeps_bind; [keeps|intros _].
  generalize [1; 2; 3].
  intros l. induction l as [|c l IH]; simpl; [keeps|].
  apply Keeps_bind; [keeps|intros s]. destruct (_ =? _); [|keeps].
  do 5 (apply Keeps_bind; [keeps|intros _]). exact IH.
Qed.

Lemma Keeps_testSounds (first_call : bool) : Keeps (testSounds first_call).
Proof.
  unfold testSounds. apply Keeps_bind; [keeps|intros _].
  generalize [0; 1; 2; 3; 4; 5; 6].
  intros l. induction l as [|c l IH]; simpl; [keeps|].
  apply Keeps_bind; [keeps|intros s]. destruct (_ =? _); [|keeps].
  do 3 (apply Keeps_bind; [keeps|intros _]). exact IH.
Qed.

Lemma Keeps_acquire_yaw (n : nat) : Keeps (acquire_yaw n).
Proof.
  induction n as [|n IH]; simpl; [keeps|].
  apply Keeps_bind; [keeps|intros _].
  apply Keeps_bind; [keeps|intros [y|]]; [keeps|].
  apply Keeps_bind; [keeps|intros _]. exact IH.
Qed.

Lemma Keeps_charge_wait (n : nat) : Keeps (charge_wait n).
Proof.
  induction n as [|n IH]; simpl; [keeps|].
  apply Keeps_bind; [keeps|intros r]. destruct (_ =? _); [|keeps].
  apply Keeps_bind; [keeps|intros _]. exact IH.
Qed.

Ltac keeps_routines :=
  repeat first
    [ apply Keeps_acquire_yaw | apply Keeps_charge_wait
    | apply Keeps_move_blocking | keeps_step ].

Lemma Keeps_testIMU_leg (i : nat) : Keeps (testIMU_leg i).
Proof. unfold testIMU_leg. keeps_routines. Qed.

Lemma Keeps_testIMU (first_call : bool) : Keeps (testIMU first_call).
Proof.
  unfold testIMU, testIMU_verdict.
  repeat first [apply Keeps_testIMU_leg | keeps_step].
Qed.

Lemma Keeps_measureCharge (first_call : bool) : Keeps (measureCharge first_call).
Proof. unfold measureCharge. keeps_routines. Qed.

Lemma Keeps_evalMotorsCurrent (first_call : bool) :
  Keeps (evalMotorsCurrent first_call).
Proof. unfold evalMotorsCurrent. keeps. Qed.

(** [testAnalogIn] advances the step exactly when it reports completion;
    the unit stays in place. *)
Lemma testAnalogIn_on_step (first_call : bool) (r : Robot.t) (s : QNode) :
  let '(done, s') := testAnalogIn_on first_call r s in
  is_Some (under_test s')
  /\ current_step s' = (if done then current_step s + 1 else current_step s).
Proof.
  unfold testAnalogIn_on. destruct (analog_pass first_call r) as [v outs].
  destruct (v =? ALL_COVERED), first_call; cbn; split; by eauto.
Qed.

(** What an iteration of the loop may do to the step. *)
Definition tick_moves (a b : Z) : Prop :=
  b = a \/ b = a + 1 \/ (a = EVALUATION_COMPLETED /\ b = INITIALIZATION).

(** [m], from a quiet world with a unit under test, runs to completion,
    leaves the world quiet and moves the step within [R]. *)
Definition Moves {A} (R : Z -> Z -> Prop) (m : M A) : Prop :=
  forall w, quiet w -> is_Some (under_test (node w)) ->
    exists a w', m w = Some (a, w') /\ quiet w'
      /\ R (current_step (node w)) (current_step (node w')).

Lemma Moves_of_Keeps {A} (R : Z -> Z -> Prop) (m : M A) :
  (forall a, R a a) -> Keeps m -> Moves R m.
Proof.
  intros HR Hm w Hq Hu. destruct (Hm w Hq Hu) as (a & w' & E & Hq' & _ & Hs).
  exists a, w'. repeat split; try done. rewrite Hs. apply HR.
Qed.

Lemma Moves_bind {A B} (R : Z -> Z -> Prop) (m : M A) (k : A -> M B) :
  Keeps m -> (forall a, Moves R (k a)) -> Moves R (bind m k).
Proof.
  intros Hm Hk w Hq Hu.
  destruct (Hm w Hq Hu) as (a & w1 & E1 & Hq1 & Hu1 & Hs1).
  destruct (Hk a w1 Hq1 Hu1) as (b & w2 & E2 & Hq2 & HR).
  exists b, w2. unfold bind. rewrite E1. repeat split; try done.
  by rewrite <- Hs1.
Qed.

Lemma Moves_next_step : Moves (fun a b => b = a + 1) (lift next_step).
Proof. intros w Hq Hu. eexists tt, _. by repeat split. Qed.

Lemma Moves_weaken {A} (R R' : Z -> Z -> Prop) (m : M A) :
  (forall a b, R a b -> R' a b) -> Moves R m -> Moves R' m.
Proof.
  intros HR Hm w Hq Hu. destruct (Hm w Hq Hu) as (a & w' & E & Hq' & H).
  exists a, w'. auto.
Qed.

Lemma Moves_testAnalogIn (first_call : bool) :
  Moves advance (testAnalogIn first_call).
Proof.
  intros w Hq [r Hr]. unfold testAnalogIn, bind, robot. rewrite Hr.
  pose proof (testAnalogIn_on_step first_call r (node w)) as H.
  destruct (testAnalogIn_on first_call r (node w)) as [b s'].
  destruct H as [_ Hs]. eexists b, _. split; [reflexivity|].
  split; [exact Hq|]. simpl. unfold advance. destruct b; auto.
Qed.

Lemma Moves_completed :
  Moves (fun _ b => b = INITIALIZATION)
    (_ <- robot ;;
     lift (showUserMsg Info "Evaluation result"
             "Evaluation completed. Overall result: %s") ;;;
     lift saveResults ;;;
     lift (set_current_step INITIALIZATION)).
Proof.
  intros w Hq [r Hr]. unfold bind, robot, lift. rewrite Hr.
  eexists tt, _. by repeat split.
Qed.

Lemma Moves_next_step_advance : Moves advance (lift next_step).
Proof. apply (Moves_weaken _ _ _ (fun a b H => or_intror H)), Moves_next_step. Qed.

Lemma Moves_testAnalogIn_unit (first_call : bool) :
  Moves advance (_ <- testAnalogIn first_call ;; ret tt).
Proof.
  intros w Hq Hu.
  destruct (Moves_testAnalogIn first_call w Hq Hu) as (b & w' & E & Hq' & Hs).
  exists tt, w'. unfold bind. rewrite E. by repeat split.
Qed.

Ltac keeps_all :=
  repeat first
    [ apply Keeps_testLeds | apply Keeps_testSounds | apply Keeps_testIMU
    | apply Keeps_measureCharge | apply Keeps_evalMotorsCurrent
    | keeps_step ].

Ltac moves :=
  repeat first
    [ apply Moves_of_Keeps; [by left | solve [keeps_all]]
    | apply Moves_next_step_advance
    | apply Moves_testAnalogIn_unit
    | apply Moves_bind; [solve [keeps_all] | intros ?]
    | match goal with
      | |- Moves _ (if ?b then _ else _) => destruct b
      end ].

(** The action of any step but the last keeps the step or advances it. *)
Lemma step_action_advances (step : Z) (changed : bool) (c : Z) :
  step <> EVALUATION_COMPLETED -> Moves advance (step_action step changed c).
Proof.
  intros Hstep. unfold step_action.
  repeat match goal with
         | |- context [if step =? ?k then _ else _] =>
             destruct (Z.eqb_spec step k) as [Ek|_]
         end; by moves.
Qed.

(** The action of the last step takes the node back to the first. *)
Lemma step_action_completed (changed : bool) (c : Z) :
  Moves (fun _ b => b = INITIALIZATION)
        (step_action EVALUATION_COMPLETED changed c).
Proof. apply Moves_completed. Qed.

(** One iteration after its [spinOnce], in a quiet environment: it runs to
    completion, and the step stays, advances by one, or goes from
    [EVALUATION_COMPLETED] back to [INITIALIZATION]. *)
Lemma step_tick_quiet (w : World) :
  quiet w ->
  exists w', step_tick w = Some (tt, w') /\ quiet w'
    /\ tick_moves (current_step (node w)) (current_step (node w')).
Proof.
  intros Hq. unfold step_tick.
  destruct (under_test (node w)) as [r|] eqn:Hr;
    [|eexists; repeat split; [done|by left]].
  destruct (timer_active (node w));
    [eexists; repeat split; [done|by left]|].
  unfold bind, set_locals.
  set (w1 := mkWorld _ _ _ _ _ _).
  assert (Hq1 : quiet w1) by done.
  assert (Hu1 : is_Some (under_test (node w1))) by (simpl; rewrite Hr; eauto).
  change (current_step (node w)) with (current_step (node w1)).
  destruct (Z.eq_dec (current_step (node w1)) EVALUATION_COMPLETED) as [E|E].
  - rewrite E.
    destruct (step_action_completed (negb (previous_step w =? EVALUATION_COMPLETED))
                (count w + 1) w1 Hq1 Hu1) as ([] & w' & Ew & Hq' & Hs).
    exists w'. repeat split; try done. right; right. done.
  - destruct (step_action_advances _ (negb (previous_step w =? current_step (node w1)))
                (count w + 1) E w1 Hq1 Hu1) as ([] & w' & Ew & Hq' & [Hs|Hs]).
    + exists w'. repeat split; try done. by left.
    + exists w'. repeat split; try done. right; by left.
Qed.

(** X29.  The step index, as the code stands.  (1) Every callback leaves
    the current step or advances it by exactly one, except "unit online",
    which sets it to [TEST_DIGITAL_IO_PORTS] whatever it was; "unit
    offline" and unknown robot events leave it.  (2) An iteration of the
    control loop during whose sleeps no event is served runs to its end and
    leaves the step, advances it by one, or takes it from
    [EVALUATION_COMPLETED] back to [INITIALIZATION].  (3) On "unit online"
    a record still under test is first appended to the result file and to
    the ledger, and the new record is numbered with the size of the ledger
    after that. *)
Theorem step_evolution :
  (forall (e : Event) (s : QNode),
     let s' := onEvent e s in
     match e with
     | EvRobotEvent st =>
         (st = Msg.ONLINE -> current_step s' = TEST_DIGITAL_IO_PORTS)
         /\ (st <> Msg.ONLINE -> current_step s' = current_step s)
     | _ => advance (current_step s) (current_step s')
     end)
  /\ (forall w : World, quiet w ->
        exists w', step_tick w = Some (tt, w')
          /\ tick_moves (current_step (node w)) (current_step (node w')))
  /\ (forall s : QNode,
        let s' := robotEventCB Msg.ONLINE s in
        evaluated s' = (evaluated s ++ pending_record s)%list
        /\ out_file s' = (out_file s ++ pending_record s)%list
        /\ under_test s' = Some (Robot.new (length (evaluated s')))).
Proof.
  split; [|split].
  - intros e s s'. subst s'. pose proof (callback_advances e s) as H.
    destruct e; try exact H. simpl. split.
    + intros ->. apply robotEvent_online.
    + apply robotEvent_not_online.
  - intros w Hq. destruct (step_tick_quiet w Hq) as (w' & E & _ & H).
    by exists w'.
  - intros s s'. destruct (robotEvent_online s) as (E & O & U & _).
    by repeat split.
Qed.

Lemma step_evolution_witness :
  exists w',
    step_tick (mkWorld (fresh_at EVALUATION_COMPLETED) 5
                 TEST_ANALOG_INPUT_PORTS [] true []) = Some (tt, w')
    /\ tick_moves EVALUATION_COMPLETED (current_step (node w'))
    /\ evaluated (robotEventCB Msg.ONLINE (fresh_at TEST_LEDS))
       = [Robot.new 0]
    /\ under_test (robotEventCB Msg.ONLINE (fresh_at TEST_LEDS))
       = Some (Robot.new 1).
Proof.
  destruct (proj1 (proj2 step_evolution)
              (mkWorld (fresh_at EVALUATION_COMPLETED) 5
                 TEST_ANALOG_INPUT_PORTS [] true []) eq_refl)
    as (w' & E & H).
  destruct (proj2 (proj2 step_evolution) (fresh_at TEST_LEDS))
    as (Hev & _ & Hu).
  exists w'. split; [exact E|]. split; [exact H|].
  split; [exact Hev|]. rewrite Hu. by rewrite Hev.
Defined.

(** C4.  The code at the failing input, "unit online" on the node after
    [init]: the current step becomes [TEST_DIGITAL_IO_PORTS], which is
    neither [INITIALIZATION], the beginning of the test process that the
    comment above the assignment announces, nor [TEST_DC_ADAPTER], the
    first step after the identification; and so it is from every state.
    The rest of what the claim says of "unit online" holds: the record
    still under test is saved first and the new one is numbered with the
    size of the ledger. *)
Theorem online_step_divergence :
  let s' := onEvent (EvRobotEvent Msg.ONLINE) init in
  current_step s' = TEST_DIGITAL_IO_PORTS
  /\ under_test s' = Some (Robot.new 0)
  /\ current_step s' <> INITIALIZATION
  /\ step_incr GET_SERIAL_NUMBER = TEST_DC_ADAPTER
  /\ current_step s' <> TEST_DC_ADAPTER
  /\ (forall s : QNode,
        current_step (onEvent (EvRobotEvent Msg.ONLINE) s)
        = TEST_DIGITAL_IO_PORTS).
Proof.
  split; [reflexivity|]. split; [reflexivity|].
  split; [by vm_compute|]. split; [reflexivity|]. split; [by vm_compute|].
  intros s. apply robotEvent_online.
Qed.

(** ** The yaw wrap *)

Lemma Qltb_lt (x y : Q) : Qltb x y = true <-> (x < y)%Q.
Proof.
  unfold Qltb. rewrite negb_true_iff.
  destruct (Qle_bool y x) eqn:E.
  - apply Qle_bool_iff in E. split; [discriminate|]. intros H. lra.
  - split; [intros _|done]. apply Qnot_le_lt. intros H.
    apply Qle_bool_iff in H. congruence.
Qed.

Lemma Qltb_ge (x y : Q) : Qltb x y = false <-> (y <= x)%Q.
Proof.
  unfold Qltb. rewrite negb_false_iff. apply Qle_bool_iff.
Qed.

Lemma M_PI_pos : (0 < M_PI)%Q.
Proof. reflexivity. Qed.

Lemma yaw_wrap_cases (d : Q) :
  ((M_PI < d)%Q /\ yaw_wrap d = (d - 2 * M_PI)%Q)
  \/ ((d < - M_PI)%Q /\ yaw_wrap d = (d + 2 * M_PI)%Q)
  \/ ((- M_PI <= d <= M_PI)%Q /\ yaw_wrap d = d).
Proof.
  pose proof M_PI_pos as Hpi. unfold yaw_wrap.
  destruct (Qltb M_PI d) eqn:E1.
  - left. apply Qltb_lt in E1. by split.
  - apply Qltb_ge in E1. destruct (Qltb d (- M_PI)) eqn:E2.
    + right; left. apply Qltb_lt in E2. by split.
    + right; right. apply Qltb_ge in E2. by repeat split.
Qed.

(** *** The wrap against the real half-turn *)

Section YawReal.
Import Reals Qreals.

(** The double [M_PI] is below the real [PI]: the partial sum of sixteen
    terms of Machin's series for [PI / 4] is already above [M_PI / 4]. *)
Lemma M_PI_below_PI : (Q2R M_PI < PI)%R.
Proof.
  pose proof (PI_2_3_7_ineq 7) as [H _].
  unfold sum_f_R0, tg_alt, PI_2_3_7_tg, Ratan_seq in H.
  simpl in H.
  unfold Q2R, M_PI. simpl.
  Lra.lra.
Qed.

(** C5.  The wrapped difference lies in the half-open interval
    [(-PI, PI]] of the real number [PI], for every difference within three
    half-turns, which covers every difference of two yaws (each within
    [-M_PI, M_PI], the range of a double yaw).  The code adds or removes
    one turn of [2 * M_PI] at most, so the result is [d], [d - 2 M_PI] or
    [d + 2 M_PI]; it is within [-M_PI, M_PI], and [M_PI], the double, is
    below [PI]; a difference already within [-M_PI, M_PI] is returned as it
    is. *)
Theorem yaw_wrap_range (d : Q) :
  (- (3 * M_PI) <= d <= 3 * M_PI)%Q ->
  (- PI < Q2R (yaw_wrap d) <= PI)%R
  /\ (- M_PI <= yaw_wrap d <= M_PI)%Q
  /\ (yaw_wrap d = d \/ yaw_wrap d = (d - 2 * M_PI)%Q
      \/ yaw_wrap d = (d + 2 * M_PI)%Q)
  /\ ((- M_PI <= d <= M_PI)%Q -> yaw_wrap d = d).
Proof.
  intros Hd. pose proof M_PI_pos as Hpi. pose proof M_PI_below_PI as HPI.
  assert (Hrange : (- M_PI <= yaw_wrap d <= M_PI)%Q).
  { destruct (yaw_wrap_cases d) as [[H E]|[[H E]|[H E]]]; rewrite E;
      split; lra. }
  split; [|split; [exact Hrange|split]].
  - destruct Hrange as [Hlo Hhi].
    apply Qle_Rle in Hlo, Hhi. rewrite Q2R_opp in Hlo.
    split; Lra.lra.
  - destruct (yaw_wrap_cases d) as [[_ E]|[[_ E]|[_ E]]]; tauto.
  - intros H. destruct (yaw_wrap_cases d) as [[H1 E]|[[H1 E]|[_ E]]];
      [lra|lra|exact E].
Qed.

Lemma yaw_wrap_range_witness :
  (- PI < Q2R (yaw_wrap 4) <= PI)%R
  /\ (- PI < Q2R (yaw_wrap (- M_PI)) <= PI)%R
  /\ yaw_wrap (- M_PI) = (- M_PI)%Q.
Proof.
  split; [|split].
  - refine (proj1 (yaw_wrap_range 4 _)). split; vm_compute; discriminate.
  - refine (proj1 (yaw_wrap_range (- M_PI) _)).
    split; vm_compute; discriminate.
  - reflexivity.
Defined.

End YawReal.

(** ** Gyroscope verdict *)





Lemma bind_eq {A B} (m : M A) (k : A -> M B) (w : World) (a : A) (w' : World) :
  m w = Some (a, w') -> bind m k w = k a w'.
Proof. intros E. unfold bind. by rewrite E. Qed.






(** A unit at the gyroscope step whose onboard yaw reads [yaw], in front of
    a camera that will answer [cam]; no event is pending. *)
Definition gyro_world (yaw : Q) (cam : list (option Q)) : World :=
  mkWorld (gyroscopeCB yaw (fresh_at MEASURE_GYRO_ERROR))
          0 MEASURE_GYRO_ERROR [] true cam.

Definition gyro_flag (res : option (bool * World)) : option bool :=
  match res with
  | Some (_, w) =>
      match under_test (node w) with
      | Some r => Some (Robot.ok r IMU_DEV)
      | None => None
      end
  | None => None
  end.

(** Onboard yaw 1.20; the camera gives wrapped differences 0.80 and 0.83. *)
Example gyro_example_pass :
  gyro_flag (testIMU true (gyro_world (120 # 100)
                             [Some (- (40 # 100))%Q; Some (- (37 # 100))%Q]))
  = Some true.
Proof. by vm_compute. Qed.

(** Onboard yaw 1.20; wrapped differences 0.80 and 0.90. *)
Example gyro_example_fail :
  gyro_flag (testIMU true (gyro_world (120 # 100)
                             [Some (- (40 # 100))%Q; Some (- (30 # 100))%Q]))
  = Some false.
Proof. by vm_compute. Qed.

(** *** The gyroscope's flag in any environment *)
























(** ** Charge measurement *)

(** The telemetry as the charge measurement sees it: what a batch of
    telemetry messages leaves in [device_val[CHARGING]], which holds [v]. *)
Definition charging_after (batch : list Event) (v : Z) : Z :=
  foldl (fun v e =>
           match e with
           | EvSensorsCore msg => if charger msg =? 0 then v else battery msg
           | _ => v
           end) v batch.

(** The wait for a nonzero value, on the values alone: the value it ends
    with and the batches it leaves. *)
Fixpoint charging_wait (n : nat) (v : Z) (bs : list (list Event))
  : Z * list (list Event) :=
  match n with
  | O => (v, bs)
  | S n =>
      if v =? 0 then charging_wait n (charging_after (hd [] bs) v) (tl bs)
      else (v, bs)
  end.

Definition telemetry (e : Event) : bool :=
  match e with EvSensorsCore _ => true | _ => false end.

(** The node during a charge measurement started on record [r] with
    output [tr]: the record differs from [r] by the charging value [v]
    only, the step is [MEASURE_CHARGING], and [outs] has been emitted. *)
Definition charging (r : Robot.t) (tr : list Output) (v : Z)
  (outs : list Output) (s : QNode) : Prop :=
  under_test s = Some (Robot.set_val CHARGING v r)
  /\ current_step s = MEASURE_CHARGING
  /\ trace s = (outs ++ tr)%list.

Lemma set_val_set_val (d : nat) (v1 v2 : Z) (r : Robot.t) :
  Robot.set_val d v2 (Robot.set_val d v1 r) = Robot.set_val d v2 r.
Proof. unfold Robot.set_val; simpl. by rewrite list_insert_insert_eq. Qed.

Lemma sensorsCore_charging (msg : SensorState) (r : Robot.t)
  (tr : list Output) (v : Z) (outs : list Output) (s : QNode) :
  wf r -> charging r tr v outs s ->
  charging r tr (if charger msg =? 0 then v else battery msg) outs
           (sensorsCoreCB msg s).
Proof.
  intros Hwf (U & C & T). unfold sensorsCoreCB. rewrite U, C.
  change ((TEST_MOTORS_FORWARD <=? MEASURE_CHARGING)
          && (MEASURE_CHARGING <=? TEST_MOTORS_COUNTERCW)) with false.
  change (MEASURE_CHARGING =? MEASURE_CHARGING) with true.
  change (MEASURE_CHARGING =? TEST_ANALOG_INPUT_PORTS) with false.
  cbv iota. destruct (charger msg =? 0); simpl.
  - by repeat split.
  - rewrite set_val_set_val. by repeat split.
Qed.

Lemma spin_charging (batch : list Event) (r : Robot.t) (tr : list Output)
  (v : Z) (outs : list Output) (s : QNode) :
  wf r -> forallb telemetry batch = true -> charging r tr v outs s ->
  charging r tr (charging_after batch v) outs (spin batch s).
Proof.
  intros Hwf. revert v s.
  induction batch as [|e batch IH]; intros v s Hall Hc; [done|].
  simpl in Hall. apply andb_true_iff in Hall as [He Hb].
  destruct e; try discriminate. unfold spin, charging_after; simpl.
  apply IH; [done|]. by apply sensorsCore_charging.
Qed.

Definition telemetry_only (bs : list (list Event)) : Prop :=
  forallb (forallb telemetry) bs = true.

Lemma telemetry_only_hd bs : telemetry_only bs -> forallb telemetry (hd [] bs) = true.
Proof.
  unfold telemetry_only. destruct bs; simpl; [done|].
  intros H. by apply andb_true_iff in H as [? _].
Qed.

Lemma telemetry_only_tl bs : telemetry_only bs -> telemetry_only (tl bs).
Proof.
  unfold telemetry_only. destruct bs; simpl; [done|].
  intros H. by apply andb_true_iff in H as [_ ?].
Qed.

Section ChargeRun.
Variables (r : Robot.t) (tr : list Output).
Hypothesis Hwf : wf r.

Lemma nbSleep_charging (t : Q) (v : Z) (outs : list Output) (w : World) :
  charging r tr v outs (node w) -> telemetry_only (batches w) ->
  exists w', nbSleep t w = Some (tt, w')
    /\ charging r tr (charging_after (hd [] (batches w)) v) outs (node w')
    /\ batches w' = tl (batches w).
Proof.
  intros Hc Ht. eexists. split; [reflexivity|]. simpl. split; [|done].
  apply spin_charging; [done|by apply telemetry_only_hd|done].
Qed.

Lemma emit_charging (o : Output) (v : Z) (outs : list Output) (w : World) :
  charging r tr v outs (node w) ->
  exists w', lift (emit o) w = Some (tt, w')
    /\ charging r tr v (o :: outs) (node w') /\ batches w' = batches w.
Proof.
  intros (U & C & T). eexists. split; [reflexivity|].
  unfold charging. cbn. rewrite T. by repeat split.
Qed.

Lemma robot_charging (v : Z) (outs : list Output) (w : World) :
  charging r tr v outs (node w) ->
  robot w = Some (Robot.set_val CHARGING v r, w)
  /\ Robot.val (Robot.set_val CHARGING v r) CHARGING = v.
Proof.
  intros (U & C & T). unfold robot. rewrite U. split; [done|].
  apply val_set_val_eq; [vm_compute; lia|done].
Qed.

Lemma charge_wait_charging (n : nat) (v : Z) (outs : list Output) (w : World) :
  charging r tr v outs (node w) -> telemetry_only (batches w) ->
  exists w', charge_wait n w = Some (tt, w')
    /\ charging r tr (charging_wait n v (batches w)).1 outs (node w')
    /\ batches w' = (charging_wait n v (batches w)).2.
Proof.
  revert v w. induction n as [|n IH]; intros v w Hc Ht; simpl.
  - exists w. split; [reflexivity|]. split; [exact Hc|reflexivity].
  - destruct (robot_charging v outs w Hc) as [Er Ev].
    rewrite (bind_eq _ _ _ _ _ Er), Ev.
    destruct (v =? 0);
      [|exists w; split; [reflexivity|]; split; [exact Hc|reflexivity]].
    destruct (nbSleep_charging (1 / frequency) v outs w Hc Ht)
      as (w1 & E1 & Hc1 & Hb1).
    rewrite (bind_eq _ _ _ _ _ E1).
    destruct (IH _ w1 Hc1) as (w2 & E2 & Hc2 & Hb2);
      [rewrite Hb1; by apply telemetry_only_tl|].
    exists w2. rewrite Hb1 in *. split; [exact E2|]. by split.
Qed.

End ChargeRun.

Lemma set_val_id (d : nat) (r : Robot.t) :
  (d < DEVICES_COUNT)%nat -> wf r -> Robot.set_val d (Robot.val r d) r = r.
Proof.
  intros Hd [_ Hv]. unfold Robot.set_val, Robot.val.
  destruct (lookup_lt_is_Some_2 (Robot.device_val r) d) as [x Hx]; [lia|].
  rewrite Hx; simpl. rewrite list_insert_id by done. by destruct r.
Qed.

(** The prompt of the first call. *)
Definition charge_prompt (first_call : bool) : list Output :=
  if first_call
  then [ShowUserMsg Info "Charge measurement"
          "Plug the adaptor to the robot and wait %d seconds"]
  else [].

(** The two samples, from the value [v0] the wait ended with and the
    batches [bs] that follow: [v1] after the settle sleep, [v2] after the
    measurement window. *)
Definition sample_v1 (v0 : Z) (bs : list (list Event)) : Z :=
  to_uint8 (charging_after (hd [] bs) v0).
Definition sample_v2 (v0 : Z) (bs : list (list Event)) : Z :=
  to_uint8 (charging_after (hd [] (tl bs)) (charging_after (hd [] bs) v0)).

Lemma measureCharge_run (first_call : bool) (w : World) (r : Robot.t) :
  under_test (node w) = Some r -> wf r ->
  current_step (node w) = MEASURE_CHARGING ->
  telemetry_only (batches w) ->
  let v0 := (charging_wait charge_wait_polls (Robot.val r CHARGING) (batches w)).1 in
  let bs := (charging_wait charge_wait_polls (Robot.val r CHARGING) (batches w)).2 in
  let delta := sample_v2 v0 bs - sample_v1 v0 bs in
  exists w' r',
    under_test (node w') = Some r'
    /\ if v0 =? 0 then
         measureCharge first_call w = Some (false, w')
         /\ Robot.ok r' CHARGING = Robot.ok r CHARGING
         /\ trace (node w')
            = (Log Error "Adaptor not plugged after 40 seconds; aborting charge measurement"
                 :: HideUserMsg :: charge_prompt first_call ++ trace (node w))%list
       else
         measureCharge first_call w = Some (true, w')
         /\ Robot.val r' CHARGING = delta
         /\ Robot.ok r' CHARGING
            = (Robot.ok r CHARGING || (delta >=? MIN_POWER_CHARGED))
         /\ trace (node w')
            = (Log (if delta >=? MIN_POWER_CHARGED then Info else Warn)
                   "Charge measurement: %.1f V in %d seconds"
                 :: HideUserMsg :: charge_prompt first_call ++ trace (node w))%list.
Proof.
  intros Hu Hwf Hstep Ht v0 bs delta.
  assert (Hdev : (CHARGING < DEVICES_COUNT)%nat) by (vm_compute; lia).
  (* the prompt *)
  assert (H0 : exists w0,
             when first_call
               (lift (showUserMsg Info "Charge measurement"
                  "Plug the adaptor to the robot and wait %d seconds")) w
             = Some (tt, w0)
             /\ charging r (trace (node w)) (Robot.val r CHARGING)
                         (charge_prompt first_call) (node w0)
             /\ batches w0 = batches w).
  { destruct first_call; eexists; (split; [reflexivity|]);
      (split; [|reflexivity]); unfold charging; simpl;
      rewrite set_val_id by done; by repeat split. }
  destruct H0 as (w0 & E0 & C0 & B0).
  (* the wait *)
  destruct (charge_wait_charging r _ Hwf charge_wait_polls _ _ w0 C0)
    as (w1 & E1 & C1 & B1); [by rewrite B0|].
  rewrite B0 in C1, B1. fold v0 in C1. fold bs in B1.
  destruct (emit_charging r _ HideUserMsg _ _ w1 C1) as (w2 & E2 & C2 & B2).
  destruct (robot_charging r _ Hwf _ _ w2 C2) as [Er2 Ev2].
  unfold measureCharge.
  rewrite (bind_eq _ _ _ _ _ E0), (bind_eq _ _ _ _ _ E1).
  unfold hideUserMsg. rewrite (bind_eq _ _ _ _ _ E2), (bind_eq _ _ _ _ _ Er2).
  rewrite Ev2.
  destruct (v0 =? 0) eqn:Hv0.
  - (* timeout *)
    destruct (emit_charging r _
                (Log Error "Adaptor not plugged after 40 seconds; aborting charge measurement")
                _ _ w2 C2) as (w3 & E3 & (U3 & S3 & T3) & B3).
    exists w3, (Robot.set_val CHARGING v0 r).
    split; [exact U3|]. unfold log. rewrite (bind_eq _ _ _ _ _ E3).
    by repeat split.
  - (* two samples *)
    assert (Ht2 : telemetry_only (batches w2))
      by (rewrite B2, B1; subst bs; clear -Ht;
          generalize (Robot.val r CHARGING); generalize charge_wait_polls;
          intros n; revert Ht; generalize (batches w);
          induction n as [|n IH]; intros l Hl v; simpl; [done|];
          destruct (v =? 0); [|done]; apply IH; by apply telemetry_only_tl).
    destruct (nbSleep_charging r _ Hwf 2 _ _ w2 C2 Ht2) as (w3 & E3 & C3 & B3).
    destruct (robot_charging r _ Hwf _ _ w3 C3) as [Er3 Ev3].
    assert (Ht3 : telemetry_only (batches w3))
      by (rewrite B3; by apply telemetry_only_tl).
    destruct (nbSleep_charging r _ Hwf MEASURE_CHARGE_TIME _ _ w3 C3 Ht3)
      as (w4 & E4 & C4 & B4).
    destruct (robot_charging r _ Hwf _ _ w4 C4) as [Er4 Ev4].
    rewrite (bind_eq _ _ _ _ _ E3), (bind_eq _ _ _ _ _ Er3), Ev3.
    rewrite (bind_eq _ _ _ _ _ E4), (bind_eq _ _ _ _ _ Er4), Ev4.
    rewrite B3, B2, B1 in *.
    change (to_uint8 (charging_after (hd [] bs) v0)) with (sample_v1 v0 bs).
    change (to_uint8 (charging_after (hd [] (tl bs))
                        (charging_after (hd [] bs) v0)))
      with (sample_v2 v0 bs).
    fold delta.
    destruct C4 as (U4 & S4 & T4).
    unfold update_robot, bind, robot, lift, ret; simpl. rewrite U4; simpl.
    rewrite set_val_set_val, val_set_val_eq by done.
    destruct (delta >=? MIN_POWER_CHARGED); simpl.
    + eexists _, (Robot.set_ok CHARGING true (Robot.set_val CHARGING delta r)).
      split; last first.
      { split; [reflexivity|].
        rewrite val_set_ok, val_set_val_eq, ok_set_ok_eq, orb_true_r
          by (try apply wf_set_val; done).
        simpl. rewrite T4. by repeat split. }
      reflexivity.
    + eexists _, (Robot.set_val CHARGING delta r).
      split; last first.
      { split; [reflexivity|].
        rewrite val_set_val_eq, ok_set_val, orb_false_r by done.
        simpl. rewrite T4. by repeat split. }
      reflexivity.
Qed.

(** Number of error-level lines and prompts in a trace. *)
Definition errors (tr : list Output) : nat := length (List.filter is_error tr).

Lemma errors_prompt (first_call : bool) (tr : list Output) :
  errors (charge_prompt first_call ++ tr) = errors tr.
Proof. by destruct first_call. Qed.

(** A unit at the charging step, with the batches its sleeps will serve. *)
Definition charge_world (bs : list (list Event)) : World :=
  mkWorld (fresh_at MEASURE_CHARGING) 0 MEASURE_CHARGING bs true [].

Definition charger_reports (v : Z) : Event :=
  EvSensorsCore (mkSensorState [0; 0] 1 v []).

Definition charge_outcome (res : option (bool * World))
  : option (bool * bool * Z * nat) :=
  match res with
  | Some (b, w) =>
      match under_test (node w) with
      | Some r => Some (b, Robot.ok r CHARGING, Robot.val r CHARGING,
                        errors (trace (node w)))
      | None => None
      end
  | None => None
  end.

(** First sample 40, second sample 55: delta 15, verified, no error. *)
Example charge_example_pass :
  charge_outcome
    (measureCharge true
       (charge_world [[charger_reports 40]; []; [charger_reports 55]]))
  = Some (true, true, 15, 0%nat).
Proof. by vm_compute. Qed.

(** No charging signal at all: 800 polls, then one error. *)
Example charge_example_timeout :
  charge_outcome (measureCharge true (charge_world []))
  = Some (false, false, 0, 1%nat).
Proof. by vm_compute. Qed.

(** C7. The charge measurement, from a state the node can reach, of a unit
    whose charging device is not yet verified, the sleeps serving telemetry
    only.  It always returns.  If the
    charging value is still zero after the polls of the wait (800 at 20 Hz),
    it returns [false], the device stays unverified and exactly one error
    is logged.  Otherwise, with [v1] the sample after the settle sleep and
    [v2] the sample after the measurement window (both as [uint8_t]), it
    stores [v2 - v1], logs no error, and the device is verified exactly when
    [v2 - v1 >= 2]. *)
Theorem charge_measurement (first_call : bool) (w : World) (r : Robot.t) :
  Inv (node w) -> under_test (node w) = Some r ->
  current_step (node w) = MEASURE_CHARGING ->
  telemetry_only (batches w) ->
  Robot.ok r CHARGING = false ->
  let v0 := (charging_wait charge_wait_polls (Robot.val r CHARGING) (batches w)).1 in
  let bs := (charging_wait charge_wait_polls (Robot.val r CHARGING) (batches w)).2 in
  let v1 := sample_v1 v0 bs in
  let v2 := sample_v2 v0 bs in
  charge_wait_polls = 800%nat /\ MIN_POWER_CHARGED = 2
  /\ exists done w' r',
       measureCharge first_call w = Some (done, w')
       /\ under_test (node w') = Some r'
       /\ ((v0 = 0 /\ done = false /\ Robot.ok r' CHARGING = false
            /\ errors (trace (node w')) = S (errors (trace (node w))))
           \/ (v0 <> 0 /\ done = true
               /\ Robot.val r' CHARGING = v2 - v1
               /\ (Robot.ok r' CHARGING = true <-> v2 - v1 >= 2)
               /\ errors (trace (node w')) = errors (trace (node w)))).
Proof.
  intros HI Hu Hstep Ht Hflag v0 bs v1 v2.
  destruct (Inv_record _ r HI Hu) as [Hwf _].
  split; [reflexivity|]. split; [reflexivity|].
  destruct (measureCharge_run first_call w r Hu Hwf Hstep Ht)
    as (w' & r' & U & H).
  fold v0 bs in H. fold v1 v2 in H.
  destruct (Z.eqb_spec v0 0) as [Hv|Hv].
  - destruct H as (E & F & T). exists false, w', r'.
    split; [exact E|]. split; [exact U|]. left.
    repeat split; try done; [congruence|].
    rewrite T. change (errors (?a :: ?b :: ?l)) with (S (errors l)).
    by rewrite errors_prompt.
  - destruct H as (E & V & F & T). exists true, w', r'.
    split; [exact E|]. split; [exact U|]. right.
    rewrite Hflag in F. simpl in F. unfold MIN_POWER_CHARGED in *.
    repeat split; try done.
    + intros H. rewrite H in F. symmetry in F.
      apply Z.geb_le in F. lia.
    + intros H. rewrite F. apply Z.geb_le. lia.
    + rewrite T. destruct (v2 - v1 >=? 2);
        change (errors (?a :: ?b :: ?l)) with (errors l);
        by rewrite errors_prompt.
Qed.

Lemma charge_measurement_witness :
  charge_wait_polls = 800%nat.
Proof.
  refine (proj1 (charge_measurement true
    (charge_world [[charger_reports 40]; []; [charger_reports 55]])
    (Robot.new 0) (Inv_fresh_at MEASURE_CHARGING)
    eq_refl eq_refl eq_refl eq_refl)).
Defined.

(** ** Analog inputs: the threshold scan *)

Definition covered_low (v : Z) (i : nat) : bool := Z.testbit v (16 + Z.of_nat i).
Definition covered_high (v : Z) (i : nat) : bool := Z.testbit v (24 + Z.of_nat i).
Definition countdown (v : Z) : Z := Z.land v 0xFFFF.

Lemma MIN_MASK_pow2 (i : nat) : MIN_MASK i = 2 ^ (16 + Z.of_nat i).
Proof.
  unfold MIN_MASK. rewrite Z.shiftl_mul_pow2 by lia.
  rewrite <- Z.pow_add_r by lia. f_equal. lia.
Qed.

Lemma MAX_MASK_pow2 (i : nat) : MAX_MASK i = 2 ^ (24 + Z.of_nat i).
Proof.
  unfold MAX_MASK. rewrite Z.shiftl_mul_pow2 by lia.
  rewrite <- Z.pow_add_r by lia. f_equal. lia.
Qed.

Lemma land_pow2_eqb (v k : Z) :
  0 <= k -> (Z.land v (2 ^ k) =? 0) = negb (Z.testbit v k).
Proof.
  intros Hk.
  assert (E : Z.land v (2 ^ k) = if Z.testbit v k then 2 ^ k else 0).
  { apply Z.bits_inj'. intros n Hn.
    rewrite Z.land_spec, Z.pow2_bits_eqb by lia.
    destruct (Z.eqb_spec k n) as [->|Hne].
    - destruct (Z.testbit v n); simpl;
        [by rewrite Z.pow2_bits_eqb, Z.eqb_refl by lia|by rewrite Z.bits_0].
    - rewrite andb_false_r. destruct (Z.testbit v k);
        [|by rewrite Z.bits_0].
      rewrite Z.pow2_bits_eqb by lia. symmetry. by apply Z.eqb_neq. }
  rewrite E. destruct (Z.testbit v k); simpl; [|done].
  apply Z.eqb_neq. pose proof (Z.pow_pos_nonneg 2 k). lia.
Qed.

Lemma frequency_bits (k : Z) : 5 <= k -> Z.testbit (to_int frequency) k = false.
Proof.
  intros Hk. change (to_int frequency) with 20.
  apply Z.bits_above_log2; [lia|]. change (Z.log2 20) with 4. lia.
Qed.

(** The bits of the scan after channel [i]: a coverage bit is set when it
    was set before or when the channel's extreme has reached its
    threshold. *)
Lemma analog_channel_bits (i : nat) (row : AnalogRow) (v k : Z) :
  16 <= k ->
  Z.testbit (analog_channel i row v).1 k
  = Z.testbit v k
    || ((k =? 16 + Z.of_nat i) && (AI_MIN row <=? A_INPUT_MIN_THRESHOLD))
    || ((k =? 24 + Z.of_nat i) && (AI_MAX row >=? A_INPUT_MAX_THRESHOLD)).
Proof.
  intros Hk. unfold analog_channel.
  rewrite MIN_MASK_pow2, MAX_MASK_pow2.
  rewrite land_pow2_eqb by lia.
  destruct (AI_MIN row <=? A_INPUT_MIN_THRESHOLD);
    destruct (AI_MAX row >=? A_INPUT_MAX_THRESHOLD);
    rewrite ?andb_true_r, ?andb_false_r, ?orb_false_r;
    destruct (Z.testbit v (16 + Z.of_nat i)) eqn:B1; cbn [negb fst];
    rewrite ?land_pow2_eqb by lia;
    rewrite ?Z.lor_spec, ?Z.pow2_bits_eqb, ?frequency_bits by lia;
    rewrite ?orb_false_r;
    try (destruct (Z.testbit v (24 + Z.of_nat i)) eqn:B2; cbn [negb fst orb]);
    do 2 (rewrite ?Z.lor_spec, ?Z.pow2_bits_eqb, ?frequency_bits by lia;
          rewrite ?orb_false_r;
          repeat match goal with
                 | |- context [?a =? ?b] => destruct (Z.eqb_spec a b); try lia
                 end;
          subst; rewrite ?B1, ?B2; cbn; rewrite ?orb_false_r, ?orb_true_r);
    try reflexivity; try congruence.
Qed.

Lemma analog_scan_bits (i0 : nat) (rows : list AnalogRow) (v k : Z) :
  16 <= k ->
  Z.testbit (analog_scan i0 rows v).1 k = true
  <-> Z.testbit v k = true
      \/ exists (j : nat) (row : AnalogRow), rows !! j = Some row
           /\ ((k = 16 + Z.of_nat (i0 + j) /\ AI_MIN row <= A_INPUT_MIN_THRESHOLD)
               \/ (k = 24 + Z.of_nat (i0 + j)
                   /\ AI_MAX row >= A_INPUT_MAX_THRESHOLD)).
Proof.
  intros Hk. revert i0 v.
  induction rows as [|row rows IH]; intros i0 v; simpl.
  - split; [by left|]. intros [H|(j & row & Hj & _)]; [done|].
    by rewrite lookup_nil in Hj.
  - pose proof (analog_channel_bits i0 row v k Hk) as Hc.
    destruct (analog_channel i0 row v) as [v1 o1]. simpl in Hc.
    specialize (IH (S i0) v1).
    destruct (analog_scan (S i0) rows v1) as [v2 o2]. simpl in *.
    rewrite IH, Hc. clear IH Hc.
    rewrite !orb_true_iff, !andb_true_iff, !Z.eqb_eq, Z.leb_le, Z.geb_le.
    split.
    + intros [[[H|[H1 H2]]|[H1 H2]]|(j & row' & Hj & H)].
      * by left.
      * right. exists 0%nat, row. split; [done|]. left. split; lia.
      * right. exists 0%nat, row. split; [done|]. right. split; lia.
      * right. exists (S j), row'. split; [done|].
        rewrite Nat.add_succ_r. exact H.
    + intros [H|(j & row' & Hj & H)].
      * left. by left; left.
      * destruct j as [|j]; simpl in Hj.
        -- injection Hj as <-. left.
           destruct H as [[H1 H2]|[H1 H2]];
             [left; right|right]; split; lia.
        -- right. exists j, row'. split; [done|].
           rewrite Nat.add_succ_r in H. exact H.
Qed.

Lemma countdown_mod (v : Z) : countdown v = v mod 2 ^ 16.
Proof. unfold countdown. change 0xFFFF with (Z.ones 16). by apply Z.land_ones. Qed.

Lemma high_bits_div (v k : Z) :
  16 <= k -> Z.testbit v k = Z.testbit (v / 2 ^ 16) (k - 16).
Proof.
  intros Hk. rewrite Z.div_pow2_bits by lia. f_equal. lia.
Qed.

(** The countdown: one tick less while it runs, and the coverage bits are
    not touched. *)
Lemma analog_countdown_spec (v : Z) :
  let v' := (analog_countdown v).1 in
  countdown v' = (if countdown v >? 0 then countdown v - 1 else countdown v)
  /\ forall k, 16 <= k -> Z.testbit v' k = Z.testbit v k.
Proof.
  unfold analog_countdown. fold (countdown v). fold (countdown (v - 1)).
  destruct (Z.gtb_spec (countdown v) 0) as [Hpos|Hz].
  - assert (Hdiv : (v - 1) / 2 ^ 16 = v / 2 ^ 16
                   /\ (v - 1) mod 2 ^ 16 = v mod 2 ^ 16 - 1).
    { rewrite countdown_mod in Hpos.
      pose proof (Z.mod_pos_bound v (2 ^ 16) ltac:(lia)) as Hb.
      pose proof (Z.div_mod v (2 ^ 16) ltac:(lia)) as Hv.
      assert (E : v - 1 = 2 ^ 16 * (v / 2 ^ 16) + (v mod 2 ^ 16 - 1)) by lia.
      split.
      - symmetry. apply (Z.div_unique_pos _ _ _ (v mod 2 ^ 16 - 1)); lia.
      - symmetry. apply (Z.mod_unique_pos _ _ (v / 2 ^ 16)); lia. }
    destruct Hdiv as [Hd Hm].
    assert (Hc : countdown (v - 1) = countdown v - 1)
      by (by rewrite !countdown_mod).
    assert (Hb : forall k, 16 <= k -> Z.testbit (v - 1) k = Z.testbit v k)
      by (intros k Hk; by rewrite (high_bits_div (v - 1)), (high_bits_div v), Hd).
    destruct (countdown (v - 1) =? 0); simpl; by split.
  - simpl. by split.
Qed.

Lemma countdown_at_least_20 (v : Z) :
  Z.testbit v 2 = true -> Z.testbit v 4 = true -> 20 <= countdown v.
Proof.
  intros H2 H4.
  assert (B2 : Z.testbit (countdown v) 2 = true)
    by (unfold countdown; by rewrite Z.land_spec, H2).
  assert (B4 : Z.testbit (countdown v) 4 = true)
    by (unfold countdown; by rewrite Z.land_spec, H4).
  pose proof (Z.mod_pos_bound v (2 ^ 16) ltac:(lia)) as Hb.
  rewrite <- countdown_mod in Hb.
  apply Z.testbit_true in B2, B4; try lia.
  change (2 ^ 2) with 4 in B2. change (2 ^ 4) with 16 in B4.
  Z.div_mod_to_equations. lia.
Qed.

(** A pass over one channel either changes nothing or starts the pulse:
    the ticks of one second are or-ed into the countdown, and a command
    switches an indicator on. *)
Lemma analog_channel_pulse (i : nat) (row : AnalogRow) (v : Z) :
  analog_channel i row v = (v, [])
  \/ (Z.testbit (analog_channel i row v).1 2 = true
      /\ Z.testbit (analog_channel i row v).1 4 = true
      /\ (analog_channel i row v).2 <> []).
Proof.
  assert (F2 : Z.testbit (to_int frequency) 2 = true) by reflexivity.
  assert (F4 : Z.testbit (to_int frequency) 4 = true) by reflexivity.
  unfold analog_channel.
  destruct (_ && _); cbv beta iota zeta; destruct (_ && _); cbn [fst snd];
    first [ by left
          | right; repeat split;
            rewrite ?Z.lor_spec, ?F2, ?F4, ?orb_true_r; done ].
Qed.

Lemma analog_channel_keeps_pulse (i : nat) (row : AnalogRow) (v k : Z) :
  Z.testbit v k = true -> Z.testbit (analog_channel i row v).1 k = true.
Proof.
  intros H. unfold analog_channel.
  destruct (_ && _); destruct (_ && _); simpl;
    rewrite ?Z.lor_spec, ?H; by rewrite ?orb_true_l.
Qed.

Lemma analog_scan_keeps (i : nat) (rows : list AnalogRow) (v k : Z) :
  Z.testbit v k = true -> Z.testbit (analog_scan i rows v).1 k = true.
Proof.
  revert i v. induction rows as [|row rows IH]; intros i v H; simpl; [done|].
  pose proof (analog_channel_keeps_pulse i row v k H) as Hc.
  destruct (analog_channel i row v) as [v1 o1]. simpl in Hc.
  specialize (IH (S i) v1 Hc).
  by destruct (analog_scan (S i) rows v1).
Qed.

Lemma analog_scan_pulse (i : nat) (rows : list AnalogRow) (v : Z) :
  analog_scan i rows v = (v, [])
  \/ (20 <= countdown (analog_scan i rows v).1
      /\ (analog_scan i rows v).2 <> []).
Proof.
  revert i v. induction rows as [|row rows IH]; intros i v; simpl; [by left|].
  destruct (analog_channel_pulse i row v) as [E|(H2 & H4 & Ho)].
  - rewrite E. destruct (IH (S i) v) as [E'|[Hc Ho]].
    + rewrite E'. by left.
    + right. destruct (analog_scan (S i) rows v) as [v2 o2]. simpl in *.
      split; [done|]. by rewrite app_nil_r.
  - right. destruct (analog_channel i row v) as [v1 o1]. simpl in *.
    pose proof (analog_scan_keeps (S i) rows v1 2 H2) as K2.
    pose proof (analog_scan_keeps (S i) rows v1 4 H4) as K4.
    destruct (analog_scan (S i) rows v1) as [v2 o2]. simpl in *.
    split; [by apply countdown_at_least_20|].
    destruct o2; [done|discriminate].
Qed.

(** The scan publishes digital-output commands only. *)
Definition is_digital_output (o : Output) : Prop :=
  match o with DigitalOutput _ _ => True | _ => False end.

Lemma analog_scan_outputs (i : nat) (rows : list AnalogRow) (v : Z) :
  Forall is_digital_output (analog_scan i rows v).2.
Proof.
  revert i v. induction rows as [|row rows IH]; intros i v; simpl; [done|].
  assert (Hc : Forall is_digital_output (analog_channel i row v).2).
  { unfold analog_channel. destruct (_ && _); cbv beta iota zeta;
      destruct (_ && _); cbn [fst snd]; repeat constructor. }
  destruct (analog_channel i row v) as [v1 o1]. simpl in Hc.
  specialize (IH (S i) v1).
  destruct (analog_scan (S i) rows v1) as [v2 o2]. simpl in *.
  by apply Forall_app.
Qed.

(** The coverage bits tell the truth about the table: a channel marked as
    covered has its running minimum (maximum) at or beyond the threshold. *)
Definition analog_inv (r : Robot.t) : Prop :=
  forall (i : nat) (row : AnalogRow), Robot.analog_in r !! i = Some row ->
    (covered_low (Robot.val r A_INPUT) i = true ->
       AI_MIN row <= A_INPUT_MIN_THRESHOLD)
    /\ (covered_high (Robot.val r A_INPUT) i = true ->
          AI_MAX row >= A_INPUT_MAX_THRESHOLD).

(** The value a pass starts from. *)
Definition analog_start (first_call : bool) (r : Robot.t) : Z :=
  if first_call then 0 else Robot.val r A_INPUT.

Lemma analog_pass_bits (first_call : bool) (r : Robot.t) (k : Z) :
  16 <= k ->
  Z.testbit (analog_pass first_call r).1 k = true
  <-> Z.testbit (analog_start first_call r) k = true
      \/ exists (j : nat) (row : AnalogRow), Robot.analog_in r !! j = Some row
           /\ ((k = 16 + Z.of_nat j /\ AI_MIN row <= A_INPUT_MIN_THRESHOLD)
               \/ (k = 24 + Z.of_nat j /\ AI_MAX row >= A_INPUT_MAX_THRESHOLD)).
Proof.
  intros Hk. unfold analog_pass. fold (analog_start first_call r).
  destruct (analog_countdown_spec (analog_start first_call r)) as [_ Hb].
  destruct (analog_countdown (analog_start first_call r)) as [v1 o1].
  simpl in Hb.
  pose proof (analog_scan_bits 0 (Robot.analog_in r) v1 k Hk) as Hs.
  destruct (analog_scan 0 (Robot.analog_in r) v1) as [v2 o2]. simpl in *.
  by rewrite Hs, Hb.
Qed.

Lemma analog_pass_sound (first_call : bool) (r : Robot.t) :
  (length (Robot.analog_in r) <= 8)%nat ->
  first_call = true \/ analog_inv r ->
  forall (i : nat) (row : AnalogRow), Robot.analog_in r !! i = Some row ->
    (covered_low (analog_pass first_call r).1 i = true ->
       AI_MIN row <= A_INPUT_MIN_THRESHOLD)
    /\ (covered_high (analog_pass first_call r).1 i = true ->
          AI_MAX row >= A_INPUT_MAX_THRESHOLD).
Proof.
  intros Hlen Hinv i row Hi.
  pose proof (lookup_lt_Some _ _ _ Hi) as Hlt.
  assert (Hstart : forall k, Z.testbit (analog_start first_call r) k = true ->
            first_call = false /\ Z.testbit (Robot.val r A_INPUT) k = true).
  { intros k. unfold analog_start. destruct first_call; [|done].
    by rewrite Z.bits_0. }
  unfold covered_low, covered_high. split; intros H;
    apply analog_pass_bits in H; try lia;
    destruct H as [H|(j & row' & Hj & [[E Hm]|[E Hm]])].
  - apply Hstart in H as [-> H]. destruct Hinv as [?|Hinv]; [done|].
    by apply (Hinv i row Hi).
  - assert (j = i) by lia. subst j. congruence.
  - pose proof (lookup_lt_Some _ _ _ Hj). lia.
  - apply Hstart in H as [-> H]. destruct Hinv as [?|Hinv]; [done|].
    by apply (Hinv i row Hi).
  - pose proof (lookup_lt_Some _ _ _ Hj). lia.
  - assert (j = i) by lia. subst j. congruence.
Qed.

(** A new coverage bit starts the pulse: at least the ticks of one second
    on the countdown, and a command to the indicators. *)
Lemma analog_pass_pulse (first_call : bool) (r : Robot.t) (k : Z) :
  16 <= k ->
  Z.testbit (analog_start first_call r) k = false ->
  Z.testbit (analog_pass first_call r).1 k = true ->
  to_int frequency <= countdown (analog_pass first_call r).1
  /\ exists values mask outs,
       (analog_pass first_call r).2 = DigitalOutput values mask :: outs.
Proof.
  intros Hk Hold Hnew. unfold analog_pass in *.
  fold (analog_start first_call r) in *.
  destruct (analog_countdown_spec (analog_start first_call r)) as [_ Hb].
  destruct (analog_countdown (analog_start first_call r)) as [v1 o1].
  simpl in Hb.
  destruct (analog_scan_pulse 0 (Robot.analog_in r) v1) as [E|[Hc Ho]].
  - rewrite E in Hnew. simpl in Hnew. rewrite Hb in Hnew by done. congruence.
  - pose proof (analog_scan_outputs 0 (Robot.analog_in r) v1) as Hall.
    destruct (analog_scan 0 (Robot.analog_in r) v1) as [v2 o2]. simpl in *.
    split; [exact Hc|].
    destruct o2 as [|o o2]; [done|].
    apply Forall_cons in Hall as [Ho1 _].
    destruct o; try done. by eexists _, _, _.
Qed.

(** Telemetry keeps the running minimum and maximum of every channel. *)
Lemma analog_updates_lookup (samples : list Z) (rows : list AnalogRow)
  (i : nat) (row' : AnalogRow) :
  analog_updates samples rows !! i = Some row' ->
  exists row, rows !! i = Some row
    /\ AI_MIN row' <= AI_MIN row /\ AI_MAX row <= AI_MAX row'.
Proof.
  revert rows i. induction samples as [|x samples IH]; intros rows i H.
  - destruct rows; simpl in H; exists row'; (split; [done|lia]).
  - destruct rows as [|row rows]; simpl in H; [by rewrite lookup_nil in H|].
    destruct i as [|i]; simpl in *.
    + injection H as <-. exists row. split; [done|]. simpl. lia.
    + by apply IH.
Qed.

Lemma sensorsCore_analog_inv (msg : SensorState) (s : QNode) (r : Robot.t) :
  under_test s = Some r -> current_step s = TEST_ANALOG_INPUT_PORTS ->
  analog_inv r ->
  exists r', under_test (sensorsCoreCB msg s) = Some r'
    /\ Robot.val r' A_INPUT = Robot.val r A_INPUT
    /\ Robot.analog_in r' = analog_updates (analog_input msg) (Robot.analog_in r)
    /\ analog_inv r'.
Proof.
  intros Hu Hstep Hinv. unfold sensorsCoreCB. rewrite Hu, Hstep.
  change ((TEST_MOTORS_FORWARD <=? TEST_ANALOG_INPUT_PORTS)
          && (TEST_ANALOG_INPUT_PORTS <=? TEST_MOTORS_COUNTERCW)) with false.
  change (TEST_ANALOG_INPUT_PORTS =? MEASURE_CHARGING) with false.
  change (TEST_ANALOG_INPUT_PORTS =? TEST_ANALOG_INPUT_PORTS) with true.
  cbv iota. simpl andb. cbv iota.
  eexists. split; [reflexivity|]. split; [reflexivity|].
  split; [reflexivity|].
  intros i row' Hi. simpl in Hi.
  apply analog_updates_lookup in Hi as (row & Hrow & Hmin & Hmax).
  destruct (Hinv i row Hrow) as [Hlo Hhi].
  change (Robot.val (Robot.set_analog_in _ r) A_INPUT)
    with (Robot.val r A_INPUT).
  split; intros H; [specialize (Hlo H)|specialize (Hhi H)]; lia.
Qed.

(** One call of [testAnalogIn], written out. *)
Lemma testAnalogIn_on_spec (first_call : bool) (r : Robot.t) (s : QNode) :
  wf r ->
  let v := (analog_pass first_call r).1 in
  let done := (testAnalogIn_on first_call r s).1 in
  let s' := (testAnalogIn_on first_call r s).2 in
  done = (v =? ALL_COVERED)
  /\ current_step s' = (if done then current_step s + 1 else current_step s)
  /\ exists r', under_test s' = Some r'
       /\ Robot.analog_in r' = Robot.analog_in r
       /\ Robot.val r' A_INPUT = v
       /\ Robot.ok r' A_INPUT = (Robot.ok r A_INPUT || done).
Proof.
  intros Hwf v done s'. subst v done s'. unfold testAnalogIn_on.
  assert (Hdev : (A_INPUT < DEVICES_COUNT)%nat) by (vm_compute; lia).
  destruct (analog_pass first_call r) as [v outs]. simpl.
  destruct (v =? ALL_COVERED); simpl.
  - split; [done|]. split; [by destruct first_call|].
    eexists. split; [reflexivity|]. split; [reflexivity|].
    rewrite val_set_ok, val_set_val_eq, ok_set_ok_eq, orb_true_r
      by (try apply wf_set_val; done). done.
  - split; [done|]. split; [by destruct first_call|].
    eexists. split; [reflexivity|]. split; [reflexivity|].
    rewrite val_set_val_eq, ok_set_val, orb_false_r by done. done.
Qed.

Lemma all_covered_bits :
  countdown ALL_COVERED = 0
  /\ forall i : nat, (i < 4)%nat ->
       covered_low ALL_COVERED i = true /\ covered_high ALL_COVERED i = true.
Proof.
  split; [reflexivity|]. intros i Hi.
  destruct i as [|[|[|[|i]]]]; try lia; by vm_compute.
Qed.

(** A unit entering the analog step, with the batches the loop will serve. *)
Definition analog_world (bs : list (list Event)) : World :=
  mkWorld (fresh_at TEST_ANALOG_INPUT_PORTS) 0 TEST_DIGITAL_IO_PORTS bs true [].

Definition analog_reports (x : Z) : Event :=
  EvSensorsCore (mkSensorState [0; 0] 0 0 [x; x; x; x]).

Definition analog_outcome (res : option (unit * World))
  : option (Z * bool * Z) :=
  match res with
  | Some (_, w) =>
      match under_test (node w) with
      | Some r => Some (current_step (node w), Robot.ok r A_INPUT,
                        Robot.val r A_INPUT)
      | None => None
      end
  | None => None
  end.

(** All four screws turned to both ends before the first iteration: every
    channel is covered at once, and the step completes twenty iterations
    later, when the pulse has been counted down. *)
Example analog_example :
  analog_outcome (run 20 (analog_world [[analog_reports 0; analog_reports 4095]]))
  = Some (TEST_ANALOG_INPUT_PORTS, false, 0x0F0F0001)
  /\ analog_outcome (run 21 (analog_world [[analog_reports 0; analog_reports 4095]]))
     = Some (EVALUATION_COMPLETED, true, ALL_COVERED).
Proof. by vm_compute. Qed.

(** *** From the samples to the coverage bits *)

(** The samples of channel [i] in a run of telemetry messages, oldest
    first. *)
Definition channel (i : nat) (msgs : list SensorState) : list Z :=
  omap (fun msg => analog_input msg !! i) msgs.

(** The table after a run of telemetry messages. *)
Definition rows_after (msgs : list SensorState) (rows : list AnalogRow)
  : list AnalogRow :=
  foldl (fun rows msg => analog_updates (analog_input msg) rows) rows msgs.

(** Row [i] is updated with sample [i], and with no other. *)
Lemma analog_updates_row (samples : list Z) (rows : list AnalogRow)
  (i : nat) (row : AnalogRow) :
  rows !! i = Some row ->
  analog_updates samples rows !! i
  = Some (match samples !! i with
          | Some x => analog_update x row
          | None => row
          end).
Proof.
  revert rows i. induction samples as [|x samples IH]; intros rows i H.
  - destruct rows; simpl; by rewrite ?H.
  - destruct rows as [|row0 rows]; [by rewrite lookup_nil in H|].
    destruct i as [|i]; simpl in *.
    + by injection H as ->.
    + by apply IH.
Qed.

Lemma rows_after_row (msgs : list SensorState) (rows : list AnalogRow)
  (i : nat) (row : AnalogRow) :
  rows !! i = Some row ->
  exists row', rows_after msgs rows !! i = Some row'
    /\ AI_MIN row' = foldl Z.min (AI_MIN row) (to_int16 <$> channel i msgs)
    /\ AI_MAX row' = foldl Z.max (AI_MAX row) (to_int16 <$> channel i msgs).
Proof.
  revert rows row. induction msgs as [|msg msgs IH]; intros rows row H.
  - exists row. by repeat split.
  - pose proof (analog_updates_row (analog_input msg) rows i row H) as H1.
    destruct (IH _ _ H1) as (row' & E & Hmin & Hmax).
    exists row'. split; [exact E|]. unfold channel. cbn [omap list_omap].
    fold (channel i msgs).
    destruct (analog_input msg !! i) as [x|]; cbn in *; by split.
Qed.

Lemma min_reaches (l : list Z) (a t : Z) :
  foldl Z.min a l <= t <-> a <= t \/ exists x, x ∈ l /\ x <= t.
Proof.
  revert a. induction l as [|y l IH]; intros a; cbn.
  - split; [by left|]. intros [H|(x & Hx & _)]; [done|].
    by apply elem_of_nil in Hx.
  - rewrite IH. split.
    + intros [H|(x & Hx & Hle)].
      * destruct (Z.min_spec a y) as [[_ E]|[_ E]]; rewrite E in H;
          [by left|right; exists y; split; [apply list_elem_of_here|done]].
      * right. exists x. split; [by apply elem_of_cons; right|done].
    + intros [H|(x & Hx & Hle)]; [left; lia|].
      apply elem_of_cons in Hx as [->|Hx]; [left; lia|].
      right. by exists x.
Qed.

Lemma max_reaches (l : list Z) (a t : Z) :
  foldl Z.max a l >= t <-> a >= t \/ exists x, x ∈ l /\ x >= t.
Proof.
  revert a. induction l as [|y l IH]; intros a; cbn.
  - split; [by left|]. intros [H|(x & Hx & _)]; [done|].
    by apply elem_of_nil in Hx.
  - rewrite IH. split.
    + intros [H|(x & Hx & Hle)].
      * destruct (Z.max_spec a y) as [[_ E]|[_ E]]; rewrite E in H;
          [right; exists y; split; [apply list_elem_of_here|done]|by left].
      * right. exists x. split; [by apply elem_of_cons; right|done].
    + intros [H|(x & Hx & Hle)]; [left; lia|].
      apply elem_of_cons in Hx as [->|Hx]; [left; lia|].
      right. by exists x.
Qed.

(** A run of telemetry messages served at the analog step: only the table
    changes, and it becomes [rows_after]. *)
Lemma spin_telemetry (msgs : list SensorState) (s : QNode) (r : Robot.t) :
  under_test s = Some r -> current_step s = TEST_ANALOG_INPUT_PORTS ->
  exists r',
    under_test (spin (EvSensorsCore <$> msgs) s) = Some r'
    /\ Robot.analog_in r' = rows_after msgs (Robot.analog_in r)
    /\ Robot.device_ok r' = Robot.device_ok r
    /\ Robot.device_val r' = Robot.device_val r
    /\ current_step (spin (EvSensorsCore <$> msgs) s) = current_step s
    /\ timer_active (spin (EvSensorsCore <$> msgs) s) = timer_active s
    /\ trace (spin (EvSensorsCore <$> msgs) s) = trace s.
Proof.
  revert s r. induction msgs as [|msg msgs IH]; intros s r Hu Hs.
  - exists r. by repeat split.
  - unfold spin. cbn [fmap list_fmap foldl]. fold (spin (EvSensorsCore <$> msgs)).
    cbn [onEvent].
    assert (E : sensorsCoreCB msg s
                = set_under_test
                    (Some (Robot.set_analog_in
                             (analog_updates (analog_input msg)
                                (Robot.analog_in r)) r)) s).
    { unfold sensorsCoreCB. rewrite Hu, Hs. reflexivity. }
    rewrite E.
    destruct (IH (set_under_test
                    (Some (Robot.set_analog_in
                             (analog_updates (analog_input msg)
                                (Robot.analog_in r)) r)) s)
                 _ eq_refl Hs)
      as (r' & U & A & O & V & S & T & Tr).
    exists r'. by repeat split.
Qed.

(** What a call of [testAnalogIn] leaves in the coverage bits of a channel:
    the bit it starts from, or the extreme of the channel at its
    threshold. *)
Lemma analog_pass_covered (first_call : bool) (r : Robot.t) (i : nat)
  (row : AnalogRow) :
  (length (Robot.analog_in r) <= 8)%nat ->
  Robot.analog_in r !! i = Some row ->
  (covered_low (analog_pass first_call r).1 i = true
   <-> covered_low (analog_start first_call r) i = true
       \/ AI_MIN row <= A_INPUT_MIN_THRESHOLD)
  /\ (covered_high (analog_pass first_call r).1 i = true
      <-> covered_high (analog_start first_call r) i = true
          \/ AI_MAX row >= A_INPUT_MAX_THRESHOLD).
Proof.
  intros Hlen Hi. pose proof (lookup_lt_Some _ _ _ Hi) as Hlt.
  unfold covered_low, covered_high.
  rewrite !analog_pass_bits by lia. split; split.
  - intros [H|(j & row' & Hj & [[E Hm]|[E Hm]])]; [by left| |].
    + assert (j = i) by lia. subst j. right. congruence.
    + pose proof (lookup_lt_Some _ _ _ Hj). lia.
  - intros [H|H]; [by left|]. right. exists i, row. split; [done|]. by left.
  - intros [H|(j & row' & Hj & [[E Hm]|[E Hm]])]; [by left| |].
    + pose proof (lookup_lt_Some _ _ _ Hj). lia.
    + assert (j = i) by lia. subst j. right. congruence.
  - intros [H|H]; [by left|]. right. exists i, row. split; [done|]. by right.
Qed.

Lemma analog_start_covered (first_call : bool) (r : Robot.t) (i : nat) :
  (covered_low (analog_start first_call r) i = true
   <-> first_call = false /\ covered_low (Robot.val r A_INPUT) i = true)
  /\ (covered_high (analog_start first_call r) i = true
      <-> first_call = false /\ covered_high (Robot.val r A_INPUT) i = true).
Proof.
  unfold analog_start, covered_low, covered_high.
  destruct first_call; rewrite ?Z.bits_0; split; split;
    first [by intros [? ?] | by intros ? ].
Qed.

(** One iteration of the loop at the analog step, the telemetry messages
    [msgs] having arrived: from the samples to the coverage bits. *)
Lemma analog_iteration (w : World) (r : Robot.t) (msgs : list SensorState) :
  under_test (node w) = Some r -> wf r ->
  (length (Robot.analog_in r) <= 8)%nat ->
  current_step (node w) = TEST_ANALOG_INPUT_PORTS ->
  timer_active (node w) = false ->
  hd [] (batches w) = EvSensorsCore <$> msgs ->
  exists w' r',
    run_iter w = Some (tt, w')
    /\ under_test (node w') = Some r'
    /\ Robot.analog_in r' = rows_after msgs (Robot.analog_in r)
    /\ forall (i : nat) (row : AnalogRow),
         Robot.analog_in r !! i = Some row ->
         (covered_low (Robot.val r' A_INPUT) i = true
          <-> (previous_step w = TEST_ANALOG_INPUT_PORTS
               /\ covered_low (Robot.val r A_INPUT) i = true)
              \/ AI_MIN row <= A_INPUT_MIN_THRESHOLD
              \/ exists x, x ∈ channel i msgs
                   /\ to_int16 x <= A_INPUT_MIN_THRESHOLD)
         /\ (covered_high (Robot.val r' A_INPUT) i = true
             <-> (previous_step w = TEST_ANALOG_INPUT_PORTS
                  /\ covered_high (Robot.val r A_INPUT) i = true)
                 \/ AI_MAX row >= A_INPUT_MAX_THRESHOLD
                 \/ exists x, x ∈ channel i msgs
                      /\ to_int16 x >= A_INPUT_MAX_THRESHOLD).
Proof.
  intros Hu Hwf Hlen Hs Ha Hb.
  destruct (spin_telemetry msgs (node w) r Hu Hs)
    as (r1 & U1 & A1 & O1 & V1 & S1 & T1 & _).
  assert (Hwf1 : wf r1) by (destruct Hwf; split; congruence).
  assert (Hval : Robot.val r1 A_INPUT = Robot.val r A_INPUT)
    by (unfold Robot.val; by rewrite V1).
  set (fc := negb (previous_step w =? TEST_ANALOG_INPUT_PORTS)).
  destruct (testAnalogIn_on_spec fc r1
              (spin (EvSensorsCore <$> msgs) (node w)) Hwf1)
    as (_ & _ & r' & U' & A' & V' & _).
  assert (E : run_iter w
              = Some (tt,
                      mkWorld
                        (testAnalogIn_on fc r1
                           (spin (EvSensorsCore <$> msgs) (node w))).2
                        (count w + 1) TEST_ANALOG_INPUT_PORTS
                        (tail (batches w)) (camera_ok w) (camera w))).
  { unfold run_iter, bind, spinOnce. rewrite Hb.
    unfold step_tick. cbn [node count previous_step].
    rewrite U1, T1, Ha, S1, Hs.
    change (step_action TEST_ANALOG_INPUT_PORTS ?ch ?c)
      with (_ <- testAnalogIn ch ;; ret tt).
    fold fc.
    unfold testAnalogIn. unfold bind, set_locals, robot, ret.
    cbn [node batches camera_ok camera]. rewrite U1.
    by destruct (testAnalogIn_on fc r1 _). }
  eexists _, r'. split; [exact E|]. cbn [node].
  split; [exact U'|]. split; [by rewrite A', A1|].
  intros i row Hi.
  destruct (rows_after_row msgs _ i row Hi) as (row1 & Hrow1 & Hmin & Hmax).
  rewrite <- A1 in Hrow1.
  assert (Hlen1 : (length (Robot.analog_in r1) <= 8)%nat).
  { rewrite A1. unfold rows_after. clear -Hlen.
    revert Hlen. generalize (Robot.analog_in r).
    induction msgs as [|m msgs IH]; intros rows H; [done|]. cbn.
    apply IH.
    assert (L : forall samples rs,
              length (analog_updates samples rs) = length rs).
    { clear. intros samples. induction samples as [|x samples IHs];
        intros [|row rs]; cbn; try done. by rewrite IHs. }
    by rewrite L. }
  destruct (analog_pass_covered fc r1 i row1 Hlen1 Hrow1) as [HL HH].
  destruct (analog_start_covered fc r1 i) as [SL SH].
  assert (Hfc : fc = false <-> previous_step w = TEST_ANALOG_INPUT_PORTS).
  { subst fc. rewrite negb_false_iff. apply Z.eqb_eq. }
  rewrite V', HL, HH, SL, SH, Hfc, Hval, Hmin, Hmax.
  rewrite min_reaches, max_reaches.
  split; split; intros H.
  - destruct H as [H|[H|(x & Hx & Hle)]]; [by left|right; by left|].
    apply list_elem_of_fmap in Hx as (y & -> & Hy). right; right. by exists y.
  - destruct H as [H|[H|(x & Hx & Hle)]]; [by left|right; by left|].
    right; right. exists (to_int16 x). split; [|done].
    apply list_elem_of_fmap. by exists x.
  - destruct H as [H|[H|(x & Hx & Hle)]]; [by left|right; by left|].
    apply list_elem_of_fmap in Hx as (y & -> & Hy). right; right. by exists y.
  - destruct H as [H|[H|(x & Hx & Hle)]]; [by left|right; by left|].
    right; right. exists (to_int16 x). split; [|done].
    apply list_elem_of_fmap. by exists x.
Qed.

Lemma to_int16_small (x : Z) : 0 <= x < 32768 -> to_int16 x = x.
Proof. intros Hx. unfold to_int16. rewrite Z.mod_small; lia. Qed.

(** C8, as the code has it.  The table and the thresholds are on the
    samples read as [int16].
    (1) One iteration of the loop at the analog step, the telemetry
    messages [msgs] having arrived since the last one: afterwards a channel
    is covered-low if and only if it was before (and the call is not the
    first of the step), or its running minimum was at or below 2, or one of
    the channel's own samples in [msgs], read as [int16], is; likewise
    covered-high with the maximum and 4090.
    (2) Telemetry at the analog step leaves in row [i] the minimum and the
    maximum of what the row held and of the samples of channel [i], read as
    [int16], and touches no device value.
    (3) A sample below 32768 reads as itself.
    (4) The coverage bits stay sound through calls and telemetry: a channel
    marked covered-low has its running minimum at or below 2, one marked
    covered-high its running maximum at or above 4090.
    (5) A coverage bit that appears in a call starts the pulse: a
    digital-output command is published and the countdown holds at least
    the ticks of one second; the countdown loses one tick per call while it
    runs.
    (6) The call reports completion, sets the verified flag and advances
    the step only when the packed value is 0x0F0F0000: all four channels
    covered both ways, countdown at zero; otherwise the flag and the step
    are left as they are. *)
Theorem analog_threshold_scan :
  (forall (w : World) (r : Robot.t) (msgs : list SensorState),
     under_test (node w) = Some r -> wf r ->
     (length (Robot.analog_in r) <= 8)%nat ->
     current_step (node w) = TEST_ANALOG_INPUT_PORTS ->
     timer_active (node w) = false ->
     hd [] (batches w) = EvSensorsCore <$> msgs ->
     exists w' r',
       run_iter w = Some (tt, w')
       /\ under_test (node w') = Some r'
       /\ Robot.analog_in r' = rows_after msgs (Robot.analog_in r)
       /\ forall (i : nat) (row : AnalogRow),
            Robot.analog_in r !! i = Some row ->
            (covered_low (Robot.val r' A_INPUT) i = true
             <-> (previous_step w = TEST_ANALOG_INPUT_PORTS
                  /\ covered_low (Robot.val r A_INPUT) i = true)
                 \/ AI_MIN row <= A_INPUT_MIN_THRESHOLD
                 \/ exists x, x ∈ channel i msgs
                      /\ to_int16 x <= A_INPUT_MIN_THRESHOLD)
            /\ (covered_high (Robot.val r' A_INPUT) i = true
                <-> (previous_step w = TEST_ANALOG_INPUT_PORTS
                     /\ covered_high (Robot.val r A_INPUT) i = true)
                    \/ AI_MAX row >= A_INPUT_MAX_THRESHOLD
                    \/ exists x, x ∈ channel i msgs
                         /\ to_int16 x >= A_INPUT_MAX_THRESHOLD))
  /\ (forall (msgs : list SensorState) (s : QNode) (r : Robot.t) (i : nat)
        (row : AnalogRow),
        under_test s = Some r -> current_step s = TEST_ANALOG_INPUT_PORTS ->
        Robot.analog_in r !! i = Some row ->
        exists r' row',
          under_test (spin (EvSensorsCore <$> msgs) s) = Some r'
          /\ Robot.analog_in r' !! i = Some row'
          /\ AI_MIN row'
             = foldl Z.min (AI_MIN row) (to_int16 <$> channel i msgs)
          /\ AI_MAX row'
             = foldl Z.max (AI_MAX row) (to_int16 <$> channel i msgs)
          /\ Robot.device_val r' = Robot.device_val r)
  /\ (forall x : Z, 0 <= x < 32768 -> to_int16 x = x)
  /\ (forall (first_call : bool) (r : Robot.t) (s : QNode),
        wf r -> (length (Robot.analog_in r) <= 8)%nat ->
        first_call = true \/ analog_inv r ->
        exists r', under_test (testAnalogIn_on first_call r s).2 = Some r'
          /\ analog_inv r')
  /\ (forall (msg : SensorState) (s : QNode) (r : Robot.t),
        under_test s = Some r -> current_step s = TEST_ANALOG_INPUT_PORTS ->
        analog_inv r ->
        exists r', under_test (sensorsCoreCB msg s) = Some r' /\ analog_inv r')
  /\ (forall (first_call : bool) (r : Robot.t) (k : Z),
        16 <= k ->
        Z.testbit (analog_start first_call r) k = false ->
        Z.testbit (analog_pass first_call r).1 k = true ->
        to_int frequency <= countdown (analog_pass first_call r).1
        /\ exists values mask outs,
             (analog_pass first_call r).2 = DigitalOutput values mask :: outs)
  /\ (forall v : Z,
        countdown (analog_countdown v).1
        = (if countdown v >? 0 then countdown v - 1 else countdown v))
  /\ (forall (first_call : bool) (r : Robot.t) (s : QNode),
        wf r ->
        let done := (testAnalogIn_on first_call r s).1 in
        let s' := (testAnalogIn_on first_call r s).2 in
        exists r', under_test s' = Some r'
          /\ Robot.ok r' A_INPUT = (Robot.ok r A_INPUT || done)
          /\ current_step s'
             = (if done then current_step s + 1 else current_step s)
          /\ (done = true ->
                Robot.val r' A_INPUT = ALL_COVERED
                /\ countdown (Robot.val r' A_INPUT) = 0
                /\ forall i : nat, (i < 4)%nat ->
                     covered_low (Robot.val r' A_INPUT) i = true
                     /\ covered_high (Robot.val r' A_INPUT) i = true)).
Proof.
  split; [exact analog_iteration|].
  split.
  { intros msgs s r i row Hu Hs Hi.
    destruct (spin_telemetry msgs s r Hu Hs) as (r' & U & A & _ & V & _).
    destruct (rows_after_row msgs _ i row Hi) as (row' & Hrow & Hmin & Hmax).
    exists r', row'. rewrite A. by repeat split. }
  split; [exact to_int16_small|].
  split; [|split; [|split; [exact analog_pass_pulse|split]]].
  - intros first_call r s Hwf Hlen Hinv.
    destruct (testAnalogIn_on_spec first_call r s Hwf)
      as (_ & _ & r' & U & A & V & _).
    exists r'. split; [exact U|]. intros i row Hi. rewrite A in Hi.
    rewrite V. by apply analog_pass_sound.
  - intros msg s r Hu Hstep Hinv.
    destruct (sensorsCore_analog_inv msg s r Hu Hstep Hinv)
      as (r' & U & _ & _ & I).
    by exists r'.
  - intros v. apply analog_countdown_spec.
  - intros first_call r s Hwf done s'.
    destruct (testAnalogIn_on_spec first_call r s Hwf)
      as (D & S & r' & U & A & V & F).
    exists r'. split; [exact U|]. split; [exact F|]. split; [exact S|].
    intros Hd. subst done. rewrite Hd in D.
    symmetry in D. apply Z.eqb_eq in D. rewrite V, D.
    split; [reflexivity|]. apply all_covered_bits.
Qed.

Lemma analog_threshold_scan_witness :
  exists w' r',
    run_iter (analog_world [[analog_reports 1; analog_reports 4095]])
    = Some (tt, w')
    /\ under_test (node w') = Some r'
    /\ covered_low (Robot.val r' A_INPUT) 2 = true
    /\ covered_high (Robot.val r' A_INPUT) 2 = true.
Proof.
  destruct (proj1 analog_threshold_scan
              (analog_world [[analog_reports 1; analog_reports 4095]])
              (Robot.new 0)
              [mkSensorState [0; 0] 0 0 [1; 1; 1; 1];
               mkSensorState [0; 0] 0 0 [4095; 4095; 4095; 4095]]
              eq_refl (wf_new 0) ltac:(vm_compute; lia) eq_refl eq_refl
              eq_refl)
    as (w' & r' & E & U & _ & H).
  exists w', r'. split; [exact E|]. split; [exact U|].
  destruct (H 2%nat (mkAnalogRow 0 32767 (-32768) 0) eq_refl) as [HL HH].
  split.
  - apply HL. right; right. exists 1. split; [|vm_compute; discriminate].
    apply list_elem_of_In. simpl. tauto.
  - apply HH. right; right. exists 4095. split; [|vm_compute; discriminate].
    apply list_elem_of_In. simpl. tauto.
Defined.

(** C8 as stated fails on the samples themselves: a sample of 40000 is
    above every threshold, yet read as [int16] it is negative, and the
    channel is marked covered-low at once. *)
Lemma analog_scan_counterexample :
  channel 0 [mkSensorState [0; 0] 0 0 [40000; 40000; 40000; 40000]] = [40000]
  /\ ~ 40000 <= A_INPUT_MIN_THRESHOLD
  /\ exists w' r',
       run 1 (analog_world [[analog_reports 40000]]) = Some (tt, w')
       /\ under_test (node w') = Some r'
       /\ covered_low (Robot.val r' A_INPUT) 0 = true.
Proof.
  split; [reflexivity|]. split; [vm_compute; by intros H|].
  eexists _, _. split; [by vm_compute|]. split; [reflexivity|].
  by vm_compute.
Qed.

(** ** The scripted motion controller *)

Lemma move_armed (v w t : Q) (s : QNode) :
  (0 < t)%Q ->
  move v w t s
  = set_timer_active true (set_timer (Some t) (emit (CmdVel v w) s)).
Proof.
  intros Ht. unfold move. apply Qltb_lt in Ht. by rewrite Ht.
Qed.

(** C9. (1) A non-blocking [move] with a positive duration publishes the
    velocity at once, arms the one-shot timer with that duration and marks
    the motion active, touching nothing else.  (2) When the armed timer
    fires, the zero velocity is published, the step advances by one, the
    motion is no longer active and the timer is disarmed: a further expiry
    is not delivered.  (3) Arming again replaces the pending period: the one
    timer holds the latest duration only.  (4) While the motion is active an
    iteration of the loop runs no step action: the node is left as it is. *)
Theorem scripted_motion :
  (forall (v w t : Q) (s : QNode), (0 < t)%Q ->
     let s' := move v w t s in
     trace s' = CmdVel v w :: trace s
     /\ timer s' = Some t /\ timer_active s' = true
     /\ current_step s' = current_step s /\ under_test s' = under_test s
     /\ answer_req s' = answer_req s /\ evaluated s' = evaluated s
     /\ out_file s' = out_file s)
  /\ (forall (s : QNode) (t : Q), timer s = Some t ->
        let s' := onEvent EvTimer s in
        trace s' = CmdVel 0 0 :: trace s
        /\ current_step s' = current_step s + 1
        /\ timer_active s' = false /\ timer s' = None
        /\ onEvent EvTimer s' = s')
  /\ (forall (v1 w1 t1 v2 w2 t2 : Q) (s : QNode),
        (0 < t1)%Q -> (0 < t2)%Q ->
        timer (move v2 w2 t2 (move v1 w1 t1 s)) = Some t2)
  /\ (forall w : World,
        is_Some (under_test (node w)) -> timer_active (node w) = true ->
        exists w', step_tick w = Some (tt, w') /\ node w' = node w).
Proof.
  split; [|split; [|split]].
  - intros v w t s Ht s'. subst s'. rewrite move_armed by done.
    by repeat split.
  - intros s t Ht s'. subst s'. simpl. rewrite Ht.
    unfold timerEventCB, move. change (Qltb 0 0) with false. cbn.
    by repeat split.
  - intros v1 w1 t1 v2 w2 t2 s H1 H2. by rewrite !move_armed.
  - intros w [r Hr] Ha. unfold step_tick. rewrite Hr, Ha.
    eexists. split; reflexivity.
Qed.

Lemma scripted_motion_witness :
  timer (move TEST_MOTORS_V 0 (TEST_MOTORS_D / TEST_MOTORS_V)%Q
           (fresh_at TEST_MOTORS_FORWARD))
  = Some (TEST_MOTORS_D / TEST_MOTORS_V)%Q.
Proof.
  refine (proj1 (proj2 (proj1 scripted_motion TEST_MOTORS_V 0%Q
                          (TEST_MOTORS_D / TEST_MOTORS_V)%Q
                          (fresh_at TEST_MOTORS_FORWARD) _))).
  reflexivity.
Defined.

(** * Further properties of the sequencer *)

(** ** The books: ledger, result file, sequence ids

    What the bookkeeping of finalized records looks at: the sequence id, the
    serial and the identification flag of the record under test, the ledger
    and the result file. *)

Definition tag (r : Robot.t) : nat * list Z * bool :=
  (Robot.seq_nb r, Robot.serial r, Robot.ok r V_INFO).

Definition books (s : QNode)
  : option (nat * list Z * bool) * list Robot.t * list Robot.t :=
  (tag <$> under_test s, evaluated s, out_file s).

Lemma tag_set_ok d b r : d <> V_INFO -> tag (Robot.set_ok d b r) = tag r.
Proof. intros Hd. unfold tag. by rewrite ok_set_ok_ne. Qed.

Lemma tag_set_val d v r : tag (Robot.set_val d v r) = tag r.
Proof. reflexivity. Qed.
Lemma tag_set_imu i x r : tag (Robot.set_imu i x r) = tag r.
Proof. reflexivity. Qed.
Lemma tag_set_analog_in a r : tag (Robot.set_analog_in a r) = tag r.
Proof. reflexivity. Qed.
Lemma tag_set_diagnostics d r : tag (Robot.set_diagnostics d r) = tag r.
Proof. reflexivity. Qed.
Lemma tag_set_state st r : tag (Robot.set_state st r) = tag r.
Proof. reflexivity. Qed.

Ltac tag_simpl :=
  repeat first
    [ rewrite tag_set_val | rewrite tag_set_imu | rewrite tag_set_analog_in
    | rewrite tag_set_diagnostics | rewrite tag_set_state
    | rewrite tag_set_ok by dev_neq ].

Lemma books_move v w t s : books (move v w t s) = books s.
Proof. unfold move. by destruct (Qltb 0 t). Qed.

Lemma under_test_move v w t s : under_test (move v w t s) = under_test s.
Proof. unfold move. by destruct (Qltb 0 t). Qed.
Lemma evaluated_move v w t s : evaluated (move v w t s) = evaluated s.
Proof. unfold move. by destruct (Qltb 0 t). Qed.
Lemma out_file_move v w t s : out_file (move v w t s) = out_file s.
Proof. unfold move. by destruct (Qltb 0 t). Qed.

Ltac books_callback cb :=
  let Hu := fresh "Hu" in
  unfold books, cb;
  match goal with
  | |- context [under_test ?s] =>
      destruct (under_test s) as [?r|] eqn:Hu; [|by rewrite ?Hu]
  end;
  split_ifs;
  cbn -[Robot.set_ok Robot.set_val Robot.set_imu Robot.val Robot.ok
        Robot.set_analog_in Robot.set_diagnostics Robot.set_state tag];
  rewrite ?under_test_move, ?evaluated_move, ?out_file_move;
  cbn -[Robot.set_ok Robot.set_val Robot.set_imu Robot.val Robot.ok
        Robot.set_analog_in Robot.set_diagnostics Robot.set_state tag];
  rewrite ?Hu; cbn -[Robot.set_ok Robot.set_val Robot.set_imu Robot.val Robot.ok
        Robot.set_analog_in Robot.set_diagnostics Robot.set_state tag];
  tag_simpl; try reflexivity.

Lemma books_button b st s : books (buttonEventCB b st s) = books s.
Proof. books_callback buttonEventCB. Qed.
Lemma books_bumper b st s : books (bumperEventCB b st s) = books s.
Proof. books_callback bumperEventCB. Qed.
Lemma books_wDrop b st s : books (wDropEventCB b st s) = books s.
Proof. books_callback wDropEventCB. Qed.
Lemma books_cliff b st s : books (cliffEventCB b st s) = books s.
Proof. books_callback cliffEventCB. Qed.
Lemma books_power e s : books (powerEventCB e s) = books s.
Proof. books_callback powerEventCB. Qed.
Lemma books_input e s : books (inputEventCB e s) = books s.
Proof. books_callback inputEventCB. Qed.
Lemma books_sensors e s : books (sensorsCoreCB e s) = books s.
Proof. books_callback sensorsCoreCB. Qed.
Lemma books_dock e s : books (dockBeaconCB e s) = books s.
Proof. books_callback dockBeaconCB; split_ifs; tag_simpl; reflexivity. Qed.
Lemma books_gyro e s : books (gyroscopeCB e s) = books s.
Proof. books_callback gyroscopeCB. Qed.
Lemma books_diag e s : books (diagnosticsCB e s) = books s.
Proof. books_callback diagnosticsCB. Qed.
Lemma books_status e s : books (robotStatusCB e s) = books s.
Proof. books_callback robotStatusCB. Qed.

Lemma books_timer s : books (timerEventCB s) = books s.
Proof. unfold timerEventCB. by rewrite books_move. Qed.

(** Only the identification and the unit online/offline callbacks touch the
    books. *)
Lemma books_onEvent (e : Event) (s : QNode) :
  match e with
  | EvVersionInfo _ | EvRobotEvent _ => True
  | _ => books (onEvent e s) = books s
  end.
Proof.
  destruct e; simpl; try exact I.
  - apply books_sensors.
  - apply books_dock.
  - apply books_gyro.
  - apply books_button.
  - apply books_bumper.
  - apply books_wDrop.
  - apply books_cliff.
  - apply books_power.
  - apply books_input.
  - apply books_diag.
  - apply books_status.
  - destruct (timer s); [|done]. by rewrite books_timer.
Qed.

Section Books.
Variable P : QNode -> Prop.
Hypothesis P_books : forall s s', books s' = books s -> P s -> P s'.
Hypothesis P_version : forall msg s, P s -> P (versionInfoCB msg s).
Hypothesis P_robot : forall st s, P s -> P (robotEventCB st s).
Hypothesis P_save : forall s, P s -> P (saveResults s).

Lemma P_onEvent (e : Event) (s : QNode) : P s -> P (onEvent e s).
Proof.
  intros HP. pose proof (books_onEvent e s) as H.
  destruct e; simpl in *; try (eapply P_books; [exact H|exact HP]).
  - by apply P_version.
  - by apply P_robot.
Qed.

Lemma P_spin (batch : list Event) (s : QNode) : P s -> P (spin batch s).
Proof.
  revert s. induction batch as [|e batch IH]; intros s H; [done|].
  unfold spin; simpl. apply IH. by apply P_onEvent.
Qed.

(** [m] keeps [P], whatever the environment serves. *)
Definition Holds {A} (m : M A) : Prop :=
  forall w a w', P (node w) -> m w = Some (a, w') -> P (node w').

Lemma Holds_ret {A} (a : A) : Holds (ret a).
Proof. intros w a' w' H E. by injection E as _ <-. Qed.

Lemma Holds_bind {A B} (m : M A) (k : A -> M B) :
  Holds m -> (forall a, Holds (k a)) -> Holds (bind m k).
Proof.
  intros Hm Hk w b w' H E. unfold bind in E.
  destruct (m w) as [[a w1]|] eqn:E1; [|done].
  eapply Hk; [|exact E]. eapply Hm; [exact H|exact E1].
Qed.

Lemma Holds_lift (f : QNode -> QNode) :
  (forall s, books (f s) = books s) -> Holds (lift f).
Proof.
  intros Hf w a w' H E. injection E as _ <-.
  eapply P_books; [|exact H]. apply Hf.
Qed.

Lemma Holds_save : Holds (lift saveResults).
Proof. intros w a w' H E. injection E as _ <-. by apply P_save. Qed.

Lemma Holds_get : Holds get.
Proof. intros w a w' H E. by injection E as _ <-. Qed.

Lemma Holds_robot : Holds robot.
Proof.
  intros w a w' H E. unfold robot in E.
  destruct (under_test (node w)); [|done]. by injection E as _ <-.
Qed.

Lemma Holds_update_robot (f : Robot.t -> Robot.t) :
  (forall r, tag (f r) = tag r) -> Holds (update_robot f).
Proof.
  intros Hf w a w' H E. unfold update_robot, bind, robot, lift in E.
  destruct (under_test (node w)) as [r|] eqn:Hu; [|done].
  injection E as _ <-. eapply P_books; [|exact H].
  unfold books; cbn. by rewrite Hu, Hf.
Qed.

Lemma Holds_spinOnce : Holds spinOnce.
Proof. intros w a w' H E. injection E as _ <-. by apply P_spin. Qed.

Lemma Holds_getYaw : Holds getYaw.
Proof. intros w a w' H E. by injection E as _ <-. Qed.

Lemma Holds_imu_init : Holds imu_init.
Proof. intros w a w' H E. by injection E as _ <-. Qed.

Lemma Holds_when (b : bool) (m : M unit) : Holds m -> Holds (when b m).
Proof. intros Hm. destruct b; [done|apply Holds_ret]. Qed.

Ltac holds_step :=
  first
    [ apply Holds_ret
    | apply Holds_get
    | apply Holds_robot
    | apply Holds_spinOnce
    | apply Holds_getYaw
    | apply Holds_imu_init
    | apply Holds_when
    | apply Holds_save
    | apply Holds_update_robot; intros ?; tag_simpl; reflexivity
    | apply Holds_lift; first [ apply books_move | by intros ? ]
    | apply Holds_bind; [|intros ?]
    | match goal with
      | |- Holds (if ?b then _ else _) => destruct b
      | |- Holds (match ?x with Some _ => _ | None => _ end) => destruct x
      end ].
Ltac holds := repeat holds_step.

Lemma Holds_move_blocking (v w t : Q) : Holds (move_blocking v w t).
Proof. unfold move_blocking. holds. Qed.

Lemma Holds_testLeds (first_call : bool) : Holds (testLeds first_call).
Proof.
  unfold testLeds. apply Holds_bind; [holds|intros _].
  generalize [1; 2; 3].
  intros l. induction l as [|c l IH]; simpl; [holds|].
  apply Holds_bind; [holds|intros s]. destruct (_ =? _); [|holds].
  do 5 (apply Holds_bind; [holds|intros _]). exact IH.
Qed.

Lemma Holds_testSounds (first_call : bool) : Holds (testSounds first_call).
Proof.
  unfold testSounds. apply Holds_bind; [holds|intros _].
  generalize [0; 1; 2; 3; 4; 5; 6].
  intros l. induction l as [|c l IH]; simpl; [holds|].
  apply Holds_bind; [holds|intros s]. destruct (_ =? _); [|holds].
  do 3 (apply Holds_bind; [holds|intros _]). exact IH.
Qed.

Lemma Holds_acquire_yaw (n : nat) : Holds (acquire_yaw n).
Proof.
  induction n as [|n IH]; simpl; [holds|].
  apply Holds_bind; [holds|intros _].
  apply Holds_bind; [holds|intros [y|]]; [holds|].
  apply Holds_bind; [holds|intros _]. exact IH.
Qed.

Lemma Holds_charge_wait (n : nat) : Holds (charge_wait n).
Proof.
  induction n as [|n IH]; simpl; [holds|].
  apply Holds_bind; [holds|intros r]. destruct (_ =? _); [|holds].
  apply Holds_bind; [holds|intros _]. exact IH.
Qed.

Ltac holds_routines :=
  repeat first
    [ apply Holds_acquire_yaw | apply Holds_charge_wait
    | apply Holds_move_blocking | holds_step ].

Lemma Holds_testIMU (first_call : bool) : Holds (testIMU first_call).
Proof. unfold testIMU, testIMU_verdict, testIMU_leg. holds_routines. Qed.

Lemma Holds_measureCharge (first_call : bool) :
  Holds (measureCharge first_call).
Proof. unfold measureCharge. holds_routines. Qed.

Lemma Holds_evalMotorsCurrent (first_call : bool) :
  Holds (evalMotorsCurrent first_call).
Proof. unfold evalMotorsCurrent. holds. Qed.

Lemma Holds_testAnalogIn (first_call : bool) :
  Holds (testAnalogIn first_call).
Proof.
  intros w a w' H E. unfold testAnalogIn, bind, robot in E.
  destruct (under_test (node w)) as [r|] eqn:Hu; [|done].
  unfold testAnalogIn_on in E.
  destruct (analog_pass first_call r) as [v outs].
  destruct (v =? ALL_COVERED); injection E as _ <-;
    (eapply P_books; [|exact H]); unfold books;
    destruct first_call; cbn -[Robot.set_ok Robot.set_val tag];
    rewrite Hu; cbn -[Robot.set_ok Robot.set_val tag]; tag_simpl; reflexivity.
Qed.

Lemma Holds_step_action (step : Z) (changed : bool) (c : Z) :
  Holds (step_action step changed c).
Proof.
  unfold step_action.
  repeat match goal with
         | |- context [if step =? ?k then _ else _] => destruct (step =? k)
         end;
    solve [ repeat first
              [ apply Holds_testLeds | apply Holds_testSounds
              | apply Holds_testIMU | apply Holds_measureCharge
              | apply Holds_evalMotorsCurrent
              | apply Holds_testAnalogIn | holds_step ] ].
Qed.

Lemma Holds_run_iter : Holds run_iter.
Proof.
  unfold run_iter. apply Holds_bind; [apply Holds_spinOnce|intros _].
  intros w a w' H E. unfold step_tick in E.
  destruct (under_test (node w)) eqn:Hu;
    [|unfold set_locals in E; by injection E as _ <-].
  destruct (timer_active (node w));
    [unfold set_locals in E; by injection E as _ <-|].
  unfold bind, set_locals in E.
  eapply Holds_step_action; [|exact E]. exact H.
Qed.

(** [P] holds after any number of iterations, on any environment. *)
Lemma Holds_run (n : nat) : Holds (run n).
Proof.
  induction n as [|n IH]; simpl; [apply Holds_ret|].
  apply Holds_bind; [apply Holds_run_iter|intros _; exact IH].
Qed.

End Books.

(** What the identification callback does to the books: the ledger and the
    file are not touched; the record is dropped, left as it is, or given an
    identity the ledger does not hold. *)
Lemma versionInfo_books (msg : VersionInfo) (s : QNode) :
  evaluated (versionInfoCB msg s) = evaluated s
  /\ out_file (versionInfoCB msg s) = out_file s
  /\ match under_test (versionInfoCB msg s) with
     | None => True
     | Some r' =>
         exists r, under_test s = Some r
           /\ Robot.seq_nb r' = Robot.seq_nb r
           /\ (r' = r \/ ledger_get (evaluated s) (Robot.serial r') = None)
     end.
Proof.
  unfold versionInfoCB, versionInfo_adopt.
  destruct (under_test s) as [r|] eqn:Hu; [|by rewrite Hu].
  split_ifs; cbn -[Robot.set_ok Robot.set_val Robot.val]; rewrite ?Hu;
    repeat split; try done; exists r; (split; [done|]); split; try done;
    auto.
Qed.

Lemma saveResults_books (s : QNode) :
  match under_test s with
  | Some r =>
      evaluated (saveResults s) = (evaluated s ++ [r])%list
      /\ out_file (saveResults s) = (out_file s ++ [r])%list
  | None => saveResults s = s
  end /\ under_test (saveResults s) = None.
Proof. unfold saveResults. by destruct (under_test s) eqn:Hu. Qed.

Lemma robotEvent_offline (s : QNode) :
  let s' := robotEventCB Msg.OFFLINE s in
  evaluated s' = (evaluated s ++ pending_record s)%list
  /\ out_file s' = (out_file s ++ pending_record s)%list
  /\ under_test s' = None
  /\ current_step s' = current_step s.
Proof.
  unfold robotEventCB, pending_record, saveResults; cbn.
  destruct (under_test s) as [r|] eqn:E; cbn.
  - destruct (negb (Robot.all_ok r)); cbn; rewrite E; by repeat split.
  - rewrite E, !app_nil_r. by repeat split.
Qed.

Lemma robotEvent_other (st : Z) (s : QNode) :
  st <> Msg.ONLINE -> st <> Msg.OFFLINE ->
  robotEventCB st s = log Warn "Unrecognized robot event received; ignoring" s.
Proof.
  intros H1 H2. unfold robotEventCB.
  destruct (Z.eqb_spec st Msg.ONLINE); [done|].
  by destruct (Z.eqb_spec st Msg.OFFLINE).
Qed.

(** The three things "unit online/offline" can do. *)
Lemma robotEvent_cases (st : Z) (s : QNode) :
  (st = Msg.ONLINE \/ st = Msg.OFFLINE)
  \/ robotEventCB st s = log Warn "Unrecognized robot event received; ignoring" s.
Proof.
  destruct (Z.eq_dec st Msg.ONLINE); [by left; left|].
  destruct (Z.eq_dec st Msg.OFFLINE); [by left; right|].
  right. by apply robotEvent_other.
Qed.

(** *** The ledger and the result file *)

(** The file holds what the ledger holds; the record at position [i] of the
    ledger has sequence id [i]; the record under test has the next one. *)
Definition ledger_in_step (s : QNode) : Prop :=
  out_file s = evaluated s
  /\ (forall i r, evaluated s !! i = Some r -> Robot.seq_nb r = i)
  /\ (forall r, under_test s = Some r ->
        Robot.seq_nb r = length (evaluated s)).

Lemma ledger_in_step_books (s s' : QNode) :
  books s' = books s -> ledger_in_step s -> ledger_in_step s'.
Proof.
  unfold books. intros E (Hf & Hl & Hu).
  injection E as Eu Ee Eo. unfold ledger_in_step. rewrite Ee, Eo.
  split; [done|]. split; [done|].
  intros r' Hr'. rewrite Hr' in Eu.
  destruct (under_test s) as [r|]; [|done].
  injection Eu as E1 _ _. rewrite E1. by apply Hu.
Qed.

Lemma ledger_in_step_append (s : QNode) (r : Robot.t) (l f : list Robot.t) :
  ledger_in_step s -> under_test s = Some r ->
  l = (evaluated s ++ [r])%list -> f = (out_file s ++ [r])%list ->
  f = l /\ (forall i r, l !! i = Some r -> Robot.seq_nb r = i).
Proof.
  intros (Hf & Hl & Hu) Hr -> ->. rewrite Hf. split; [done|].
  intros i r' Hi. apply lookup_app_Some in Hi as [Hi|[Hlen Hi]].
  - by apply Hl.
  - apply list_lookup_singleton_Some in Hi as [Hi <-].
    rewrite (Hu r Hr). lia.
Qed.

Lemma ledger_in_step_save (s : QNode) :
  ledger_in_step s -> ledger_in_step (saveResults s).
Proof.
  intros H. destruct (saveResults_books s) as [Hs Hnone].
  destruct (under_test s) as [r|] eqn:Hr; [|by rewrite Hs].
  destruct Hs as [He Ho].
  destruct (ledger_in_step_append s r _ _ H Hr He Ho) as [Hf Hl].
  split; [done|]. split; [done|]. by rewrite Hnone.
Qed.

Lemma ledger_in_step_version (msg : VersionInfo) (s : QNode) :
  ledger_in_step s -> ledger_in_step (versionInfoCB msg s).
Proof.
  intros (Hf & Hl & Hu).
  destruct (versionInfo_books msg s) as (He & Ho & Hr).
  unfold ledger_in_step. rewrite He, Ho. split; [done|]. split; [done|].
  intros r' Hr'. rewrite Hr' in Hr. destruct Hr as (r & Hr & Hs & _).
  rewrite Hs. by apply Hu.
Qed.

Lemma ledger_in_step_robot (st : Z) (s : QNode) :
  ledger_in_step s -> ledger_in_step (robotEventCB st s).
Proof.
  intros H. destruct (robotEvent_cases st s) as [[-> | ->]|E].
  - destruct (robotEvent_online s) as (He & Ho & Hu & _).
    cbv zeta in Hu. rewrite He in Hu.
    unfold ledger_in_step. rewrite He, Ho, Hu. unfold pending_record.
    destruct (under_test s) as [r|] eqn:Hr.
    + destruct (ledger_in_step_append s r _ _ H Hr eq_refl eq_refl)
        as [Hf Hl].
      split; [done|]. split; [done|]. intros r' [= <-]. reflexivity.
    + rewrite !app_nil_r. destruct H as (Hf & Hl & _).
      split; [done|]. split; [done|]. intros r' [= <-]. reflexivity.
  - destruct (robotEvent_offline s) as (He & Ho & Hu & _).
    unfold ledger_in_step. rewrite He, Ho, Hu. unfold pending_record.
    destruct (under_test s) as [r|] eqn:Hr.
    + destruct (ledger_in_step_append s r _ _ H Hr eq_refl eq_refl)
        as [Hf Hl].
      by repeat split.
    + rewrite !app_nil_r. destruct H as (Hf & Hl & _). by repeat split.
  - rewrite E. exact H.
Qed.

Lemma ledger_in_step_init : ledger_in_step init.
Proof. by repeat split. Qed.

(** X1.  The bookkeeping of finalized records.  In the node after [init],
    and from then on after every callback and every iteration of the
    control loop, whatever the environment serves: the result file holds
    exactly the records of the ledger, in the same order; the record at
    position [i] of the ledger carries the sequence id [i]; and the record
    under test carries the next id, the size of the ledger. *)
Theorem ledger_sequence_ids :
  ledger_in_step init
  /\ (forall (e : Event) (s : QNode),
        ledger_in_step s -> ledger_in_step (onEvent e s))
  /\ (forall (n : nat) (w w' : World),
        ledger_in_step (node w) -> run n w = Some (tt, w') ->
        ledger_in_step (node w')).
Proof.
  split; [exact ledger_in_step_init|]. split.
  - intros e s. apply P_onEvent.
    + exact ledger_in_step_books.
    + exact ledger_in_step_version.
    + exact ledger_in_step_robot.
  - intros n w w'. apply (Holds_run ledger_in_step).
    + exact ledger_in_step_books.
    + exact ledger_in_step_version.
    + exact ledger_in_step_robot.
    + exact ledger_in_step_save.
Qed.

Lemma ledger_sequence_ids_witness :
  match run 2 (start [[EvRobotEvent Msg.ONLINE]; [EvRobotEvent Msg.OFFLINE]]
                 true []) with
  | Some (_, w') => ledger_in_step (node w') /\ length (evaluated (node w')) = 1%nat
  | None => False
  end.
Proof.
  destruct (run 2 (start [[EvRobotEvent Msg.ONLINE]; [EvRobotEvent Msg.OFFLINE]]
                     true [])) as [[[] w']|] eqn:E.
  - split.
    + exact (proj2 (proj2 ledger_sequence_ids) 2%nat
               (start [[EvRobotEvent Msg.ONLINE]; [EvRobotEvent Msg.OFFLINE]]
                  true []) w'
               (proj1 ledger_sequence_ids) E).
    + vm_compute in E. by injection E as <-.
  - vm_compute in E. discriminate E.
Defined.

(** *** No unit is evaluated twice *)

Lemma ledger_get_None (l : list Robot.t) (sn : list Z) :
  ledger_get l sn = None <->
  forall i r, l !! i = Some r -> Robot.serial r <> sn.
Proof.
  unfold ledger_get. induction l as [|x l IH]; simpl.
  - split; [by intros _ i r|done].
  - destruct (bool_decide_reflect (Robot.serial x = sn)) as [E|E].
    + split; [done|]. intros H. by destruct (H 0%nat x).
    + rewrite IH. split.
      * intros H [|i] r; simpl; [by intros [= <-]|apply H].
      * intros H i r Hi. by apply (H (S i)).
Qed.

(** An identified record under test has a serial the ledger does not hold,
    and an identified record of the ledger has a serial that no earlier
    record of the ledger has. *)
Definition evaluated_once (s : QNode) : Prop :=
  (forall r, under_test s = Some r -> Robot.ok r V_INFO = true ->
     ledger_get (evaluated s) (Robot.serial r) = None)
  /\ (forall i j ri rj, (i < j)%nat ->
        evaluated s !! i = Some ri -> evaluated s !! j = Some rj ->
        Robot.ok rj V_INFO = true -> Robot.serial ri <> Robot.serial rj).

Lemma evaluated_once_books (s s' : QNode) :
  books s' = books s -> evaluated_once s -> evaluated_once s'.
Proof.
  unfold books. intros E (Hu & Hl).
  injection E as Eu Ee Eo. unfold evaluated_once. rewrite Ee.
  split; [|done]. intros r' Hr' Hok. rewrite Hr' in Eu.
  destruct (under_test s) as [r|]; [|done].
  injection Eu as _ E2 E3. rewrite E2. apply Hu; [done|congruence].
Qed.

Lemma evaluated_once_append (s : QNode) (r : Robot.t) :
  evaluated_once s -> under_test s = Some r ->
  forall i j ri rj, (i < j)%nat ->
    (evaluated s ++ [r])%list !! i = Some ri ->
    (evaluated s ++ [r])%list !! j = Some rj ->
    Robot.ok rj V_INFO = true -> Robot.serial ri <> Robot.serial rj.
Proof.
  intros (Hu & Hl) Hr i j ri rj Hij Hi Hj Hok.
  apply lookup_app_Some in Hj as [Hj|[Hlen Hj]].
  - apply lookup_app_Some in Hi as [Hi|[Hlen' _]].
    + by apply (Hl i j).
    + apply lookup_lt_Some in Hj. lia.
  - apply list_lookup_singleton_Some in Hj as [Hj <-].
    apply lookup_app_Some in Hi as [Hi|[Hlen' _]]; [|lia].
    specialize (Hu r Hr Hok). rewrite ledger_get_None in Hu.
    by apply (Hu i).
Qed.

Lemma evaluated_once_save (s : QNode) :
  evaluated_once s -> evaluated_once (saveResults s).
Proof.
  intros H. destruct (saveResults_books s) as [Hs Hnone].
  destruct (under_test s) as [r|] eqn:Hr; [|by rewrite Hs].
  destruct Hs as [He _]. unfold evaluated_once. rewrite He, Hnone.
  split; [done|]. by apply evaluated_once_append.
Qed.

Lemma evaluated_once_version (msg : VersionInfo) (s : QNode) :
  evaluated_once s -> evaluated_once (versionInfoCB msg s).
Proof.
  intros (Hu & Hl).
  destruct (versionInfo_books msg s) as (He & _ & Hr).
  unfold evaluated_once. rewrite He. split; [|done].
  intros r' Hr' Hok. rewrite Hr' in Hr.
  destruct Hr as (r & Hr & _ & [-> | Hnew]); [by apply Hu|done].
Qed.

Lemma evaluated_once_robot (st : Z) (s : QNode) :
  evaluated_once s -> evaluated_once (robotEventCB st s).
Proof.
  intros H. destruct (robotEvent_cases st s) as [[-> | ->]|E].
  - destruct (robotEvent_online s) as (He & _ & Hu & _).
    unfold evaluated_once. rewrite He, Hu. unfold pending_record.
    split; [intros r' [= <-] Hok; discriminate Hok|].
    destruct (under_test s) as [r|] eqn:Hr.
    + by apply evaluated_once_append.
    + rewrite app_nil_r. apply H.
  - destruct (robotEvent_offline s) as (He & _ & Hu & _).
    unfold evaluated_once. rewrite He, Hu. unfold pending_record.
    split; [done|].
    destruct (under_test s) as [r|] eqn:Hr.
    + by apply evaluated_once_append.
    + rewrite app_nil_r. apply H.
  - rewrite E. exact H.
Qed.

Lemma evaluated_once_init : evaluated_once init.
Proof. by split. Qed.

(** X2.  No unit is evaluated twice in a session.  In the node after
    [init], and from then on after every callback and every iteration of the
    control loop, whatever the environment serves: an identified record
    under test has a serial that the ledger does not hold, and the serial of
    an identified record of the ledger differs from the serial of every
    record finalized before it. *)
Theorem no_unit_evaluated_twice :
  evaluated_once init
  /\ (forall (e : Event) (s : QNode),
        evaluated_once s -> evaluated_once (onEvent e s))
  /\ (forall (n : nat) (w w' : World),
        evaluated_once (node w) -> run n w = Some (tt, w') ->
        evaluated_once (node w')).
Proof.
  split; [exact evaluated_once_init|]. split.
  - intros e s. apply P_onEvent.
    + exact evaluated_once_books.
    + exact evaluated_once_version.
    + exact evaluated_once_robot.
  - intros n w w'. apply (Holds_run evaluated_once).
    + exact evaluated_once_books.
    + exact evaluated_once_version.
    + exact evaluated_once_robot.
    + exact evaluated_once_save.
Qed.

(** A unit that identifies itself. *)
Definition unit_7 : VersionInfo := mkVersionInfo [7; 7; 7] 1 2 3.

Lemma no_unit_evaluated_twice_witness :
  match run 2 (start [[EvRobotEvent Msg.ONLINE; EvVersionInfo unit_7];
                      [EvRobotEvent Msg.OFFLINE]] true []) with
  | Some (_, w') =>
      evaluated_once (node w') /\ length (evaluated (node w')) = 1%nat
  | None => False
  end.
Proof.
  destruct (run 2 (start [[EvRobotEvent Msg.ONLINE; EvVersionInfo unit_7];
                          [EvRobotEvent Msg.OFFLINE]] true []))
    as [[[] w']|] eqn:E.
  - split.
    + exact (proj2 (proj2 no_unit_evaluated_twice) 2%nat
               (start [[EvRobotEvent Msg.ONLINE; EvVersionInfo unit_7];
                       [EvRobotEvent Msg.OFFLINE]] true []) w'
               (proj1 no_unit_evaluated_twice) E).
    + vm_compute in E. by injection E as <-.
  - vm_compute in E. discriminate E.
Defined.


(** *** The ledger only grows *)

(** X3.  Finalized records are never removed, reordered or altered: after
    any callback, and after any number of iterations of the control loop on
    any environment, the ledger and the result file still begin with what
    they held before. *)
Theorem ledger_only_grows :
  (forall (e : Event) (s : QNode),
     evaluated s `prefix_of` evaluated (onEvent e s)
     /\ out_file s `prefix_of` out_file (onEvent e s))
  /\ (forall (n : nat) (w w' : World),
        run n w = Some (tt, w') ->
        evaluated (node w) `prefix_of` evaluated (node w')
        /\ out_file (node w) `prefix_of` out_file (node w')).
Proof.
  split.
  - intros e s.
    pose proof (books_onEvent e s) as Hb.
    destruct e; simpl in *;
      try (unfold books in Hb; injection Hb as _ -> ->; by split).
    + destruct (versionInfo_books msg s) as (-> & -> & _). by split.
    + destruct (robotEvent_cases state s) as [[-> | ->]|E].
      * destruct (robotEvent_online s) as (-> & -> & _).
        split; by apply prefix_app_r.
      * destruct (robotEvent_offline s) as (-> & -> & _).
        split; by apply prefix_app_r.
      * by rewrite E.
  - intros n w w' E.
    pose (P := fun s => evaluated (node w) `prefix_of` evaluated s
                        /\ out_file (node w) `prefix_of` out_file s).
    assert (HP : P (node w')); [|exact HP].
    apply (Holds_run P) with (n := n) (w := w) (a := tt); subst P; cbv beta.
    + intros s s' Hb [H1 H2]. unfold books in Hb. injection Hb as _ -> ->.
      by split.
    + intros msg s [H1 H2].
      destruct (versionInfo_books msg s) as (-> & -> & _). by split.
    + intros st s [H1 H2].
      destruct (robotEvent_cases st s) as [[-> | ->]|E0].
      * destruct (robotEvent_online s) as (-> & -> & _).
        split; by apply prefix_app_r.
      * destruct (robotEvent_offline s) as (-> & -> & _).
        split; by apply prefix_app_r.
      * by rewrite E0.
    + intros s [H1 H2]. destruct (saveResults_books s) as [Hs _].
      destruct (under_test s) as [r|]; [|by rewrite Hs].
      destruct Hs as [-> ->]. split; by apply prefix_app_r.
    + by split.
    + exact E.
Qed.

Lemma ledger_only_grows_witness :
  match run 2 (start [[EvRobotEvent Msg.ONLINE]; [EvRobotEvent Msg.OFFLINE]]
                 true []) with
  | Some (_, w') => [] `prefix_of` evaluated (node w')
  | None => False
  end.
Proof.
  destruct (run 2 (start [[EvRobotEvent Msg.ONLINE]; [EvRobotEvent Msg.OFFLINE]]
                     true [])) as [[[] w']|] eqn:E.
  - exact (proj1 (proj2 ledger_only_grows 2%nat
               (start [[EvRobotEvent Msg.ONLINE]; [EvRobotEvent Msg.OFFLINE]]
                  true []) w' E)).
  - vm_compute in E. discriminate E.
Defined.


(** ** The steps that are reached

    "Unit online" sets the step to [TEST_DIGITAL_IO_PORTS]; nothing takes it
    back while a unit is under test. *)

(** Turn the boolean tests among the hypotheses into propositions. *)
Ltac bool_hyps :=
  repeat match goal with
         | H : _ && _ = true |- _ => apply andb_true_iff in H as [? ?]
         | H : _ || _ = false |- _ => apply orb_false_iff in H as [? ?]
         | H : _ || _ = true |- _ => apply orb_true_iff in H as [?|?]
         | H : _ && _ = false |- _ => apply andb_false_iff in H as [?|?]
         | H : negb _ = true |- _ => apply negb_true_iff in H
         | H : negb _ = false |- _ => apply negb_false_iff in H
         | H : (_ =? _) = true |- _ => apply Z.eqb_eq in H
         | H : (_ =? _) = false |- _ => apply Z.eqb_neq in H
         | H : (_ <? _) = true |- _ => apply Z.ltb_lt in H
         | H : (_ <? _) = false |- _ => apply Z.ltb_ge in H
         | H : (_ <=? _) = true |- _ => apply Z.leb_le in H
         | H : (_ <=? _) = false |- _ => apply Z.leb_gt in H
         | H : (_ >? _) = true |- _ => rewrite Z.gtb_ltb in H
         | H : (_ >? _) = false |- _ => rewrite Z.gtb_ltb in H
         | H : (_ >=? _) = true |- _ => rewrite Z.geb_leb in H
         | H : (_ >=? _) = false |- _ => rewrite Z.geb_leb in H
         end.

(** With a unit under test the step is one of the last three, and no motion
    timer is armed. *)
Definition last_steps (s : QNode) : Prop :=
  timer s = None /\ timer_active s = false
  /\ (is_Some (under_test s) ->
      TEST_DIGITAL_IO_PORTS <= current_step s <= EVALUATION_COMPLETED).

Ltac step_consts :=
  unfold step_incr, INITIALIZATION, GET_SERIAL_NUMBER, TEST_DC_ADAPTER,
    TEST_DOCKING_BASE, BUTTON_0_PRESSED, BUTTON_2_RELEASED, TEST_LEDS,
    TEST_SOUNDS, TEST_CLIFF_SENSORS, TEST_WHEEL_DROP_SENSORS,
    CENTER_BUMPER_PRESSED, LEFT_BUMPER_RELEASED, TEST_MOTORS_FORWARD,
    TEST_MOTORS_COUNTERCW, MEASURE_CHARGING, TEST_DIGITAL_IO_PORTS,
    TEST_ANALOG_INPUT_PORTS, EVALUATION_COMPLETED in *.

Ltac last_steps_callback cb :=
  let Hu := fresh "Hu" in
  unfold last_steps, cb;
  match goal with
  | |- context [under_test ?s] =>
      destruct (under_test s) as [?r|] eqn:Hu; [|by rewrite ?Hu]
  end;
  intros (?Ht & ?Ha & ?Hs); specialize (Hs (mk_is_Some _ _ eq_refl));
  split_ifs; bool_hyps; step_consts; try lia;
  cbn -[Robot.set_ok Robot.set_val Robot.set_imu Robot.val Robot.ok
        Robot.set_analog_in Robot.set_diagnostics Robot.set_state];
  (split; [done|]); (split; [done|]); intros _; unfold step_incr; lia.

Lemma last_steps_button b st s : last_steps s -> last_steps (buttonEventCB b st s).
Proof. last_steps_callback buttonEventCB. Qed.
Lemma last_steps_bumper b st s : last_steps s -> last_steps (bumperEventCB b st s).
Proof. last_steps_callback bumperEventCB. Qed.
Lemma last_steps_wDrop b st s : last_steps s -> last_steps (wDropEventCB b st s).
Proof. last_steps_callback wDropEventCB. Qed.
Lemma last_steps_cliff b st s : last_steps s -> last_steps (cliffEventCB b st s).
Proof. last_steps_callback cliffEventCB. Qed.
Lemma last_steps_power e s : last_steps s -> last_steps (powerEventCB e s).
Proof. last_steps_callback powerEventCB. Qed.
Lemma last_steps_input e s : last_steps s -> last_steps (inputEventCB e s).
Proof. last_steps_callback inputEventCB. Qed.
Lemma last_steps_sensors e s : last_steps s -> last_steps (sensorsCoreCB e s).
Proof. last_steps_callback sensorsCoreCB. Qed.
Lemma last_steps_dock e s : last_steps s -> last_steps (dockBeaconCB e s).
Proof. last_steps_callback dockBeaconCB. Qed.
Lemma last_steps_gyro e s : last_steps s -> last_steps (gyroscopeCB e s).
Proof. last_steps_callback gyroscopeCB. Qed.
Lemma last_steps_diag e s : last_steps s -> last_steps (diagnosticsCB e s).
Proof. last_steps_callback diagnosticsCB. Qed.
Lemma last_steps_status e s : last_steps s -> last_steps (robotStatusCB e s).
Proof. last_steps_callback robotStatusCB. Qed.

Lemma last_steps_version msg s : last_steps s -> last_steps (versionInfoCB msg s).
Proof.
  unfold last_steps, versionInfoCB, versionInfo_adopt.
  destruct (under_test s) as [r|] eqn:Hu; [|by rewrite Hu].
  intros (Ht & Ha & Hs). specialize (Hs (mk_is_Some _ _ eq_refl)).
  split_ifs; cbn -[Robot.set_ok Robot.set_val Robot.val];
    repeat split; try done; try lia; by intros [? ?].
Qed.

Lemma saveResults_timer (s : QNode) :
  timer (saveResults s) = timer s
  /\ timer_active (saveResults s) = timer_active s.
Proof. unfold saveResults. by destruct (under_test s). Qed.

Lemma robotEvent_timer (st : Z) (s : QNode) :
  timer (robotEventCB st s) = timer s
  /\ timer_active (robotEventCB st s) = timer_active s.
Proof.
  unfold robotEventCB.
  destruct (st =? Msg.ONLINE); [|destruct (st =? Msg.OFFLINE)]; cbn.
  - destruct (under_test s); [|done].
    by destruct (saveResults_timer (log Warn
      "New robot connected while %s is still under evaluation; saving..." s)).
  - destruct (under_test s) as [r|]; [|done].
    destruct (negb (Robot.all_ok r)).
    + by destruct (saveResults_timer (log Info
        "Robot %s disconnected without finishing the evaluation" s)).
    + by destruct (saveResults_timer (log Info
        "Robot %s evaluation successfully completed" s)).
  - done.
Qed.

Lemma last_steps_robot st s : last_steps s -> last_steps (robotEventCB st s).
Proof.
  intros (Ht & Ha & Hs). unfold last_steps.
  destruct (robotEvent_timer st s) as [-> ->].
  split; [done|]. split; [done|].
  destruct (robotEvent_cases st s) as [[-> | ->]|E].
  - destruct (robotEvent_online s) as (_ & _ & _ & Hstep).
    cbv zeta in Hstep. rewrite Hstep. intros _; step_consts; lia.
  - destruct (robotEvent_offline s) as (_ & _ & Hnone & _).
    cbv zeta in Hnone. rewrite Hnone. by intros [? ?].
  - by rewrite E.
Qed.

Lemma last_steps_onEvent (e : Event) (s : QNode) :
  last_steps s -> last_steps (onEvent e s).
Proof.
  destruct e; simpl.
  - apply last_steps_version.
  - apply last_steps_sensors.
  - apply last_steps_dock.
  - apply last_steps_gyro.
  - apply last_steps_button.
  - apply last_steps_bumper.
  - apply last_steps_wDrop.
  - apply last_steps_cliff.
  - apply last_steps_power.
  - apply last_steps_input.
  - apply last_steps_diag.
  - apply last_steps_status.
  - apply last_steps_robot.
  - intros H. pose proof H as (Ht & _). by rewrite Ht.
Qed.

Lemma last_steps_spin (batch : list Event) (s : QNode) :
  last_steps s -> last_steps (spin batch s).
Proof.
  revert s. induction batch as [|e batch IH]; intros s H; [done|].
  unfold spin; simpl. apply IH. by apply last_steps_onEvent.
Qed.

(** The action of each of the last three steps: it runs to its end; the
    record stays under test with no flag but the analog input's touched, or
    it is finalized. *)
Lemma step_action_last (step : Z) (changed : bool) (c : Z) (w : World)
  (r : Robot.t) :
  TEST_DIGITAL_IO_PORTS <= step <= EVALUATION_COMPLETED ->
  current_step (node w) = step ->
  under_test (node w) = Some r -> last_steps (node w) ->
  exists w', step_action step changed c w = Some (tt, w')
    /\ last_steps (node w')
    /\ ((exists r', under_test (node w') = Some r'
          /\ (forall d, d <> A_INPUT -> Robot.ok r' d = Robot.ok r d)
          /\ evaluated (node w') = evaluated (node w))
        \/ (under_test (node w') = None
            /\ evaluated (node w') = (evaluated (node w) ++ [r])%list)).
Proof.
  intros Hstep Hc Hr (Ht & Ha & Hs).
  assert (Hcases : step = TEST_DIGITAL_IO_PORTS
                   \/ step = TEST_ANALOG_INPUT_PORTS
                   \/ step = EVALUATION_COMPLETED) by (step_consts; lia).
  destruct Hcases as [-> | [-> | ->]].
  - change (step_action TEST_DIGITAL_IO_PORTS changed c)
      with (when changed
              (lift (showUserMsg Info "Digital I/O test"
                 "Press the four digital input buttons sequentially, from DI-1 to DI-4\nThe digital output LED below should switch on and off as the result") ;;;
               update_robot (Robot.set_val D_INPUT 0) ;;;
               lift (emit (DigitalOutput no_bits all_bits)))).
    destruct changed; cbn.
    + unfold update_robot. unfold bind, lift, robot; cbn. rewrite Hr; cbn.
      eexists. split; [reflexivity|]. cbn. split.
      * split; [done|]. split; [done|]. intros _. cbn. rewrite Hc. done.
      * left. eexists. split; [reflexivity|]. by split.
    + eexists. split; [reflexivity|]. split.
      * split; [done|]. split; [done|]. intros _. rewrite Hc. done.
      * left. exists r. by repeat split.
  - change (step_action TEST_ANALOG_INPUT_PORTS changed c)
      with (_ <- testAnalogIn changed ;; ret tt).
    unfold testAnalogIn. unfold bind, robot. rewrite Hr.
    unfold testAnalogIn_on in *.
    destruct (analog_pass changed r) as [v outs].
    destruct (v =? ALL_COVERED), changed; cbn in *;
      (eexists; split; [reflexivity|]); cbn;
      (split;
       [ (split; [done|]); (split; [done|]); intros _; cbn; rewrite ?Hc;
         unfold step_incr; step_consts; lia
       | left; eexists; split; [reflexivity|]; split; [|done];
         intros d Hd; rewrite ?ok_set_ok_ne by done; reflexivity ]).
  - change (step_action EVALUATION_COMPLETED changed c)
      with (_ <- robot ;;
            lift (showUserMsg Info "Evaluation result"
                    "Evaluation completed. Overall result: %s") ;;;
            lift saveResults ;;;
            lift (set_current_step INITIALIZATION)).
    unfold bind, robot, lift. rewrite Hr. cbn.
    eexists. split; [reflexivity|]. cbn. unfold saveResults; cbn.
    rewrite Hr; cbn. split.
    + split; [done|]. split; [done|]. by intros [? ?].
    + by right.
Qed.

(** One iteration from a state with only the last steps: the events of the
    batch are served, then the record stays under test with no flag but the
    analog input's touched, or it is finalized. *)
Lemma run_iter_last (w : World) :
  last_steps (node w) ->
  let s1 := spin (hd [] (batches w)) (node w) in
  exists w', run_iter w = Some (tt, w') /\ last_steps (node w')
    /\ match under_test s1 with
       | None => node w' = s1
       | Some r =>
           (exists r', under_test (node w') = Some r'
              /\ (forall d, d <> A_INPUT -> Robot.ok r' d = Robot.ok r d)
              /\ evaluated (node w') = evaluated s1)
           \/ (under_test (node w') = None
               /\ evaluated (node w') = (evaluated s1 ++ [r])%list)
       end.
Proof.
  intros H s1. unfold run_iter, bind, spinOnce.
  assert (H1 : last_steps s1) by by apply last_steps_spin.
  unfold step_tick; cbn. fold s1.
  destruct (under_test s1) as [r|] eqn:Hr.
  - pose proof H1 as (Ht & Ha & Hs). rewrite Ha.
    specialize (Hs (mk_is_Some _ _ Hr)).
    unfold bind, set_locals; cbn.
    match goal with
    | |- context [step_action ?st ?ch ?c ?w0] =>
        destruct (step_action_last st ch c w0 r Hs eq_refl Hr H1)
          as (w' & E & H' & Hrec)
    end.
    by exists w'.
  - unfold set_locals; cbn. eexists. by split.
Qed.

Lemma run_last (n : nat) (w : World) :
  last_steps (node w) ->
  exists w', run n w = Some (tt, w') /\ last_steps (node w').
Proof.
  revert w. induction n as [|n IH]; intros w H; simpl.
  - by exists w.
  - destruct (run_iter_last w H) as (w1 & E1 & H1 & _).
    destruct (IH w1 H1) as (w2 & E2 & H2).
    exists w2. unfold bind. by rewrite E1.
Qed.

Lemma last_steps_init : last_steps init.
Proof. split; [done|]. split; [done|]. by intros [? ?]. Qed.

(** X4.  As the code stands ("unit online" sends the sequencer to
    [TEST_DIGITAL_IO_PORTS]), in the node after [init] and from then on
    after every callback and every iteration of the control loop, whatever
    the environment serves: with a unit under test the current step is
    [TEST_DIGITAL_IO_PORTS], [TEST_ANALOG_INPUT_PORTS] or
    [EVALUATION_COMPLETED]; the motion timer is never armed; and the control
    loop runs every iteration to its end (it never dereferences a null
    [under_test]). *)
Theorem only_the_last_steps_run :
  last_steps init
  /\ (forall (e : Event) (s : QNode),
        last_steps s -> last_steps (onEvent e s))
  /\ (forall (n : nat) (w : World),
        last_steps (node w) ->
        exists w', run n w = Some (tt, w') /\ last_steps (node w')).
Proof.
  split; [exact last_steps_init|].
  split; [exact last_steps_onEvent|exact run_last].
Qed.

Lemma only_the_last_steps_run_witness :
  exists w',
    run 3 (start [[EvRobotEvent Msg.ONLINE]; [EvButton 0 1]; [EvTimer]]
             true []) = Some (tt, w')
    /\ last_steps (node w').
Proof.
  exact (proj2 (proj2 only_the_last_steps_run) 3%nat
           (start [[EvRobotEvent Msg.ONLINE]; [EvButton 0 1]; [EvTimer]]
              true [])
           (proj1 only_the_last_steps_run)).
Defined.


(** *** The devices of the earlier steps *)

(** The devices whose verified flag is only written at a step before
    [TEST_DIGITAL_IO_PORTS]: gyroscope, buttons, bumpers, wheel drops,
    cliffs, power plugs, charging, LEDs, sounds and motors. *)
Definition early_device (d : nat) : Prop :=
  (IMU_DEV <= d <= CHARGING)%nat \/ (LED_1 <= d <= MOTOR_R)%nat.

Definition early_unverified (r : Robot.t) : Prop :=
  forall d, early_device d -> Robot.ok r d = false.

Lemma ok_set_imu i x r d : Robot.ok (Robot.set_imu i x r) d = Robot.ok r d.
Proof. reflexivity. Qed.
Lemma ok_set_analog_in a r d :
  Robot.ok (Robot.set_analog_in a r) d = Robot.ok r d.
Proof. reflexivity. Qed.
Lemma ok_set_diagnostics x r d :
  Robot.ok (Robot.set_diagnostics x r) d = Robot.ok r d.
Proof. reflexivity. Qed.
Lemma ok_set_state x r d : Robot.ok (Robot.set_state x r) d = Robot.ok r d.
Proof. reflexivity. Qed.
Lemma ok_setSerial x r d : Robot.ok (Robot.setSerial x r) d = Robot.ok r d.
Proof. reflexivity. Qed.

Ltac early_tac H :=
  let d := fresh "d" in
  let Hd := fresh "Hd" in
  intros d Hd;
  repeat first
    [ rewrite ok_set_val | rewrite ok_set_imu | rewrite ok_set_analog_in
    | rewrite ok_set_diagnostics | rewrite ok_set_state | rewrite ok_setSerial
    | rewrite ok_set_ok_ne by (cbv in Hd |- *; lia) ];
  by apply H.

Ltac early_callback cb :=
  let Hu := fresh "Hu" in
  unfold last_steps, cb;
  intros (_ & _ & ?Hs) ?r ?r' Hu;
  specialize (Hs (mk_is_Some _ _ Hu)); rewrite Hu;
  split_ifs; bool_hyps; step_consts; try lia;
  cbn -[Robot.set_ok Robot.set_val Robot.set_imu Robot.val Robot.ok
        Robot.set_analog_in Robot.set_diagnostics Robot.set_state];
  rewrite ?Hu;
  intros [= <-] ?He; try done; early_tac He.

Lemma early_button b st s :
  last_steps s -> forall r r', under_test s = Some r ->
  under_test (buttonEventCB b st s) = Some r' ->
  early_unverified r -> early_unverified r'.
Proof. early_callback buttonEventCB. Qed.
Lemma early_bumper b st s :
  last_steps s -> forall r r', under_test s = Some r ->
  under_test (bumperEventCB b st s) = Some r' ->
  early_unverified r -> early_unverified r'.
Proof. early_callback bumperEventCB. Qed.
Lemma early_wDrop b st s :
  last_steps s -> forall r r', under_test s = Some r ->
  under_test (wDropEventCB b st s) = Some r' ->
  early_unverified r -> early_unverified r'.
Proof. early_callback wDropEventCB. Qed.
Lemma early_cliff b st s :
  last_steps s -> forall r r', under_test s = Some r ->
  under_test (cliffEventCB b st s) = Some r' ->
  early_unverified r -> early_unverified r'.
Proof. early_callback cliffEventCB. Qed.
Lemma early_power b s :
  last_steps s -> forall r r', under_test s = Some r ->
  under_test (powerEventCB b s) = Some r' ->
  early_unverified r -> early_unverified r'.
Proof. early_callback powerEventCB. Qed.
Lemma early_input b s :
  last_steps s -> forall r r', under_test s = Some r ->
  under_test (inputEventCB b s) = Some r' ->
  early_unverified r -> early_unverified r'.
Proof. early_callback inputEventCB. Qed.
Lemma early_sensors b s :
  last_steps s -> forall r r', under_test s = Some r ->
  under_test (sensorsCoreCB b s) = Some r' ->
  early_unverified r -> early_unverified r'.
Proof. early_callback sensorsCoreCB. Qed.
Lemma early_gyro b s :
  last_steps s -> forall r r', under_test s = Some r ->
  under_test (gyroscopeCB b s) = Some r' ->
  early_unverified r -> early_unverified r'.
Proof. early_callback gyroscopeCB. Qed.
Lemma early_diag b s :
  last_steps s -> forall r r', under_test s = Some r ->
  under_test (diagnosticsCB b s) = Some r' ->
  early_unverified r -> early_unverified r'.
Proof. early_callback diagnosticsCB. Qed.
Lemma early_status b s :
  last_steps s -> forall r r', under_test s = Some r ->
  under_test (robotStatusCB b s) = Some r' ->
  early_unverified r -> early_unverified r'.
Proof. early_callback robotStatusCB. Qed.
Lemma early_dock b s :
  last_steps s -> forall r r', under_test s = Some r ->
  under_test (dockBeaconCB b s) = Some r' ->
  early_unverified r -> early_unverified r'.
Proof.
  unfold dockBeaconCB. intros _ r r' Hu. rewrite Hu.
  split_ifs; cbn -[Robot.set_ok Robot.set_val Robot.ok]; rewrite ?Hu;
    intros [= <-] He; try done; split_ifs; early_tac He.
Qed.
Lemma early_version msg s :
  last_steps s -> forall r r', under_test s = Some r ->
  under_test (versionInfoCB msg s) = Some r' ->
  early_unverified r -> early_unverified r'.
Proof.
  unfold versionInfoCB, versionInfo_adopt. intros _ r r' Hu. rewrite Hu.
  split_ifs; cbn -[Robot.set_ok Robot.set_val Robot.ok Robot.val];
    rewrite ?Hu; intros [= <-] He; try done; early_tac He.
Qed.

(** Only "unit online/offline" touches the ledger. *)
Lemma evaluated_onEvent (e : Event) (s : QNode) :
  match e with
  | EvRobotEvent _ => True
  | _ => evaluated (onEvent e s) = evaluated s
  end.
Proof.
  pose proof (books_onEvent e s) as Hb.
  destruct e; simpl in *; try exact I;
    try (unfold books in Hb; by injection Hb as _ -> _).
  by destruct (versionInfo_books msg s) as (-> & _).
Qed.

Lemma early_new (n : nat) : early_unverified (Robot.new n).
Proof.
  intros d Hd. unfold Robot.ok, Robot.new; cbn [Robot.device_ok].
  rewrite lookup_replicate_2; [done|]. cbv in Hd |- *. lia.
Qed.

(** Neither the record under test nor a finalized record has a device of
    the earlier steps verified. *)
Definition early_untouched (s : QNode) : Prop :=
  last_steps s
  /\ (forall r, under_test s = Some r -> early_unverified r)
  /\ Forall early_unverified (evaluated s).

Lemma early_untouched_append (s : QNode) :
  early_untouched s ->
  Forall early_unverified (evaluated s ++ pending_record s)%list.
Proof.
  intros (_ & Hu & Hl). apply Forall_app. split; [done|].
  unfold pending_record. destruct (under_test s) as [r|]; [|done].
  apply Forall_singleton. by apply Hu.
Qed.

Lemma early_onEvent (e : Event) (s : QNode) (r r' : Robot.t) :
  last_steps s -> under_test s = Some r ->
  under_test (onEvent e s) = Some r' ->
  match e with EvRobotEvent _ => True | _ => early_unverified r -> early_unverified r' end.
Proof.
  intros Hl Hr Hr'. destruct e; simpl in *; try exact I.
  - by eapply early_version.
  - by eapply early_sensors.
  - by eapply early_dock.
  - by eapply early_gyro.
  - by eapply early_button.
  - by eapply early_bumper.
  - by eapply early_wDrop.
  - by eapply early_cliff.
  - by eapply early_power.
  - by eapply early_input.
  - by eapply early_diag.
  - by eapply early_status.
  - destruct Hl as (Ht & _). rewrite Ht, Hr in Hr'. by injection Hr' as <-.
Qed.

Lemma early_untouched_onEvent (e : Event) (s : QNode) :
  early_untouched s -> early_untouched (onEvent e s).
Proof.
  intros H. pose proof H as (Hl & Hu & Hev).
  split; [by apply last_steps_onEvent|].
  assert (Hcase : (exists st, e = EvRobotEvent st)
                  \/ ~ (exists st, e = EvRobotEvent st))
    by (destruct e; try (right; by intros [? ?]); left; by eexists).
  destruct Hcase as [[st ->]|Hne].
  - simpl. destruct (robotEvent_cases st s) as [[-> | ->]|E].
    + destruct (robotEvent_online s) as (-> & _ & -> & _).
      split; [intros r' [= <-]; apply early_new|].
      by apply early_untouched_append.
    + destruct (robotEvent_offline s) as (-> & _ & -> & _).
      split; [done|]. by apply early_untouched_append.
    + by rewrite E.
  - pose proof (evaluated_onEvent e s) as He.
    assert (He' : evaluated (onEvent e s) = evaluated s)
      by (destruct e; try done; destruct Hne; by eexists).
    rewrite He'. split; [|done]. intros r' Hr'.
    destruct (under_test s) as [r|] eqn:Hr.
    + pose proof (early_onEvent e s r r' Hl Hr Hr') as Hk.
      destruct e; try (by apply Hk, Hu). destruct Hne; by eexists.
    + assert (Hs : onEvent e s = s).
      { destruct e; try (by apply onEvent_idle).
        - destruct Hne; by eexists.
        - simpl. destruct Hl as (-> & _). done. }
      rewrite Hs, Hr in Hr'. done.
Qed.

Lemma early_untouched_spin (batch : list Event) (s : QNode) :
  early_untouched s -> early_untouched (spin batch s).
Proof.
  revert s. induction batch as [|e batch IH]; intros s H; [done|].
  unfold spin; simpl. apply IH. by apply early_untouched_onEvent.
Qed.

Lemma early_untouched_run_iter (w : World) :
  early_untouched (node w) ->
  exists w', run_iter w = Some (tt, w') /\ early_untouched (node w').
Proof.
  intros H.
  pose proof (early_untouched_spin (hd [] (batches w)) (node w) H)
    as (Hl1 & Hu1 & He1).
  destruct (run_iter_last w (proj1 H)) as (w' & E & Hl' & Hrec).
  exists w'. split; [done|]. split; [done|]. cbv zeta in Hrec.
  destruct (under_test (spin (hd [] (batches w)) (node w))) as [r|] eqn:Hr.
  - specialize (Hu1 r eq_refl).
    destruct Hrec as [(r' & Hr' & Hok & Hev)|[Hnone Hev]]; rewrite Hev.
    + split; [|done]. intros r2 Hr2. rewrite Hr' in Hr2.
      injection Hr2 as <-. intros d Hd. rewrite Hok; [by apply Hu1|].
      cbv in Hd |- *. lia.
    + rewrite Hnone. split; [done|]. apply Forall_app. split; [done|].
      by apply Forall_singleton.
  - rewrite Hrec, Hr. by split.
Qed.

Lemma early_untouched_run (n : nat) (w : World) :
  early_untouched (node w) ->
  exists w', run n w = Some (tt, w') /\ early_untouched (node w').
Proof.
  revert w. induction n as [|n IH]; intros w H; simpl.
  - by exists w.
  - destruct (early_untouched_run_iter w H) as (w1 & E1 & H1).
    destruct (IH w1 H1) as (w2 & E2 & H2).
    exists w2. unfold bind. by rewrite E1.
Qed.

Lemma early_untouched_init : early_untouched init.
Proof.
  split; [apply last_steps_init|]. split; [done|]. apply Forall_nil_2.
Qed.

(** X5.  As the code stands, the tests of the steps before
    [TEST_DIGITAL_IO_PORTS] are never made: in the node after [init], and
    from then on after every callback and every iteration of the control
    loop, whatever the environment serves, neither the record under test
    nor any finalized record has the verified flag of the gyroscope, a
    button, a bumper, a wheel drop, a cliff sensor, a power plug, the
    charging, a LED, the sounds or a motor set. *)
Theorem earlier_tests_never_made :
  early_untouched init
  /\ (forall (e : Event) (s : QNode),
        early_untouched s -> early_untouched (onEvent e s))
  /\ (forall (n : nat) (w : World),
        early_untouched (node w) ->
        exists w', run n w = Some (tt, w') /\ early_untouched (node w')).
Proof.
  split; [exact early_untouched_init|].
  split; [exact early_untouched_onEvent|exact early_untouched_run].
Qed.

Lemma earlier_tests_never_made_witness :
  exists w',
    run 3 (start [[EvRobotEvent Msg.ONLINE]; [EvButton 0 1; EvButton 0 0];
                  [EvRobotEvent Msg.OFFLINE]] true []) = Some (tt, w')
    /\ early_untouched (node w').
Proof.
  exact (proj2 (proj2 earlier_tests_never_made) 3%nat
           (start [[EvRobotEvent Msg.ONLINE]; [EvButton 0 1; EvButton 0 0];
                   [EvRobotEvent Msg.OFFLINE]] true [])
           (proj1 earlier_tests_never_made)).
Defined.


(** ** Where the loop can fail

    The blocking routines read [under_test] again after a sleep, during
    which a callback may have taken the record away. *)

Lemma spin_app (b1 b2 : list Event) (s : QNode) :
  spin (b1 ++ b2)%list s = spin b2 (spin b1 s).
Proof. unfold spin. apply foldl_app. Qed.

(** A batch in which the unit goes offline, nothing but messages for the
    unit following: no unit is under test afterwards. *)
Lemma spin_offline (pre post : list Event) (s : QNode) :
  forallb guarded post = true ->
  under_test (spin (pre ++ EvRobotEvent Msg.OFFLINE :: post)%list s) = None.
Proof.
  intros Hpost. rewrite spin_app.
  change (spin (EvRobotEvent Msg.OFFLINE :: post) (spin pre s))
    with (spin post (robotEventCB Msg.OFFLINE (spin pre s))).
  destruct (robotEvent_offline (spin pre s)) as (_ & _ & Hnone & _).
  by rewrite spin_idle.
Qed.

Lemma charge_wait_polls_eq : charge_wait_polls = 800%nat.
Proof. reflexivity. Qed.

Lemma measureCharge_lost (first_call : bool) (w : World) (r : Robot.t)
  (pre post : list Event) (rest : list (list Event)) :
  under_test (node w) = Some r -> Robot.val r CHARGING = 0 ->
  batches w = (pre ++ EvRobotEvent Msg.OFFLINE :: post)%list :: rest ->
  forallb guarded post = true ->
  measureCharge first_call w = None.
Proof.
  intros Hr Hv Hb Hpost. unfold measureCharge.
  set (w0 := if first_call
             then with_node (showUserMsg Info "Charge measurement"
                    "Plug the adaptor to the robot and wait %d seconds") w
             else w).
  assert (E0 : when first_call
                 (lift (showUserMsg Info "Charge measurement"
                    "Plug the adaptor to the robot and wait %d seconds")) w
               = Some (tt, w0)) by (subst w0; by destruct first_call).
  assert (H0 : under_test (node w0) = Some r /\ batches w0 = batches w)
    by (subst w0; by destruct first_call).
  destruct H0 as [Hr0 Hb0].
  unfold bind at 1. rewrite E0.
  unfold bind at 1. rewrite charge_wait_polls_eq.
  change (charge_wait 800) with
    (r <- robot ;;
     if Robot.val r CHARGING =? 0 then nbSleep (1 / frequency) ;;; charge_wait 799
     else ret tt).
  unfold bind at 1. unfold robot at 1. rewrite Hr0, Hv. cbn [Z.eqb].
  unfold bind at 1. unfold nbSleep, spinOnce. rewrite Hb0, Hb. cbn [hd tl].
  change (charge_wait 799) with
    (r <- robot ;;
     if Robot.val r CHARGING =? 0 then nbSleep (1 / frequency) ;;; charge_wait 798
     else ret tt).
  unfold bind at 1. unfold robot at 1. cbn [node].
  by rewrite spin_offline.
Qed.

Lemma bind_none {A B} (m : M A) (k : A -> M B) (w : World) :
  m w = None -> bind m k w = None.
Proof. intros E. unfold bind. by rewrite E. Qed.

(** The world after a sleep. *)
Definition slept (w : World) : World :=
  mkWorld (spin (hd [] (batches w)) (node w)) (count w) (previous_step w)
          (tl (batches w)) (camera_ok w) (camera w).

(** An attempt at which the camera sees the board. *)
Lemma acquire_yaw_seen (n : nat) (w : World) (y : Q) (cam : list (option Q)) :
  camera w = Some y :: cam ->
  acquire_yaw (S n) w
  = Some (Some (- y)%Q,
          mkWorld (hideUserMsg (node (slept w))) (count w) (previous_step w)
                  (tl (batches w)) (camera_ok w) cam).
Proof.
  intros Hcam. simpl. unfold bind, nbSleep, spinOnce, getYaw; cbn.
  rewrite Hcam. reflexivity.
Qed.

(** An attempt at which it does not. *)
Lemma acquire_yaw_unseen (n : nat) (w : World) (cam : list (option Q)) :
  camera w = None :: cam ->
  acquire_yaw (S n) w
  = acquire_yaw n
      (mkWorld (showUserMsg Warn "Gyroscope test"
                  "Cannot recognize the check board; please place the robot right below the camera"
                  (node (slept w)))
               (count w) (previous_step w) (tl (batches w)) (camera_ok w) cam).
Proof.
  intros Hcam. simpl. unfold bind, nbSleep, spinOnce, getYaw; cbn.
  rewrite Hcam. reflexivity.
Qed.

Lemma testIMU_lost (first_call : bool) (w : World)
  (pre post : list Event) (rest : list (list Event)) (y : Q)
  (cam : list (option Q)) :
  camera_ok w = true -> camera w = Some y :: cam ->
  batches w = (pre ++ EvRobotEvent Msg.OFFLINE :: post)%list :: rest ->
  forallb guarded post = true ->
  testIMU first_call w = None.
Proof.
  intros Hok Hcam Hb Hpost. unfold testIMU.
  set (w0 := if first_call
             then with_node (showUserMsg Info "Gyroscope test"
                    "Place the robot with the check board right below the camera") w
             else w).
  assert (E0 : when first_call
                 (lift (showUserMsg Info "Gyroscope test"
                    "Place the robot with the check board right below the camera")) w
               = Some (tt, w0)) by (subst w0; by destruct first_call).
  assert (H0 : camera_ok w0 = true /\ batches w0 = batches w
               /\ camera w0 = camera w)
    by (subst w0; by destruct first_call).
  destruct H0 as (Hok0 & Hb0 & Hcam0).
  etrans; [apply (bind_eq _ _ w tt w0 E0)|].
  etrans; [apply (bind_eq imu_init _ w0 true w0);
           unfold imu_init; by rewrite Hok0|].
  cbn [negb]. apply bind_none. unfold testIMU_leg.
  rewrite Hcam in Hcam0.
  etrans; [apply (bind_eq _ _ w0 _ _ (acquire_yaw_seen 79 w0 y cam Hcam0))|].
  apply bind_none. unfold robot, slept; cbn -[spin]. rewrite Hb0, Hb.
  cbn -[spin]. by rewrite spin_offline.
Qed.

(** X6.  A unit that goes offline while a blocking measurement sleeps is
    read through a null [under_test].  (1) [measureCharge]: the unit goes
    offline during the first sleep of the wait for the charger; the test of
    the wait's next round reads [under_test->device_val].  (2) [testIMU]:
    the unit goes offline during the sleep before the first reading of the
    camera, which sees the board; the routine then reads
    [under_test->imu_data].  In both, the model has no result. *)
Theorem unit_lost_during_measurement :
  (forall (first_call : bool) (w : World) (r : Robot.t)
          (pre post : list Event) (rest : list (list Event)),
     under_test (node w) = Some r -> Robot.val r CHARGING = 0 ->
     batches w = (pre ++ EvRobotEvent Msg.OFFLINE :: post)%list :: rest ->
     forallb guarded post = true ->
     measureCharge first_call w = None)
  /\ (forall (first_call : bool) (w : World)
             (pre post : list Event) (rest : list (list Event)) (y : Q)
             (cam : list (option Q)),
        camera_ok w = true -> camera w = Some y :: cam ->
        batches w = (pre ++ EvRobotEvent Msg.OFFLINE :: post)%list :: rest ->
        forallb guarded post = true ->
        testIMU first_call w = None).
Proof. split; [exact measureCharge_lost|exact testIMU_lost]. Qed.

Lemma unit_lost_during_measurement_witness :
  measureCharge true
    (mkWorld (fresh_at MEASURE_CHARGING) 0 MEASURE_CHARGING
             [[EvRobotEvent Msg.OFFLINE]] true []) = None.
Proof.
  apply (proj1 unit_lost_during_measurement true
           (mkWorld (fresh_at MEASURE_CHARGING) 0 MEASURE_CHARGING
                    [[EvRobotEvent Msg.OFFLINE]] true [])
           (Robot.new 0) [] [] []); reflexivity.
Defined.

(** [m] never fails. *)
Definition Safe {A} (m : M A) : Prop := forall w, is_Some (m w).

(** [m] runs to its end when a unit is under test, and leaves it there. *)
Definition WithUnit {A} (m : M A) : Prop :=
  forall w, is_Some (under_test (node w)) ->
    exists a w', m w = Some (a, w') /\ is_Some (under_test (node w')).

(** [m] runs to its end when a unit is under test. *)
Definition Runs {A} (m : M A) : Prop :=
  forall w, is_Some (under_test (node w)) -> is_Some (m w).

Lemma Safe_ret {A} (a : A) : Safe (ret a).
Proof. intros w. by eexists. Qed.
Lemma Safe_lift (f : QNode -> QNode) : Safe (lift f).
Proof. intros w. by eexists. Qed.
Lemma Safe_get : Safe get.
Proof. intros w. by eexists. Qed.
Lemma Safe_spinOnce : Safe spinOnce.
Proof. intros w. by eexists. Qed.
Lemma Safe_bind {A B} (m : M A) (k : A -> M B) :
  Safe m -> (forall a, Safe (k a)) -> Safe (bind m k).
Proof.
  intros Hm Hk w. destruct (Hm w) as [[a w1] E]. unfold bind. rewrite E.
  apply Hk.
Qed.
Lemma Safe_when (b : bool) (m : M unit) : Safe m -> Safe (when b m).
Proof. intros Hm. destruct b; [done|apply Safe_ret]. Qed.

Lemma Safe_testLeds (first_call : bool) : Safe (testLeds first_call).
Proof.
  unfold testLeds. apply Safe_bind; [apply Safe_lift|intros _].
  generalize [1; 2; 3].
  intros l. induction l as [|c l IH]; simpl; [apply Safe_ret|].
  apply Safe_bind; [apply Safe_get|intros s].
  destruct (_ =? _); [|apply Safe_ret].
  repeat (apply Safe_bind;
          [first [apply Safe_lift | apply Safe_spinOnce]|intros _]).
  exact IH.
Qed.

Lemma Safe_testSounds (first_call : bool) : Safe (testSounds first_call).
Proof.
  unfold testSounds. apply Safe_bind; [apply Safe_lift|intros _].
  generalize [0; 1; 2; 3; 4; 5; 6].
  intros l. induction l as [|c l IH]; simpl; [apply Safe_ret|].
  apply Safe_bind; [apply Safe_get|intros s].
  destruct (_ =? _); [|apply Safe_ret].
  repeat (apply Safe_bind;
          [first [apply Safe_lift | apply Safe_spinOnce]|intros _]).
  exact IH.
Qed.

Lemma Runs_of_Safe {A} (m : M A) : Safe m -> Runs m.
Proof. intros H w _. apply H. Qed.

Lemma Runs_of_WithUnit {A} (m : M A) : WithUnit m -> Runs m.
Proof. intros H w Hu. destruct (H w Hu) as (a & w' & E & _). by eexists. Qed.

Lemma Runs_bind {A B} (m : M A) (k : A -> M B) :
  WithUnit m -> (forall a, Runs (k a)) -> Runs (bind m k).
Proof.
  intros Hm Hk w Hu. destruct (Hm w Hu) as (a & w1 & E & Hu1).
  unfold bind. rewrite E. by apply Hk.
Qed.

Lemma WithUnit_ret {A} (a : A) : WithUnit (ret a).
Proof. intros w Hu. by exists a, w. Qed.
Lemma WithUnit_robot : WithUnit robot.
Proof. intros w [r Hr]. exists r, w. unfold robot. rewrite Hr. by split. Qed.
Lemma WithUnit_lift (f : QNode -> QNode) :
  (forall s, is_Some (under_test s) -> is_Some (under_test (f s))) ->
  WithUnit (lift f).
Proof. intros Hf w Hu. eexists tt, _. split; [reflexivity|]. by apply Hf. Qed.
Lemma WithUnit_bind {A B} (m : M A) (k : A -> M B) :
  WithUnit m -> (forall a, WithUnit (k a)) -> WithUnit (bind m k).
Proof.
  intros Hm Hk w Hu. destruct (Hm w Hu) as (a & w1 & E & Hu1).
  destruct (Hk a w1 Hu1) as (b & w2 & E2 & Hu2).
  exists b, w2. unfold bind. by rewrite E.
Qed.
Lemma WithUnit_update_robot (f : Robot.t -> Robot.t) :
  WithUnit (update_robot f).
Proof.
  apply WithUnit_bind; [apply WithUnit_robot|intros r].
  apply WithUnit_lift. intros s _. by eexists.
Qed.
Lemma WithUnit_when (b : bool) (m : M unit) : WithUnit m -> WithUnit (when b m).
Proof. intros Hm. destruct b; [done|apply WithUnit_ret]. Qed.
Lemma WithUnit_testAnalogIn (first_call : bool) :
  WithUnit (testAnalogIn first_call).
Proof.
  intros w [r Hr]. unfold testAnalogIn, bind, robot. rewrite Hr.
  pose proof (testAnalogIn_on_step first_call r (node w)) as H.
  destruct (testAnalogIn_on first_call r (node w)) as [b s'].
  destruct H as [Hu _]. by eexists b, _.
Qed.

Ltac with_unit :=
  repeat first
    [ apply WithUnit_ret | apply WithUnit_robot | apply WithUnit_update_robot
    | apply WithUnit_when | apply WithUnit_testAnalogIn
    | apply WithUnit_lift; intros ?;
      first [ by rewrite under_test_move | done ]
    | apply WithUnit_bind; [|intros ?]
    | match goal with
      | |- WithUnit (if ?b then _ else _) => destruct b
      end ].

(** The action of every step but the two blocking measurements runs to its
    end. *)
Lemma step_action_runs (step : Z) (changed : bool) (c : Z) :
  step <> MEASURE_GYRO_ERROR -> step <> MEASURE_CHARGING ->
  Runs (step_action step changed c).
Proof.
  intros H1 H2. unfold step_action.
  repeat match goal with
         | |- context [if step =? ?k then _ else _] =>
             destruct (Z.eqb_spec step k)
         end; try done;
    try (apply Runs_of_WithUnit; solve [with_unit]);
    try (apply Runs_of_Safe;
         first [apply Safe_testLeds | apply Safe_testSounds]).
  (* the last step: the record is finalized *)
  apply Runs_bind; [with_unit|intros _]. apply Runs_of_Safe.
  repeat (apply Safe_bind; [apply Safe_lift|intros _]). apply Safe_lift.
Qed.

Lemma run_iter_runs (w : World) :
  (let s := spin (hd [] (batches w)) (node w) in
   is_Some (under_test s) -> timer_active s = false ->
   current_step s <> MEASURE_GYRO_ERROR /\ current_step s <> MEASURE_CHARGING) ->
  is_Some (run_iter w).
Proof.
  intros H. unfold run_iter, bind, spinOnce. unfold step_tick; cbn.
  cbv zeta in H.
  destruct (under_test (spin (hd [] (batches w)) (node w))) as [r|] eqn:Hr;
    [|by eexists].
  destruct (timer_active (spin (hd [] (batches w)) (node w))) eqn:Ha;
    [by eexists|].
  destruct (H (mk_is_Some _ _ eq_refl) eq_refl) as [H1 H2].
  unfold bind, set_locals; cbn.
  by apply step_action_runs.
Qed.

(** X7.  Outside the two blocking measurements the control loop never reads
    a null [under_test], whatever the environment serves: (1) with a unit
    under test, the action of every step other than [MEASURE_GYRO_ERROR]
    and [MEASURE_CHARGING] runs to its end, the LED and sound
    demonstrations included, whose sleeps serve callbacks; (2) so does an
    iteration of the loop, unless the events it serves first leave a unit
    under test, with no motion on course, at one of those two steps. *)
Theorem loop_fails_only_in_measurements :
  (forall (step : Z) (changed : bool) (c : Z) (w : World),
     step <> MEASURE_GYRO_ERROR -> step <> MEASURE_CHARGING ->
     is_Some (under_test (node w)) ->
     is_Some (step_action step changed c w))
  /\ (forall w : World,
        (let s := spin (hd [] (batches w)) (node w) in
         is_Some (under_test s) -> timer_active s = false ->
         current_step s <> MEASURE_GYRO_ERROR
         /\ current_step s <> MEASURE_CHARGING) ->
        is_Some (run_iter w)).
Proof.
  split.
  - intros step changed c w H1 H2 Hu. by apply step_action_runs.
  - exact run_iter_runs.
Qed.

Lemma loop_fails_only_in_measurements_witness :
  is_Some (run_iter
             (mkWorld (fresh_at TEST_LEDS) 0 TEST_SOUNDS
                [[]; [EvRobotEvent Msg.OFFLINE]] true [])).
Proof.
  apply (proj2 loop_fails_only_in_measurements).
  vm_compute. intros _ _. split; discriminate.
Defined.

(** ** Identification *)

(** A field below [2^n] put under a shifted value: the bits do not meet. *)
Lemma lor_shiftl_add (a b n : Z) :
  0 <= n -> 0 <= b < 2 ^ n -> Z.lor (Z.shiftl a n) b = a * 2 ^ n + b.
Proof.
  intros Hn Hb. rewrite Z.shiftl_mul_pow2 by done.
  rewrite <- Z.lxor_lor, <- Z.add_nocarry_lxor; try done.
  all: apply Z.bits_inj'; intros i Hi; rewrite Z.land_spec, Z.bits_0.
  all: destruct (Z.lt_ge_cases i n) as [Hlt|Hge].
  all: try (rewrite Z.mul_pow2_bits_low by lia; reflexivity).
  all: rewrite <- (Z.mod_small b (2 ^ n)) by lia.
  all: rewrite Z.mod_pow2_bits_high by lia; apply andb_false_r.
Qed.

(** The version word as [versionInfoCB] packs it, and how it reads back. *)
Definition pack_versions (v fw hw sw : Z) : Z :=
  Z.lor (to_int64
           (Z.shiftl (Z.lor (to_int64 (Z.shiftl (Z.lor v fw) 16)) hw) 32))
        sw.

Lemma to_int64_small (z : Z) : - 2 ^ 63 <= z < 2 ^ 63 -> to_int64 z = z.
Proof.
  intros Hz. unfold to_int64. rewrite Z.mod_small; lia.
Qed.

Lemma pack_versions_fields (fw hw sw : Z) :
  0 <= fw < 2 ^ 15 -> 0 <= hw < 2 ^ 16 -> 0 <= sw < 2 ^ 32 ->
  let v := pack_versions 0 fw hw sw in
  v = fw * 2 ^ 48 + hw * 2 ^ 32 + sw
  /\ Z.shiftr v 48 = fw
  /\ Z.land (Z.shiftr v 32) 0xFFFF = hw
  /\ Z.land v 0xFFFFFFFF = sw.
Proof.
  intros Hfw Hhw Hsw v.
  assert (Ev : v = fw * 2 ^ 48 + hw * 2 ^ 32 + sw).
  { subst v. unfold pack_versions. rewrite Z.lor_0_l.
    rewrite (to_int64_small (Z.shiftl fw 16))
      by (rewrite Z.shiftl_mul_pow2; lia).
    rewrite (lor_shiftl_add fw hw 16) by lia.
    rewrite to_int64_small by (rewrite Z.shiftl_mul_pow2; lia).
    rewrite lor_shiftl_add by lia. lia. }
  split; [exact Ev|]. rewrite Ev. clear Ev v.
  change 0xFFFF with (Z.ones 16). change 0xFFFFFFFF with (Z.ones 32).
  rewrite !Z.land_ones, !Z.shiftr_div_pow2 by lia.
  change (2 ^ 48) with 281474976710656 in *.
  change (2 ^ 32) with 4294967296 in *.
  change (2 ^ 16) with 65536 in *.
  assert (E48 : (fw * 281474976710656 + hw * 4294967296 + sw)
                  `div` 281474976710656 = fw)
    by (symmetry; apply (Z.div_unique _ _ _ (hw * 4294967296 + sw)); lia).
  assert (E32 : (fw * 281474976710656 + hw * 4294967296 + sw)
                  `div` 4294967296 = fw * 65536 + hw)
    by (symmetry; apply (Z.div_unique _ _ _ sw); lia).
  rewrite E48, E32. repeat split.
  - symmetry. apply (Z.mod_unique _ _ fw); lia.
  - symmetry. apply (Z.mod_unique _ _ (fw * 65536 + hw)); lia.
Qed.

(** A unit identified with versions 1/2/3 that announces itself again
    under another identifier with versions 3/0/4: the old word is shifted
    out, but for its low sixteen bits, which are or-ed into the firmware. *)
Example reannounced_version_word :
  let s1 := versionInfoCB (mkVersionInfo [7] 1 2 3)
              (fresh_at GET_SERIAL_NUMBER) in
  let s2 := versionInfoCB (mkVersionInfo [8] 3 0 4) s1 in
  (fun r => Robot.val r V_INFO) <$> under_test s1
  = Some (1 * 2 ^ 48 + 2 * 2 ^ 32 + 3)
  /\ (fun r => Robot.val r V_INFO) <$> under_test s2
     = Some (3 * 2 ^ 48 + 4)
  /\ pack_versions (2 ^ 48 + 5) 2 0 0 = 7 * 2 ^ 48.
Proof. by vm_compute. Qed.

Lemma udid_equal_prefix (m u : list Z) :
  udid_equal m u = true <-> m `prefix_of` u.
Proof.
  unfold udid_equal. rewrite bool_decide_eq_true. split.
  - intros E. exists (drop (length m) u). by rewrite <- E at 1; rewrite take_drop.
  - intros [k ->]. by rewrite take_app_length.
Qed.

Lemma versionInfo_accept (msg : VersionInfo) (s : QNode) (r : Robot.t) :
  under_test s = Some r -> Robot.ok r V_INFO = false ->
  ledger_get (evaluated s) (udid msg) = None ->
  versionInfoCB msg s
  = log Info "UDID: %s. Hardware/firmware/software version: %s"
      (set_under_test
         (Some (Robot.set_ok V_INFO true
                  (Robot.set_val V_INFO
                     (pack_versions (Robot.val r V_INFO) (firmware msg)
                        (hardware msg) (software msg))
                     (Robot.setSerial (udid msg) r)))) s).
Proof.
  intros Hr Hok Hl. unfold versionInfoCB, versionInfo_adopt.
  rewrite Hr, Hok. cbn [Robot.serial Robot.setSerial evaluated set_under_test].
  by rewrite Hl.
Qed.

(** X8.  A first identification.  The unit under test is not identified
    yet, its version word is still zero, and the serial of the message is
    not in the ledger: the record takes the message's identifier as serial
    and raw id, the identification is marked verified, nothing else of the
    record changes, one line is logged, and the version word packs the
    three version numbers so that each reads back: firmware from bit 48,
    hardware in bits 32 to 47, software in the low 32 bits. *)
Theorem first_identification (msg : VersionInfo) (s : QNode) (r : Robot.t) :
  under_test s = Some r -> wf r ->
  Robot.ok r V_INFO = false -> Robot.val r V_INFO = 0 ->
  ledger_get (evaluated s) (udid msg) = None ->
  0 <= firmware msg < 2 ^ 15 -> 0 <= hardware msg < 2 ^ 16 ->
  0 <= software msg < 2 ^ 32 ->
  exists r',
    versionInfoCB msg s
    = log Info "UDID: %s. Hardware/firmware/software version: %s"
        (set_under_test (Some r') s)
    /\ Robot.serial r' = udid msg /\ Robot.u_dev_id r' = udid msg
    /\ Robot.ok r' V_INFO = true
    /\ (forall d, d <> V_INFO ->
          Robot.ok r' d = Robot.ok r d /\ Robot.val r' d = Robot.val r d)
    /\ Robot.val r' V_INFO
       = firmware msg * 2 ^ 48 + hardware msg * 2 ^ 32 + software msg
    /\ Z.shiftr (Robot.val r' V_INFO) 48 = firmware msg
    /\ Z.land (Z.shiftr (Robot.val r' V_INFO) 32) 0xFFFF = hardware msg
    /\ Z.land (Robot.val r' V_INFO) 0xFFFFFFFF = software msg.
Proof.
  intros Hr Hwf Hok Hv Hl Hfw Hhw Hsw.
  eexists. split; [by apply versionInfo_accept|].
  split; [done|]. split; [done|].
  assert (Hwf' : wf (Robot.setSerial (udid msg) r)) by exact Hwf.
  assert (Hlt : (V_INFO < DEVICES_COUNT)%nat) by (cbv; lia).
  split; [apply ok_set_ok_eq; [exact Hlt|by apply wf_set_val]|].
  split.
  { intros d Hd. by rewrite ok_set_ok_ne, val_set_ok, val_set_val_ne. }
  rewrite val_set_ok, val_set_val_eq by done.
  change (Robot.val (Robot.setSerial (udid msg) r) V_INFO)
    with (Robot.val r V_INFO). rewrite Hv.
  apply pack_versions_fields; lia.
Qed.

Lemma first_identification_witness :
  exists r',
    versionInfoCB (mkVersionInfo [7; 7; 7] 1 2 3) (fresh_at GET_SERIAL_NUMBER)
    = log Info "UDID: %s. Hardware/firmware/software version: %s"
        (set_under_test (Some r') (fresh_at GET_SERIAL_NUMBER))
    /\ Robot.val r' V_INFO = 1 * 2 ^ 48 + 2 * 2 ^ 32 + 3.
Proof.
  destruct (first_identification (mkVersionInfo [7; 7; 7] 1 2 3)
              (fresh_at GET_SERIAL_NUMBER) (Robot.new 0)
              eq_refl (wf_new 0) eq_refl eq_refl eq_refl)
    as (r' & E & _ & _ & _ & _ & Hv & _); [simpl; lia ..|].
  exists r'. by split.
Defined.

(** After the callback has kept a record, it is identified and the
    message's identifier heads its raw id. *)
Lemma versionInfo_kept (msg : VersionInfo) (s : QNode) (r r' : Robot.t) :
  under_test s = Some r -> wf r ->
  under_test (versionInfoCB msg s) = Some r' ->
  Robot.ok r' V_INFO = true
  /\ udid_equal (udid msg) (Robot.u_dev_id r') = true.
Proof.
  intros Hr Hwf. unfold versionInfoCB, versionInfo_adopt. rewrite Hr.
  assert (Hlt : (V_INFO < DEVICES_COUNT)%nat) by (cbv; lia).
  assert (Hself : udid_equal (udid msg) (udid msg) = true)
    by by apply udid_equal_prefix.
  destruct (Robot.ok r V_INFO) eqn:Hok;
    [destruct (udid_equal (udid msg) (Robot.u_dev_id r)) eqn:Heq|];
    cbn [Robot.serial Robot.setSerial evaluated set_under_test log emit];
    try destruct (ledger_get (evaluated s) (udid msg));
    cbn -[Robot.set_ok Robot.set_val Robot.val]; rewrite ?Hr;
    intros [= <-]; try done;
    (split; [apply ok_set_ok_eq; [exact Hlt|by apply wf_set_val]|exact Hself]).
Qed.

(** X9.  Identification sent again.  (1) Whenever the identification
    callback leaves a record under test, the same message delivered once
    more changes nothing: it is only logged, at debug level, as received
    more than once.  (2) The comparison runs over the words of the message
    only: on an identified unit, any message whose identifier is an initial
    part of the stored one (the empty identifier included) is taken as that
    repetition. *)
Theorem identification_resent :
  (forall (msg : VersionInfo) (s : QNode) (r : Robot.t),
     under_test s = Some r -> wf r ->
     is_Some (under_test (versionInfoCB msg s)) ->
     versionInfoCB msg (versionInfoCB msg s)
     = log Debug "Version info received more that once for %s"
         (versionInfoCB msg s))
  /\ (forall (msg : VersionInfo) (s : QNode) (r : Robot.t),
        under_test s = Some r -> Robot.ok r V_INFO = true ->
        udid msg `prefix_of` Robot.u_dev_id r ->
        versionInfoCB msg s
        = log Debug "Version info received more that once for %s" s).
Proof.
  split.
  - intros msg s r Hr Hwf [r' Hr'].
    destruct (versionInfo_kept msg s r r' Hr Hwf Hr') as [Hok Heq].
    unfold versionInfoCB at 1. by rewrite Hr', Hok, Heq.
  - intros msg s r Hr Hok Hp. apply udid_equal_prefix in Hp.
    unfold versionInfoCB. by rewrite Hr, Hok, Hp.
Qed.

Lemma identification_resent_witness :
  versionInfoCB (mkVersionInfo [7; 7; 7] 1 2 3)
    (versionInfoCB (mkVersionInfo [7; 7; 7] 1 2 3)
       (fresh_at GET_SERIAL_NUMBER))
  = log Debug "Version info received more that once for %s"
      (versionInfoCB (mkVersionInfo [7; 7; 7] 1 2 3)
         (fresh_at GET_SERIAL_NUMBER)).
Proof.
  apply (proj1 identification_resent (mkVersionInfo [7; 7; 7] 1 2 3)
           (fresh_at GET_SERIAL_NUMBER) (Robot.new 0) eq_refl (wf_new 0)).
  vm_compute. by eexists.
Defined.

(** ** Telemetry and the motors *)

(** The current of motor [i] (0 left, 1 right) in a telemetry message. *)
Definition motor_current (i : nat) (msg : SensorState) : Z :=
  default 0 (current msg !! i).

(** A telemetry message as the driver sends it: two currents, each a
    [uint8]. *)
Definition two_currents (msg : SensorState) : Prop :=
  length (current msg) = 2%nat
  /\ 0 <= motor_current 0 msg < 256 /\ 0 <= motor_current 1 msg < 256.

Lemma to_uint8_small (z : Z) : 0 <= z < 256 -> to_uint8 z = z.
Proof. intros H. unfold to_uint8. by apply Z.mod_small. Qed.

Lemma sensorsCore_motors (msg : SensorState) (s : QNode) (r : Robot.t) :
  under_test s = Some r ->
  TEST_MOTORS_FORWARD <= current_step s <= TEST_MOTORS_COUNTERCW ->
  sensorsCoreCB msg s
  = set_under_test
      (Some (Robot.set_val MOTOR_R
               (Z.max (to_uint8 (Robot.val r MOTOR_R)) (motor_current 1 msg))
               (Robot.set_val MOTOR_L
                  (Z.max (to_uint8 (Robot.val r MOTOR_L)) (motor_current 0 msg))
                  r))) s.
Proof.
  intros Hr [H1 H2]. unfold sensorsCoreCB. rewrite Hr.
  apply Z.leb_le in H1, H2. rewrite H1, H2. cbn [andb].
  by rewrite val_set_val_ne by (cbv; lia).
Qed.

(** The motor currents over a run of telemetry messages. *)
Lemma motors_peak (msgs : list SensorState) (s : QNode) (r : Robot.t) :
  under_test s = Some r -> wf r ->
  TEST_MOTORS_FORWARD <= current_step s <= TEST_MOTORS_COUNTERCW ->
  0 <= Robot.val r MOTOR_L < 256 -> 0 <= Robot.val r MOTOR_R < 256 ->
  Forall two_currents msgs ->
  exists r',
    spin (EvSensorsCore <$> msgs) s = set_under_test (Some r') s
    /\ wf r'
    /\ Robot.val r' MOTOR_L
       = foldl Z.max (Robot.val r MOTOR_L) (motor_current 0 <$> msgs)
    /\ Robot.val r' MOTOR_R
       = foldl Z.max (Robot.val r MOTOR_R) (motor_current 1 <$> msgs)
    /\ (forall d, d <> MOTOR_L -> d <> MOTOR_R ->
          Robot.val r' d = Robot.val r d)
    /\ (forall d, Robot.ok r' d = Robot.ok r d).
Proof.
  intros Hr Hwf Hstep HL HR Hmsgs. revert s r Hr Hwf Hstep HL HR.
  induction Hmsgs as [|msg msgs (Hlen & H0 & H1) _ IH];
    intros s r Hr Hwf Hstep HL HR.
  - exists r. split; [by destruct s; simpl in *; subst|].
    split; [exact Hwf|]. by repeat split.
  - cbn [fmap list_fmap foldl]. unfold spin; cbn [foldl onEvent].
    rewrite (sensorsCore_motors msg s r Hr Hstep).
    rewrite !to_uint8_small by done.
    set (r1 := Robot.set_val MOTOR_R _ (Robot.set_val MOTOR_L _ r)).
    assert (Hwf1 : wf r1) by (subst r1; by repeat apply wf_set_val).
    assert (HL1 : Robot.val r1 MOTOR_L
                  = Z.max (Robot.val r MOTOR_L) (motor_current 0 msg)).
    { subst r1. rewrite val_set_val_ne by (cbv; lia).
      rewrite val_set_val_eq; [done|cbv; lia|done]. }
    assert (HR1 : Robot.val r1 MOTOR_R
                  = Z.max (Robot.val r MOTOR_R) (motor_current 1 msg)).
    { subst r1. rewrite val_set_val_eq; [done|cbv; lia|by apply wf_set_val]. }
    destruct (IH (set_under_test (Some r1) s) r1 eq_refl Hwf1 Hstep)
      as (r' & E & Hwf' & EL & ER & Hv & Hok); [lia|lia|].
    exists r'. fold (spin (EvSensorsCore <$> msgs) (set_under_test (Some r1) s)).
    rewrite E. split; [done|]. split; [done|].
    split; [by rewrite EL, HL1|]. split; [by rewrite ER, HR1|]. split.
    + intros d HdL HdR. rewrite Hv by done. subst r1.
      by rewrite !val_set_val_ne.
    + intros d. by rewrite Hok.
Qed.

(** X10.  The motor currents are running maxima.  While the step is one of
    the four motor motions, a run of telemetry messages (two [uint8]
    currents each) leaves in [device_val[MOTOR_L]] and [device_val[MOTOR_R]]
    the greatest of the value held before and the currents reported for
    that motor; nothing else of the node or of the record changes: no
    other value, no verified flag, not the step, no output. *)
Theorem motor_current_peak (msgs : list SensorState) (s : QNode) (r : Robot.t) :
  under_test s = Some r -> wf r ->
  TEST_MOTORS_FORWARD <= current_step s <= TEST_MOTORS_COUNTERCW ->
  0 <= Robot.val r MOTOR_L < 256 -> 0 <= Robot.val r MOTOR_R < 256 ->
  Forall two_currents msgs ->
  exists r',
    spin (EvSensorsCore <$> msgs) s = set_under_test (Some r') s
    /\ Robot.val r' MOTOR_L
       = foldl Z.max (Robot.val r MOTOR_L) (motor_current 0 <$> msgs)
    /\ Robot.val r' MOTOR_R
       = foldl Z.max (Robot.val r MOTOR_R) (motor_current 1 <$> msgs)
    /\ (forall d, d <> MOTOR_L -> d <> MOTOR_R ->
          Robot.val r' d = Robot.val r d)
    /\ (forall d, Robot.ok r' d = Robot.ok r d).
Proof.
  intros Hr Hwf Hstep HL HR Hmsgs.
  destruct (motors_peak msgs s r Hr Hwf Hstep HL HR Hmsgs)
    as (r' & E & _ & H).
  by exists r'.
Qed.

Lemma motor_current_peak_witness :
  exists r',
    spin [EvSensorsCore (mkSensorState [10; 3] 0 160 []);
          EvSensorsCore (mkSensorState [7; 30] 0 160 [])]
      (fresh_at TEST_MOTORS_CLOCKWISE)
    = set_under_test (Some r') (fresh_at TEST_MOTORS_CLOCKWISE)
    /\ Robot.val r' MOTOR_L = 10 /\ Robot.val r' MOTOR_R = 30.
Proof.
  destruct (motor_current_peak
              [mkSensorState [10; 3] 0 160 []; mkSensorState [7; 30] 0 160 []]
              (fresh_at TEST_MOTORS_CLOCKWISE) (Robot.new 0)
              eq_refl (wf_new 0))
    as (r' & E & HL & HR & _).
  - vm_compute. split; discriminate.
  - vm_compute. split; [discriminate|reflexivity].
  - vm_compute. split; [discriminate|reflexivity].
  - repeat constructor; vm_compute; try discriminate; reflexivity.
  - exists r'. split; [exact E|]. split; [exact HL|exact HR].
Defined.

(** [evalMotorsCurrent] on a record. *)
Definition motors_verdict (r : Robot.t) : Robot.t :=
  let r := Robot.set_ok MOTOR_L (Robot.val r MOTOR_L <=? MOTOR_MAX_CURRENT) r in
  Robot.set_ok MOTOR_R (Robot.val r MOTOR_R <=? MOTOR_MAX_CURRENT) r.

Lemma evalMotorsCurrent_run (first_call : bool) (w : World) (r : Robot.t) :
  under_test (node w) = Some r ->
  evalMotorsCurrent first_call w
  = Some (tt,
          with_node
            (fun s =>
               (if Robot.motors_ok (motors_verdict r)
                then log Info "Motors current evaluation completed (%d, %d)"
                else log Warn "Motors current too high! (%d, %d)")
                 (set_under_test (Some (motors_verdict r)) s)) w).
Proof.
  intros Hr. destruct w as [s c p bs ck cam]. simpl in Hr.
  unfold evalMotorsCurrent, update_robot, bind, robot, lift; cbn.
  rewrite Hr; cbn. fold (motors_verdict r).
  by destruct (Robot.motors_ok (motors_verdict r)).
Qed.

Lemma motors_verdict_flags (r : Robot.t) :
  wf r ->
  Robot.ok (motors_verdict r) MOTOR_L
  = (Robot.val r MOTOR_L <=? MOTOR_MAX_CURRENT)
  /\ Robot.ok (motors_verdict r) MOTOR_R
     = (Robot.val r MOTOR_R <=? MOTOR_MAX_CURRENT)
  /\ (forall d, d <> MOTOR_L -> d <> MOTOR_R ->
        Robot.ok (motors_verdict r) d = Robot.ok r d)
  /\ (forall d, Robot.val (motors_verdict r) d = Robot.val r d).
Proof.
  intros Hwf. unfold motors_verdict. cbv zeta. rewrite !val_set_ok.
  split; [|split; [|split]].
  - rewrite ok_set_ok_ne by (cbv; lia).
    apply ok_set_ok_eq; [cbv; lia|done].
  - apply ok_set_ok_eq; [cbv; lia|by apply wf_set_ok].
  - intros d HL HR. by rewrite !ok_set_ok_ne.
  - done.
Qed.

(** X11.  The motors' verdict.  At [EVAL_MOTORS_CURRENT] the loop hides
    the prompt, sets the verified flag of each motor to whether its
    recorded current is at most 24 (a flag set before is cleared when it is
    not), logs at info level when both are and a warning otherwise, and
    advances the step by one, pass or fail; no value and no other flag
    changes. *)
Theorem motors_evaluation (changed : bool) (c : Z) (w : World) (r : Robot.t) :
  under_test (node w) = Some r -> wf r ->
  exists w' r',
    step_action EVAL_MOTORS_CURRENT changed c w = Some (tt, w')
    /\ under_test (node w') = Some r'
    /\ (Robot.ok r' MOTOR_L = true <-> Robot.val r MOTOR_L <= 24)
    /\ (Robot.ok r' MOTOR_R = true <-> Robot.val r MOTOR_R <= 24)
    /\ (forall d, d <> MOTOR_L -> d <> MOTOR_R -> Robot.ok r' d = Robot.ok r d)
    /\ (forall d, Robot.val r' d = Robot.val r d)
    /\ current_step (node w') = current_step (node w) + 1
    /\ trace (node w')
       = Log (if (Robot.val r MOTOR_L <=? 24) && (Robot.val r MOTOR_R <=? 24)
              then Info else Warn)
             (if (Robot.val r MOTOR_L <=? 24) && (Robot.val r MOTOR_R <=? 24)
              then "Motors current evaluation completed (%d, %d)"
              else "Motors current too high! (%d, %d)")
         :: HideUserMsg :: trace (node w).
Proof.
  intros Hr Hwf.
  destruct (motors_verdict_flags r Hwf) as (HL & HR & Hok & Hval).
  change (step_action EVAL_MOTORS_CURRENT changed c)
    with (lift hideUserMsg ;;; evalMotorsCurrent changed ;;; lift next_step).
  unfold bind at 1. unfold lift at 1.
  unfold bind at 1.
  rewrite (evalMotorsCurrent_run changed (with_node hideUserMsg w) r)
    by (destruct w; exact Hr).
  unfold lift. eexists _, (motors_verdict r). split; [reflexivity|].
  unfold Robot.motors_ok. rewrite HL, HR.
  change MOTOR_MAX_CURRENT with 24.
  destruct w as [s cc p bs ck cam]; simpl in *.
  split; [by destruct (_ && _)|].
  split; [apply Z.leb_le|].
  split; [apply Z.leb_le|].
  split; [exact Hok|]. split; [exact Hval|].
  split; [by destruct (_ && _)|]. by destruct (_ && _).
Qed.

Lemma motors_evaluation_witness :
  exists w' r',
    step_action EVAL_MOTORS_CURRENT true 1
      (mkWorld (fresh_at EVAL_MOTORS_CURRENT) 0 TEST_MOTORS_COUNTERCW [] true [])
    = Some (tt, w')
    /\ under_test (node w') = Some r'
    /\ (Robot.ok r' MOTOR_L = true <-> Robot.val (Robot.new 0) MOTOR_L <= 24).
Proof.
  destruct (motors_evaluation true 1
              (mkWorld (fresh_at EVAL_MOTORS_CURRENT) 0 TEST_MOTORS_COUNTERCW
                 [] true [])
              (Robot.new 0) eq_refl (wf_new 0))
    as (w' & r' & E & Hu & HL & _).
  by exists w', r'.
Defined.

(** The messages that only bring data: core telemetry, gyroscope,
    diagnostics. *)
Definition brings_data (e : Event) : bool :=
  match e with
  | EvSensorsCore _ | EvGyroscope _ | EvDiagnostics _ => true
  | _ => false
  end.

(** Everything of the node but the record under test. *)
Definition around (s : QNode)
  : bool * Z * bool * option Q * list Robot.t * list Robot.t * list Output :=
  (answer_req s, current_step s, timer_active s, timer s, evaluated s,
   out_file s, trace s).

Lemma data_only (e : Event) (s : QNode) :
  brings_data e = true ->
  around (onEvent e s) = around s
  /\ match under_test s with
     | None => under_test (onEvent e s) = None
     | Some r =>
         exists r', under_test (onEvent e s) = Some r'
           /\ (forall d, Robot.ok r' d = Robot.ok r d)
           /\ Robot.serial r' = Robot.serial r
           /\ Robot.seq_nb r' = Robot.seq_nb r
           /\ Robot.state r' = Robot.state r
     end.
Proof.
  destruct e; try discriminate; intros _; simpl.
  - unfold sensorsCoreCB. destruct (under_test s) as [r|] eqn:Hr;
      [|by rewrite Hr].
    split_ifs; cbn -[Robot.set_val Robot.val]; rewrite ?Hr;
      (split; [done|]); eexists; by repeat split.
  - unfold gyroscopeCB. destruct (under_test s) as [r|] eqn:Hr;
      [|by rewrite Hr].
    split; [done|]. eexists; by repeat split.
  - unfold diagnosticsCB. destruct (under_test s) as [r|] eqn:Hr;
      [|by rewrite Hr].
    split; [done|]. eexists; by repeat split.
Qed.

(** X12.  The messages that only bring data (core telemetry, gyroscope,
    diagnostics) never decide anything: whatever they carry and whatever
    the step, the callback leaves the step, the answer request, the motion
    timer, the ledger, the result file and the output as they were, keeps
    the record under test in place, and changes no verified flag, nor the
    serial, the sequence id or the health state of the record. *)
Theorem data_messages_decide_nothing (e : Event) (s : QNode) :
  brings_data e = true ->
  around (onEvent e s) = around s
  /\ match under_test s with
     | None => under_test (onEvent e s) = None
     | Some r =>
         exists r', under_test (onEvent e s) = Some r'
           /\ (forall d, Robot.ok r' d = Robot.ok r d)
           /\ Robot.serial r' = Robot.serial r
           /\ Robot.seq_nb r' = Robot.seq_nb r
           /\ Robot.state r' = Robot.state r
     end.
Proof. apply data_only. Qed.

Lemma data_messages_decide_nothing_witness :
  around (onEvent (EvSensorsCore (mkSensorState [30; 30] 1 160 [0; 4095]))
            (fresh_at TEST_MOTORS_FORWARD))
  = around (fresh_at TEST_MOTORS_FORWARD).
Proof.
  exact (proj1 (data_messages_decide_nothing
                  (EvSensorsCore (mkSensorState [30; 30] 1 160 [0; 4095]))
                  (fresh_at TEST_MOTORS_FORWARD) eq_refl)).
Defined.

(** ** The docking infrared receivers *)

(** Reading [i] of a beacon message (0 left, 1 centre, 2 right). *)
Definition beacon (i : nat) (data : list Z) : Z := default 0 (data !! i).

(** What a beacon message does to one receiver while the family is not yet
    verified. *)
Definition received (dev : nat) (d : Z) (r : Robot.t) : Robot.t :=
  if 0 <? d then Robot.set_ok dev true (Robot.set_val dev d r) else r.

Lemma dockBeacon_unfold (data : list Z) (s : QNode) (r : Robot.t) :
  under_test s = Some r -> Robot.ir_dock_ok r = false ->
  let r' := received IR_DOCK_R (beacon 2 data)
              (received IR_DOCK_C (beacon 1 data)
                 (received IR_DOCK_L (beacon 0 data) r)) in
  dockBeaconCB data s
  = (if Robot.ir_dock_ok r'
     then log Info "Docking ir sensor evaluation completed: %d/%d/%d"
     else id) (set_under_test (Some r') s).
Proof.
  intros Hr Hok r'. unfold dockBeaconCB. rewrite Hr, Hok.
  fold (beacon 0 data) (beacon 1 data) (beacon 2 data).
  fold (received IR_DOCK_L (beacon 0 data) r).
  fold (received IR_DOCK_C (beacon 1 data)
          (received IR_DOCK_L (beacon 0 data) r)).
  fold (received IR_DOCK_R (beacon 2 data)
          (received IR_DOCK_C (beacon 1 data)
             (received IR_DOCK_L (beacon 0 data) r))).
  fold r'. by destruct (Robot.ir_dock_ok r').
Qed.

Lemma received_spec (dev : nat) (d : Z) (r : Robot.t) :
  (dev < DEVICES_COUNT)%nat -> wf r ->
  wf (received dev d r)
  /\ Robot.ok (received dev d r) dev = (Robot.ok r dev || (0 <? d))
  /\ Robot.val (received dev d r) dev = (if 0 <? d then d else Robot.val r dev)
  /\ (forall d', d' <> dev ->
        Robot.ok (received dev d r) d' = Robot.ok r d'
        /\ Robot.val (received dev d r) d' = Robot.val r d').
Proof.
  intros Hdev Hwf. unfold received. destruct (0 <? d).
  - split; [by apply wf_set_ok, wf_set_val|].
    split; [rewrite ok_set_ok_eq; [by rewrite orb_true_r|done|by apply wf_set_val]|].
    split; [by rewrite val_set_ok, val_set_val_eq|].
    intros d' Hd'. by rewrite ok_set_ok_ne, val_set_ok, val_set_val_ne.
  - split; [done|]. split; [by rewrite orb_false_r|]. by split.
Qed.

(** One beacon message. *)
Lemma dockBeacon_once (data : list Z) (s : QNode) (r : Robot.t) :
  under_test s = Some r -> wf r ->
  exists r',
    under_test (dockBeaconCB data s) = Some r' /\ wf r'
    /\ Robot.ok r' IR_DOCK_L = (Robot.ok r IR_DOCK_L || (0 <? beacon 0 data))
    /\ Robot.ok r' IR_DOCK_C = (Robot.ok r IR_DOCK_C || (0 <? beacon 1 data))
    /\ Robot.ok r' IR_DOCK_R = (Robot.ok r IR_DOCK_R || (0 <? beacon 2 data))
    /\ (forall d, d <> IR_DOCK_L -> d <> IR_DOCK_C -> d <> IR_DOCK_R ->
          Robot.ok r' d = Robot.ok r d /\ Robot.val r' d = Robot.val r d)
    /\ (Robot.ir_dock_ok r = false ->
        forall i dev, (i, dev) ∈ [(0, IR_DOCK_L); (1, IR_DOCK_C); (2, IR_DOCK_R)]%nat ->
          Robot.val r' dev
          = if 0 <? beacon i data then beacon i data else Robot.val r dev)
    /\ current_step (dockBeaconCB data s) = current_step s
    /\ trace (dockBeaconCB data s)
       = ((if negb (Robot.ir_dock_ok r) && Robot.ir_dock_ok r'
           then [Log Info "Docking ir sensor evaluation completed: %d/%d/%d"]
           else []) ++ trace s)%list.
Proof.
  intros Hr Hwf. destruct (Robot.ir_dock_ok r) eqn:Hok.
  - exists r. unfold dockBeaconCB. rewrite Hr, Hok.
    unfold Robot.ir_dock_ok in Hok.
    apply andb_true_iff in Hok as [Hok H3].
    apply andb_true_iff in Hok as [H1 H2].
    rewrite H1, H2, H3. split; [done|]. split; [done|].
    do 3 (split; [reflexivity|]). split; [done|]. by split.
  - rewrite (dockBeacon_unfold data s r Hr Hok). cbv zeta.
    set (r1 := received IR_DOCK_L (beacon 0 data) r).
    set (r2 := received IR_DOCK_C (beacon 1 data) r1).
    set (r3 := received IR_DOCK_R (beacon 2 data) r2).
    destruct (received_spec IR_DOCK_L (beacon 0 data) r)
      as (W1 & O1 & V1 & F1); [cbv; lia|done|].
    destruct (received_spec IR_DOCK_C (beacon 1 data) r1)
      as (W2 & O2 & V2 & F2); [cbv; lia|done|].
    destruct (received_spec IR_DOCK_R (beacon 2 data) r2)
      as (W3 & O3 & V3 & F3); [cbv; lia|done|].
    fold r1 in W1, O1, V1, F1. fold r2 in W2, O2, V2, F2.
    fold r3 in W3, O3, V3, F3.
    assert (Hne : IR_DOCK_L <> IR_DOCK_C /\ IR_DOCK_L <> IR_DOCK_R
                  /\ IR_DOCK_C <> IR_DOCK_R) by (cbv; lia).
    destruct Hne as (N1 & N2 & N3).
    exists r3. split; [by destruct (Robot.ir_dock_ok r3)|].
    split; [done|].
    split; [by rewrite (proj1 (F3 _ N2)), (proj1 (F2 _ N1))|].
    split; [by rewrite (proj1 (F3 _ N3)), O2, (proj1 (F1 _ (not_eq_sym N1)))|].
    split; [by rewrite O3, (proj1 (F2 _ (not_eq_sym N3))),
                 (proj1 (F1 _ (not_eq_sym N2)))|].
    split.
    { intros d D1 D2 D3.
      destruct (F3 d D3) as [-> ->]. destruct (F2 d D2) as [-> ->].
      by destruct (F1 d D1) as [-> ->]. }
    split.
    { intros _ i dev Hin.
      repeat (apply elem_of_cons in Hin as [[= -> ->]|Hin]);
        [| | |by apply elem_of_nil in Hin].
      - by rewrite (proj2 (F3 _ N2)), (proj2 (F2 _ N1)).
      - by rewrite (proj2 (F3 _ N3)), V2, (proj2 (F1 _ (not_eq_sym N1))).
      - by rewrite V3, (proj2 (F2 _ (not_eq_sym N3))),
                (proj2 (F1 _ (not_eq_sym N2))). }
    by destruct (Robot.ir_dock_ok r3).
Qed.

(** X13.  One beacon message (three readings), with a unit under test.  Each of the three
    receivers is verified afterwards exactly when it was before or its
    reading in the message is positive: a flag is never cleared.  While the
    family is not yet verified a positive reading is also stored as the
    receiver's value, replacing an earlier one, and a reading of zero leaves
    the value.  No other device, and not the step, is touched; the
    completion is logged exactly by the message that verifies the last
    receiver, and once the three are verified further messages change
    nothing. *)
Theorem dock_beacon_collects (data : list Z) (s : QNode) (r : Robot.t) :
  length data = 3%nat -> under_test s = Some r -> wf r ->
  exists r',
    under_test (dockBeaconCB data s) = Some r'
    /\ Robot.ok r' IR_DOCK_L = (Robot.ok r IR_DOCK_L || (0 <? beacon 0 data))
    /\ Robot.ok r' IR_DOCK_C = (Robot.ok r IR_DOCK_C || (0 <? beacon 1 data))
    /\ Robot.ok r' IR_DOCK_R = (Robot.ok r IR_DOCK_R || (0 <? beacon 2 data))
    /\ (forall d, d <> IR_DOCK_L -> d <> IR_DOCK_C -> d <> IR_DOCK_R ->
          Robot.ok r' d = Robot.ok r d /\ Robot.val r' d = Robot.val r d)
    /\ (Robot.ir_dock_ok r = false ->
        forall i dev, (i, dev) ∈ [(0, IR_DOCK_L); (1, IR_DOCK_C); (2, IR_DOCK_R)]%nat ->
          Robot.val r' dev
          = if 0 <? beacon i data then beacon i data else Robot.val r dev)
    /\ (Robot.ir_dock_ok r = true -> dockBeaconCB data s = s)
    /\ current_step (dockBeaconCB data s) = current_step s
    /\ trace (dockBeaconCB data s)
       = ((if negb (Robot.ir_dock_ok r) && Robot.ir_dock_ok r'
           then [Log Info "Docking ir sensor evaluation completed: %d/%d/%d"]
           else []) ++ trace s)%list.
Proof.
  intros _ Hr Hwf.
  destruct (dockBeacon_once data s r Hr Hwf)
    as (r' & Hr' & _ & HL & HC & HR & Hfr & Hval & Hstep & Htr).
  exists r'. repeat (split; [done|]). split; [|by split].
  intros Hok. unfold dockBeaconCB. by rewrite Hr, Hok.
Qed.

Lemma dock_beacon_collects_witness :
  exists r',
    under_test (dockBeaconCB [0; 120; 0] (fresh_at TEST_LEDS)) = Some r'
    /\ Robot.ok r' IR_DOCK_C = true /\ Robot.ok r' IR_DOCK_L = false.
Proof.
  destruct (dock_beacon_collects [0; 120; 0] (fresh_at TEST_LEDS)
              (Robot.new 0) eq_refl eq_refl (wf_new 0))
    as (r' & Hr' & HL & HC & _).
  exists r'. split; [exact Hr'|]. split; [exact HC|exact HL].
Defined.

(** Whether some message of the run has a positive reading [i]. *)
Definition seen (i : nat) (datas : list (list Z)) : bool :=
  existsb (fun data => 0 <? beacon i data) datas.

Lemma dock_run (datas : list (list Z)) (s : QNode) (r : Robot.t) :
  under_test s = Some r -> wf r ->
  exists r',
    under_test (spin (EvDockBeacon <$> datas) s) = Some r'
    /\ Robot.ok r' IR_DOCK_L = (Robot.ok r IR_DOCK_L || seen 0 datas)
    /\ Robot.ok r' IR_DOCK_C = (Robot.ok r IR_DOCK_C || seen 1 datas)
    /\ Robot.ok r' IR_DOCK_R = (Robot.ok r IR_DOCK_R || seen 2 datas)
    /\ (forall d, d <> IR_DOCK_L -> d <> IR_DOCK_C -> d <> IR_DOCK_R ->
          Robot.ok r' d = Robot.ok r d /\ Robot.val r' d = Robot.val r d)
    /\ current_step (spin (EvDockBeacon <$> datas) s) = current_step s.
Proof.
  revert s r. induction datas as [|data datas IH]; intros s r Hr Hwf.
  - exists r. cbn. rewrite !orb_false_r. by repeat split.
  - destruct (dockBeacon_once data s r Hr Hwf)
      as (r1 & Hr1 & Hwf1 & HL & HC & HR & Hfr & _ & Hstep & _).
    destruct (IH (dockBeaconCB data s) r1 Hr1 Hwf1)
      as (r' & Hr' & HL' & HC' & HR' & Hfr' & Hstep').
    exists r'. cbn [fmap list_fmap]. unfold spin in *. cbn [foldl onEvent].
    split; [exact Hr'|]. unfold seen in *. cbn [existsb].
    split; [by rewrite HL', HL, orb_assoc|].
    split; [by rewrite HC', HC, orb_assoc|].
    split; [by rewrite HR', HR, orb_assoc|].
    split; [|by rewrite Hstep'].
    intros d D1 D2 D3. destruct (Hfr' d D1 D2 D3) as [-> ->]. by apply Hfr.
Qed.

(** X14.  The docking receivers over a run of beacon messages (three
    readings each), at any step:
    starting from a record with none of the three verified, the family is
    verified at the end exactly when each receiver had a positive reading
    in at least one message of the run, whatever the order and however the
    readings are spread over the messages; no other device and not the step
    are touched. *)
Theorem dock_receivers_complete (datas : list (list Z)) (s : QNode)
  (r : Robot.t) :
  Forall (fun data => length data = 3%nat) datas ->
  under_test s = Some r -> wf r ->
  Robot.ok r IR_DOCK_L = false -> Robot.ok r IR_DOCK_C = false ->
  Robot.ok r IR_DOCK_R = false ->
  exists r',
    under_test (spin (EvDockBeacon <$> datas) s) = Some r'
    /\ (Robot.ir_dock_ok r' = true <->
        forall i, (i < 3)%nat -> exists data, data ∈ datas /\ 0 < beacon i data)
    /\ (forall d, d <> IR_DOCK_L -> d <> IR_DOCK_C -> d <> IR_DOCK_R ->
          Robot.ok r' d = Robot.ok r d /\ Robot.val r' d = Robot.val r d)
    /\ current_step (spin (EvDockBeacon <$> datas) s) = current_step s.
Proof.
  intros _ Hr Hwf H1 H2 H3.
  destruct (dock_run datas s r Hr Hwf) as (r' & Hr' & HL & HC & HR & Hfr & Hs).
  exists r'. split; [exact Hr'|]. split; [|by split].
  unfold Robot.ir_dock_ok. rewrite HL, HC, HR, H1, H2, H3. cbn [orb].
  assert (Hseen : forall i, seen i datas = true <->
                    exists data, data ∈ datas /\ 0 < beacon i data).
  { intros i. unfold seen. rewrite existsb_exists. split.
    - intros (data & Hin & Hpos). exists data.
      split; [by apply list_elem_of_In|by apply Z.ltb_lt].
    - intros (data & Hin & Hpos). exists data.
      split; [by apply list_elem_of_In|by apply Z.ltb_lt]. }
  rewrite !andb_true_iff, !Hseen. split.
  - intros [[Ha Hb] Hc] i Hi.
    destruct i as [|[|[|i]]]; [done|done|done|lia].
  - intros H. repeat split; apply H; lia.
Qed.

Lemma dock_receivers_complete_witness :
  exists r',
    under_test (spin (EvDockBeacon <$> [[0; 120; 0]; [3; 0; 0]; [0; 0; 9]])
                  (fresh_at TEST_LEDS)) = Some r'
    /\ Robot.ir_dock_ok r' = true.
Proof.
  destruct (dock_receivers_complete [[0; 120; 0]; [3; 0; 0]; [0; 0; 9]]
              (fresh_at TEST_LEDS) (Robot.new 0)
              ltac:(repeat constructor) eq_refl (wf_new 0)
              eq_refl eq_refl eq_refl)
    as (r' & Hr' & Hok & _).
  exists r'. split; [exact Hr'|]. apply Hok.
  intros [|[|[|i]]] Hi; [| | |lia].
  - exists [3; 0; 0]. split; [apply list_elem_of_In; simpl; tauto|reflexivity].
  - exists [0; 120; 0]. split; [apply list_elem_of_In; simpl; tauto|reflexivity].
  - exists [0; 0; 9]. split; [apply list_elem_of_In; simpl; tauto|reflexivity].
Defined.

(** ** The tester's answers *)

(** The devices the tester answers for, by step. *)
Definition answered_devices (step : Z) : list nat :=
  if step =? TEST_LEDS then [LED_1; LED_2]
  else if step =? TEST_SOUNDS then [SOUNDS]
  else if step =? TEST_DIGITAL_IO_PORTS then [D_INPUT; D_OUTPUT]
  else [].

(** A step at which the tester is asked. *)
Definition asks_tester (step : Z) : Prop :=
  step = TEST_LEDS \/ step = TEST_SOUNDS \/ step = TEST_DIGITAL_IO_PORTS.

(** Evaluate the comparisons of constants in the goal. *)
Ltac eqb_consts :=
  repeat match goal with
         | |- context [Z.eqb ?a ?b] =>
             let v := eval vm_compute in (Z.eqb a b) in
             match v with
             | true => change (Z.eqb a b) with true
             | false => change (Z.eqb a b) with false
             end
         end.

Lemma answer_given (button : Z) (s : QNode) (r : Robot.t) :
  under_test s = Some r -> wf r -> asks_tester (current_step s) ->
  answer_req s = true -> button = Msg.Button0 \/ button = Msg.Button2 ->
  exists r',
    buttonEventCB button Msg.RELEASED s
    = next_step
        (hideUserMsg
           (set_answer_req false
              (log (if button =? Msg.Button0 then Info else Warn)
                   (if button =? Msg.Button0 then "%s evaluation completed"
                    else "%s didn't pass the test")
                   (set_under_test (Some r') s))))
    /\ (forall d, d ∈ answered_devices (current_step s) ->
          Robot.ok r' d = (button =? Msg.Button0))
    /\ (forall d, d ∉ answered_devices (current_step s) ->
          Robot.ok r' d = Robot.ok r d)
    /\ (forall d, Robot.val r' d = Robot.val r d).
Proof.
  intros Hr Hwf Hstep Hans Hb. unfold buttonEventCB. rewrite Hr, Hans.
  unfold answered_devices.
  destruct Hb as [-> | ->]; destruct Hstep as [E|[E|E]]; rewrite E;
    eqb_consts; cbn [orb andb];
    (eexists; split; [reflexivity|]);
    (split; [|split; [|intros d; reflexivity]]); intros d Hd.
  all: try (apply list_elem_of_singleton in Hd as ->;
            apply ok_set_ok_eq; [cbv; lia|by repeat apply wf_set_ok]).
  all: try (apply elem_of_cons in Hd as [->|Hd];
            [rewrite ?ok_set_ok_ne by (cbv; lia);
             apply ok_set_ok_eq; [cbv; lia|done]|]).
  all: try (apply list_elem_of_singleton in Hd as ->;
            apply ok_set_ok_eq; [cbv; lia|by repeat apply wf_set_ok]).
  all: rewrite !ok_set_ok_ne; try done;
    intros <-; apply Hd; apply list_elem_of_In; simpl; tauto.
Qed.

Lemma answer_other_button (button : Z) (s : QNode) (r : Robot.t) :
  under_test s = Some r -> asks_tester (current_step s) ->
  answer_req s = true -> button <> Msg.Button0 -> button <> Msg.Button2 ->
  buttonEventCB button Msg.RELEASED s = s.
Proof.
  intros Hr Hstep Hans H0 H2. unfold buttonEventCB. rewrite Hr, Hans.
  apply Z.eqb_neq in H0, H2. rewrite H0, H2.
  by destruct Hstep as [E|[E|E]]; rewrite E.
Qed.

Lemma answer_not_taken (button state : Z) (s : QNode) (r : Robot.t) :
  under_test s = Some r -> asks_tester (current_step s) ->
  answer_req s = false \/ state <> Msg.RELEASED ->
  buttonEventCB button state s
  = if Robot.buttons_ok r then s
    else log Debug "Button %d %s; ignoring" s.
Proof.
  intros Hr Hstep Hno. unfold buttonEventCB. rewrite Hr.
  assert (Hc : answer_req s && (state =? Msg.RELEASED) = false).
  { destruct Hno as [-> | Hst]; [done|].
    apply Z.eqb_neq in Hst. rewrite Hst. apply andb_false_r. }
  rewrite <- andb_assoc, Hc, andb_false_r.
  destruct (Robot.buttons_ok r); [done|].
  by destruct Hstep as [E|[E|E]]; rewrite E.
Qed.

(** X15.  The tester's answer.  At a step where the tester is asked (LEDs,
    sounds, digital I/O), with a unit under test: (1) once the answer is
    requested, releasing the left button (0) marks the devices of the step
    verified and releasing the right button (2) marks them not verified,
    whatever they were; either way one line is logged (info or warning),
    the request is withdrawn, the prompt is hidden and the step advances by
    one, and no other flag and no value changes; (2) the release of any
    other button is ignored altogether; (3) while no answer is requested,
    or for a press, the event decides nothing: the node is left as it is,
    but for a debug line when the buttons are not all verified. *)
Theorem tester_answer (button state : Z) (s : QNode) (r : Robot.t) :
  under_test s = Some r -> wf r -> asks_tester (current_step s) ->
  (answer_req s = true -> state = Msg.RELEASED ->
   button = Msg.Button0 \/ button = Msg.Button2 ->
   exists r',
     buttonEventCB button state s
     = next_step
         (hideUserMsg
            (set_answer_req false
               (log (if button =? Msg.Button0 then Info else Warn)
                    (if button =? Msg.Button0 then "%s evaluation completed"
                     else "%s didn't pass the test")
                    (set_under_test (Some r') s))))
     /\ (forall d, d ∈ answered_devices (current_step s) ->
           Robot.ok r' d = (button =? Msg.Button0))
     /\ (forall d, d ∉ answered_devices (current_step s) ->
           Robot.ok r' d = Robot.ok r d)
     /\ (forall d, Robot.val r' d = Robot.val r d))
  /\ (answer_req s = true -> state = Msg.RELEASED ->
      button <> Msg.Button0 -> button <> Msg.Button2 ->
      buttonEventCB button state s = s)
  /\ (answer_req s = false \/ state <> Msg.RELEASED ->
      buttonEventCB button state s
      = if Robot.buttons_ok r then s
        else log Debug "Button %d %s; ignoring" s).
Proof.
  intros Hr Hwf Hstep. split; [|split].
  - intros Hans -> Hb. by apply answer_given.
  - intros Hans -> H0 H2. by apply (answer_other_button button s r).
  - by apply answer_not_taken.
Qed.

(** The LED demonstration has been shown and the answer is awaited. *)
Definition awaiting_answer (step : Z) : QNode :=
  set_answer_req true (fresh_at step).

Lemma tester_answer_witness :
  exists r',
    current_step (buttonEventCB Msg.Button2 Msg.RELEASED
                    (awaiting_answer TEST_LEDS)) = TEST_SOUNDS
    /\ under_test (buttonEventCB Msg.Button2 Msg.RELEASED
                     (awaiting_answer TEST_LEDS)) = Some r'
    /\ Robot.ok r' LED_1 = false /\ Robot.ok r' LED_2 = false.
Proof.
  destruct (proj1 (tester_answer Msg.Button2 Msg.RELEASED
                     (awaiting_answer TEST_LEDS) (Robot.new 0)
                     eq_refl (wf_new 0) (or_introl eq_refl))
              eq_refl eq_refl (or_intror eq_refl))
    as (r' & E & Hd & _).
  exists r'. rewrite E. split; [reflexivity|]. split; [reflexivity|].
  split; apply Hd; apply list_elem_of_In; simpl; tauto.
Defined.

(** ** A family completes, the step advances *)

Lemma wDrop_advance (wheel state : Z) (s : QNode) (r : Robot.t) :
  under_test s = Some r ->
  exists r', under_test (wDropEventCB wheel state s) = Some r'
    /\ current_step (wDropEventCB wheel state s)
       = if negb (Robot.w_drop_ok r) && Robot.w_drop_ok r'
         then current_step s + 1 else current_step s.
Proof.
  intros Hr. unfold wDropEventCB. rewrite Hr.
  destruct (negb (current_step s =? TEST_WHEEL_DROP_SENSORS));
    [exists r; split; [done|]; by destruct (Robot.w_drop_ok r)|].
  set (dev := if wheel =? Msg.WHEEL_LEFT then W_DROP_L else W_DROP_R).
  assert (Hdev : dev = W_DROP_L \/ dev = W_DROP_R)
    by (subst dev; destruct (_ =? _); auto).
  destruct (Robot.ok r dev) eqn:Hok;
    [exists r; split; [done|]; by destruct (Robot.w_drop_ok r)|].
  assert (Hno : Robot.w_drop_ok r = false).
  { unfold Robot.w_drop_ok. destruct Hdev as [E|E]; rewrite E in Hok;
      rewrite Hok; [done|apply andb_false_r]. }
  rewrite Hno. cbn [negb andb].
  destruct (parity_match _ _ _);
    [|exists r; split; [done|]; cbn; by rewrite Hno].
  set (r1 := Robot.set_val dev (Robot.val r dev + 1) r).
  assert (Hok1 : forall d, Robot.ok r1 d = Robot.ok r d) by done.
  destruct (Robot.val r1 dev >=? WHEEL_DROP_TESTS * 2).
  - exists (Robot.set_ok dev true r1).
    cbn -[Robot.set_ok Robot.w_drop_ok].
    by destruct (Robot.w_drop_ok (Robot.set_ok dev true r1)).
  - exists r1. cbn -[Robot.w_drop_ok]. split; [done|].
    unfold Robot.w_drop_ok. by rewrite !Hok1, (Hno : Robot.ok r _ && _ = _).
Qed.

Lemma cliff_advance (sensor state : Z) (s : QNode) (r : Robot.t) :
  under_test s = Some r ->
  exists r', under_test (cliffEventCB sensor state s) = Some r'
    /\ current_step (cliffEventCB sensor state s)
       = if negb (Robot.cliffs_ok r) && Robot.cliffs_ok r'
         then current_step s + 1 else current_step s.
Proof.
  intros Hr. unfold cliffEventCB. rewrite Hr.
  destruct (negb (current_step s =? TEST_CLIFF_SENSORS));
    [exists r; split; [done|]; by destruct (Robot.cliffs_ok r)|].
  set (dev := if sensor =? Msg.LEFT then CLIFF_L
              else if sensor =? Msg.RIGHT then CLIFF_R else CLIFF_C).
  assert (Hdev : dev = CLIFF_L \/ dev = CLIFF_C \/ dev = CLIFF_R)
    by (subst dev; repeat destruct (_ =? _); auto).
  destruct (Robot.ok r dev) eqn:Hok;
    [exists r; split; [done|]; by destruct (Robot.cliffs_ok r)|].
  assert (Hno : Robot.cliffs_ok r = false).
  { unfold Robot.cliffs_ok. destruct Hdev as [E|[E|E]]; rewrite E in Hok;
      rewrite Hok; [done| |]; by rewrite ?andb_false_r. }
  rewrite Hno. cbn [negb andb].
  destruct (parity_match _ _ _);
    [|exists r; split; [done|]; cbn; by rewrite Hno].
  set (r1 := Robot.set_val dev (Robot.val r dev + 1) r).
  assert (Hok1 : forall d, Robot.ok r1 d = Robot.ok r d) by done.
  destruct (Robot.val r1 dev >=? CLIFF_SENSOR_TESTS * 2).
  - exists (Robot.set_ok dev true r1).
    cbn -[Robot.set_ok Robot.cliffs_ok].
    by destruct (Robot.cliffs_ok (Robot.set_ok dev true r1)).
  - exists r1. cbn -[Robot.cliffs_ok]. split; [done|].
    unfold Robot.cliffs_ok. rewrite !Hok1.
    by rewrite (Hno : Robot.ok r _ && _ && _ = _).
Qed.

Lemma power_advance (event : Z) (s : QNode) (r : Robot.t) :
  under_test s = Some r -> wf r ->
  current_step s = TEST_DC_ADAPTER \/ current_step s = TEST_DOCKING_BASE ->
  let dev := if current_step s =? TEST_DC_ADAPTER then PWR_JACK else PWR_DOCK in
  exists r', under_test (powerEventCB event s) = Some r'
    /\ current_step (powerEventCB event s)
       = if negb (Robot.ok r dev) && Robot.ok r' dev
         then current_step s + 1 else current_step s.
Proof.
  intros Hr Hwf Hstep dev. unfold powerEventCB. rewrite Hr.
  assert (Hdev : (dev < DEVICES_COUNT)%nat)
    by (subst dev; destruct (_ =? _); cbv; lia).
  destruct (Robot.pwr_src_ok r) eqn:Hall.
  { exists r. split; [done|].
    unfold Robot.pwr_src_ok in Hall. apply andb_true_iff in Hall as [H1 H2].
    subst dev. destruct (_ =? _); by rewrite ?H1, ?H2. }
  assert (Hin : negb (current_step s =? TEST_DC_ADAPTER)
                && negb (current_step s =? TEST_DOCKING_BASE) = false)
    by (destruct Hstep as [-> | ->]; reflexivity).
  rewrite Hin. fold dev.
  destruct (Robot.ok r dev) eqn:Hok; [by exists r|].
  cbn [negb andb].
  destruct (parity_match _ _ _);
    [|exists r; split; [done|]; cbn; by rewrite Hok].
  set (r1 := Robot.set_val dev (Robot.val r dev + 1) r).
  destruct (Robot.val r1 dev >=? POWER_PLUG_TESTS * 2).
  - exists (Robot.set_ok dev true r1). cbn -[Robot.set_ok].
    split; [done|].
    rewrite ok_set_ok_eq; [done|done|by apply wf_set_val].
  - exists r1. cbn. split; [done|].
    by rewrite (Hok : Robot.ok r1 dev = false).
Qed.

(** X16.  A family completes, the step advances.  With a unit under test:
    a wheel-drop event advances the step by one exactly when it makes both
    wheel-drop sensors verified, a cliff event exactly when it makes the
    three cliff sensors verified, and, at a power-plug step, a power event
    exactly when it makes that step's source (adapter, docking base)
    verified; any other event of the three kinds leaves the step. *)
Theorem family_completion_advances (s : QNode) (r : Robot.t) :
  under_test s = Some r -> wf r ->
  (forall wheel state,
     exists r', under_test (wDropEventCB wheel state s) = Some r'
       /\ current_step (wDropEventCB wheel state s)
          = if negb (Robot.w_drop_ok r) && Robot.w_drop_ok r'
            then current_step s + 1 else current_step s)
  /\ (forall sensor state,
        exists r', under_test (cliffEventCB sensor state s) = Some r'
          /\ current_step (cliffEventCB sensor state s)
             = if negb (Robot.cliffs_ok r) && Robot.cliffs_ok r'
               then current_step s + 1 else current_step s)
  /\ (forall event,
        current_step s = TEST_DC_ADAPTER \/ current_step s = TEST_DOCKING_BASE ->
        let dev := if current_step s =? TEST_DC_ADAPTER
                   then PWR_JACK else PWR_DOCK in
        exists r', under_test (powerEventCB event s) = Some r'
          /\ current_step (powerEventCB event s)
             = if negb (Robot.ok r dev) && Robot.ok r' dev
               then current_step s + 1 else current_step s).
Proof.
  intros Hr Hwf. split; [|split].
  - intros wheel state. by apply wDrop_advance.
  - intros sensor state. by apply cliff_advance.
  - intros event Hstep. by apply power_advance.
Qed.

Lemma family_completion_advances_witness :
  exists r',
    under_test (powerEventCB Msg.UNPLUGGED
                  (powerEventCB Msg.PLUGGED_TO_ADAPTER
                     (fresh_at TEST_DC_ADAPTER))) = Some r'
    /\ current_step (powerEventCB Msg.UNPLUGGED
                       (powerEventCB Msg.PLUGGED_TO_ADAPTER
                          (fresh_at TEST_DC_ADAPTER)))
       = TEST_DOCKING_BASE.
Proof.
  destruct (proj2 (proj2 (family_completion_advances
              (powerEventCB Msg.PLUGGED_TO_ADAPTER (fresh_at TEST_DC_ADAPTER))
              (Robot.set_val PWR_JACK 1 (Robot.new 0)) eq_refl
              ltac:(split; reflexivity)))
              Msg.UNPLUGGED (or_introl eq_refl))
    as (r' & Hr' & Hstep).
  exists r'. split; [exact Hr'|]. rewrite Hstep.
  vm_compute in Hr'. injection Hr' as <-. reflexivity.
Defined.

(** X17.  Power events at other steps.  With a unit under test whose power
    sources are not both verified, at a step that is not a power-plug step,
    a power event changes nothing of the record or of the sequencer:
    "charge completed", "battery low" and "battery critical" pass in
    silence, any other event is logged as a warning.  Once both sources are
    verified every power event is dropped in silence, at any step. *)
Theorem power_events_elsewhere (event : Z) (s : QNode) (r : Robot.t) :
  under_test s = Some r ->
  (Robot.pwr_src_ok r = false ->
   current_step s <> TEST_DC_ADAPTER -> current_step s <> TEST_DOCKING_BASE ->
   powerEventCB event s
   = if bool_decide (event ∈ [Msg.CHARGE_COMPLETED; Msg.BATTERY_LOW;
                              Msg.BATTERY_CRITICAL])
     then s
     else log Warn "Power event %d while current step is %d" s)
  /\ (Robot.pwr_src_ok r = true -> powerEventCB event s = s).
Proof.
  intros Hr. unfold powerEventCB. rewrite Hr. split.
  - intros -> H1 H2. apply Z.eqb_neq in H1, H2. rewrite H1, H2. cbn [negb andb].
    case_bool_decide as Hin.
    + repeat (apply elem_of_cons in Hin as [->|Hin]); try done.
      by apply elem_of_nil in Hin.
    + destruct (Z.eqb_spec event Msg.CHARGE_COMPLETED) as [->|];
        [destruct Hin; apply list_elem_of_In; simpl; tauto|].
      destruct (Z.eqb_spec event Msg.BATTERY_LOW) as [->|];
        [destruct Hin; apply list_elem_of_In; simpl; tauto|].
      destruct (Z.eqb_spec event Msg.BATTERY_CRITICAL) as [->|];
        [destruct Hin; apply list_elem_of_In; simpl; tauto|].
      done.
  - by intros ->.
Qed.

Lemma power_events_elsewhere_witness :
  powerEventCB Msg.BATTERY_LOW (fresh_at TEST_LEDS) = fresh_at TEST_LEDS.
Proof.
  exact (proj1 (power_events_elsewhere Msg.BATTERY_LOW (fresh_at TEST_LEDS)
                  (Robot.new 0) eq_refl)
           eq_refl ltac:(discriminate) ltac:(discriminate)).
Defined.

(** ** The digital inputs *)

Lemma inputEvent_unfold (values : list bool) (s : QNode) (r : Robot.t) :
  under_test s = Some r -> current_step s = TEST_DIGITAL_IO_PORTS ->
  Robot.ok r D_INPUT = false ->
  inputEventCB values s
  = match first_false 0 values with
    | Some i =>
        emit (DigitalOutput (<[i:=true]> no_bits) (<[i:=true]> no_bits))
          (set_under_test
             (Some (Robot.set_val D_INPUT
                      (Z.lor (Robot.val r D_INPUT) (2 ^ Z.of_nat i)) r)) s)
    | None =>
        (if Robot.val r D_INPUT =? 15
         then fun s =>
                set_answer_req true
                  (showUserMsg Info "Digital I/O test"
                     "Press left function button if LEDs blinked as expected or right otherwise" s)
         else id)
          (emit (DigitalOutput no_bits all_bits) s)
    end.
Proof.
  intros Hr Hstep Hok. unfold inputEventCB. rewrite Hr, Hstep, Hok.
  cbn [Z.eqb negb orb]. change (TEST_DIGITAL_IO_PORTS =? TEST_DIGITAL_IO_PORTS) with true.
  cbn [negb orb].
  destruct (first_false 0 values); [done|].
  by destruct (Robot.val r D_INPUT =? 15).
Qed.

(** The first [false] is the lowest index holding one. *)
Lemma first_false_spec (values : list bool) (k : nat) :
  match first_false k values with
  | Some i =>
      (k <= i)%nat /\ values !! (i - k)%nat = Some false
      /\ forall j, (j < i - k)%nat -> values !! j = Some true
  | None => Forall (fun b => b = true) values
  end.
Proof.
  revert k. induction values as [|b values IH]; intros k; simpl; [done|].
  destruct b.
  - specialize (IH (S k)). destruct (first_false (S k) values) as [i|].
    + destruct IH as (Hle & Hi & Hlow). split; [lia|].
      replace (i - k)%nat with (S (i - S k)) by lia. split; [done|].
      intros [|j] Hj; [done|]. simpl. apply Hlow. lia.
    + by constructor.
  - split; [lia|]. rewrite Nat.sub_diag. split; [done|]. intros j Hj. lia.
Qed.

(** X18.  One digital-input event (four inputs) at the digital I/O step,
    the inputs not yet verified.  An input reads [false] when its button is pressed.
    (1) When some input is pressed, only the lowest-numbered pressed input
    [i] is taken: bit [i] is set in the mask kept in
    [device_val[D_INPUT]], and one command is published that switches on
    output [i] alone; nothing else changes.  (2) When none is pressed, one
    command is published that switches the four outputs off; the tester is
    asked for the verdict, and the answer is requested, exactly when the
    mask is [0b1111]; the record does not change.  (3) At any other step,
    or once the inputs are verified, the event is ignored. *)
Theorem digital_input_event (values : list bool) (s : QNode) (r : Robot.t) :
  length values = 4%nat -> under_test s = Some r ->
  (current_step s = TEST_DIGITAL_IO_PORTS -> Robot.ok r D_INPUT = false ->
   forall i, values !! i = Some false ->
     (forall j, (j < i)%nat -> values !! j = Some true) ->
     inputEventCB values s
     = emit (DigitalOutput (<[i:=true]> no_bits) (<[i:=true]> no_bits))
         (set_under_test
            (Some (Robot.set_val D_INPUT
                     (Z.lor (Robot.val r D_INPUT) (2 ^ Z.of_nat i)) r)) s))
  /\ (current_step s = TEST_DIGITAL_IO_PORTS -> Robot.ok r D_INPUT = false ->
      Forall (fun b => b = true) values ->
      inputEventCB values s
      = (if Robot.val r D_INPUT =? 15
         then fun s =>
                set_answer_req true
                  (showUserMsg Info "Digital I/O test"
                     "Press left function button if LEDs blinked as expected or right otherwise" s)
         else id)
          (emit (DigitalOutput no_bits all_bits) s))
  /\ (current_step s <> TEST_DIGITAL_IO_PORTS \/ Robot.ok r D_INPUT = true ->
      inputEventCB values s = s).
Proof.
  intros _ Hr. split; [|split].
  - intros Hstep Hok i Hi Hlow.
    rewrite (inputEvent_unfold values s r Hr Hstep Hok).
    pose proof (first_false_spec values 0) as H.
    destruct (first_false 0 values) as [i'|].
    + destruct H as (_ & Hi' & Hlow'). rewrite Nat.sub_0_r in Hi', Hlow'.
      assert (i' = i); [|by subst].
      destruct (Nat.lt_trichotomy i' i) as [Hlt|[Heq|Hgt]]; [|done|].
      * specialize (Hlow i' Hlt). congruence.
      * specialize (Hlow' i Hgt). congruence.
    + rewrite Forall_lookup in H. specialize (H i false Hi). done.
  - intros Hstep Hok Hall.
    rewrite (inputEvent_unfold values s r Hr Hstep Hok).
    pose proof (first_false_spec values 0) as H.
    destruct (first_false 0 values) as [i'|]; [|done].
    destruct H as (_ & Hi' & _). rewrite Forall_lookup in Hall.
    specialize (Hall _ _ Hi'). done.
  - intros H. unfold inputEventCB. rewrite Hr.
    destruct H as [H|H].
    + apply Z.eqb_neq in H. by rewrite H.
    + rewrite H. by rewrite orb_true_r.
Qed.

Lemma digital_input_event_witness :
  inputEventCB [true; false; false; true] (fresh_at TEST_DIGITAL_IO_PORTS)
  = emit (DigitalOutput [false; true; false; false] [false; true; false; false])
      (set_under_test
         (Some (Robot.set_val D_INPUT 2 (Robot.new 0)))
         (fresh_at TEST_DIGITAL_IO_PORTS)).
Proof.
  apply (proj1 (digital_input_event [true; false; false; true]
                  (fresh_at TEST_DIGITAL_IO_PORTS) (Robot.new 0)
                  eq_refl eq_refl)
           eq_refl eq_refl 1%nat eq_refl).
  intros [|j] Hj; [reflexivity|lia].
Defined.

(** Input [i] pressed, the others released; and all released. *)
Definition pressed (i : nat) : list bool := <[i:=false]> all_bits.
Definition released : list bool := all_bits.

(** The mask after inputs [l] have been pressed, one at a time. *)
Definition mask_of (v : Z) (l : list nat) : Z :=
  foldl (fun v i => Z.lor v (2 ^ Z.of_nat i)) v l.

Lemma first_false_pressed (i : nat) :
  (i < 4)%nat -> first_false 0 (pressed i) = Some i.
Proof. intros Hi. by destruct i as [|[|[|[|i]]]]; [| | | |lia]. Qed.

Lemma presses_mask (l : list nat) (s : QNode) (r : Robot.t) :
  under_test s = Some r -> wf r ->
  current_step s = TEST_DIGITAL_IO_PORTS -> Robot.ok r D_INPUT = false ->
  Forall (fun i => (i < 4)%nat) l ->
  exists r',
    under_test (spin (EvInput <$> (pressed <$> l)) s) = Some r' /\ wf r'
    /\ Robot.val r' D_INPUT = mask_of (Robot.val r D_INPUT) l
    /\ (forall d, Robot.ok r' d = Robot.ok r d)
    /\ current_step (spin (EvInput <$> (pressed <$> l)) s) = current_step s
    /\ answer_req (spin (EvInput <$> (pressed <$> l)) s) = answer_req s.
Proof.
  intros Hr Hwf Hstep Hok Hl. revert s r Hr Hwf Hstep Hok.
  induction Hl as [|i l Hi _ IH]; intros s r Hr Hwf Hstep Hok.
  - exists r. split; [done|]. split; [done|]. by repeat split.
  - cbn [fmap list_fmap]. unfold spin; cbn [foldl onEvent].
    rewrite (inputEvent_unfold (pressed i) s r Hr Hstep Hok).
    rewrite (first_false_pressed i Hi).
    set (r1 := Robot.set_val D_INPUT _ r).
    set (s1 := emit _ (set_under_test (Some r1) s)).
    destruct (IH s1 r1 eq_refl (wf_set_val _ _ _ Hwf) Hstep Hok)
      as (r' & Hr' & Hwf' & Hv & Hok' & Hs & Ha).
    exists r'. fold (spin (EvInput <$> (pressed <$> l)) s1).
    split; [done|]. split; [done|]. split.
    { rewrite Hv. subst r1. rewrite val_set_val_eq; [done|cbv; lia|done]. }
    split; [by intros d; rewrite Hok'|]. by split.
Qed.

Lemma mask_of_bits (l : list nat) (v : Z) (j : nat) :
  Z.testbit (mask_of v l) (Z.of_nat j)
  = Z.testbit v (Z.of_nat j) || bool_decide (j ∈ l).
Proof.
  revert v. induction l as [|i l IH]; intros v; cbn [mask_of foldl].
  - rewrite bool_decide_eq_false_2 by apply not_elem_of_nil.
    by rewrite orb_false_r.
  - fold (mask_of (Z.lor v (2 ^ Z.of_nat i)) l). rewrite IH.
    rewrite Z.lor_spec, Z.pow2_bits_eqb by lia.
    destruct (decide (i = j)) as [->|Hne].
    + rewrite Z.eqb_refl.
      rewrite (bool_decide_eq_true_2 (j ∈ j :: l)) by apply list_elem_of_here.
      by rewrite !orb_true_r.
    + assert (E : (Z.of_nat i =? Z.of_nat j) = false)
        by (apply Z.eqb_neq; lia).
      rewrite E, orb_false_r. f_equal.
      apply bool_decide_ext. rewrite elem_of_cons.
      split; [by right|]. by intros [->|H].
Qed.

Lemma mask_complete (l : list nat) :
  Forall (fun i => (i < 4)%nat) l ->
  mask_of 0 l = 15 <-> forall i, (i < 4)%nat -> i ∈ l.
Proof.
  intros Hl. split.
  - intros E i Hi.
    pose proof (mask_of_bits l 0 i) as H. rewrite E, Z.bits_0 in H.
    cbn [orb] in H.
    assert (H15 : Z.testbit 15 (Z.of_nat i) = true)
      by (destruct i as [|[|[|[|i]]]]; [done|done|done|done|lia]).
    rewrite H15 in H. symmetry in H. by apply bool_decide_eq_true in H.
  - intros Hall. apply Z.bits_inj'. intros n Hn.
    rewrite <- (Z2Nat.id n Hn). rewrite mask_of_bits, Z.bits_0. cbn [orb].
    destruct (decide (Z.to_nat n < 4)%nat) as [Hlt|Hge].
    + rewrite bool_decide_eq_true_2 by by apply Hall.
      by destruct (Z.to_nat n) as [|[|[|[|i]]]]; [| | | |lia].
    + rewrite bool_decide_eq_false_2.
      * change 15 with (Z.ones 4). rewrite Z.ones_spec_high; [done|lia].
      * intros Hin. rewrite Forall_forall in Hl. apply Hge, Hl. done.
Qed.

(** X19.  The digital I/O test as a whole.  The step is entered with the
    mask at zero and no answer requested; the tester presses any inputs,
    one at a time, in any order and any number of times, and then lets
    go.  The tester is asked for the verdict, and the answer is requested,
    exactly when each of the four inputs has been pressed at least once;
    until then the sequencer stays at the step with no answer requested,
    and no verified flag changes. *)
Theorem digital_inputs_all_pressed (l : list nat) (s : QNode) (r : Robot.t) :
  under_test s = Some r -> wf r ->
  current_step s = TEST_DIGITAL_IO_PORTS -> Robot.ok r D_INPUT = false ->
  Robot.val r D_INPUT = 0 -> answer_req s = false ->
  Forall (fun i => (i < 4)%nat) l ->
  let s1 := spin (EvInput <$> (pressed <$> l)) s in
  let s2 := inputEventCB released s1 in
  (answer_req s2 = true <-> forall i, (i < 4)%nat -> i ∈ l)
  /\ (head (trace s2)
      = Some (ShowUserMsg Info "Digital I/O test"
                "Press left function button if LEDs blinked as expected or right otherwise")
      <-> forall i, (i < 4)%nat -> i ∈ l)
  /\ answer_req s1 = false
  /\ current_step s2 = TEST_DIGITAL_IO_PORTS
  /\ exists r', under_test s2 = Some r'
       /\ forall d, Robot.ok r' d = Robot.ok r d.
Proof.
  intros Hr Hwf Hstep Hok Hv Hans Hl s1 s2.
  destruct (presses_mask l s r Hr Hwf Hstep Hok Hl)
    as (r1 & Hr1 & Hwf1 & Hv1 & Hok1 & Hs1 & Ha1).
  fold s1 in Hr1, Hs1, Ha1. rewrite Hstep in Hs1. rewrite Hans in Ha1.
  assert (E2 : s2 = (if Robot.val r1 D_INPUT =? 15
                     then fun s => set_answer_req true
                            (showUserMsg Info "Digital I/O test"
                               "Press left function button if LEDs blinked as expected or right otherwise" s)
                     else id) (emit (DigitalOutput no_bits all_bits) s1)).
  { subst s2. rewrite (inputEvent_unfold released s1 r1 Hr1 Hs1);
      [done|by rewrite Hok1]. }
  rewrite Hv1, Hv in E2.
  pose proof (mask_complete l Hl) as Hm.
  destruct (Z.eqb_spec (mask_of 0 l) 15) as [E|E]; rewrite E2; cbn.
  - rewrite <- Hm. split; [done|]. split; [done|]. split; [done|].
    split; [done|]. exists r1. by rewrite Hr1.
  - rewrite <- Hm, Ha1. split; [done|]. split; [by split; [intros [=]|]|].
    split; [done|]. split; [done|]. exists r1. by rewrite Hr1.
Qed.

Lemma digital_inputs_all_pressed_witness :
  answer_req
    (inputEventCB released
       (spin (EvInput <$> (pressed <$> [2; 0; 3; 0; 1]%nat))
          (fresh_at TEST_DIGITAL_IO_PORTS))) = true.
Proof.
  apply (proj1 (digital_inputs_all_pressed [2; 0; 3; 0; 1]%nat
                  (fresh_at TEST_DIGITAL_IO_PORTS) (Robot.new 0)
                  eq_refl (wf_new 0) eq_refl eq_refl eq_refl eq_refl
                  ltac:(repeat constructor; lia))).
  intros i Hi. apply list_elem_of_In.
  destruct i as [|[|[|[|i]]]]; simpl; try tauto. lia.
Defined.

(** ** Health state and diagnostics *)

Lemma robotStatus_unfold (level : Z) (s : QNode) (r : Robot.t) :
  under_test s = Some r ->
  robotStatusCB level s
  = if Robot.state r =? Robot.OK then s
    else
      let s1 := set_under_test (Some (Robot.set_state level r)) s in
      if level =? Msg.DIAG_OK
      then log Info "Robot %s diagnostics received with OK status" s1
      else
        (if (0 <? String.length (Robot.diagnostics r))%nat
         then log Warn "Full diagnostics:\n%s" else id)
          (log Warn "Robot %s diagnostics received with %s status" s1).
Proof.
  intros Hr. unfold robotStatusCB. rewrite Hr.
  destruct (Robot.state r =? Robot.OK); [done|].
  destruct (level =? Msg.DIAG_OK); [done|]. cbv zeta.
  cbn [Robot.diagnostics Robot.set_state].
  by destruct (0 <? String.length (Robot.diagnostics r))%nat.
Qed.

Lemma last_nonempty (l : list Z) (a b d d' : Z) :
  List.last (a :: l) d = List.last (b :: a :: l) d'.
Proof.
  cbn [List.last]. revert a. induction l as [|c l IH]; intros a; [done|].
  cbn [List.last] in *. apply IH.
Qed.

(** The health state after a run of status messages. *)
Lemma status_run (levels : list Z) (s : QNode) (r : Robot.t) :
  under_test s = Some r ->
  exists r',
    under_test (spin (EvRobotStatus <$> levels) s) = Some r'
    /\ (Robot.state r' = Robot.OK <->
        Robot.state r = Robot.OK \/ Msg.DIAG_OK ∈ levels)
    /\ (Robot.state r <> Robot.OK -> Msg.DIAG_OK ∉ levels ->
        Robot.state r' = List.last levels (Robot.state r))
    /\ (forall d, Robot.ok r' d = Robot.ok r d
                  /\ Robot.val r' d = Robot.val r d)
    /\ current_step (spin (EvRobotStatus <$> levels) s) = current_step s.
Proof.
  revert s r. induction levels as [|lv levels IH]; intros s r Hr.
  - exists r. split; [done|]. split.
    + split; [by left|]. intros [H|H]; [done|by apply elem_of_nil in H].
    + by repeat split.
  - cbn [fmap list_fmap]. unfold spin; cbn [foldl onEvent].
    fold (spin (EvRobotStatus <$> levels) (robotStatusCB lv s)).
    rewrite (robotStatus_unfold lv s r Hr).
    destruct (Z.eqb_spec (Robot.state r) Robot.OK) as [Hok|Hno].
    + destruct (IH s r Hr) as (r' & Hr' & Hst & _ & Hfr & Hstep).
      exists r'. split; [done|]. split; [|by split].
      split; [by left|]. intros _. apply Hst. by left.
    + cbv zeta. set (r1 := Robot.set_state lv r).
      assert (Hst1 : Robot.state r1 = lv) by done.
      assert (Hfr1 : forall d, Robot.ok r1 d = Robot.ok r d
                               /\ Robot.val r1 d = Robot.val r d) by done.
      clearbody r1.
      destruct (lv =? Msg.DIAG_OK);
        [|destruct (0 <? String.length (Robot.diagnostics r))%nat];
        match goal with
        | |- context [spin _ ?s1] =>
            destruct (IH s1 r1 eq_refl)
              as (r' & Hr' & Hst & Hlast & Hfr & Hstep)
        end;
        (exists r'; split; [done|]; split; [|split; [|split]];
         [ rewrite Hst, Hst1, elem_of_cons;
           unfold Msg.DIAG_OK, Robot.OK in *;
           split; [intros [->|H]; right; auto|];
           intros [H|[<-|H]]; [done|by left|by right]
         | intros _ Hnot; apply not_elem_of_cons in Hnot as [Hlv Hnot];
           unfold Msg.DIAG_OK, Robot.OK in *;
           rewrite Hlast by (done || congruence);
           rewrite Hst1; destruct levels; [done|apply last_nonempty]
         | intros d; destruct (Hfr d) as [-> ->]; apply Hfr1
         | by rewrite Hstep ]).
Qed.

(** X20.  The health state latches at OK.  Over any run of status
    messages, with a unit under test: the health state ends at OK exactly
    when it was OK before or some message of the run reports OK; the first
    OK is kept and every later status, warnings and errors included, is
    dropped; before any OK the state follows the last message.  No verified
    flag, no value and not the step change. *)
Theorem health_state_latches (levels : list Z) (s : QNode) (r : Robot.t) :
  under_test s = Some r ->
  (Robot.state r = Robot.OK -> forall level, robotStatusCB level s = s)
  /\ exists r',
       under_test (spin (EvRobotStatus <$> levels) s) = Some r'
       /\ (Robot.state r' = Robot.OK <->
           Robot.state r = Robot.OK \/ Msg.DIAG_OK ∈ levels)
       /\ (Robot.state r <> Robot.OK -> Msg.DIAG_OK ∉ levels ->
           Robot.state r' = List.last levels (Robot.state r))
       /\ (forall d, Robot.ok r' d = Robot.ok r d
                     /\ Robot.val r' d = Robot.val r d)
       /\ current_step (spin (EvRobotStatus <$> levels) s) = current_step s.
Proof.
  intros Hr. split; [|by apply status_run].
  intros Hok level. rewrite (robotStatus_unfold level s r Hr).
  apply Z.eqb_eq in Hok. by rewrite Hok.
Qed.

Lemma health_state_latches_witness :
  exists r',
    under_test (spin (EvRobotStatus <$> [1; 0; 2]) (fresh_at TEST_LEDS))
    = Some r'
    /\ Robot.state r' = Robot.OK.
Proof.
  destruct (proj2 (health_state_latches [1; 0; 2] (fresh_at TEST_LEDS)
                     (Robot.new 0) eq_refl))
    as (r' & Hr' & Hst & _).
  exists r'. split; [exact Hr'|]. apply Hst. right.
  apply list_elem_of_In. simpl. tauto.
Defined.

(** The text of a non-empty diagnostics array is not empty. *)
Lemma diag_text_length (status : list DiagnosticStatus) :
  (0 <? String.length (diag_text status))%nat = negb (bool_decide (status = [])).
Proof. by destruct status. Qed.

(** X21.  Diagnostics and the health report.  (1) A diagnostics message
    replaces the diagnostic text of the record by the text of its status
    array, whatever text was held, and touches nothing else.  (2) When the
    health status (not latched at OK) arrives next: OK is logged at info
    level; any other level is logged as a warning, followed by the full
    diagnostics exactly when the last diagnostics array was not empty. *)
Theorem diagnostics_report (status : list DiagnosticStatus) (level : Z)
  (s : QNode) (r : Robot.t) :
  under_test s = Some r ->
  diagnosticsCB status s
  = set_under_test (Some (Robot.set_diagnostics (diag_text status) r)) s
  /\ (Robot.state r <> Robot.OK ->
      trace (robotStatusCB level (diagnosticsCB status s))
      = ((if level =? Msg.DIAG_OK
          then [Log Info "Robot %s diagnostics received with OK status"]
          else
            (if bool_decide (status = []) then []
             else [Log Warn "Full diagnostics:\n%s"])
            ++ [Log Warn "Robot %s diagnostics received with %s status"])
         ++ trace s)%list).
Proof.
  intros Hr.
  assert (E : diagnosticsCB status s
              = set_under_test
                  (Some (Robot.set_diagnostics (diag_text status) r)) s)
    by (unfold diagnosticsCB; by rewrite Hr).
  split; [exact E|]. intros Hno. rewrite E.
  rewrite (robotStatus_unfold level
             (set_under_test (Some (Robot.set_diagnostics (diag_text status) r)) s)
             (Robot.set_diagnostics (diag_text status) r) eq_refl).
  cbn [Robot.state Robot.set_diagnostics Robot.diagnostics].
  apply Z.eqb_neq in Hno. rewrite Hno. cbv zeta.
  rewrite diag_text_length.
  destruct (level =? Msg.DIAG_OK); [done|].
  by destruct (bool_decide (status = [])).
Qed.

Lemma diagnostics_report_witness :
  trace (robotStatusCB 2
           (diagnosticsCB [mkDiagnosticStatus "Battery" 2 "Low" []]
              (fresh_at TEST_LEDS)))
  = [Log Warn "Full diagnostics:\n%s";
     Log Warn "Robot %s diagnostics received with %s status"].
Proof.
  exact (proj2 (diagnostics_report [mkDiagnosticStatus "Battery" 2 "Low" []] 2
                  (fresh_at TEST_LEDS) (Robot.new 0) eq_refl)
           ltac:(discriminate)).
Defined.

(** ** Unit offline *)

(** X22.  Unit offline.  (1) With a unit under test the record is
    finalized: it is appended to the ledger and to the result file, no unit
    is under test afterwards, the step is left where it was, and two lines
    are logged, the first telling whether every device was verified.
    (2) With no unit under test only a warning is logged; so a second
    "offline" in a row adds nothing to the ledger.  (3) A robot event that
    is neither "online" nor "offline" is only logged as a warning. *)
Theorem unit_offline (s : QNode) :
  (forall r, under_test s = Some r ->
     robotEventCB Msg.OFFLINE s
     = set_under_test None
         (set_evaluated (evaluated s ++ [r])
            (set_out_file (out_file s ++ [r])
               (log Info "Saving results for %s"
                  (log Info
                     (if Robot.all_ok r
                      then "Robot %s evaluation successfully completed"
                      else "Robot %s disconnected without finishing the evaluation")
                     s)))))
  /\ (under_test s = None ->
      robotEventCB Msg.OFFLINE s
      = log Warn "Robot offline event received, but no robot is under evaluation" s)
  /\ evaluated (robotEventCB Msg.OFFLINE (robotEventCB Msg.OFFLINE s))
     = evaluated (robotEventCB Msg.OFFLINE s)
  /\ (forall st, st <> Msg.ONLINE -> st <> Msg.OFFLINE ->
        robotEventCB st s
        = log Warn "Unrecognized robot event received; ignoring" s).
Proof.
  split; [|split; [|split]].
  - intros r Hr. unfold robotEventCB, saveResults; cbn. rewrite Hr.
    destruct (Robot.all_ok r); cbn; by rewrite Hr.
  - intros Hr. unfold robotEventCB; cbn. by rewrite Hr.
  - destruct (robotEvent_offline s) as (_ & _ & Hnone & _).
    destruct (robotEvent_offline (robotEventCB Msg.OFFLINE s)) as (-> & _).
    unfold pending_record. cbv zeta in Hnone. rewrite Hnone.
    apply app_nil_r.
  - intros st. apply robotEvent_other.
Qed.

Lemma unit_offline_witness :
  evaluated (robotEventCB Msg.OFFLINE (fresh_at TEST_LEDS)) = [Robot.new 0].
Proof.
  rewrite (proj1 (unit_offline (fresh_at TEST_LEDS)) (Robot.new 0) eq_refl).
  reflexivity.
Defined.

(** ** The LED and sound demonstrations *)

(** The commands to the LEDs and to the buzzer among the output, newest
    first. *)
Definition shows (o : Output) : bool :=
  match o with
  | Led _ | Sound _ => true
  | _ => false
  end.
Definition shown (s : QNode) : list Output := List.filter shows (trace s).

Lemma shown_move (v w t : Q) (s : QNode) : shown (move v w t s) = shown s.
Proof. unfold move. by destruct (Qltb 0 t). Qed.

Lemma shown_saveResults (s : QNode) : shown (saveResults s) = shown s.
Proof. unfold saveResults. by destruct (under_test s). Qed.

Ltac shown_callback cb :=
  unfold cb;
  match goal with
  | |- context [under_test ?s] => destruct (under_test s) as [?r|]; [|done]
  end;
  split_ifs; rewrite ?shown_move; try reflexivity.

(** No callback commands the LEDs or the buzzer. *)
Lemma shown_onEvent (e : Event) (s : QNode) : shown (onEvent e s) = shown s.
Proof.
  destruct e; simpl.
  - unfold versionInfoCB, versionInfo_adopt.
    destruct (under_test s); [|done]. by split_ifs.
  - shown_callback sensorsCoreCB.
  - shown_callback dockBeaconCB.
  - shown_callback gyroscopeCB.
  - shown_callback buttonEventCB.
  - unfold bumperEventCB. destruct (under_test s) as [r|]; [|done].
    split_ifs; try reflexivity;
      unfold shown, next_step, set_current_step, hideUserMsg, log, emit;
      cbn [trace]; rewrite ?(shown_move : forall v w t s,
        List.filter shows (trace (move v w t s)) = _); reflexivity.
  - shown_callback wDropEventCB.
  - shown_callback cliffEventCB.
  - shown_callback powerEventCB.
  - shown_callback inputEventCB.
  - shown_callback diagnosticsCB.
  - shown_callback robotStatusCB.
  - unfold robotEventCB.
    destruct (state =? Msg.ONLINE); [|destruct (state =? Msg.OFFLINE)].
    + destruct (under_test s) as [r|]; [|done].
      unfold shown; cbn [trace emit set_under_test set_current_step].
      apply (shown_saveResults (log Warn _ s)).
    + destruct (under_test s) as [r|]; [|done].
      destruct (negb (Robot.all_ok r)); apply (shown_saveResults (log Info _ s)).
    + done.
  - destruct (timer s); [|done]. unfold timerEventCB.
    by rewrite shown_move.
Qed.

Lemma shown_spin (batch : list Event) (s : QNode) :
  shown (spin batch s) = shown s.
Proof.
  revert s. induction batch as [|e batch IH]; intros s; [done|].
  unfold spin; simpl. etrans; [apply IH|apply shown_onEvent].
Qed.

(** Each colour is followed by black. *)
Definition blinks (colors : list Z) : list Output :=
  flat_map (fun c => [Led c; Led Msg.LED_BLACK]) colors.

Lemma shown_slept (w : World) : shown (node (slept w)) = shown (node w).
Proof. apply shown_spin. Qed.

Lemma testLeds_loop_shown (first_call : bool) (colors : list Z) (w : World) :
  exists w' k,
    testLeds_loop first_call colors w = Some (tt, w')
    /\ (k <= length colors)%nat
    /\ shown (node w') = (rev (blinks (take k colors)) ++ shown (node w))%list
    /\ (k = length colors \/ current_step (node w') <> TEST_LEDS)
    /\ (batches w = [] -> current_step (node w) = TEST_LEDS ->
        k = length colors /\ batches w' = []
        /\ current_step (node w') = TEST_LEDS
        /\ answer_req (node w') = answer_req (node w)
        /\ under_test (node w') = under_test (node w)).
Proof.
  revert w. induction colors as [|c colors IH]; intros w.
  - exists w, 0%nat. cbn. repeat split; try done. by left.
  - cbn [testLeds_loop]. unfold bind at 1. unfold get at 1.
    destruct (Z.eqb_spec (current_step (node w)) TEST_LEDS) as [Hstep|Hstep].
    + set (w1 := slept (with_node (emit (Led c))
                   (with_node (showUserMsg Info "LEDs test"
                      "You should see both LEDs blinking in green, orange and red alternatively\n%s%s") w))).
      set (w2 := slept (with_node (emit (Led Msg.LED_BLACK)) w1)).
      destruct (IH w2) as (w' & k & E & Hk & Hsh & Hstop & Hq).
      exists w', (S k). split; [exact E|]. split; [cbn; lia|].
      split; [|split].
      * rewrite Hsh. subst w2. rewrite shown_slept.
        transitivity (rev (blinks (take k colors))
                      ++ Led Msg.LED_BLACK :: shown (node w1))%list; [done|].
        subst w1. rewrite shown_slept.
        cbn [take blinks flat_map app rev].
        change (flat_map _ (take k colors)) with (blinks (take k colors)).
        rewrite <- !app_assoc. reflexivity.
      * destruct Hstop as [->|Hne]; [by left|by right].
      * intros Hb _.
        assert (Hw2 : batches w2 = [] /\ current_step (node w2) = TEST_LEDS
                      /\ answer_req (node w2) = answer_req (node w)
                      /\ under_test (node w2) = under_test (node w)).
        { subst w2 w1. unfold slept, with_node; cbn. rewrite Hb. by cbn. }
        destruct Hw2 as (Hb2 & Hs2 & Ha2 & Hu2).
        destruct (Hq Hb2 Hs2) as (-> & Hb' & Hs' & Ha' & Hu').
        repeat split; try done; congruence.
    + exists w, 0%nat. split; [done|]. split; [cbn; lia|].
      split; [done|]. split; [by right|]. intros _ H. done.
Qed.

Lemma testSounds_loop_shown (first_call : bool) (sounds : list Z) (w : World) :
  exists w' k,
    testSounds_loop first_call sounds w = Some (tt, w')
    /\ (k <= length sounds)%nat
    /\ shown (node w')
       = (rev (Sound <$> take k sounds) ++ shown (node w))%list
    /\ (k = length sounds \/ current_step (node w') <> TEST_SOUNDS)
    /\ (batches w = [] -> current_step (node w) = TEST_SOUNDS ->
        k = length sounds /\ batches w' = []
        /\ current_step (node w') = TEST_SOUNDS
        /\ answer_req (node w') = answer_req (node w)
        /\ under_test (node w') = under_test (node w)).
Proof.
  revert w. induction sounds as [|c sounds IH]; intros w.
  - exists w, 0%nat. cbn. repeat split; try done. by left.
  - cbn [testSounds_loop]. unfold bind at 1. unfold get at 1.
    destruct (Z.eqb_spec (current_step (node w)) TEST_SOUNDS) as [Hstep|Hstep].
    + set (w1 := slept (with_node (emit (Sound c))
                   (with_node (showUserMsg Info "Sounds test"
                      "You should hear sounds for 'On', 'Off', 'Recharge', 'Button', 'Error', 'Cleaning Start' and 'Cleaning End' continuously\n%s%s") w))).
      destruct (IH w1) as (w' & k & E & Hk & Hsh & Hstop & Hq).
      exists w', (S k). split; [exact E|]. split; [cbn; lia|].
      split; [|split].
      * rewrite Hsh. subst w1. rewrite shown_slept.
        cbn [take fmap list_fmap rev].
        rewrite <- !app_assoc. reflexivity.
      * destruct Hstop as [->|Hne]; [by left|by right].
      * intros Hb _.
        assert (Hw1 : batches w1 = [] /\ current_step (node w1) = TEST_SOUNDS
                      /\ answer_req (node w1) = answer_req (node w)
                      /\ under_test (node w1) = under_test (node w)).
        { subst w1. unfold slept, with_node; cbn. rewrite Hb. by cbn. }
        destruct Hw1 as (Hb1 & Hs1 & Ha1 & Hu1).
        destruct (Hq Hb1 Hs1) as (-> & Hb' & Hs' & Ha' & Hu').
        repeat split; try done; congruence.
    + exists w, 0%nat. split; [done|]. split; [cbn; lia|].
      split; [done|]. split; [by right|]. intros _ H. done.
Qed.

(** X23.  The LED and sound demonstrations, on any environment.  Each
    always runs to its end.  [testLeds] commands the colours green, orange
    and red in this order, each followed by black, so the LEDs are always
    left off; [testSounds] commands the sounds 0 to 6 in this order.  A
    demonstration is cut short only because the step is no longer its own
    (the callbacks served during its sleeps have moved it on); no callback
    commands the LEDs or the buzzer.  When no event arrives during the
    sleeps the whole sequence is played, the step and the record are left
    as they were, and the answer is requested exactly when the call is not
    the first one in the step. *)
Theorem demonstrations (first_call : bool) (w : World) :
  (exists w' k,
     testLeds first_call w = Some (tt, w') /\ (k <= 3)%nat
     /\ shown (node w')
        = (rev (blinks (take k [Msg.LED_GREEN; 2; Msg.LED_RED]))
           ++ shown (node w))%list
     /\ (k = 3%nat \/ current_step (node w') <> TEST_LEDS)
     /\ (batches w = [] -> current_step (node w) = TEST_LEDS ->
         k = 3%nat /\ current_step (node w') = TEST_LEDS
         /\ answer_req (node w') = negb first_call
         /\ under_test (node w') = under_test (node w)))
  /\ (exists w' k,
        testSounds first_call w = Some (tt, w') /\ (k <= 7)%nat
        /\ shown (node w')
           = (rev (Sound <$> take k [Msg.SOUND_ON; 1; 2; 3; 4; 5;
                                      Msg.SOUND_CLEANINGEND])
              ++ shown (node w))%list
        /\ (k = 7%nat \/ current_step (node w') <> TEST_SOUNDS)
        /\ (batches w = [] -> current_step (node w) = TEST_SOUNDS ->
            k = 7%nat /\ current_step (node w') = TEST_SOUNDS
            /\ answer_req (node w') = negb first_call
            /\ under_test (node w') = under_test (node w))).
Proof.
  split.
  - destruct (testLeds_loop_shown first_call [1; 2; 3]
                (with_node (set_answer_req (negb first_call)) w))
      as (w' & k & E & Hk & Hsh & Hstop & Hq).
    exists w', k. split; [exact E|]. split; [exact Hk|].
    split; [exact Hsh|]. split; [exact Hstop|].
    intros Hb Hs. destruct (Hq Hb Hs) as (-> & _ & Hs' & Ha & Hu). done.
  - destruct (testSounds_loop_shown first_call [0; 1; 2; 3; 4; 5; 6]
                (with_node (set_answer_req (negb first_call)) w))
      as (w' & k & E & Hk & Hsh & Hstop & Hq).
    exists w', k. split; [exact E|]. split; [exact Hk|].
    split; [exact Hsh|]. split; [exact Hstop|].
    intros Hb Hs. destruct (Hq Hb Hs) as (-> & _ & Hs' & Ha & Hu). done.
Qed.

Lemma demonstrations_witness :
  exists w',
    testLeds false (mkWorld (fresh_at TEST_LEDS) 0 TEST_LEDS [] true [])
    = Some (tt, w')
    /\ answer_req (node w') = true
    /\ shown (node w') = [Led 0; Led 3; Led 0; Led 2; Led 0; Led 1].
Proof.
  destruct (proj1 (demonstrations false
                     (mkWorld (fresh_at TEST_LEDS) 0 TEST_LEDS [] true [])))
    as (w' & k & E & _ & Hsh & _ & Hq).
  destruct (Hq eq_refl eq_refl) as (-> & _ & Ha & _).
  exists w'. split; [exact E|]. split; [exact Ha|exact Hsh].
Defined.

(** ** The gyroscope test: attempts and aborts *)

(** The warning shown after an attempt at which the camera does not see the
    board. *)
Definition board_unseen : Output :=
  ShowUserMsg Warn "Gyroscope test"
    "Cannot recognize the check board; please place the robot right below the camera".

Lemma emits_nil (s : QNode) : emits [] s = s.
Proof. by destruct s. Qed.

Lemma emits_snoc (outs : list Output) (o : Output) (s : QNode) :
  emits outs (emit o s) = emits (outs ++ [o]) s.
Proof. unfold emits, emit; cbn. by rewrite <- app_assoc. Qed.

Lemma replicate_snoc {A} (n : nat) (x : A) :
  (replicate n x ++ [x])%list = x :: replicate n x.
Proof. induction n as [|n IH]; [done|]. cbn. by rewrite IH. Qed.

(** [k] attempts in vain, no event arriving meanwhile. *)
Lemma acquire_yaw_in_vain (k n : nat) (w : World) (rest : list (option Q)) :
  batches w = [] -> camera w = (replicate k None ++ rest)%list ->
  acquire_yaw (k + n) w
  = acquire_yaw n
      (mkWorld (emits (replicate k board_unseen) (node w)) (count w)
               (previous_step w) [] (camera_ok w) rest).
Proof.
  revert w. induction k as [|k IH]; intros w Hb Hcam.
  - cbn in *. rewrite emits_nil. destruct w; simpl in *. by subst.
  - cbn [Nat.add]. rewrite (acquire_yaw_unseen _ w (replicate k None ++ rest))
      by exact Hcam.
    unfold slept. rewrite Hb. cbn [hd tl spin foldl node].
    rewrite IH by done. cbn [node count previous_step camera_ok].
    unfold showUserMsg. fold board_unseen.
    by rewrite emits_snoc, replicate_snoc.
Qed.

Lemma acquire_yaw_none (w : World) (rest : list (option Q)) :
  batches w = [] -> camera w = (replicate 80 None ++ rest)%list ->
  acquire_yaw 80 w
  = Some (None,
          mkWorld (emits (replicate 80 board_unseen) (node w)) (count w)
                  (previous_step w) [] (camera_ok w) rest).
Proof.
  intros Hb Hcam.
  exact (acquire_yaw_in_vain 80 0 w rest Hb Hcam).
Qed.

Lemma acquire_yaw_some (k : nat) (w : World) (y : Q) (rest : list (option Q)) :
  (k < 80)%nat -> batches w = [] ->
  camera w = (replicate k None ++ Some y :: rest)%list ->
  acquire_yaw 80 w
  = Some (Some (- y)%Q,
          mkWorld (hideUserMsg (emits (replicate k board_unseen) (node w)))
                  (count w) (previous_step w) [] (camera_ok w) rest).
Proof.
  intros Hk Hb Hcam.
  replace 80%nat with (k + S (79 - k))%nat by lia.
  rewrite (acquire_yaw_in_vain k _ w (Some y :: rest) Hb Hcam).
  by rewrite (acquire_yaw_seen _ _ y rest).
Qed.

(** X24.  The attempts to see the check board, no event arriving
    meanwhile.  Each attempt sleeps and reads the camera once.  When the
    camera fails [k] times (at most 79) and then returns a yaw [y], the
    loop ends with the inverted reading [- y], having shown the warning
    once per failed attempt and hidden it on success; it consumes exactly
    the [k + 1] readings.  When the camera fails 80 times in a row the loop
    gives up with no reading, having shown the warning 80 times.  Nothing
    but the output changes in the node. *)
Theorem camera_attempts (w : World) (rest : list (option Q)) :
  batches w = [] ->
  (forall k y, (k < 80)%nat ->
     camera w = (replicate k None ++ Some y :: rest)%list ->
     acquire_yaw 80 w
     = Some (Some (- y)%Q,
             mkWorld (hideUserMsg (emits (replicate k board_unseen) (node w)))
                     (count w) (previous_step w) [] (camera_ok w) rest))
  /\ (camera w = (replicate 80 None ++ rest)%list ->
      acquire_yaw 80 w
      = Some (None,
              mkWorld (emits (replicate 80 board_unseen) (node w)) (count w)
                      (previous_step w) [] (camera_ok w) rest)).
Proof.
  intros Hb. split.
  - intros k y Hk Hcam. by apply acquire_yaw_some.
  - by apply acquire_yaw_none.
Qed.

Lemma camera_attempts_witness :
  acquire_yaw 80
    (mkWorld (fresh_at MEASURE_GYRO_ERROR) 0 MEASURE_GYRO_ERROR [] true
             [None; None; Some (1 # 2)])
  = Some (Some (- (1 # 2))%Q,
          mkWorld (hideUserMsg
                     (emits [board_unseen; board_unseen]
                        (fresh_at MEASURE_GYRO_ERROR)))
                  0 MEASURE_GYRO_ERROR [] true []).
Proof.
  exact (proj1 (camera_attempts
                  (mkWorld (fresh_at MEASURE_GYRO_ERROR) 0 MEASURE_GYRO_ERROR
                     [] true [None; None; Some (1 # 2)]) [] eq_refl)
           2%nat (1 # 2) ltac:(lia) eq_refl).
Defined.

(** The prompt of the first call of [testIMU] in the step. *)
Definition gyro_prompt (first_call : bool) : list Output :=
  if first_call
  then [ShowUserMsg Info "Gyroscope test"
          "Place the robot with the check board right below the camera"]
  else [].

Lemma testIMU_no_camera (first_call : bool) (w : World) :
  camera_ok w = false ->
  testIMU first_call w
  = Some (false,
          with_node
            (emits (HideUserMsg
                    :: Log Error "Gyroscope test initialization failed; aborting test"
                    :: gyro_prompt first_call)) w).
Proof.
  intros Hok. destruct w as [s c p bs ck cam]. simpl in Hok. subst ck.
  destruct s. by destruct first_call.
Qed.

Lemma testIMU_no_board (first_call : bool) (w : World)
  (rest : list (option Q)) :
  camera_ok w = true -> batches w = [] ->
  camera w = (replicate 80 None ++ rest)%list ->
  testIMU first_call w
  = Some (false,
          mkWorld
            (emits (HideUserMsg
                    :: Log Error "Cannot recognize the check board after 80 attempts; gyroscope test aborted"
                    :: replicate 80 board_unseen ++ gyro_prompt first_call)
               (node w))
            (count w) (previous_step w) [] true rest).
Proof.
  intros Hok Hb Hcam. unfold testIMU.
  set (w0 := with_node (emits (gyro_prompt first_call)) w).
  assert (E0 : when first_call
                 (lift (showUserMsg Info "Gyroscope test"
                    "Place the robot with the check board right below the camera")) w
               = Some (tt, w0)).
  { subst w0. destruct first_call; [done|]. cbn.
    unfold with_node. rewrite emits_nil. by destruct w. }
  etrans; [apply (bind_eq _ _ w tt w0 E0)|].
  assert (Ei : imu_init w0 = Some (true, w0))
    by (unfold imu_init; subst w0; cbn; by rewrite Hok).
  etrans; [apply (bind_eq imu_init _ w0 true w0 Ei)|].
  cbn [negb]. unfold testIMU_leg.
  assert (E1 : acquire_yaw 80 w0
               = Some (None,
                       mkWorld (emits (replicate 80 board_unseen) (node w0))
                               (count w0) (previous_step w0) []
                               (camera_ok w0) rest))
    by (apply acquire_yaw_none; subst w0; done).
  etrans; [apply (bind_eq _ _ w0 _ _
                    (bind_eq _ _ w0 _ _ E1))|].
  subst w0. cbn. rewrite Hok. by do 2 f_equal.
Qed.

(** X25.  A gyroscope test that cannot be made.  At [MEASURE_GYRO_ERROR],
    (1) when the camera cannot be initialized, on any environment, and
    (2) when the camera fails to see the check board 80 times in a row, no
    event arriving meanwhile, the test is aborted: one error is logged
    after the prompt and the warnings of the attempts, the prompt is
    hidden, no velocity is commanded, the record under test is left as it
    was (the gyroscope stays unverified), and the sequencer still advances
    to the next step. *)
Theorem gyroscope_test_aborted (changed : bool) (c : Z) (w : World) :
  (camera_ok w = false ->
   step_action MEASURE_GYRO_ERROR changed c w
   = Some (tt,
           with_node
             (fun s =>
                next_step
                  (emits (HideUserMsg
                          :: Log Error "Gyroscope test initialization failed; aborting test"
                          :: gyro_prompt changed) s)) w))
  /\ (forall rest,
        camera_ok w = true -> batches w = [] ->
        camera w = (replicate 80 None ++ rest)%list ->
        step_action MEASURE_GYRO_ERROR changed c w
        = Some (tt,
                mkWorld
                  (next_step
                     (emits (HideUserMsg
                             :: Log Error "Cannot recognize the check board after 80 attempts; gyroscope test aborted"
                             :: replicate 80 board_unseen ++ gyro_prompt changed)
                        (node w)))
                  (count w) (previous_step w) [] true rest)).
Proof.
  change (step_action MEASURE_GYRO_ERROR changed c)
    with (_ <- testIMU changed ;; lift next_step).
  split.
  - intros Hok. unfold bind. by rewrite (testIMU_no_camera changed w Hok).
  - intros rest Hok Hb Hcam. unfold bind.
    by rewrite (testIMU_no_board changed w rest Hok Hb Hcam).
Qed.

Lemma gyroscope_test_aborted_witness :
  step_action MEASURE_GYRO_ERROR true 1
    (mkWorld (fresh_at MEASURE_GYRO_ERROR) 0 MEASURE_CHARGING [] false [])
  = Some (tt,
          mkWorld
            (next_step
               (emits [HideUserMsg;
                       Log Error "Gyroscope test initialization failed; aborting test";
                       ShowUserMsg Info "Gyroscope test"
                         "Place the robot with the check board right below the camera"]
                  (fresh_at MEASURE_GYRO_ERROR)))
            0 MEASURE_CHARGING [] false []).
Proof.
  exact (proj1 (gyroscope_test_aborted true 1
                  (mkWorld (fresh_at MEASURE_GYRO_ERROR) 0 MEASURE_CHARGING
                     [] false [])) eq_refl).
Defined.

(** ** The loop at the waiting steps *)

(** The prompt of a step that waits for events, if it has one. *)
Definition step_prompt (step : Z) : list Output :=
  if step =? TEST_DC_ADAPTER then
    [ShowUserMsg Info "DC adapter plug test"
       "Plug and unplug adapter to robot %d time(s)"]
  else if step =? TEST_DOCKING_BASE then
    [ShowUserMsg Info "Docking base plug test"
       "Plug and unplug robot to its base %d time(s)"]
  else if step =? BUTTON_0_PRESSED then
    [ShowUserMsg Info "Function buttons test"
       "Press the three function buttons sequentially from left to right"]
  else if step =? TEST_CLIFF_SENSORS then
    [ShowUserMsg Info "Cliff sensors test"
       "Raise and lower robot %d time(s) to test cliff sensors"]
  else if step =? TEST_WHEEL_DROP_SENSORS then
    [ShowUserMsg Info "Wheel drop sensors test"
       "Raise and lower robot %d time(s) to test wheel drop sensors"]
  else [].

(** The steps at which the loop only waits for events: the power plugs, the
    buttons, the cliff and wheel-drop sensors, and the releases of the
    bumpers. *)
Definition waits_for_events (step : Z) : Prop :=
  TEST_DC_ADAPTER <= step <= BUTTON_2_RELEASED
  \/ step = TEST_CLIFF_SENSORS \/ step = TEST_WHEEL_DROP_SENSORS
  \/ step = CENTER_BUMPER_RELEASED \/ step = RIGHT_BUMPER_RELEASED
  \/ step = LEFT_BUMPER_RELEASED.

Lemma waits_cases (step : Z) :
  waits_for_events step ->
  step ∈ [2; 3; 4; 5; 6; 7; 8; 9; 12; 13; 15; 18; 21].
Proof.
  unfold waits_for_events, TEST_DC_ADAPTER, BUTTON_2_RELEASED,
    TEST_CLIFF_SENSORS, TEST_WHEEL_DROP_SENSORS, CENTER_BUMPER_RELEASED,
    RIGHT_BUMPER_RELEASED, LEFT_BUMPER_RELEASED.
  intros H. apply list_elem_of_In. simpl. lia.
Qed.

Lemma step_action_waits (step : Z) (changed : bool) (c : Z) (w : World) :
  waits_for_events step ->
  step_action step changed c w
  = Some (tt,
          with_node (emits (if changed then step_prompt step else [])) w).
Proof.
  intros H. apply waits_cases in H.
  assert (Hid : with_node (emits []) w = w)
    by (destruct w as [s ? ? ? ? ?]; unfold with_node; cbn;
        by rewrite emits_nil).
  repeat (apply elem_of_cons in H as [->|H]);
    [..|by apply elem_of_nil in H];
    destruct changed; cbn; rewrite ?Hid; try reflexivity;
    destruct w as [s ? ? ? ? ?]; by destruct s.
Qed.

Lemma step_tick_waits (w : World) (r : Robot.t) :
  under_test (node w) = Some r -> timer_active (node w) = false ->
  waits_for_events (current_step (node w)) ->
  step_tick w
  = Some (tt,
          mkWorld
            (emits (if previous_step w =? current_step (node w) then []
                    else step_prompt (current_step (node w))) (node w))
            (count w + 1) (current_step (node w)) (batches w) (camera_ok w)
            (camera w)).
Proof.
  intros Hr Ha Hw. unfold step_tick. rewrite Hr, Ha.
  unfold bind, set_locals. rewrite step_action_waits by exact Hw.
  unfold with_node; cbn. by destruct (previous_step w =? _).
Qed.

(** X26.  The prompts of the waiting steps are shown once.  At a step
    where the loop only waits for events (power plugs, buttons, cliff and
    wheel-drop sensors, bumper releases), with a unit under test and no
    motion on course: the first iteration in the step shows the prompt of
    the step, when it has one, and does nothing else; every further
    iteration in the same step does nothing at all to the node.  The step
    is never advanced by the loop: only the events do. *)
Theorem waiting_steps_prompt_once (w : World) (r : Robot.t) :
  under_test (node w) = Some r -> timer_active (node w) = false ->
  waits_for_events (current_step (node w)) ->
  exists w1 w2,
    step_tick w = Some (tt, w1) /\ step_tick w1 = Some (tt, w2)
    /\ node w1
       = emits (if previous_step w =? current_step (node w) then []
                else step_prompt (current_step (node w))) (node w)
    /\ node w2 = node w1
    /\ current_step (node w2) = current_step (node w).
Proof.
  intros Hr Ha Hw. eexists _, _.
  split; [by apply (step_tick_waits w r)|].
  split; [by apply (step_tick_waits _ r)|].
  cbn. rewrite Z.eqb_refl. by rewrite emits_nil.
Qed.

Lemma waiting_steps_prompt_once_witness :
  exists w1 w2,
    step_tick (mkWorld (fresh_at TEST_CLIFF_SENSORS) 7 TEST_SOUNDS [] true [])
    = Some (tt, w1)
    /\ step_tick w1 = Some (tt, w2)
    /\ trace (node w1)
       = [ShowUserMsg Info "Cliff sensors test"
            "Raise and lower robot %d time(s) to test cliff sensors"]
    /\ node w2 = node w1.
Proof.
  destruct (waiting_steps_prompt_once
              (mkWorld (fresh_at TEST_CLIFF_SENSORS) 7 TEST_SOUNDS [] true [])
              (Robot.new 0) eq_refl eq_refl)
    as (w1 & w2 & E1 & E2 & H1 & H2 & _).
  - right. by left.
  - exists w1, w2. split; [exact E1|]. split; [exact E2|].
    split; [by rewrite H1|exact H2].
Defined.

(** ** The end of an evaluation *)

Lemma step_tick_completed (w : World) (r : Robot.t) :
  under_test (node w) = Some r -> timer_active (node w) = false ->
  current_step (node w) = EVALUATION_COMPLETED ->
  step_tick w
  = Some (tt,
          mkWorld
            (set_current_step INITIALIZATION
               (set_under_test None
                  (set_evaluated (evaluated (node w) ++ [r])
                     (set_out_file (out_file (node w) ++ [r])
                        (log Info "Saving results for %s"
                           (showUserMsg Info "Evaluation result"
                              "Evaluation completed. Overall result: %s"
                              (node w)))))))
            (count w + 1) EVALUATION_COMPLETED (batches w) (camera_ok w)
            (camera w)).
Proof.
  intros Hr Ha Hs. unfold step_tick. rewrite Hr, Ha, Hs.
  change (step_action EVALUATION_COMPLETED
            (negb (previous_step w =? EVALUATION_COMPLETED)) (count w + 1))
    with (_ <- robot ;;
          lift (showUserMsg Info "Evaluation result"
                  "Evaluation completed. Overall result: %s") ;;;
          lift saveResults ;;;
          lift (set_current_step INITIALIZATION)).
  unfold bind, set_locals, robot, lift, with_node, saveResults; cbn.
  rewrite Hr; cbn. by rewrite Hr.
Qed.

(** With no unit under test and no event arriving, the loop only counts. *)
Lemma run_idle_quiet (n : nat) (w : World) :
  under_test (node w) = None -> batches w = [] ->
  run n w
  = Some (tt, mkWorld (node w) (count w + Z.of_nat n) (previous_step w) []
                      (camera_ok w) (camera w)).
Proof.
  revert w. induction n as [|n IH]; intros w Hnone Hb.
  - cbn. rewrite Z.add_0_r. destruct w; simpl in *. by subst.
  - cbn [run]. unfold bind at 1.
    unfold run_iter, bind, spinOnce, step_tick. rewrite Hb. cbn.
    rewrite Hnone. unfold set_locals; cbn.
    rewrite IH by done. cbn. do 3 f_equal. lia.
Qed.

(** X27.  The end of an evaluation.  At [EVALUATION_COMPLETED], with a
    unit under test and no motion on course, one iteration of the loop
    shows the result, appends the record to the result file and to the
    ledger, leaves no unit under test and sets the step to
    [INITIALIZATION]; nothing of the record is changed on the way.  From
    then on, as long as no event arrives, the loop does nothing but count
    its iterations: the node stays exactly as the evaluation left it. *)
Theorem evaluation_completed (w : World) (r : Robot.t) :
  under_test (node w) = Some r -> timer_active (node w) = false ->
  current_step (node w) = EVALUATION_COMPLETED ->
  exists w1,
    step_tick w = Some (tt, w1)
    /\ node w1
       = set_current_step INITIALIZATION
           (set_under_test None
              (set_evaluated (evaluated (node w) ++ [r])
                 (set_out_file (out_file (node w) ++ [r])
                    (log Info "Saving results for %s"
                       (showUserMsg Info "Evaluation result"
                          "Evaluation completed. Overall result: %s"
                          (node w))))))
    /\ (batches w = [] ->
        forall n, exists w2, run n w1 = Some (tt, w2) /\ node w2 = node w1).
Proof.
  intros Hr Ha Hs. eexists. split; [by apply step_tick_completed|].
  split; [reflexivity|]. intros Hb n. eexists.
  split; [by apply run_idle_quiet|reflexivity].
Qed.

Lemma evaluation_completed_witness :
  exists w1,
    step_tick (mkWorld (fresh_at EVALUATION_COMPLETED) 0
                 TEST_ANALOG_INPUT_PORTS [] true []) = Some (tt, w1)
    /\ evaluated (node w1) = [Robot.new 0]
    /\ under_test (node w1) = None
    /\ current_step (node w1) = INITIALIZATION.
Proof.
  destruct (evaluation_completed
              (mkWorld (fresh_at EVALUATION_COMPLETED) 0
                 TEST_ANALOG_INPUT_PORTS [] true [])
              (Robot.new 0) eq_refl eq_refl eq_refl)
    as (w1 & E & Hn & _).
  exists w1. split; [exact E|]. by rewrite Hn.
Defined.

(** ** The motors' script *)

(** The velocity commands among the outputs, oldest first. *)
Definition velocities (s : QNode) : list (Q * Q) :=
  omap (fun o => match o with CmdVel v w => Some (v, w) | _ => None end)
       (rev (trace s)).

(** The loop over a schedule: one iteration for each batch of events. *)
Definition run_all : M unit := fun w => run (length (batches w)) w.

Lemma run_all_cons (s : QNode) (c p : Z) (b : list Event)
    (bs : list (list Event)) (ck : bool) (cam : list (option Q)) (w1 : World) :
  run_iter (mkWorld s c p (b :: bs) ck cam) = Some (tt, w1) ->
  batches w1 = bs ->
  run_all (mkWorld s c p (b :: bs) ck cam) = run_all w1.
Proof.
  intros E Hb. unfold run_all. cbn [batches length run]. unfold bind.
  rewrite E. by rewrite Hb.
Qed.

(** While a motion is on course and nothing arrives, the loop only counts. *)
Lemma run_all_waiting (n : nat) (s : QNode) (r : Robot.t) (c p : Z)
    (bs : list (list Event)) (ck : bool) (cam : list (option Q)) :
  under_test s = Some r -> timer_active s = true ->
  run_all (mkWorld s c p (replicate n [] ++ bs)%list ck cam)
  = run_all (mkWorld s (c + Z.of_nat n) p bs ck cam).
Proof.
  intros Hr Ha. revert c. induction n as [|n IH]; intros c.
  - cbn. by rewrite Z.add_0_r.
  - cbn [replicate app].
    erewrite run_all_cons; [|unfold run_iter, bind, spinOnce, step_tick; cbn;
                              rewrite Hr, Ha; reflexivity|reflexivity].
    rewrite IH. do 2 f_equal. lia.
Qed.

Lemma quarter_turn : (0 < (M_PI / 4) / TEST_BUMPERS_W)%Q.
Proof. by vm_compute. Qed.
Lemma motors_line : (0 < TEST_MOTORS_D / TEST_MOTORS_V)%Q.
Proof. by vm_compute. Qed.
Lemma motors_turn : (0 < TEST_MOTORS_A / TEST_MOTORS_W)%Q.
Proof. by vm_compute. Qed.

(** One leg of the script: the motion is on course for [n] iterations, then
    its timer expires. *)
Lemma leg (n : nat) (r : Robot.t) (a : bool) (step : Z) (t : Q)
    (ev out : list Robot.t) (tr : list Output) (c p : Z)
    (bs : list (list Event)) (ck : bool) (cam : list (option Q)) (w1 : World) :
  step_tick (mkWorld (mkQNode (Some r) a (step + 1) false None ev out
                              (CmdVel 0 0 :: tr))
                     (c + Z.of_nat n) p bs ck cam) = Some (tt, w1) ->
  batches w1 = bs ->
  run_all (mkWorld (mkQNode (Some r) a step true (Some t) ev out tr) c p
                   (replicate n [] ++ [EvTimer] :: bs)%list ck cam)
  = run_all w1.
Proof.
  intros E Hb. erewrite run_all_waiting by reflexivity.
  erewrite run_all_cons; [reflexivity| |exact Hb].
  unfold run_iter, bind, spinOnce. cbn -[step_tick]. exact E.
Qed.

Lemma step_action_motion (changed : bool) (c : Z) :
  step_action PREPARE_MOTORS_TEST changed c
  = (when changed
       (lift (showUserMsg Info "Motors current test"
                "Now the robot will move forward...")) ;;;
     lift (move 0 (- TEST_BUMPERS_W) ((M_PI / 4) / TEST_BUMPERS_W)))
  /\ step_action TEST_MOTORS_FORWARD changed c
     = lift (move TEST_MOTORS_V 0 (TEST_MOTORS_D / TEST_MOTORS_V))
  /\ step_action TEST_MOTORS_BACKWARD changed c
     = (lift (move (- TEST_MOTORS_V) 0 (TEST_MOTORS_D / TEST_MOTORS_V)) ;;;
        lift (showUserMsg Info "Motors current test"
                "Now the robot will move backward..."))
  /\ step_action TEST_MOTORS_CLOCKWISE changed c
     = (lift (move 0 (- TEST_MOTORS_W) (TEST_MOTORS_A / TEST_MOTORS_W)) ;;;
        lift (showUserMsg Info "Motors current test"
                "...and spin to evaluate motors"))
  /\ step_action TEST_MOTORS_COUNTERCW changed c
     = lift (move 0 TEST_MOTORS_W (TEST_MOTORS_A / TEST_MOTORS_W))
  /\ step_action EVAL_MOTORS_CURRENT changed c
     = (lift hideUserMsg ;;; evalMotorsCurrent changed ;;; lift next_step).
Proof. by repeat split. Qed.

Ltac launch H :=
  unfold step_tick;
  cbn [node under_test timer_active current_step count previous_step];
  first [rewrite (proj1 (step_action_motion _ _))
        |rewrite (proj1 (proj2 (step_action_motion _ _)))
        |rewrite (proj1 (proj2 (proj2 (step_action_motion _ _))))
        |rewrite (proj1 (proj2 (proj2 (proj2 (step_action_motion _ _)))))
        |rewrite (proj1 (proj2 (proj2 (proj2 (proj2
                    (step_action_motion _ _))))))];
  unfold bind, set_locals, lift, with_node, when;
  try match goal with Hp : (_ =? _) = _ |- _ => rewrite Hp end;
  cbn [negb ret];
  cbn [node under_test timer_active current_step count previous_step
       batches camera_ok camera];
  rewrite ?(move_armed _ _ _ _ H); reflexivity.

Ltac norm :=
  unfold set_timer_active, set_timer, showUserMsg, hideUserMsg, log, emit;
  cbn [under_test answer_req current_step timer_active timer evaluated
       out_file trace].

(** X28.  The motors' script.  From [PREPARE_MOTORS_TEST], with a unit
    under test and no motion on course, when nothing arrives but the
    expiries of the timer, and however many iterations each motion lasts,
    the loop publishes ten velocity commands and no other: the turn
    parallel to the wall, forward, backward, clockwise and counter-clockwise,
    each followed by a stop before the next one begins.  On the iteration
    of the fifth expiry it evaluates the motors' current, and it ends at
    [MEASURE_GYRO_ERROR] with no motion on course, having made one
    iteration for each batch of the schedule. *)
Theorem motors_script (n1 n2 n3 n4 n5 : nat) (w : World) (r : Robot.t) :
  under_test (node w) = Some r ->
  timer_active (node w) = false ->
  current_step (node w) = PREPARE_MOTORS_TEST ->
  batches w
  = ([] :: replicate n1 [] ++ [EvTimer]
        :: replicate n2 [] ++ [EvTimer]
        :: replicate n3 [] ++ [EvTimer]
        :: replicate n4 [] ++ [EvTimer]
        :: replicate n5 [] ++ [[EvTimer]])%list ->
  exists w',
    run_all w = Some (tt, w')
    /\ velocities (node w')
       = (velocities (node w)
          ++ [(0, - TEST_BUMPERS_W); (0, 0);
              (TEST_MOTORS_V, 0); (0, 0);
              (- TEST_MOTORS_V, 0); (0, 0);
              (0, - TEST_MOTORS_W); (0, 0);
              (0, TEST_MOTORS_W); (0, 0)]%Q)%list
    /\ current_step (node w') = MEASURE_GYRO_ERROR
    /\ timer_active (node w') = false
    /\ under_test (node w') = Some (motors_verdict r)
    /\ count w' = count w + 6 + Z.of_nat (n1 + n2 + n3 + n4 + n5).
Proof.
  intros Hr Ha Hs Hb.
  destruct w as [[u a s ta tm ev out tr] c p bs ck cam]. simpl in *. subst.
  destruct (p =? PREPARE_MOTORS_TEST) eqn:Hp.
  all: eexists; split;
    [erewrite run_all_cons;
       [|unfold run_iter, bind, spinOnce; cbn -[step_tick];
         launch quarter_turn|reflexivity];
     norm;
     erewrite leg; [|launch motors_line|reflexivity]; norm;
     erewrite leg; [|launch motors_line|reflexivity]; norm;
     erewrite leg; [|launch motors_turn|reflexivity]; norm;
     erewrite leg; [|launch motors_turn|reflexivity]; norm;
     erewrite leg;
       [|unfold step_tick;
         cbn [node under_test timer_active current_step count previous_step];
         rewrite (proj2 (proj2 (proj2 (proj2 (proj2
                    (step_action_motion _ _))))));
         unfold bind at 1; unfold set_locals at 1;
         unfold bind at 1; unfold lift at 1;
         unfold bind at 1;
         erewrite evalMotorsCurrent_run by reflexivity;
         reflexivity|reflexivity];
     reflexivity|].
  all: unfold velocities; cbn [node with_node].
  all: destruct (Robot.motors_ok (motors_verdict r)); norm.
  all: unfold next_step, set_current_step, set_under_test; norm.
  all: cbn [rev app]; rewrite <- ?app_assoc; cbn [app].
  all: rewrite !omap_app; cbn [omap].
  all: split; [reflexivity|]; split; [reflexivity|]; split; [reflexivity|].
  all: split; [reflexivity|]; cbn; lia.
Qed.

Lemma motors_script_witness :
  exists w',
    run_all (mkWorld (fresh_at PREPARE_MOTORS_TEST) 0 LEFT_BUMPER_RELEASED
               [[]; []; []; [EvTimer]; [EvTimer]; []; [EvTimer]; [EvTimer];
                [EvTimer]] true [])
    = Some (tt, w')
    /\ length (velocities (node w')) = 10%nat
    /\ current_step (node w') = MEASURE_GYRO_ERROR.
Proof.
  destruct (motors_script 2 0 1 0 0
              (mkWorld (fresh_at PREPARE_MOTORS_TEST) 0 LEFT_BUMPER_RELEASED
                 [[]; []; []; [EvTimer]; [EvTimer]; []; [EvTimer]; [EvTimer];
                  [EvTimer]] true [])
              (Robot.new 0) eq_refl eq_refl eq_refl eq_refl)
    as (w' & E & Hv & Hs & _).
  exists w'. split; [exact E|]. split; [by rewrite Hv|exact Hs].
Defined.
